(** * Form filler: field classification, DOM stability and decision points

    A shallow embedding of the classification engine of
    [autofill_ai_vision_multistep.py] (class [FieldDetector] and the
    pattern tables of [UniversalFormFiller]), of the mutation observer that
    [DOMStabilityManager] injects into the page, and of
    [decision_handler.py].

    Conventions of the embedding.
    - Python [str] values are Rocq strings; the text functions ([lower],
      [strip], the character classes of [re]) are the ASCII restrictions of
      the Python ones.
    - Python [float] confidences are exact rationals ([Q]); [round(x, 3)]
      is rounding half to even on the exact value.
    - Browser queries (Playwright locators, clicks, clocks) are inputs of the
      model: a page is a record of answers, [None] standing for a raised
      exception, and effects are threaded through explicit state. *)

From Stdlib Require Import Ascii String QArith Qround Lqa Sorted.
From stdpp Require Import base option list strings gmap pretty.

Local Open Scope string_scope.

(** ** Text helpers (the [str] methods the source uses) *)

Module Str.

Definition code (c : ascii) : nat := nat_of_ascii c.

Definition is_upper (c : ascii) : bool := (65 <=? code c)%nat && (code c <=? 90)%nat.
Definition is_lower (c : ascii) : bool := (97 <=? code c)%nat && (code c <=? 122)%nat.
Definition is_digit (c : ascii) : bool := (48 <=? code c)%nat && (code c <=? 57)%nat.

(** [str.isspace] on ASCII: TAB..CR, FS..US and the blank. *)
Definition is_space (c : ascii) : bool :=
  ((9 <=? code c)%nat && (code c <=? 13)%nat)
  || ((28 <=? code c)%nat && (code c <=? 32)%nat).

(** A word character of [re]: alphanumeric or underscore. *)
Definition is_word (c : ascii) : bool :=
  is_upper c || is_lower c || is_digit c || (code c =? 95)%nat.

Definition lower_char (c : ascii) : ascii :=
  if is_upper c then ascii_of_nat (code c + 32) else c.

Definition upper_char (c : ascii) : ascii :=
  if is_lower c then ascii_of_nat (code c - 32) else c.

(** [s.lower()] *)
Fixpoint lower (s : string) : string :=
  match s with
  | EmptyString => EmptyString
  | String c s' => String (lower_char c) (lower s')
  end.

(** [s.startswith(p)] *)
Fixpoint startswith (p s : string) : bool :=
  match p, s with
  | EmptyString, _ => true
  | String a p', String b s' => if Ascii.eqb a b then startswith p' s' else false
  | String _ _, EmptyString => false
  end.

(** [s.endswith(p)] *)
Definition endswith (p s : string) : bool :=
  let n := String.length s in
  let m := String.length p in
  (m <=? n)%nat && String.eqb (String.substring (n - m) m s) p.

(** [s[:-1]] *)
Definition drop_last (s : string) : string :=
  String.substring 0 (String.length s - 1) s.

(** [p in s] for strings: [p] occurs in [s] as a contiguous substring. *)
Fixpoint contains (p s : string) : bool :=
  startswith p s ||
  match s with
  | EmptyString => false
  | String _ s' => contains p s'
  end.

Fixpoint lstrip (s : string) : string :=
  match s with
  | String c s' => if is_space c then lstrip s' else s
  | EmptyString => EmptyString
  end.

Fixpoint rstrip (s : string) : string :=
  match s with
  | EmptyString => EmptyString
  | String c s' =>
      match rstrip s' with
      | EmptyString => if is_space c then EmptyString else String c EmptyString
      | r => String c r
      end
  end.

(** [s.strip()] *)
Definition strip (s : string) : string := rstrip (lstrip s).

(** A Python string is truthy when it is not empty. *)
Definition truthy (s : string) : bool :=
  match s with EmptyString => false | _ => true end.

(** [sep.join(l)] *)
Fixpoint join (sep : string) (l : list string) : string :=
  match l with
  | [] => EmptyString
  | [x] => x
  | x :: l' => x ++ sep ++ join sep l'
  end.

End Str.

(** ** Regular expressions (the fragment of [re] the pattern tables use) *)

Module Re.

Inductive category := CatDigit | CatSpace | CatWord.

Inductive class_item :=
| ItemChar (c : ascii)
| ItemRange (lo hi : ascii)
| ItemCat (k : category).

Inductive regex :=
| Empty
| Lit (c : ascii)
| AnyChar
| Cat (k : category)
| Class (negated : bool) (items : list class_item)
| Bol
| Eol
| WordBoundary
| Seq (r1 r2 : regex)
| Alt (r1 r2 : regex)
| Repeat (r : regex) (lo : nat) (hi : option nat).

(** *** Parsing a pattern string

    [None] is [re.error] (or syntax outside the fragment: look-around,
    back-references, lazy quantifiers, flags in the pattern). *)

Definition is_special (c : ascii) : bool :=
  existsb (Ascii.eqb c) (list_ascii_of_string ".^$*+?{}[]\|()").

Definition digit_val (c : ascii) : nat := Str.code c - 48.

Fixpoint read_nat (acc : nat) (seen : bool) (s : string) : option nat * string :=
  match s with
  | String c s' =>
      if Str.is_digit c then read_nat (10 * acc + digit_val c) true s'
      else (if seen then Some acc else None, s)
  | EmptyString => (if seen then Some acc else None, s)
  end.

(** The escape after a backslash, outside a character class. *)
Definition escape (c : ascii) : option regex :=
  if Ascii.eqb c "b" then Some WordBoundary
  else if Ascii.eqb c "d" then Some (Cat CatDigit)
  else if Ascii.eqb c "s" then Some (Cat CatSpace)
  else if Ascii.eqb c "w" then Some (Cat CatWord)
  else if Ascii.eqb c "n" then Some (Lit (ascii_of_nat 10))
  else if Ascii.eqb c "t" then Some (Lit (ascii_of_nat 9))
  else if Str.is_word c then None
  else Some (Lit c).

(** The escape after a backslash, inside a character class. *)
Definition class_escape (c : ascii) : option class_item :=
  if Ascii.eqb c "d" then Some (ItemCat CatDigit)
  else if Ascii.eqb c "s" then Some (ItemCat CatSpace)
  else if Ascii.eqb c "w" then Some (ItemCat CatWord)
  else if Ascii.eqb c "n" then Some (ItemChar (ascii_of_nat 10))
  else if Ascii.eqb c "t" then Some (ItemChar (ascii_of_nat 9))
  else if Str.is_word c then None
  else Some (ItemChar c).

(** Items of a class up to the closing bracket; [first] allows a leading
    closing bracket to stand for itself. *)
Fixpoint class_items (first : bool) (s : string) : option (list class_item * string) :=
  match s with
  | EmptyString => None
  | String c s1 =>
      if Ascii.eqb c "]" && negb first then Some ([], s1)
      else
        let single (it : class_item) (rest : string) :=
          '(its, s') ← class_items false rest; Some (it :: its, s') in
        if Ascii.eqb c "\" then
          match s1 with
          | String e s2 => it ← class_escape e; single it s2
          | EmptyString => None
          end
        else
          match s1 with
          | String "-" (String h s3) =>
              if Ascii.eqb h "]" then single (ItemChar c) s1
              else if Ascii.eqb h "\" then None
              else if (Str.code h <? Str.code c)%nat then None
              else '(its, s') ← class_items false s3; Some (ItemRange c h :: its, s')
          | _ => single (ItemChar c) s1
          end
  end.

(** A quantifier after an atom, if there is one. *)
Definition quantifier (a : regex) (s : string) : option (regex * string) :=
  let lazy_or_stacked (rest : string) :=
    match rest with
    | String "?" _ | String "*" _ | String "+" _ => true
    | _ => false
    end in
  match s with
  | String "?" s' => if lazy_or_stacked s' then None else Some (Repeat a 0 (Some 1), s')
  | String "*" s' => if lazy_or_stacked s' then None else Some (Repeat a 0 None, s')
  | String "+" s' => if lazy_or_stacked s' then None else Some (Repeat a 1 None, s')
  | String "{" s' =>
      match read_nat 0 false s' with
      | (Some lo, String "}" s2) =>
          if lazy_or_stacked s2 then None else Some (Repeat a lo (Some lo), s2)
      | (Some lo, String "," s2) =>
          match read_nat 0 false s2 with
          | (Some hi, String "}" s3) =>
              if lazy_or_stacked s3 then None
              else if (hi <? lo)%nat then None
              else Some (Repeat a lo (Some hi), s3)
          | (None, String "}" s3) =>
              if lazy_or_stacked s3 then None else Some (Repeat a lo None, s3)
          | _ => None
          end
      | _ => None
      end
  | _ => Some (a, s)
  end.

Fixpoint p_alt (n : nat) (s : string) {struct n} : option (regex * string) :=
  match n with
  | O => None
  | S n =>
      '(r1, s1) ← p_seq n s;
      match s1 with
      | String "|" s2 => '(r2, s3) ← p_alt n s2; Some (Alt r1 r2, s3)
      | _ => Some (r1, s1)
      end
  end
with p_seq (n : nat) (s : string) {struct n} : option (regex * string) :=
  match n with
  | O => None
  | S n =>
      match s with
      | EmptyString => Some (Empty, s)
      | String "|" _ | String ")" _ => Some (Empty, s)
      | _ =>
          '(a, s1) ← p_atom n s;
          '(q, s2) ← quantifier a s1;
          '(r, s3) ← p_seq n s2;
          Some (match r with Empty => q | _ => Seq q r end, s3)
      end
  end
with p_atom (n : nat) (s : string) {struct n} : option (regex * string) :=
  match n with
  | O => None
  | S n =>
      match s with
      | EmptyString => None
      | String "(" (String "?" _) => None
      | String "(" s1 =>
          '(r, s2) ← p_alt n s1;
          match s2 with
          | String ")" s3 => Some (r, s3)
          | _ => None
          end
      | String "[" (String "^" s1) =>
          '(its, s2) ← class_items true s1; Some (Class true its, s2)
      | String "[" s1 =>
          '(its, s2) ← class_items true s1; Some (Class false its, s2)
      | String "\" (String e s1) => r ← escape e; Some (r, s1)
      | String "\" EmptyString => None
      | String "." s1 => Some (AnyChar, s1)
      | String "^" s1 => Some (Bol, s1)
      | String "$" s1 => Some (Eol, s1)
      | String c s1 => if is_special c then None else Some (Lit c, s1)
      end
  end.

(** [re.compile(pattern)] *)
Definition compile (pattern : string) : option regex :=
  match p_alt (S (2 * String.length pattern)) pattern with
  | Some (r, EmptyString) => Some r
  | _ => None
  end.

(** *** Matching *)

Definition in_category (k : category) (c : ascii) : bool :=
  match k with
  | CatDigit => Str.is_digit c
  | CatSpace => Str.is_space c
  | CatWord => Str.is_word c
  end.

Definition item_matches (it : class_item) (c : ascii) : bool :=
  match it with
  | ItemChar a => Ascii.eqb a c
  | ItemRange lo hi => (Str.code lo <=? Str.code c)%nat && (Str.code c <=? Str.code hi)%nat
  | ItemCat k => in_category k c
  end.

(** With [re.IGNORECASE] a character matches when one of its two cases
    does. *)
Definition char_matches (ignorecase : bool) (test : ascii -> bool) (c : ascii) : bool :=
  test c || (ignorecase && (test (Str.lower_char c) || test (Str.upper_char c))).

Definition at_boundary (prev : option ascii) (s : string) : bool :=
  let before := match prev with Some c => Str.is_word c | None => false end in
  let after := match s with String c _ => Str.is_word c | EmptyString => false end in
  xorb before after.

Definition one_char (test : ascii -> bool) (s : string)
    (k : option ascii -> string -> bool) : bool :=
  match s with
  | String c s' => test c && k (Some c) s'
  | EmptyString => false
  end.

(** [matches ic r prev s k]: [r] matches a prefix of [s] (the character
    before [s] being [prev]) and [k] accepts what follows. *)
Fixpoint matches (ic : bool) (r : regex) (prev : option ascii) (s : string)
    (k : option ascii -> string -> bool) {struct r} : bool :=
  match r with
  | Empty => k prev s
  | Lit a => one_char (char_matches ic (Ascii.eqb a)) s k
  | AnyChar => one_char (fun c => negb (Ascii.eqb c (ascii_of_nat 10))) s k
  | Cat c => one_char (in_category c) s k
  | Class neg items =>
      one_char (fun c => xorb neg (char_matches ic (fun x => existsb (fun it => item_matches it x) items) c)) s k
  | Bol => match prev with None => k prev s | Some _ => false end
  | Eol =>
      match s with
      | EmptyString => k prev s
      | String c EmptyString => Ascii.eqb c (ascii_of_nat 10) && k prev s
      | _ => false
      end
  | WordBoundary => at_boundary prev s && k prev s
  | Seq r1 r2 => matches ic r1 prev s (fun p' s' => matches ic r2 p' s' k)
  | Alt r1 r2 => matches ic r1 prev s k || matches ic r2 prev s k
  | Repeat r' lo hi =>
      (fix rep (fuel lo : nat) (hi : option nat) (prev : option ascii) (s : string)
           {struct fuel} : bool :=
         ((lo =? 0)%nat && k prev s) ||
         match fuel with
         | O => false
         | S fuel' =>
             match hi with
             | Some O => false
             | _ =>
                 matches ic r' prev s (fun p' s' =>
                   if (lo =? 0)%nat && (String.length s <=? String.length s')%nat
                   then false
                   else rep fuel' (Nat.pred lo) (Nat.pred <$> hi) p' s')
             end
         end) (lo + String.length s)%nat lo hi prev s
  end.

Fixpoint search_from (ic : bool) (r : regex) (prev : option ascii) (s : string) : bool :=
  matches ic r prev s (fun _ _ => true) ||
  match s with
  | EmptyString => false
  | String c s' => search_from ic r (Some c) s'
  end.

(** [re.search(pattern, s, flags)] as a truth value; [None] when the
    pattern does not compile. *)
Definition search (ignorecase : bool) (pattern s : string) : option bool :=
  r ← compile pattern; Some (search_from ignorecase r None s).

End Re.

(** ** Data model *)

Inductive FieldType :=
| EMAIL | PASSWORD | CONFIRM_PASSWORD | FIRST_NAME | LAST_NAME | FULL_NAME
| PHONE | LOCATION | ADDRESS_LINE1 | ADDRESS_LINE2 | CITY | STATE | ZIP_CODE
| COUNTRY | COMPANY | JOB_TITLE | YEARS_EXPERIENCE | SALARY | SCHOOL | DEGREE
| FIELD_OF_STUDY | GRADUATION_DATE | LINKEDIN | PORTFOLIO | WEBSITE
| COVER_LETTER_TEXT | RESUME_FILE | COVER_LETTER_FILE | TEXT_INPUT | SELECT
| CHECKBOX | RADIO_BUTTON | TEXTAREA | SUBMIT_BUTTON | NEXT_BUTTON | UNKNOWN.

Module FieldTypeEnum.

(** [field_type.value] *)
Definition value (ft : FieldType) : string :=
  match ft with
  | EMAIL => "email" | PASSWORD => "password"
  | CONFIRM_PASSWORD => "confirm_password" | FIRST_NAME => "first_name"
  | LAST_NAME => "last_name" | FULL_NAME => "full_name" | PHONE => "phone"
  | LOCATION => "location" | ADDRESS_LINE1 => "address_line1"
  | ADDRESS_LINE2 => "address_line2" | CITY => "city" | STATE => "state"
  | ZIP_CODE => "zip_code" | COUNTRY => "country" | COMPANY => "company"
  | JOB_TITLE => "job_title" | YEARS_EXPERIENCE => "years_experience"
  | SALARY => "salary" | SCHOOL => "school" | DEGREE => "degree"
  | FIELD_OF_STUDY => "field_of_study" | GRADUATION_DATE => "graduation_date"
  | LINKEDIN => "linkedin_profile_url" | PORTFOLIO => "portfolio_url"
  | WEBSITE => "personal_website_url" | COVER_LETTER_TEXT => "cover_letter_text"
  | RESUME_FILE => "resume_file" | COVER_LETTER_FILE => "cover_letter_file"
  | TEXT_INPUT => "text_input" | SELECT => "select_dropdown"
  | CHECKBOX => "checkbox" | RADIO_BUTTON => "radio_button_group"
  | TEXTAREA => "textarea" | SUBMIT_BUTTON => "submit_button"
  | NEXT_BUTTON => "next_button" | UNKNOWN => "unknown"
  end.

Definition all : list FieldType :=
  [EMAIL; PASSWORD; CONFIRM_PASSWORD; FIRST_NAME; LAST_NAME; FULL_NAME;
   PHONE; LOCATION; ADDRESS_LINE1; ADDRESS_LINE2; CITY; STATE; ZIP_CODE;
   COUNTRY; COMPANY; JOB_TITLE; YEARS_EXPERIENCE; SALARY; SCHOOL; DEGREE;
   FIELD_OF_STUDY; GRADUATION_DATE; LINKEDIN; PORTFOLIO; WEBSITE;
   COVER_LETTER_TEXT; RESUME_FILE; COVER_LETTER_FILE; TEXT_INPUT; SELECT;
   CHECKBOX; RADIO_BUTTON; TEXTAREA; SUBMIT_BUTTON; NEXT_BUTTON; UNKNOWN].

Definition to_nat (ft : FieldType) : nat :=
  match ft with
  | EMAIL => 0 | PASSWORD => 1 | CONFIRM_PASSWORD => 2 | FIRST_NAME => 3
  | LAST_NAME => 4 | FULL_NAME => 5 | PHONE => 6 | LOCATION => 7
  | ADDRESS_LINE1 => 8 | ADDRESS_LINE2 => 9 | CITY => 10 | STATE => 11
  | ZIP_CODE => 12 | COUNTRY => 13 | COMPANY => 14 | JOB_TITLE => 15
  | YEARS_EXPERIENCE => 16 | SALARY => 17 | SCHOOL => 18 | DEGREE => 19
  | FIELD_OF_STUDY => 20 | GRADUATION_DATE => 21 | LINKEDIN => 22
  | PORTFOLIO => 23 | WEBSITE => 24 | COVER_LETTER_TEXT => 25
  | RESUME_FILE => 26 | COVER_LETTER_FILE => 27 | TEXT_INPUT => 28
  | SELECT => 29 | CHECKBOX => 30 | RADIO_BUTTON => 31 | TEXTAREA => 32
  | SUBMIT_BUTTON => 33 | NEXT_BUTTON => 34 | UNKNOWN => 35
  end.

Definition of_nat (n : nat) : FieldType := nth n all UNKNOWN.

Lemma of_to_nat (ft : FieldType) : of_nat (to_nat ft) = ft.
Proof. destruct ft; reflexivity. Qed.

End FieldTypeEnum.

#[global] Instance FieldType_eq_dec : EqDecision FieldType.
Proof. solve_decision. Defined.

#[global] Instance FieldType_countable : Countable FieldType :=
  inj_countable' FieldTypeEnum.to_nat FieldTypeEnum.of_nat FieldTypeEnum.of_to_nat.

(** The attribute bundle that [_get_element_data] builds for an element.
    [safe_get_attribute] replaces a missing attribute by the empty string,
    so every entry is a string. *)
Record ElementData := {
  ed_tag : string;
  ed_type : string;
  ed_name : string;
  ed_id : string;
  ed_class : string;
  ed_placeholder : string;
  ed_aria_label : string;
  ed_aria_labelledby : string;
  ed_aria_describedby : string;
  ed_role : string;
  ed_autocomplete : string;
  ed_required : bool;
  ed_value : string;
  ed_text : string;
  ed_data_automation_id : string;
  ed_selector : string;
  ed_label : string
}.

(** [element_data.get(key, '')] for the text-valued keys. *)
Definition ed_get (element_data : ElementData) (key : string) : string :=
  if String.eqb key "tag" then ed_tag element_data
  else if String.eqb key "type" then ed_type element_data
  else if String.eqb key "name" then ed_name element_data
  else if String.eqb key "id" then ed_id element_data
  else if String.eqb key "class" then ed_class element_data
  else if String.eqb key "placeholder" then ed_placeholder element_data
  else if String.eqb key "aria-label" then ed_aria_label element_data
  else if String.eqb key "aria-labelledby" then ed_aria_labelledby element_data
  else if String.eqb key "aria-describedby" then ed_aria_describedby element_data
  else if String.eqb key "role" then ed_role element_data
  else if String.eqb key "autocomplete" then ed_autocomplete element_data
  else if String.eqb key "value" then ed_value element_data
  else if String.eqb key "text" then ed_text element_data
  else if String.eqb key "data-automation-id" then ed_data_automation_id element_data
  else if String.eqb key "selector" then ed_selector element_data
  else if String.eqb key "label" then ed_label element_data
  else "".

(** [FormField]; [element] stands for the live locator (the position of the
    element in the scan). *)
Record FormField := {
  element : nat;
  field_type : FieldType;
  confidence : Q;
  selector : string;
  label_text : option string;
  attributes : ElementData;
  context_text : option string;
  element_type_html : string
}.

Record FormAnalysisResult := {
  form_purpose : string;
  detected_fields : gmap FieldType FormField;
  action_buttons : gmap string (list FormField)
}.

(** ** Numbers *)

Definition Qlt_bool (x y : Q) : bool := negb (Qle_bool y x).

(** Rounding half to even of a rational to an integer. *)
Definition Qround_half_even (q : Q) : Z :=
  let n := Qnum q in
  let d := Zpos (Qden q) in
  let fl := (n / d)%Z in
  let r := (n mod d)%Z in
  match (2 * r ?= d)%Z with
  | Lt => fl
  | Gt => (fl + 1)%Z
  | Eq => if Z.even fl then fl else (fl + 1)%Z
  end.

(** [round(x, 3)] *)
Definition round3 (x : Q) : Q := Qmake (Qround_half_even (x * 1000)) 1000.

(** [d.get(k, default)] on a dictionary kept in insertion order. *)
Fixpoint dict_get {K V : Type} `{EqDecision K} (d : list (K * V)) (k : K) : option V :=
  match d with
  | [] => None
  | (k', v) :: d' => if decide (k = k') then Some v else dict_get d' k
  end.

(** [sum(...)] of floats, from [0]. *)
Definition Qsum (l : list Q) : Q := fold_left Qplus l 0%Q.

(** [l.sort(key=..., reverse=True)]: descending by key, equal keys keeping
    their order. *)
Fixpoint insert_desc {A : Type} (key : A -> Q) (x : A) (l : list A) : list A :=
  match l with
  | [] => [x]
  | y :: l' => if Qle_bool (key y) (key x) then x :: l else y :: insert_desc key x l'
  end.

Definition sort_desc {A : Type} (key : A -> Q) (l : list A) : list A :=
  foldr (insert_desc key) [] l.

(** [d.setdefault(k, []).append(x)] on a dictionary of lists kept in
    insertion order. *)
Fixpoint group_append {K A : Type} `{EqDecision K} (k : K) (x : A)
    (groups : list (K * list A)) : list (K * list A) :=
  match groups with
  | [] => [(k, [x])]
  | (k', l) :: g =>
      if decide (k = k') then (k', (l ++ [x])%list) :: g else (k', l) :: group_append k x g
  end.

(** The loop [for x in l: d.setdefault(key(x), []).append(x)]. *)
Definition group_by {K A : Type} `{EqDecision K} (key : A -> K) (l : list A)
    : list (K * list A) :=
  fold_left (fun groups x => group_append (key x) x groups) l [].

(** ** The tables of [UniversalFormFiller] *)

Module UniversalFormFiller.

(** [_get_default_field_patterns] *)
Definition _get_default_field_patterns : list (FieldType * list (string * list string)) :=
  [ (EMAIL, [("names", ["email"; "e-?mail"; "user-?name"; "login"; "userPrincipalName"]);
       ("labels", ["email\s*address"; "e-?mail"; "your\s*email"; "user\s*name"; "login\s*id"]);
       ("placeholders", ["enter\s*email"; "email"; "@"; "example@company\.com"]);
       ("types", ["^email$"]);
       ("autocompletes", ["email"; "username"]);
       ("data-automation-ids", ["email"; "username"; "userid"])]);
    (PASSWORD, [("names", ["password"; "pass-?word"; "pwd"; "userPass"; "credentials\.password"]);
       ("labels", ["password"; "pass-?word"; "pincode"]);
       ("placeholders", ["enter\s*password"; "password"]);
       ("types", ["^password$"]);
       ("autocompletes", ["current-password"; "new-password"]);
       ("data-automation-ids", ["password"])]);
    (FIRST_NAME, [("names", ["first-?name"; "f-?name"; "given-?name"; "forename"; "firstName"; "contact\.firstName"]);
       ("labels", ["first\s*name"; "given\s*name"; "forename"]);
       ("placeholders", ["first\s*name"; "given\s*name"]);
       ("autocompletes", ["given-name"; "fname"])]);
    (LAST_NAME, [("names", ["last-?name"; "l-?name"; "surname"; "family-?name"; "lastName"; "contact\.lastName"]);
       ("labels", ["last\s*name"; "surname"; "family\s*name"]);
       ("placeholders", ["last\s*name"; "surname"]);
       ("autocompletes", ["family-name"; "lname"])]);
    (PHONE, [("names", ["phone"; "mobile"; "cell"; "telephone"; "contact-?number"; "primaryPhone"]);
       ("labels", ["phone"; "mobile"; "telephone"; "contact\s*number"; "phone\s*number"]);
       ("placeholders", ["phone"; "mobile"; "\(?\d{3}\)?[-.\s]?\d{3}[-.\s]?\d{4}"; "phone\s*number"]);
       ("types", ["^tel$"]);
       ("autocompletes", ["tel"; "tel-national"])]);
    (COMPANY, [("names", ["company"; "employer"; "organization"; "current-?employer"; "businessName"]);
       ("labels", ["company"; "employer"; "organization"; "current\s*employer"; "company\s*name"]);
       ("placeholders", ["company"; "employer"; "organization\s*name"]);
       ("autocompletes", ["organization"])]);
    (JOB_TITLE, [("names", ["job-?title"; "position"; "role"; "title"; "currentPosition"]);
       ("labels", ["job\s*title"; "position"; "current\s*position"; "role"; "desired\s*position"]);
       ("placeholders", ["job\s*title"; "position"; "your\s*role"]);
       ("autocompletes", ["organization-title"])]);
    (RESUME_FILE, [("names", ["resume"; "cv"; "curriculum"; "resume-?upload"; "cv-?upload"; "attachment"]);
       ("labels", ["resume"; "cv"; "upload\s*resume"; "attach\s*resume"; "curriculum\s*vitae"]);
       ("types", ["^file$"]);
       ("data-automation-ids", ["resumeupload"; "fileuploader"; "attachCV"])]);
    (ADDRESS_LINE1, [("names", ["address(1|Line1)?"; "street"; "addr1"]);
       ("labels", ["address\s*(line\s*1)?"; "street\s*address"]);
       ("placeholders", ["street\s*address"; "address\s*line\s*1"]);
       ("autocompletes", ["address-line1"; "street-address"])]);
    (CITY, [("names", ["city"; "town"]);
       ("labels", ["city"; "town"; "suburb"]);
       ("placeholders", ["city"; "town"]);
       ("autocompletes", ["address-level2"; "city"])]);
    (STATE, [("names", ["state"; "province"; "region"]);
       ("labels", ["state"; "province"; "region"]);
       ("placeholders", ["state"; "province"]);
       ("autocompletes", ["address-level1"; "state"])]);
    (ZIP_CODE, [("names", ["zip(-?code)?"; "postal(-?code)?"; "postcode"]);
       ("labels", ["zip"; "postal\s*code"; "post\s*code"]);
       ("placeholders", ["zip"; "postal\s*code"; "\d{5}(-\d{4})?"]);
       ("autocompletes", ["postal-code"; "zip"])]);
    (TEXTAREA, [("names", ["cover-?letter"; "message"; "comment"; "additional-?info"; "summary"; "description"]);
       ("labels", ["cover\s*letter"; "message"; "comments"; "additional\s*information"; "tell\s*us\s*more"])]) ].

(** [_get_default_negative_patterns] *)
Definition _get_default_negative_patterns : list (FieldType * list string) :=
  [ (EMAIL, ["confirm"; "re-?type"; "verify"; "new\s*email"; "search"; "filter"]);
    (PASSWORD, ["confirm"; "re-?type"; "verify"; "new\s*password"; "current\s*password"; "old\s*password"]);
    (FIRST_NAME, ["last"; "family"; "surname"; "middle"; "initial"]);
    (LAST_NAME, ["first"; "given"; "middle"; "initial"]);
    (PHONE, ["extension"; "ext\.?"; "country\s*code"; "area\s*code"]) ].

(** [_get_default_attribute_weights] *)
Definition _get_default_attribute_weights : list (string * Q) :=
  [ ("label", 2.5%Q); ("name", 2.2%Q); ("id", 2.0%Q); ("placeholder", 1.8%Q);
    ("type", 3.0%Q); ("autocomplete", 3.5%Q); ("data-automation-id", 2.8%Q);
    ("aria-label", 1.5%Q); ("text", 1.0%Q); ("class", 0.5%Q); ("context", 0.3%Q) ].

(** The ["confidence_threshold"] entry of [_default_config]. *)
Definition default_confidence_threshold : Q := 0.40%Q.

End UniversalFormFiller.

(** ** [FieldDetector] *)

(** The attributes of a [FieldDetector] that classification reads;
    [config_confidence_threshold] is [self.config.get('confidence_threshold')]. *)
Record FieldDetector := {
  config_confidence_threshold : option Q;
  field_patterns : list (FieldType * list (string * list string));
  negative_patterns : list (FieldType * list string);
  attribute_weights : list (string * Q)
}.

(** [FieldDetector(page, config, filler)]: the tables come from the filler's
    static methods, the configuration from the caller. *)
Definition new_FieldDetector (threshold : option Q) : FieldDetector :=
  {| config_confidence_threshold := threshold;
     field_patterns := UniversalFormFiller._get_default_field_patterns;
     negative_patterns := UniversalFormFiller._get_default_negative_patterns;
     attribute_weights := UniversalFormFiller._get_default_attribute_weights |}.

(** [re.search(p, s, flags)] is truthy; a pattern that does not compile
    raises [re.error], which every caller catches and skips. *)
Definition re_found (ignorecase : bool) (pattern s : string) : bool :=
  match Re.search ignorecase pattern s with
  | Some b => b
  | None => false
  end.

(** The element attribute a pattern group is matched against. *)
Definition attr_for_group (element_data : ElementData) (pattern_group_key : string) : option string :=
  if String.eqb pattern_group_key "names" then Some (ed_name element_data)
  else if String.eqb pattern_group_key "labels" then Some (ed_label element_data)
  else if String.eqb pattern_group_key "placeholders" then Some (ed_placeholder element_data)
  else if String.eqb pattern_group_key "types" then Some (ed_type element_data)
  else if String.eqb pattern_group_key "autocompletes" then Some (ed_autocomplete element_data)
  else if String.eqb pattern_group_key "data-automation-ids" then Some (ed_data_automation_id element_data)
  else if String.eqb pattern_group_key "texts" then Some (ed_text element_data)
  else None.

(** [pattern_group_key[:-1] if pattern_group_key.endswith('s') else pattern_group_key] *)
Definition weight_key (pattern_group_key : string) : string :=
  if Str.endswith "s" pattern_group_key then Str.drop_last pattern_group_key
  else pattern_group_key.

(** One round of the loop over [patterns_for_type.items()]. *)
Definition score_group (weights : list (string * Q)) (element_data : ElementData)
    (score : Q) (group : string * list string) : Q :=
  let '(pattern_group_key, regex_list) := group in
  match attr_for_group element_data pattern_group_key with
  | None => score
  | Some element_attr_to_match_val =>
      if negb (Str.truthy element_attr_to_match_val) then score
      else
        let attr_value_lower := Str.lower element_attr_to_match_val in
        let weight_for_this_attr_patterns :=
          default 1.0%Q (dict_get weights (weight_key pattern_group_key)) in
        if existsb (fun pattern_regex => re_found true pattern_regex attr_value_lower) regex_list
        then (score + weight_for_this_attr_patterns)%Q
        else score
  end.

(** The bonus for the exact HTML input type. *)
Definition type_bonus (weights : list (string * Q)) (element_data : ElementData)
    (ft : FieldType) : Q :=
  let html_type := Str.lower (ed_type element_data) in
  let w := default 3.0%Q (dict_get weights "type") in
  if String.eqb html_type (FieldTypeEnum.value ft)
     && bool_decide (ft ∈ [EMAIL; PASSWORD]) then (w * 1.5)%Q
  else if String.eqb html_type "tel" && bool_decide (ft = PHONE) then w
  else if String.eqb html_type "file"
          && bool_decide (ft ∈ [RESUME_FILE; COVER_LETTER_FILE]) then w
  else 0%Q.

Definition text_attributes_to_check : list string :=
  ["label"; "name"; "id"; "placeholder"; "aria-label"; "text"; "data-automation-id"; "autocomplete"].

(** Some negative pattern is found in some non-empty text attribute. *)
Definition negative_match (element_data : ElementData) (negative_regex_list : list string) : bool :=
  existsb (fun neg_regex =>
    existsb (fun attr_to_check_neg =>
      let val := Str.lower (ed_get element_data attr_to_check_neg) in
      Str.truthy val && re_found true neg_regex val) text_attributes_to_check)
    negative_regex_list.

(** The score before normalisation. *)
Definition raw_score (self : FieldDetector) (element_data : ElementData)
    (patterns_for_type : list (string * list string)) (ft : FieldType) : Q :=
  let weights := attribute_weights self in
  let score := fold_left (score_group weights element_data) patterns_for_type 0%Q in
  let score := (score + type_bonus weights element_data ft)%Q in
  let negative_regex_list := default [] (dict_get (negative_patterns self) ft) in
  if negative_match element_data negative_regex_list then (score * 0.3)%Q else score.

(** [max_possible_score]: the weights whose own key is a key of
    [patterns_for_type], or is ['type'], plus [2.0]. *)
Definition max_possible_score (self : FieldDetector)
    (patterns_for_type : list (string * list string)) : Q :=
  let m :=
    (Qsum (map snd (List.filter (fun kw =>
             bool_decide (kw.1 ∈ map fst patterns_for_type) || String.eqb kw.1 "type")
           (attribute_weights self))) + 2.0)%Q in
  if Qeq_bool m 0 then 10.0%Q else m.

(** [_calculate_confidence] *)
Definition _calculate_confidence (self : FieldDetector) (element_data : ElementData)
    (patterns_for_type : list (string * list string)) (ft : FieldType) : Q :=
  let score := raw_score self element_data patterns_for_type ft in
  let max_possible_score := max_possible_score self patterns_for_type in
  let normalized_score :=
    if Qlt_bool 0 score then
      let x := (score / max_possible_score)%Q in
      if Qlt_bool 1.0 x then 1.0%Q else x
    else 0.0%Q in
  round3 normalized_score.

(** [self.field_patterns[ft]] *)
Definition patterns_of (self : FieldDetector) (ft : FieldType) : list (string * list string) :=
  default [] (dict_get (field_patterns self) ft).

(** [self.config.get('confidence_threshold', 0.45)] *)
Definition threshold_of (self : FieldDetector) : Q :=
  default 0.45%Q (config_confidence_threshold self).

(** First loop of [_resolve_field_conflicts]: candidates grouped by selector. *)
Definition elements_candidates (candidates : list FormField) : list (string * list FormField) :=
  group_by selector candidates.

(** Second loop: the best candidate of every selector. *)
Definition best_candidates_per_element (candidates : list FormField) : list FormField :=
  flat_map (fun '(element_key, ff_list) =>
              match sort_desc confidence ff_list with
              | [] => []
              | best :: _ => [best]
              end) (elements_candidates candidates).

(** Third loop: the per-element winners grouped by field type. *)
Definition final_by_type (candidates : list FormField) : list (FieldType * list FormField) :=
  group_by field_type (best_candidates_per_element candidates).

(** One round of the last loop. *)
Definition resolve_type (threshold : Q) (resolved : gmap FieldType FormField)
    (entry : FieldType * list FormField) : gmap FieldType FormField :=
  let '(ft, ff_options) := entry in
  match sort_desc confidence ff_options with
  | [] => resolved
  | best_ff_for_type :: _ =>
      if Qle_bool threshold (confidence best_ff_for_type) then
        match resolved !! ft with
        | None => <[ft := best_ff_for_type]> resolved
        | Some old =>
            if Qlt_bool (confidence old) (confidence best_ff_for_type)
            then <[ft := best_ff_for_type]> resolved
            else resolved
        end
      else resolved
  end.

(** [_resolve_field_conflicts] *)
Definition _resolve_field_conflicts (self : FieldDetector) (candidates : list FormField)
    : gmap FieldType FormField :=
  fold_left (resolve_type (threshold_of self)) (final_by_type candidates) ∅.

(** The corpus of [_classify_button]: the non-empty sources joined by a
    blank, in lower case. *)
Definition button_corpus (element_data : ElementData) : string :=
  let text_sources :=
    [ ed_text element_data; ed_value element_data; ed_aria_label element_data;
      ed_name element_data; ed_id element_data; ed_data_automation_id element_data ] in
  Str.lower (Str.join " " (List.filter Str.truthy text_sources)).

Definition apply_patterns : list string :=
  ["\bapply now\b"; "\bapply for this job\b"; "\bsubmit application\b"; "\bapply\b"].

Definition next_patterns : list string :=
  ["\bnext\b"; "\bcontinue\b"; "\bproceed\b"; "\bstep \d+\b"; "\bforward\b"].

Definition submit_patterns : list string :=
  ["\bsubmit\b"; "\bsend\b"; "\bfinish\b"; "\bcomplete\b"; "\bdone\b";
   "\bsave & exit\b"; "\bsave and exit\b"; "\bsave\b"].

(** [_classify_button].  The test inside the next-family branch is Python's
    [in] on strings: the seven characters of [\bsave\b] as a substring of
    the corpus, and likewise for [\bcontinue\b]. *)
Definition _classify_button (element_data : ElementData) : option string :=
  let full_text_corpus := button_corpus element_data in
  if negb (Str.truthy (Str.strip full_text_corpus)) then None
  else if existsb (fun pattern => re_found false pattern full_text_corpus) apply_patterns
  then Some "apply"
  else if existsb (fun pattern => re_found false pattern full_text_corpus) next_patterns
  then
    if Str.contains "\bsave\b" full_text_corpus && Str.contains "\bcontinue\b" full_text_corpus
    then Some "submit"
    else Some "next"
  else if existsb (fun pattern => re_found false pattern full_text_corpus) submit_patterns
  then Some "submit"
  else if String.eqb (Str.lower (ed_type element_data)) "submit" then Some "submit"
  else None.

Definition job_app_keywords : gset FieldType :=
  {[ RESUME_FILE; COVER_LETTER_FILE; LINKEDIN; COMPANY; JOB_TITLE; YEARS_EXPERIENCE;
     SCHOOL; DEGREE ]}.

Definition contact_keywords : list string :=
  ["message"; "comment"; "query"; "question"; "feedback"].

(** [_detect_form_purpose] *)
Definition _detect_form_purpose (detected_fields : gmap FieldType FormField) : string :=
  let field_types_present : gset FieldType := dom detected_fields in
  let present (ft : FieldType) : bool := bool_decide (ft ∈ field_types_present) in
  if present RESUME_FILE
     || (present JOB_TITLE && present COMPANY)
     || (2 <=? size (field_types_present ∩ job_app_keywords))%nat
  then "job_application"
  else
    let other_fields : gset FieldType :=
      field_types_present ∖ {[ EMAIL; PASSWORD; SUBMIT_BUTTON; NEXT_BUTTON ]} in
    if present EMAIL && present PASSWORD
       && (bool_decide (other_fields = ∅) || (size other_fields <=? 1)%nat)
    then "login"
    else if present EMAIL && present PASSWORD
            && (present FIRST_NAME || present CONFIRM_PASSWORD || present FULL_NAME)
    then "registration"
    else if present EMAIL
            && (present FULL_NAME || (present FIRST_NAME && present LAST_NAME))
            && (present TEXTAREA || present TEXT_INPUT)
    then
      if existsb (fun '(ft, ff) =>
                    bool_decide (ft ∈ [TEXTAREA; TEXT_INPUT])
                    && (let text_content :=
                          (default "" (label_text ff) ++ " " ++ ed_placeholder (attributes ff))%string in
                        existsb (fun kw => Str.contains kw (Str.lower text_content)) contact_keywords))
                 (map_to_list detected_fields)
      then "contact"
      else if (size field_types_present <=? 5)%nat then "contact"
      else "general_form"
    else "general_form".

(** Whether the scan sends an element to the button classifier. *)
Definition is_button_like (element_data : ElementData) : bool :=
  let html_tag := ed_tag element_data in
  let html_type := ed_type element_data in
  bool_decide (html_tag ∈ ["button"; "a"])
  || bool_decide (html_type ∈ ["submit"; "button"; "reset"; "image"])
  || Str.contains "button" (ed_role element_data).

(** The [FormField] of a classified action button. *)
Definition button_field (element_loc : nat) (element_data : ElementData)
    (button_classification : string) : FormField :=
  {| element := element_loc;
     field_type :=
       if String.eqb button_classification "submit" then SUBMIT_BUTTON
       else if String.eqb button_classification "next" then NEXT_BUTTON
       else UNKNOWN;
     confidence := 0.85%Q;
     selector := ed_selector element_data;
     label_text :=
       Some (if Str.truthy (ed_text element_data) then ed_text element_data
             else ed_aria_label element_data);
     attributes := element_data;
     context_text := None;
     element_type_html := "input" |}.

(** [possible_types_for_element], before sorting: the types whose confidence
    exceeds the admission floor. *)
Definition possible_types_for_element (self : FieldDetector) (element_data : ElementData)
    : list (Q * FieldType) :=
  flat_map (fun '(ft_enum, patterns_for_type) =>
              let confidence := _calculate_confidence self element_data patterns_for_type ft_enum in
              if Qlt_bool 0.15 confidence then [(confidence, ft_enum)] else [])
           (field_patterns self).

(** The candidate an element contributes, if any. *)
Definition field_candidate (self : FieldDetector) (element_loc : nat)
    (element_data : ElementData) : option FormField :=
  match sort_desc fst (possible_types_for_element self element_data) with
  | [] => None
  | (best_confidence, best_field_type) :: _ =>
      if Qle_bool (threshold_of self) best_confidence then
        Some {| element := element_loc;
                field_type := best_field_type;
                confidence := best_confidence;
                selector := ed_selector element_data;
                label_text := Some (ed_label element_data);
                attributes := element_data;
                context_text := None;
                element_type_html := ed_tag element_data |}
      else None
  end.

(** The state of the scan loop of [detect_all_fields_on_page]. *)
Record scan_state := {
  scan_buttons : gmap string (list FormField);
  scan_candidates : list FormField
}.

Definition initial_action_buttons : gmap string (list FormField) :=
  {[ "submit" := []; "next" := []; "apply" := [] ]}.

(** One round of the scan loop, for an attached and visible element whose
    attribute bundle could be read. *)
Definition scan_element (self : FieldDetector) (st : scan_state)
    (item : nat * ElementData) : scan_state :=
  let '(element_loc, element_data) := item in
  let as_field (st : scan_state) :=
    match field_candidate self element_loc element_data with
    | Some field => {| scan_buttons := scan_buttons st;
                       scan_candidates := (scan_candidates st ++ [field])%list |}
    | None => st
    end in
  if is_button_like element_data then
    match _classify_button element_data with
    | Some button_classification =>
        match scan_buttons st !! button_classification with
        | Some l =>
            {| scan_buttons :=
                 <[button_classification :=
                     (l ++ [button_field element_loc element_data button_classification])%list]>
                   (scan_buttons st);
               scan_candidates := scan_candidates st |}
        | None => as_field st
        end
    | None => as_field st
    end
  else as_field st.

(** [detect_all_fields_on_page], from the attribute bundles of the scanned
    elements in scan order. *)
Definition detect_all_fields_on_page (self : FieldDetector) (elements : list ElementData)
    : FormAnalysisResult :=
  let st := fold_left (scan_element self) (imap (fun i e => (i, e)) elements)
                      {| scan_buttons := initial_action_buttons; scan_candidates := [] |} in
  let fields := _resolve_field_conflicts self (scan_candidates st) in
  {| form_purpose := _detect_form_purpose fields;
     detected_fields := fields;
     action_buttons := scan_buttons st |}.

(** ** The mutation observer of [DOMStabilityManager]

    [window.stabilityDetector], the object that
    [_inject_stability_observer_script] installs; [Date.now()] is the [now]
    argument of every method, in milliseconds. *)

Module StabilityDetector.

Inductive mutation_type := childList | attributes | characterData.

(** What [isCriticalMutation] reads of a [MutationRecord]. *)
Record MutationRecord := {
  type : mutation_type;
  addedNodes_length : nat;
  removedNodes_length : nat;
  (** [target.matches('input,select,textarea,button,[role=...]')] *)
  target_matches_control : bool;
  attributeName : string;
  (** [mutation.oldValue] is truthy *)
  oldValue : bool;
  target_style_display : string;
  target_style_visibility : string
}.

Definition watched_attributes : list string :=
  ["disabled"; "hidden"; "style"; "class"; "value"; "checked"; "selected";
   "readonly"; "aria-disabled"; "aria-hidden"].

Definition isCriticalMutation (mutation : MutationRecord) : bool :=
  match type mutation with
  | childList =>
      (0 <? addedNodes_length mutation)%nat || (0 <? removedNodes_length mutation)%nat
  | attributes =>
      (target_matches_control mutation
       && bool_decide (attributeName mutation ∈ watched_attributes))
      || (String.eqb (attributeName mutation) "style"
          && (oldValue mutation
              || String.eqb (target_style_display mutation) "none"
              || String.eqb (target_style_visibility mutation) "hidden"))
  | characterData => false
  end.

Record t := {
  mutationCount : nat;
  criticalMutations : nat;
  lastCriticalMutation : Z;
  stabilityWindowMs : Z;
  observing : bool
}.

(** The object literal, created at time [now]. *)
Definition create (now : Z) : t :=
  {| mutationCount := 0; criticalMutations := 0; lastCriticalMutation := now;
     stabilityWindowMs := 1500; observing := false |}.

(** The observer callback, run at time [now] on a batch of records. *)
Definition processMutations (now : Z) (mutationsList : list MutationRecord) (d : t) : t :=
  if existsb isCriticalMutation mutationsList then
    {| mutationCount := mutationCount d + length mutationsList;
       criticalMutations := S (criticalMutations d);
       lastCriticalMutation := now;
       stabilityWindowMs := stabilityWindowMs d;
       observing := observing d |}
  else
    {| mutationCount := mutationCount d + length mutationsList;
       criticalMutations := criticalMutations d;
       lastCriticalMutation := lastCriticalMutation d;
       stabilityWindowMs := stabilityWindowMs d;
       observing := observing d |}.

Definition startObserving (now : Z) (stabilityWindow : Z) (d : t) : t :=
  {| mutationCount := mutationCount d;
     criticalMutations := criticalMutations d;
     lastCriticalMutation := now;
     stabilityWindowMs := stabilityWindow;
     observing := true |}.

Definition isStable (now : Z) (d : t) : bool :=
  let quietPeriod := (now - lastCriticalMutation d)%Z in
  (stabilityWindowMs d <=? quietPeriod)%Z.

(** [window.stabilityDetector.lastCriticalMutation = Date.now()], which the
    wait loop evaluates when the network is still busy. *)
Definition touch (now : Z) (d : t) : t :=
  {| mutationCount := mutationCount d;
     criticalMutations := criticalMutations d;
     lastCriticalMutation := now;
     stabilityWindowMs := stabilityWindowMs d;
     observing := observing d |}.

(** A script of mutation batches, each with the time its callback runs. *)
Definition script := list (Z * list MutationRecord).

(** The callbacks of the batches delivered in the interval [(since, upto]],
    in order; nothing is delivered to a detector that is not observing. *)
Definition deliver (since upto : Z) (s : script) (d : t) : t :=
  fold_left (fun d '(at_, batch) =>
               if observing d && (since <? at_)%Z && (at_ <=? upto)%Z
               then processMutations at_ batch d else d) s d.

(** The detector at time [now], after [startObserving(w)] at time [t0] and
    the batches of the script up to [now]. *)
Definition state_at (t0 w : Z) (s : script) (now : Z) : t :=
  deliver t0 now s (startObserving t0 w (create t0)).

(** What [isStable()] answers at time [now] in that run. *)
Definition reports_stable (t0 w : Z) (s : script) (now : Z) : bool :=
  isStable now (state_at t0 w s now).

(** The callback time of the last critical batch of the script, in script
    order, among those due in [(since, upto]]; [init] if there is none. *)
Definition last_critical (since upto : Z) (s : script) (init : Z) : Z :=
  fold_left (fun l '(at_, batch) =>
               if (since <? at_)%Z && (at_ <=? upto)%Z && existsb isCriticalMutation batch
               then at_ else l) s init.

(** A script of critical batches in time order, each less than [w] after
    the one before it ([prev] being the time before the first). *)
Fixpoint spaced (w prev : Z) (s : script) : Prop :=
  match s with
  | [] => True
  | (at_, batch) :: s' =>
      (prev <= at_)%Z /\ (at_ - prev < w)%Z
      /\ existsb isCriticalMutation batch = true /\ spaced w at_ s'
  end.

(** The time of the last batch of a script ([prev] if it is empty). *)
Fixpoint last_time (prev : Z) (s : script) : Z :=
  match s with
  | [] => prev
  | (at_, _) :: s' => last_time at_ s'
  end.

End StabilityDetector.

(** ** The wait loop of [wait_for_intelligent_stability]

    The branch taken once the observer is installed and stays installed.
    The page is given by the script of its mutation batches, by the answer
    of [wait_for_load_state("networkidle", timeout)] at a time (the time at
    which the network was idle, or [None] after [timeout] ms) and by the
    time from which it is closed.  Evaluating a script takes no time; the
    clock advances through waits only. *)

Module StabilityWait.
Import StabilityDetector.

Record Page := {
  mutations : script;
  networkidle : Z -> Z -> option Z;
  is_closed : Z -> bool
}.

Record loop_state := {
  now : Z;
  loop_count : nat;
  detector : StabilityDetector.t
}.

(** The clock moves to [upto]; the callbacks due by then have run. *)
Definition advance (page : Page) (upto : Z) (st : loop_state) : loop_state :=
  {| now := upto; loop_count := loop_count st;
     detector := deliver (now st) upto (mutations page) (detector st) |}.

(** One round of the [while] loop: the returned boolean with the time of
    the return, or the state at the next test of the loop condition. *)
Definition round (page : Page) (timeout window start_time : Z)
    (initial_network_idle_achieved : bool) (st : loop_state) : (bool * Z) + loop_state :=
  if negb (now st - start_time <? timeout)%Z then inl (false, now st)
  else if is_closed page (now st) then inl (false, now st)
  else
    let st := {| now := now st; loop_count := S (loop_count st); detector := detector st |} in
    let is_stable := isStable (now st) (detector st) in
    if is_stable then
      if initial_network_idle_achieved || (3 <? loop_count st)%nat then
        match networkidle page (now st) window with
        | Some idle_at => inl (true, idle_at)
        | None =>
            let st := advance page (now st + window)%Z st in
            let st := {| now := now st; loop_count := loop_count st;
                         detector := touch (now st) (detector st) |} in
            inr (advance page (now st + 250)%Z st)
        end
      else inl (true, now st)
    else inr (advance page (now st + 250)%Z st).

(** The [while] loop; [None] when [fuel] rounds were not enough. *)
Fixpoint stability_loop (fuel : nat) (page : Page) (timeout window start_time : Z)
    (initial_network_idle_achieved : bool) (st : loop_state) : option (bool * Z) :=
  match fuel with
  | O => None
  | S fuel =>
      match round page timeout window start_time initial_network_idle_achieved st with
      | inl result => Some result
      | inr st' =>
          stability_loop fuel page timeout window start_time
            initial_network_idle_achieved st'
      end
  end.

(** Fuel that always suffices: every round waits at least 250 ms. *)
Definition enough_fuel (timeout : Z) : nat := S (Z.to_nat (timeout / 250 + 1)).

(** [wait_for_intelligent_stability(timeout, stability_check_window_ms)]
    entered at time [t0] on an open page: the observer is (re)started with
    the window, the network is awaited for a third of the timeout, then the
    loop polls.  The result is the returned boolean and the time of the
    return. *)
Definition wait_for_intelligent_stability (page : Page) (t0 timeout window : Z)
    : option (bool * Z) :=
  if is_closed page t0 then Some (false, t0)
  else
    let d := startObserving t0 window (create t0) in
    let start_time := t0 in
    let '(initial_network_idle_achieved, t1) :=
      match networkidle page t0 (timeout / 3)%Z with
      | Some idle_at => (true, idle_at)
      | None => (false, (t0 + timeout / 3)%Z)
      end in
    let st := advance page t1 {| now := t0; loop_count := 0; detector := d |} in
    stability_loop (enough_fuel timeout) page timeout window start_time
      initial_network_idle_achieved st.

(** Waiting for the network does not end before it starts. *)
Definition causal (page : Page) : Prop :=
  forall t timeout idle_at, networkidle page t timeout = Some idle_at -> (t <= idle_at)%Z.

End StabilityWait.

(** ** [decision_handler.py] *)

Module Decision.

(** An entry of [DecisionPoint.options]. *)
Record OptionDef := {
  opt_name : string;
  selectors : list string;
  preferred : bool
}.

(** [DecisionPoint.detection_criteria], with the defaults of
    [criteria.get(key, [])]. *)
Record Criteria := {
  url_patterns : list string;
  text_indicators : list string;
  button_options_texts : list string
}.

Record DecisionPoint := {
  name : string;
  description : string;
  detection_criteria : Criteria;
  options : list OptionDef
}.

(** The preferences dictionary; [decisions] is [None] when a loaded file
    has no ["decisions"] key. *)
Record Preferences := {
  decisions : option (gmap string string);
  custom_decision_definitions : list DecisionPoint
}.

(** A [DecisionHandler] together with its preferences file ([None] when
    the file does not exist). *)
Record DecisionHandler := {
  preferences : Preferences;
  decision_points : list DecisionPoint;
  preferences_file : option Preferences
}.

(** A located element: [None] is a raised Playwright error. *)
Record Element := {
  is_visible : option bool;
  is_enabled : option bool;
  (** [element.click(timeout=3000)] returns *)
  click : bool
}.

(** The answers of a page.  [text_locator_count s] is the count of
    [*:text-matches(s, 'i')], [button_locator_count s] the count of the
    button locator built from [s], [locator_all sel] the elements of
    [page.locator(sel).all()]. *)
Record Page := {
  url : option string;
  text_locator_count : string -> option nat;
  content : option string;
  button_locator_count : string -> option nat;
  locator_all : string -> option (list Element);
  (** [page.wait_for_timeout(3000)] returns *)
  wait_for_timeout : bool;
  (** opening the preferences file for writing succeeds *)
  file_writable : bool
}.

(** The handler and the clicks made so far: selector and index of the
    element among those the selector located. *)
Record Session := {
  handler : DecisionHandler;
  clicked : list (string * nat)
}.

(** [_initialize_decision_points] *)
Definition _initialize_decision_points : list DecisionPoint :=
  [ {| name := "workday_application_method_selection";
       description := "Workday: Choose how to apply (Autofill/Manual/Last Application)";
       detection_criteria :=
         {| url_patterns := ["myworkdayjobs.com"];
            text_indicators := ["Start Your Application";
                                "Please select how you would like to apply";
                                "How would you like to apply?"];
            button_options_texts := ["Autofill with Resume"; "Apply Manually";
                                     "Use My Last Application"] |};
       options :=
         [ {| opt_name := "autofill_resume_workday";
              selectors := ["a[data-automation-id='autofillWithResume']";
                            "button[data-automation-id='autofillWithResume']";
                            "button:text-matches('(?i)autofill.*resume')";
                            "a:text-matches('(?i)autofill.*resume')";
                            "[aria-label*='Autofill with Resume' i]"];
              preferred := true |};
           {| opt_name := "apply_manually_workday";
              selectors := ["a[data-automation-id='applyManually']";
                            "button[data-automation-id='applyManually']";
                            "button:has-text('Apply Manually')";
                            "a:has-text('Apply Manually')";
                            "[aria-label*='Apply Manually' i]"];
              preferred := false |};
           {| opt_name := "use_last_application_workday";
              selectors := ["a[data-automation-id='useMyLastApplication']";
                            "button[data-automation-id='useMyLastApplication']";
                            "button:has-text('Use My Last Application')";
                            "a:has-text('Use My Last Application')";
                            "[aria-label*='Use My Last Application' i]"];
              preferred := false |} ] |};
    {| name := "resume_parse_confirmation";
       description := "Confirm parsed resume information after autofill";
       detection_criteria :=
         {| url_patterns := ["myworkdayjobs.com/apply"];
            text_indicators := ["Review your information"; "Confirm your details";
                                "Information from resume"; "Review and Submit";
                                "My Information"];
            button_options_texts := ["Continue"; "Next"; "Save and continue";
                                     "Edit Information"] |};
       options :=
         [ {| opt_name := "continue_after_parse";
              selectors := ["button[data-automation-id*='continue' i]";
                            "button[data-automation-id*='next' i]";
                            "button:has-text('Continue' i)";
                            "button:has-text('Next' i)";
                            "button:text-matches('(?i)save.*continue')"];
              preferred := true |} ] |} ].

(** [_load_preferences], from the content of the file if it can be read. *)
Definition _load_preferences (file : option Preferences) : Preferences :=
  match file with
  | Some p => p
  | None => {| decisions := Some ∅; custom_decision_definitions := [] |}
  end.

(** [DecisionHandler(preferences_file)] *)
Definition new_DecisionHandler (file : option Preferences) : DecisionHandler :=
  let prefs := _load_preferences file in
  let initialized_points :=
    fold_left (fun points custom_def =>
                 if bool_decide (name custom_def ∈ map name points) then points
                 else (points ++ [custom_def])%list)
              (custom_decision_definitions prefs) _initialize_decision_points in
  {| preferences := prefs; decision_points := initialized_points;
     preferences_file := file |}.

(** [locator.count() > 0], a raised error being caught and logged. *)
Definition count_positive (count : option nat) : bool :=
  match count with
  | Some n => (0 <? n)%nat
  | None => false
  end.

Definition url_match (current_url : string) (criteria : Criteria) : bool :=
  existsb (fun pattern => Str.contains (Str.lower pattern) current_url) (url_patterns criteria).

Definition text_match (page : Page) (criteria : Criteria) : bool :=
  let by_locator :=
    existsb (fun indicator_text => count_positive (text_locator_count page indicator_text))
            (text_indicators criteria) in
  if by_locator then true
  else
    match text_indicators criteria, content page with
    | _ :: _, Some page_content =>
        let page_content_lower := Str.lower page_content in
        existsb (fun indicator => Str.contains (Str.lower indicator) page_content_lower)
                (text_indicators criteria)
    | _, _ => false
    end.

Definition actual_buttons_found_count (page : Page) (criteria : Criteria) : nat :=
  length (List.filter (fun btn_txt => count_positive (button_locator_count page btn_txt))
                      (button_options_texts criteria)).

(** [max(1, len(button_options_texts) // 2)] *)
Definition required_buttons (criteria : Criteria) : nat :=
  Nat.max 1 (length (button_options_texts criteria) / 2).

Definition buttons_criterion_met (page : Page) (criteria : Criteria) : bool :=
  match button_options_texts criteria with
  | [] => true
  | _ :: _ => (required_buttons criteria <=? actual_buttons_found_count page criteria)%nat
  end.

(** The test of one decision point in the loop of [detect_decision_point]. *)
Definition point_detected (page : Page) (current_url : string) (decision_point : DecisionPoint) : bool :=
  let criteria := detection_criteria decision_point in
  let strong_indicator_match := url_match current_url criteria || text_match page criteria in
  strong_indicator_match && buttons_criterion_met page criteria.

(** [detect_decision_point] *)
Definition detect_decision_point (self : DecisionHandler) (page : Page) : option DecisionPoint :=
  match url page with
  | None => None
  | Some u =>
      let current_url := Str.lower u in
      List.find (point_detected page current_url) (decision_points self)
  end.

(** [get_stored_decision] *)
Definition get_stored_decision (self : DecisionHandler) (decision_name : string) : option string :=
  default ∅ (decisions (preferences self)) !! decision_name.

(** [_save_preferences]: the file receives the dictionary unless writing
    fails, which is logged and swallowed. *)
Definition _save_preferences (page : Page) (self : DecisionHandler) : DecisionHandler :=
  if file_writable page then
    {| preferences := preferences self; decision_points := decision_points self;
       preferences_file := Some (preferences self) |}
  else self.

(** [store_decision] *)
Definition store_decision (page : Page) (self : DecisionHandler)
    (decision_name choice_name : string) : DecisionHandler :=
  let prefs := preferences self in
  let stored := default ∅ (decisions prefs) in
  _save_preferences page
    {| preferences :=
         {| decisions := Some (<[decision_name := choice_name]> stored);
            custom_decision_definitions := custom_decision_definitions prefs |};
       decision_points := decision_points self;
       preferences_file := preferences_file self |}.

(** The option the handler selects: the stored one if it names an option,
    else the first preferred one if [auto_select]. *)
Definition stored_option (self : DecisionHandler) (decision_point : DecisionPoint) : option OptionDef :=
  match get_stored_decision self (name decision_point) with
  | Some stored_choice_name =>
      if Str.truthy stored_choice_name then
        List.find (fun option_def => String.eqb (opt_name option_def) stored_choice_name)
                  (options decision_point)
      else None
  | None => None
  end.

Definition default_option (decision_point : DecisionPoint) : option OptionDef :=
  List.find preferred (options decision_point).

Definition select_option (self : DecisionHandler) (decision_point : DecisionPoint)
    (auto_select : bool) : option OptionDef :=
  match stored_option self decision_point with
  | Some option_def => Some option_def
  | None => if auto_select then default_option decision_point else None
  end.

(** How the body of one [try] over a selector ends. *)
Inductive attempt := Returned | Raised | Exhausted.

(** The inner [for element in elements] of a selector; [after_click] is
    what follows a successful click, up to the wait. *)
Fixpoint try_elements (page : Page) (selector : string)
    (after_click : Session -> Session) (elements : list Element) (index : nat)
    (s : Session) : attempt * Session :=
  match elements with
  | [] => (Exhausted, s)
  | element :: rest =>
      match is_visible element with
      | None => (Raised, s)
      | Some false => try_elements page selector after_click rest (S index) s
      | Some true =>
          match is_enabled element with
          | None => (Raised, s)
          | Some false => try_elements page selector after_click rest (S index) s
          | Some true =>
              if click element then
                let s := after_click {| handler := handler s;
                                        clicked := (clicked s ++ [(selector, index)])%list |} in
                if wait_for_timeout page then (Returned, s) else (Raised, s)
              else (Raised, s)
          end
      end
  end.

(** The loop over the selectors: [true] as soon as one attempt returns. *)
Fixpoint try_selectors (page : Page) (after_click : Session -> Session)
    (sels : list string) (s : Session) : bool * Session :=
  match sels with
  | [] => (false, s)
  | selector :: rest =>
      match locator_all page selector with
      | None => try_selectors page after_click rest s
      | Some elements =>
          match try_elements page selector after_click elements 0 s with
          | (Returned, s') => (true, s')
          | (_, s') => try_selectors page after_click rest s'
          end
      end
  end.

(** [handle_decision_point] *)
Definition handle_decision_point (page : Page) (decision_point : DecisionPoint)
    (auto_select : bool) (s : Session) : bool * Session :=
  match select_option (handler s) decision_point auto_select with
  | None => (false, s)
  | Some selected_option_definition =>
      try_selectors page
        (fun s => {| handler := store_decision page (handler s) (name decision_point)
                                  (opt_name selected_option_definition);
                     clicked := clicked s |})
        (selectors selected_option_definition) s
  end.

Definition autofill_option_selectors : list string :=
  [ "a[data-automation-id='autofillWithResume']";
    "button[data-automation-id='autofillWithResume']";
    "a[data-automation-id='autoFillResumeButton']";
    "button[data-automation-id='autoFillResumeButton']";
    "button:text-matches('(?i)autofill.*resume')";
    "a:text-matches('(?i)autofill.*resume')";
    "[aria-label*='Autofill with Resume' i]" ].

(** [handle_application_method_selection] *)
Definition handle_application_method_selection (page : Page) (s : Session) : bool * Session :=
  let indicators := ["Start Your Application"; "Please select how you would like to apply";
                     "How would you like to apply?"] in
  let text_indicators_present :=
    existsb (fun indicator_text => count_positive (text_locator_count page indicator_text))
            indicators in
  if negb text_indicators_present then (false, s)
  else try_selectors page (fun s => s) autofill_option_selectors s.

(** [check_and_handle_decision_points] *)
Definition check_and_handle_decision_points (page : Page) (s : Session) : bool * Session :=
  match handle_application_method_selection page s with
  | (true, s') => (true, s')
  | (false, s') =>
      match detect_decision_point (handler s') page with
      | Some decision_point_obj => handle_decision_point page decision_point_obj true s'
      | None => (false, s')
      end
  end.

(** An element that the handler would click: visible, enabled, and the
    click goes through. *)
Definition clickable (element : Element) : bool :=
  match is_visible element, is_enabled element with
  | Some true, Some true => click element
  | _, _ => false
  end.

(** No selector candidate of the option locates a clickable element. *)
Definition no_clickable_candidate (page : Page) (option_def : OptionDef) : Prop :=
  forall selector elements element,
    In selector (selectors option_def) ->
    locator_all page selector = Some elements ->
    In element elements -> clickable element = false.

(** What the loop over the candidates [sels] of an option may have done
    to a session [s0]: nothing, or clicks on candidates of the option, with
    the decision stored. *)
Definition progress (page : Page) (n o : string) (sels : list string)
    (s0 s : Session) : Prop :=
  s = s0
  \/ exists new, new <> []
                 /\ clicked s = (clicked s0 ++ new)%list
                 /\ Forall (fun c => In c.1 sels) new
                 /\ handler s = store_decision page (handler s0) n o.

(** The button threshold as the specification words it: half of the
    expected texts, rounded up, and at least one. *)
Definition half_rounded_up (criteria : Criteria) : nat :=
  Nat.max 1 ((length (button_options_texts criteria) + 1) / 2).

End Decision.

(** ** Sample inputs *)

Module Fixtures.

(** An element with the given tag, type, name, autocomplete and text, and
    no other attribute. *)
Definition element_with (tag type name autocomplete text sel : string) : ElementData :=
  {| ed_tag := tag; ed_type := type; ed_name := name; ed_id := ""; ed_class := "";
     ed_placeholder := ""; ed_aria_label := ""; ed_aria_labelledby := "";
     ed_aria_describedby := ""; ed_role := ""; ed_autocomplete := autocomplete;
     ed_required := false; ed_value := ""; ed_text := text;
     ed_data_automation_id := ""; ed_selector := sel; ed_label := "" |}.

(** [<button>text</button>] *)
Definition button_labelled (text : string) : ElementData :=
  element_with "button" "" "" "" text "button".

(** [<input name=...>] *)
Definition input_named (name : string) : ElementData :=
  element_with "input" "text" name "" "" ("input[name='" ++ name ++ "']").

(** [<input autocomplete=...>] *)
Definition input_autocomplete (autocomplete : string) : ElementData :=
  element_with "input" "text" "" autocomplete "" "input".

(** A descriptor of the given type, selector and confidence. *)
Definition field (ft : FieldType) (sel : string) (c : Q) : FormField :=
  {| element := 0; field_type := ft; confidence := c; selector := sel;
     label_text := None; attributes := element_with "input" "text" "" "" "" sel;
     context_text := None; element_type_html := "input" |}.

(** A resolved mapping with exactly the given field types. *)
Definition fields_of (types : list FieldType) : gmap FieldType FormField :=
  list_to_map (map (fun ft => (ft, field ft (FieldTypeEnum.value ft) 0.5%Q)) types).

(** The detector with the configuration of [_default_config]. *)
Definition default_detector : FieldDetector :=
  new_FieldDetector (Some UniversalFormFiller.default_confidence_threshold).

(** A batch of one record: a node was added. *)
Definition node_added : list StabilityDetector.MutationRecord :=
  [ {| StabilityDetector.type := StabilityDetector.childList;
       StabilityDetector.addedNodes_length := 1;
       StabilityDetector.removedNodes_length := 0;
       StabilityDetector.target_matches_control := false;
       StabilityDetector.attributeName := "";
       StabilityDetector.oldValue := false;
       StabilityDetector.target_style_display := "";
       StabilityDetector.target_style_visibility := "" |} ].

Definition ready_element : Decision.Element :=
  {| Decision.is_visible := Some true; Decision.is_enabled := Some true;
     Decision.click := true |}.

Definition hidden_element : Decision.Element :=
  {| Decision.is_visible := Some false; Decision.is_enabled := Some true;
     Decision.click := true |}.

(** A Workday page that shows the given expected button texts, on which
    the given selectors locate one element each ([ready] tells whether it
    can be clicked), with or without the text indicator of the method
    selection. *)
Definition workday_page (indicator : bool) (buttons live : list string) (ready : bool)
    : Decision.Page :=
  {| Decision.url := Some "https://acme.wd3.myworkdayjobs.com/en-US/careers/job/1";
     Decision.text_locator_count := fun text =>
       Some (if indicator && String.eqb text "Start Your Application" then 1 else 0)%nat;
     Decision.content := Some "<html></html>";
     Decision.button_locator_count := fun text =>
       Some (if bool_decide (text ∈ buttons) then 1 else 0)%nat;
     Decision.locator_all := fun sel =>
       Some (if bool_decide (sel ∈ live)
             then [if ready then ready_element else hidden_element] else []);
     Decision.wait_for_timeout := true;
     Decision.file_writable := true |}.

(** A preferences file that holds one stored decision. *)
Definition stored_preference (decision choice : string) : Decision.Preferences :=
  {| Decision.decisions := Some {[ decision := choice ]};
     Decision.custom_decision_definitions := [] |}.

Definition session_of (file : option Decision.Preferences) : Decision.Session :=
  {| Decision.handler := Decision.new_DecisionHandler file; Decision.clicked := [] |}.

End Fixtures.

(** ** The scorer as the specification words it

    The normalising denominator of the specification: the weights of the
    attribute categories of the pattern set, plus the constant. *)

Definition applicable_weights_sum (self : FieldDetector)
    (patterns_for_type : list (string * list string)) : Q :=
  Qsum (map (fun group => default 1.0%Q (dict_get (attribute_weights self) (weight_key group.1)))
            patterns_for_type).

Definition confidence_as_specified (self : FieldDetector) (element_data : ElementData)
    (patterns_for_type : list (string * list string)) (ft : FieldType) : Q :=
  let score := raw_score self element_data patterns_for_type ft in
  let x := (score / (applicable_weights_sum self patterns_for_type + 2.0))%Q in
  round3 (if Qlt_bool 0 score then (if Qlt_bool 1.0 x then 1.0%Q else x) else 0.0%Q).

(** ** Predicates of the statements *)

(** A confidence of the closed unit interval. *)
Definition in_unit_interval (ff : FormField) : Prop :=
  (0 <= confidence ff)%Q /\ (confidence ff <= 1)%Q.

(** Descending by key. *)
Definition descending {A : Type} (key : A -> Q) (l : list A) : Prop :=
  StronglySorted (fun a b => (key b <= key a)%Q) l.

(** The groups of a list: distinct keys, every group non-empty and made of
    the elements of the list with its key, every element in the group of its
    key. *)
Definition groups_of {K A : Type} (key : A -> K) (l : list A) (g : list (K * list A)) : Prop :=
  List.NoDup (map fst g)
  /\ (forall k grp, In (k, grp) g ->
        grp <> [] /\ forall y, In y grp -> key y = k /\ In y l)
  /\ (forall y, In y l -> exists grp, In (key y, grp) g /\ In y grp).

(** The invariant of the scan loop: every descriptor collected so far has
    its confidence in the unit interval. *)
Definition scan_ok (st : scan_state) : Prop :=
  Forall in_unit_interval (scan_candidates st)
  /\ forall key l, scan_buttons st !! key = Some l -> Forall in_unit_interval l.

(** ** Further functions of [decision_handler.py] *)

(** [add_custom_decision_point], for a definition whose keys are those of
    the [DecisionPoint] constructor. *)
Definition add_custom_decision_point (page : Decision.Page) (self : Decision.DecisionHandler)
    (name description : string) (detection_criteria : Decision.Criteria)
    (options : list Decision.OptionDef) : Decision.DecisionHandler :=
  let new_decision :=
    {| Decision.name := name; Decision.description := description;
       Decision.detection_criteria := detection_criteria;
       Decision.options := options |} in
  let points :=
    if negb (existsb (fun dp => String.eqb (Decision.name dp) name)
                     (Decision.decision_points self))
    then (Decision.decision_points self ++ [new_decision])%list
    else Decision.decision_points self in
  let custom_defs := Decision.custom_decision_definitions (Decision.preferences self) in
  let custom_defs :=
    List.filter (fun d => negb (String.eqb (Decision.name d) name)) custom_defs in
  let custom_defs := (custom_defs ++ [new_decision])%list in
  Decision._save_preferences page
    {| Decision.preferences :=
         {| Decision.decisions := Decision.decisions (Decision.preferences self);
            Decision.custom_decision_definitions := custom_defs |};
       Decision.decision_points := points;
       Decision.preferences_file := Decision.preferences_file self |}.

(** The decision point a handler holds under a name. *)
Definition point_named (self : Decision.DecisionHandler) (name : string)
    : option Decision.DecisionPoint :=
  List.find (fun dp => String.eqb (Decision.name dp) name) (Decision.decision_points self).

(** ** [CustomComponentHandler] *)

Definition custom_indicators : list string :=
  ["select2"; "chosen"; "multiselect"; "datepicker"; "calendar"; "typeahead";
   "autocomplete"; "react-select"; "MuiInputBase"].

(** [is_custom_component]; the element is read through its attribute
    bundle only. *)
Definition is_custom_component (element_data : ElementData) : bool :=
  let tag_name := ed_tag element_data in
  if negb (bool_decide (tag_name ∈ ["input"; "select"; "textarea"; "button"]))
     && bool_decide (ed_role element_data
                     ∈ ["combobox"; "listbox"; "textbox"; "searchbox"; "slider"; "datepicker"])
  then true
  else
    let class_name := Str.lower (ed_class element_data) in
    existsb (fun indicator => Str.contains indicator class_name) custom_indicators.

(** ** More text helpers *)

Module Text.

(** [s.isnumeric()] on ASCII. *)
Definition isnumeric (s : string) : bool :=
  Str.truthy s && forallb Str.is_digit (list_ascii_of_string s).

(** [s[:n]] *)
Definition take (n : nat) (s : string) : string := String.substring 0 n s.

(** [s.replace(c, by)] for a one-character [c]. *)
Fixpoint replace_char (c : ascii) (by_ : string) (s : string) : string :=
  match s with
  | EmptyString => EmptyString
  | String a s' =>
      if Ascii.eqb a c then by_ ++ replace_char c by_ s'
      else String a (replace_char c by_ s')
  end.

(** The loop of [s.split()]: [cur] is the word being read, reversed. *)
Fixpoint split_go (cs cur : list ascii) : list string :=
  match cs with
  | [] =>
      match cur with
      | [] => []
      | _ :: _ => [string_of_list_ascii (rev cur)]
      end
  | c :: cs' =>
      if Str.is_space c then
        match cur with
        | [] => split_go cs' []
        | _ :: _ => string_of_list_ascii (rev cur) :: split_go cs' []
        end
      else split_go cs' (c :: cur)
  end.

(** [s.split()] *)
Definition split (s : string) : list string := split_go (list_ascii_of_string s) [].

(** The characters of the class of [generate_robust_selector]'s [re.sub]:
    the double quote and the other ASCII punctuation a CSS string has to
    escape. *)
Definition is_css_special (c : ascii) : bool :=
  existsb (Ascii.eqb c)
          (ascii_of_nat 34 :: list_ascii_of_string "!#$%&'()*+,./:;<=>?@[\]^`{|}~").

(** [re.sub(r'([...])', r'\\\1', val)]: a backslash before every
    character of the class. *)
Fixpoint css_escape (val : string) : string :=
  match val with
  | EmptyString => EmptyString
  | String c val' =>
      if is_css_special c then String "\" (String c (css_escape val'))
      else String c (css_escape val')
  end.

(** Reading an escaped value back: a backslash gives way to the character
    after it. *)
Fixpoint css_unescape (escaped : string) : string :=
  match escaped with
  | EmptyString => EmptyString
  | String c rest =>
      if Ascii.eqb c "\" then
        match rest with
        | String c' rest' => String c' (css_unescape rest')
        | EmptyString => EmptyString
        end
      else String c (css_unescape rest)
  end.

End Text.

(** ** Driving the page

    The methods of [UniversalFormFiller] and of its helpers that act on the
    page.  A call of the Playwright API is an operation on the state of the
    browser: it returns a value or raises, and leaves a new state.  A
    function of the source becomes a function from the state before it to
    its result, the state after it and the actions that went through, in
    order.  Timeouts and click delays are left to the browser. *)

Module Flow.

Inductive exn := PlaywrightError | PlaywrightTimeoutError | OtherException.

(** [isinstance(e, PlaywrightError)]; the timeout error is a subclass. *)
Definition is_PlaywrightError (e : exn) : bool :=
  match e with
  | OtherException => false
  | _ => true
  end.

Inductive outcome (A : Type) : Type :=
| Ok (a : A)
| Raise (e : exn).

Arguments Ok {A} a.
Arguments Raise {A} e.

(** A locator: the element of a [FormField] (its position in the scan), an
    element of [page.locator(selector).all()], an element of
    [element.locator("option").all()], or [element.locator(selector).first]. *)
Inductive Locator :=
| Scanned (position : nat)
| Located (selector : string) (index : nat)
| OptionOf (select : Locator) (index : nat)
| FirstWithin (parent : Locator) (selector : string).

(** The calls that change the page. *)
Inductive action :=
| Click (target : Locator)
| SetChecked (target : Locator) (checked : bool)
| Check (target : Locator)
| SelectValue (target : Locator) (value : string)
| SelectLabel (target : Locator) (label : string)
| Fill (target : Locator) (text : string)
| TypeText (target : Locator) (text : string)
| Press (target : Locator) (key : string)
| DispatchEvent (target : Locator) (event_name : string)
| SetInputFiles (target : Locator) (path : string)
| Evaluate (target : Locator) (script : string) (arg : option string).

(** The Playwright calls of the modelled functions, on a state [W] of the
    browser and of what else the functions consult (the file system, the
    random generator).  [locator_count selector] is the length of
    [page.locator(selector).all()], [option_count] that of
    [element.locator("option").all()]; [get_attribute] and [text_content]
    answer [None] for JavaScript's [null]; [tag_name] is
    [element.evaluate("el => el.tagName.toLowerCase()")]. *)
Record Playwright (W : Type) := {
  is_attached : Locator -> W -> outcome bool * W;
  is_visible : Locator -> W -> outcome bool * W;
  is_enabled : Locator -> W -> outcome bool * W;
  is_checked : Locator -> W -> outcome bool * W;
  get_attribute : Locator -> string -> W -> outcome (option string) * W;
  text_content : Locator -> W -> outcome (option string) * W;
  scroll_into_view_if_needed : Locator -> W -> outcome unit * W;
  locator_count : string -> W -> outcome nat * W;
  option_count : Locator -> W -> outcome nat * W;
  wait_for_timeout : W -> outcome unit * W;
  click : Locator -> W -> outcome unit * W;
  set_checked : Locator -> bool -> W -> outcome unit * W;
  check : Locator -> W -> outcome unit * W;
  select_option_value : Locator -> string -> W -> outcome unit * W;
  select_option_label : Locator -> string -> W -> outcome unit * W;
  fill : Locator -> string -> W -> outcome unit * W;
  type : Locator -> string -> W -> outcome unit * W;
  press : Locator -> string -> W -> outcome unit * W;
  dispatch_event : Locator -> string -> W -> outcome unit * W;
  tag_name : Locator -> W -> outcome string * W;
  evaluate : Locator -> string -> option string -> W -> outcome unit * W;
  set_input_files : Locator -> string -> W -> outcome unit * W;
  path_exists : string -> W -> outcome bool * W;
  path_is_file : string -> W -> outcome bool * W;
  randint : Z -> Z -> W -> Z * W
}.

Arguments is_attached {W} _ _ _.
Arguments is_visible {W} _ _ _.
Arguments is_enabled {W} _ _ _.
Arguments is_checked {W} _ _ _.
Arguments get_attribute {W} _ _ _ _.
Arguments text_content {W} _ _ _.
Arguments scroll_into_view_if_needed {W} _ _ _.
Arguments locator_count {W} _ _ _.
Arguments option_count {W} _ _ _.
Arguments wait_for_timeout {W} _ _.
Arguments click {W} _ _ _.
Arguments set_checked {W} _ _ _ _.
Arguments check {W} _ _ _.
Arguments select_option_value {W} _ _ _ _.
Arguments select_option_label {W} _ _ _ _.
Arguments fill {W} _ _ _ _.
Arguments type {W} _ _ _ _.
Arguments press {W} _ _ _ _.
Arguments dispatch_event {W} _ _ _ _.
Arguments tag_name {W} _ _ _.
Arguments evaluate {W} _ _ _ _ _.
Arguments set_input_files {W} _ _ _ _.
Arguments path_exists {W} _ _ _.
Arguments path_is_file {W} _ _ _.
Arguments randint {W} _ _ _ _.

(** A computation: result, state after it, actions that went through. *)
Definition M (W A : Type) : Type := W -> outcome A * W * list action.

Definition ret {W A : Type} (a : A) : M W A := fun w => (Ok a, w, []).

Definition raise {W A : Type} (e : exn) : M W A := fun w => (Raise e, w, []).

Definition bind {W A B : Type} (m : M W A) (k : A -> M W B) : M W B :=
  fun w =>
    match m w with
    | (Ok a, w1, done1) => let '(r, w2, done2) := k a w1 in (r, w2, (done1 ++ done2)%list)
    | (Raise e, w1, done1) => (Raise e, w1, done1)
    end.

(** [try: m  except Exception as e: handler e] *)
Definition catch {W A : Type} (m : M W A) (handler : exn -> M W A) : M W A :=
  fun w =>
    match m w with
    | (Ok a, w1, done1) => (Ok a, w1, done1)
    | (Raise e, w1, done1) =>
        let '(r, w2, done2) := handler e w1 in (r, w2, (done1 ++ done2)%list)
    end.

(** A call that only reads. *)
Definition read {W A : Type} (op : W -> outcome A * W) : M W A :=
  fun w => let '(r, w') := op w in (r, w', []).

(** A call that changes the page: the action counts when it returns. *)
Definition act {W : Type} (a : action) (op : W -> outcome unit * W) : M W unit :=
  fun w =>
    match op w with
    | (Ok _, w') => (Ok tt, w', [a])
    | (Raise e, w') => (Raise e, w', [])
    end.

Notation "x <~ m ;; k" := (bind m (fun x => k))
  (at level 100, m at next level, right associativity).

Notation "m ;;; k" := (bind m (fun _ => k))
  (at level 100, right associativity).

Section Filler.

Context {W : Type} (page : Playwright W).

(** [a.f() and b.g()] on two reads. *)
Definition and_then (a b : M W bool) : M W bool :=
  x <~ a ;; if x then b else ret false.

(** [_is_element_interactable] *)
Definition _is_element_interactable (element : Locator) : M W bool :=
  catch
    (attached <~ read (is_attached page element) ;;
     if negb attached then ret false
     else and_then (read (is_visible page element)) (read (is_enabled page element)))
    (fun _ => ret false).

(** [AntiDetectionManager.random_delay]: a wait of a random length. *)
Definition random_delay : M W unit := read (wait_for_timeout page).

(** [page.locator(selector).all()] *)
Definition locator_all (selector : string) : M W (list Locator) :=
  n <~ read (locator_count page selector) ;;
  ret (map (Located selector) (seq 0 n)).

Definition generic_next_selectors : list string :=
  [ "button:has-text('Next' i)"; "button:has-text('Continue' i)";
    "button:has-text('Proceed' i)";
    "input[type='button'][value*='Next' i]"; "input[type='button'][value*='Continue' i]";
    "a:has-text('Next' i)"; "a:has-text('Continue' i)";
    "[data-automation-id*='next']"; "[data-automation-id*='continue']";
    "[role='button']:has-text('Next' i)"; "[role='button']:has-text('Continue' i)" ].

(** The body of the [try] of [navigate_next] for one button: [true] is
    [return True]. *)
Definition click_next_button (button : Locator) : M W bool :=
  shown <~ and_then (read (is_visible page button)) (read (is_enabled page button)) ;;
  if shown then
    read (scroll_into_view_if_needed page button) ;;;
    act (Click button) (click page button) ;;;
    random_delay ;;;
    ret true
  else ret false.

(** [for button in elements] inside the [try] of a generic selector. *)
Fixpoint next_among (elements : list Locator) : M W bool :=
  match elements with
  | [] => ret false
  | button :: rest =>
      clicked <~ click_next_button button ;;
      if clicked then ret true else next_among rest
  end.

(** [for selector in generic_next_selectors], an exception moving on to
    the next selector. *)
Fixpoint next_by_selectors (selectors : list string) : M W bool :=
  match selectors with
  | [] => ret false
  | selector :: rest =>
      clicked <~ catch (elements <~ locator_all selector ;; next_among elements)
                       (fun _ => ret false) ;;
      if clicked then ret true else next_by_selectors rest
  end.

(** [for ff_button in action_buttons_analysis], an exception moving on to
    the next button. *)
Fixpoint next_among_analysed (buttons : list FormField) : M W bool :=
  match buttons with
  | [] => ret false
  | ff_button :: rest =>
      clicked <~ catch (click_next_button (Scanned (element ff_button)))
                       (fun _ => ret false) ;;
      if clicked then ret true else next_among_analysed rest
  end.

(** [MultiStepFormHandler.navigate_next] *)
Definition navigate_next (action_buttons_analysis : list FormField) : M W bool :=
  match action_buttons_analysis with
  | [] => next_by_selectors generic_next_selectors
  | _ :: _ => next_among_analysed action_buttons_analysis
  end.

(** [safe_get_text_content] *)
Definition safe_get_text_content (element : Locator) (default : string) : M W string :=
  catch
    (attached <~ read (is_attached page element) ;;
     if attached then
       text <~ read (text_content page element) ;;
       ret (match text with
            | Some t => if Str.truthy t then t else default
            | None => default
            end)
     else ret default)
    (fun _ => ret default).

(** [safe_get_attribute] *)
Definition safe_get_attribute (element : Locator) (attribute default : string)
    : M W string :=
  catch
    (attached <~ read (is_attached page element) ;;
     if attached then
       value <~ read (get_attribute page element attribute) ;;
       ret (match value with
            | Some v => if Str.truthy v then v else default
            | None => default
            end)
     else ret default)
    (fun _ => ret default).

Definition submit_selectors : list string :=
  [ "button[type='submit']:visible"; "input[type='submit']:visible";
    "button:has-text('Submit' i):visible"; "button:has-text('Apply' i):visible";
    "button:has-text('Finish' i):visible"; "button:has-text('Complete' i):visible";
    "[data-automation-id*='submit']:visible"; "[data-automation-id*='finish']:visible";
    "[role='button']:has-text('Submit' i):visible" ].

(** [for button in elements] inside the [try] of a submit selector. *)
Fixpoint submit_among (elements : list Locator) : M W bool :=
  match elements with
  | [] => ret false
  | button :: rest =>
      interactable <~ _is_element_interactable button ;;
      if interactable then
        safe_get_text_content button "" ;;;
        read (scroll_into_view_if_needed page button) ;;;
        act (Click button) (click page button) ;;;
        ret true
      else submit_among rest
  end.

Fixpoint submit_by_selectors (selectors : list string) : M W bool :=
  match selectors with
  | [] => ret false
  | selector :: rest =>
      clicked <~ catch (elements <~ locator_all selector ;; submit_among elements)
                       (fun _ => ret false) ;;
      if clicked then ret true else submit_by_selectors rest
  end.

(** [_submit_form_fallback] *)
Definition _submit_form_fallback : M W bool := submit_by_selectors submit_selectors.

(** [for ff_button in action_buttons] of [_attempt_to_submit_or_navigate]:
    [true] is [action_taken]. *)
Fixpoint click_analysed (buttons : list FormField) : M W bool :=
  match buttons with
  | [] => ret false
  | ff_button :: rest =>
      clicked <~ catch
        (let button_loc := Scanned (element ff_button) in
         interactable <~ _is_element_interactable button_loc ;;
         if interactable then
           read (scroll_into_view_if_needed page button_loc) ;;;
           act (Click button_loc) (click page button_loc) ;;;
           ret true
         else ret false)
        (fun _ => ret false) ;;
      if clicked then ret true else click_analysed rest
  end.

(** [analysis_result.action_buttons.get(key, [])] *)
Definition buttons_of (analysis_result : FormAnalysisResult) (key : string) : list FormField :=
  default [] (action_buttons analysis_result !! key).

(** The analysis after [action_buttons.extend(...)] on the last step: the
    list that is extended is the one stored under ['submit'], when there
    is one. *)
Definition extend_submit_with_apply (analysis_result : FormAnalysisResult)
    : FormAnalysisResult :=
  match action_buttons analysis_result !! "submit" with
  | Some submit =>
      {| form_purpose := form_purpose analysis_result;
         detected_fields := detected_fields analysis_result;
         action_buttons :=
           <["submit" := (submit ++ buttons_of analysis_result "apply")%list]>
             (action_buttons analysis_result) |}
  | None => analysis_result
  end.

(** [_attempt_to_submit_or_navigate]: the returned boolean and the
    analysis as the call leaves it. *)
Definition _attempt_to_submit_or_navigate (analysis_result : FormAnalysisResult)
    (is_last_data_step : bool) : M W (bool * FormAnalysisResult) :=
  let button_type_to_click := if is_last_data_step then "submit" else "next" in
  let action_buttons := buttons_of analysis_result button_type_to_click in
  let extended :=
    is_last_data_step && String.eqb button_type_to_click "submit"
    && match action_buttons with [] => true | _ :: _ => false end in
  let action_buttons :=
    if extended then (action_buttons ++ buttons_of analysis_result "apply")%list
    else action_buttons in
  let analysis_after :=
    if extended then extend_submit_with_apply analysis_result else analysis_result in
  action_taken <~ click_analysed action_buttons ;;
  if action_taken then ret (true, analysis_after)
  else if negb is_last_data_step then
    navigated <~ navigate_next (buttons_of analysis_after "next") ;;
    if navigated then ret (true, analysis_after)
    else
      navigated <~ navigate_next [] ;;
      ret (navigated, analysis_after)
  else
    submitted <~ _submit_form_fallback ;;
    ret (submitted, analysis_after).

(** [safe_get_tag_name] *)
Definition safe_get_tag_name (element : Locator) : M W string :=
  catch
    (attached <~ read (is_attached page element) ;;
     if attached then read (tag_name page element) else ret "unknown")
    (fun _ => ret "unknown").

Definition attrs_priority : list string :=
  ["data-testid"; "data-cy"; "id"; "name"; "data-qa"; "aria-label"; "data-automation-id"].

(** [val and not val.isnumeric() and not re.match(r'^[a-f0-9-]{20,}$', val)] *)
Definition usable_value (val : string) : bool :=
  Str.truthy val && negb (Text.isnumeric val)
  && negb (re_found false "^[a-f0-9-]{20,}$" val).

(** [f"{tag_name}[{attr}='{escaped_val}']"] *)
Definition attribute_selector (tag_name attr val : string) : string :=
  tag_name ++ "[" ++ attr ++ "='" ++ Text.css_escape val ++ "']".

(** [for attr in attrs_priority] of [generate_robust_selector]. *)
Fixpoint selector_by_attribute (element : Locator) (tag_name : string)
    (attrs : list string) : M W (option string) :=
  match attrs with
  | [] => ret None
  | attr :: rest =>
      val <~ safe_get_attribute element attr "" ;;
      if usable_value val then ret (Some (attribute_selector tag_name attr val))
      else selector_by_attribute element tag_name rest
  end.

Definition framework_class_prefixes : list string :=
  ["css-"; "sc-"; "styled__"; "style-"; "ember"; "m-"; "p-"; "w-"; "h-"].

Definition generic_classes : list string :=
  ["input"; "form-control"; "field"; "button"; "label"; "active"; "focus"].

(** The classes that [generate_robust_selector] accepts, in order. *)
Definition selector_classes (class_name : string) : list string :=
  List.filter (fun c =>
                 (3 <? String.length c)%nat
                 && negb (existsb (fun prefix => Str.startswith prefix c)
                                  framework_class_prefixes)
                 && negb (bool_decide (c ∈ generic_classes)))
              (Text.split class_name).

(** [generate_robust_selector(element, tag_hint)] *)
Definition generate_robust_selector (element : Locator) (tag_hint : option string)
    : M W string :=
  catch
    (attached <~ read (is_attached page element) ;;
     if negb attached then ret "detached_element"
     else
       tag_name <~ (match tag_hint with
                    | Some hint => if Str.truthy hint then ret hint
                                   else safe_get_tag_name element
                    | None => safe_get_tag_name element
                    end) ;;
       by_attribute <~ selector_by_attribute element tag_name attrs_priority ;;
       match by_attribute with
       | Some selector => ret selector
       | None =>
           placeholder <~ safe_get_attribute element "placeholder" "" ;;
           if String.eqb tag_name "input" && Str.truthy placeholder then
             input_type <~ safe_get_attribute element "type" "text" ;;
             let escaped_placeholder :=
               Text.replace_char "'" "\'" (Text.take 30 placeholder) in
             ret ("input[type='" ++ input_type ++ "'][placeholder*='"
                  ++ escaped_placeholder ++ "']")
           else
             class_name <~ safe_get_attribute element "class" "" ;;
             match selector_classes class_name with
             | c :: _ => ret (tag_name ++ "." ++ c)
             | [] => ret (if String.eqb tag_name "unknown" then "unknown_selector"
                          else tag_name)
             end
       end)
    (fun _ => ret "unknown_selector_error").

(** The selector an error message is built from; the message goes to the
    log. *)
Definition log_selector (element : Locator) : M W unit :=
  generate_robust_selector element None ;;; ret tt.

(** [_fill_checkbox] *)
Definition _fill_checkbox (element : Locator) (should_be_checked : bool) : M W bool :=
  catch
    (read (scroll_into_view_if_needed page element) ;;;
     current_is_checked <~ read (is_checked page element) ;;
     if negb (Bool.eqb current_is_checked should_be_checked) then
       act (Click element) (click page element) ;;;
       read (wait_for_timeout page) ;;;
       after_click <~ read (is_checked page element) ;;
       if negb (Bool.eqb after_click should_be_checked) then
         log_selector element ;;;
         act (SetChecked element should_be_checked)
             (set_checked page element should_be_checked) ;;;
         after_set <~ read (is_checked page element) ;;
         if negb (Bool.eqb after_set should_be_checked) then
           log_selector element ;;; ret false
         else ret true
       else ret true
     else ret true)
    (fun _ => log_selector element ;;; ret false).

(** [_fill_radio_button] *)
Definition _fill_radio_button (element : Locator) : M W bool :=
  catch
    (read (scroll_into_view_if_needed page element) ;;;
     checked <~ read (is_checked page element) ;;
     (if negb checked then act (Check element) (check page element) else ret tt) ;;;
     ret true)
    (fun _ => log_selector element ;;; ret false).

(** [try: m; return True  except PlaywrightError: pass]: [true] is the
    return. *)
Definition unless_playwright_error (m : M W unit) : M W bool :=
  catch (m ;;; ret true)
        (fun e => if is_PlaywrightError e then ret false else raise e).

(** [for opt_loc in options] of [_fill_select_dropdown]. *)
Fixpoint select_by_partial_label (element : Locator) (value_to_select : string)
    (options : list Locator) : M W bool :=
  match options with
  | [] => ret false
  | opt_loc :: rest =>
      text <~ safe_get_text_content opt_loc "" ;;
      let opt_text := Str.strip text in
      opt_val <~ safe_get_attribute opt_loc "value" "" ;;
      if Str.contains (Str.lower value_to_select) (Str.lower opt_text) then
        (if negb (Str.truthy opt_val)
         then act (SelectLabel element opt_text) (select_option_label page element opt_text)
         else act (SelectValue element opt_val) (select_option_value page element opt_val)) ;;;
        ret true
      else select_by_partial_label element value_to_select rest
  end.

(** [_fill_select_dropdown] *)
Definition _fill_select_dropdown (element : Locator) (value_to_select : string)
    : M W bool :=
  catch
    (read (scroll_into_view_if_needed page element) ;;;
     by_value <~ unless_playwright_error
                   (act (SelectValue element value_to_select)
                        (select_option_value page element value_to_select)) ;;
     if by_value then ret true
     else
       by_label <~ unless_playwright_error
                     (act (SelectLabel element value_to_select)
                          (select_option_label page element value_to_select)) ;;
       if by_label then ret true
       else
         catch
           (n <~ read (option_count page element) ;;
            select_by_partial_label element value_to_select
              (map (OptionOf element) (seq 0 n)))
           (fun _ => ret false))
    (fun _ => log_selector element ;;; ret false).

(** [for event_name in ["input", "change", "blur"]:
       try: element.dispatch_event(event_name)
       except PlaywrightError: pass] *)
Fixpoint dispatch_events_of (element : Locator) (event_names : list string) : M W unit :=
  match event_names with
  | [] => ret tt
  | event_name :: rest =>
      catch (act (DispatchEvent element event_name) (dispatch_event page element event_name))
            (fun e => if is_PlaywrightError e then ret tt else raise e) ;;;
      dispatch_events_of element rest
  end.

Definition dispatch_events (element : Locator) : M W unit :=
  dispatch_events_of element ["input"; "change"; "blur"].

(** [random.randint(lo, hi)] *)
Definition random_int (lo hi : Z) : M W Z :=
  fun w => let '(z, w') := randint page lo hi w in (Ok z, w', []).

(** [for idx, char in enumerate(text)] of [human_type], from index
    [idx]. *)
Fixpoint type_chars (element : Locator) (chars : list ascii) (idx : nat) : M W unit :=
  match chars with
  | [] => ret tt
  | char :: rest =>
      act (TypeText element (String char EmptyString))
          (type page element (String char EmptyString)) ;;;
      (if (0 <? idx)%nat then
         pause_every <~ random_int 8 15 ;;
         if (Z.of_nat idx mod pause_every =? 0)%Z then read (wait_for_timeout page)
         else ret tt
       else ret tt) ;;;
      type_chars element rest (S idx)
  end.

(** [AntiDetectionManager.human_type] *)
Definition human_type (element : Locator) (text : string) : M W unit :=
  catch
    (read (scroll_into_view_if_needed page element) ;;;
     act (Click element) (click page element) ;;;
     random_delay ;;;
     act (Fill element "") (fill page element "") ;;;
     type_chars element (list_ascii_of_string text) 0 ;;;
     dispatch_events element)
    (fun e =>
       if is_PlaywrightError e then
         catch
           (usable <~ and_then (read (is_attached page element))
                               (read (is_enabled page element)) ;;
            if usable then act (Fill element text) (fill page element text) else ret tt)
           (fun _ => ret tt)
       else ret tt).

(** [_fill_standard_text_field], [enable_anti_detection] being
    [self.config.get("enable_anti_detection", True)]. *)
Definition _fill_standard_text_field (enable_anti_detection : bool) (element : Locator)
    (value : string) (is_content_editable : bool) : M W bool :=
  catch
    (read (scroll_into_view_if_needed page element) ;;;
     (if enable_anti_detection then human_type element value
      else act (Fill element value) (fill page element value)) ;;;
     dispatch_events element ;;;
     ret true)
    (fun e =>
       if is_PlaywrightError e then
         if negb is_content_editable then
           catch
             (act (Press element "Control+A") (press page element "Control+A") ;;;
              act (Press element "Delete") (press page element "Delete") ;;;
              act (TypeText element value) (type page element value) ;;;
              dispatch_events element ;;;
              ret true)
             (fun _ => ret false)
         else ret false
       else ret false).

(** What the filling functions read of a value of the form data:
    [str(value)], [bool(value)] and [isinstance(value, (str, Path))]. *)
Record Value := {
  value_str : string;
  value_truthy : bool;
  value_is_str_or_path : bool
}.

(** [FileUploadHandler.handle_file_upload] *)
Definition handle_file_upload (field_match : FormField) (file_path_str : string)
    : M W bool :=
  catch
    (is_file <~ and_then (read (path_exists page file_path_str))
                         (read (path_is_file page file_path_str)) ;;
     if negb is_file then ret false
     else
       let element_loc := Scanned (element field_match) in
       shown <~ and_then (read (is_visible page element_loc))
                         (read (is_enabled page element_loc)) ;;
       (if negb shown then
          let make_visible :=
            "el => { el.style.display = 'block'; el.style.visibility = 'visible'; el.style.opacity = '1'; }" in
          catch
            (act (Evaluate element_loc make_visible None)
                 (evaluate page element_loc make_visible None) ;;;
             read (wait_for_timeout page))
            (fun _ => ret tt)
        else ret tt) ;;;
       act (SetInputFiles element_loc file_path_str)
           (set_input_files page element_loc file_path_str) ;;;
       read (wait_for_timeout page) ;;;
       ret true)
    (fun _ => ret false).

(** [CustomComponentHandler.fill_custom_component] *)
Definition fill_custom_component (element : Locator) (value : string) : M W bool :=
  catch
    (read (scroll_into_view_if_needed page element) ;;;
     act (Click element) (click page element) ;;;
     read (wait_for_timeout page) ;;;
     let input_within :=
       FirstWithin element
         "input[type='text'], input[type='search'], [role='searchbox'], [role='textbox']" in
     input_shown <~ read (is_visible page input_within) ;;
     let target_type_element := if input_shown then input_within else element in
     act (Fill target_type_element "") (fill page target_type_element "") ;;;
     act (TypeText target_type_element value) (type page target_type_element value) ;;;
     read (wait_for_timeout page) ;;;
     act (Press target_type_element "Enter") (press page target_type_element "Enter") ;;;
     read (wait_for_timeout page) ;;;
     ret true)
    (fun _ =>
       catch
         (act (Evaluate element "el => el.value = arguments[0]" (Some value))
              (evaluate page element "el => el.value = arguments[0]" (Some value)) ;;;
          act (DispatchEvent element "change") (dispatch_event page element "change") ;;;
          ret true)
         (fun _ => ret false)).

(** The first lines of the [try] of [_fill_single_field]: [false] is
    [return False]. *)
Definition ensure_interactable (element_loc : Locator) : M W bool :=
  interactable <~ _is_element_interactable element_loc ;;
  if negb interactable then
    catch (read (scroll_into_view_if_needed page element_loc)) (fun _ => ret tt) ;;;
    _is_element_interactable element_loc
  else ret true.

(** [_fill_single_field].  The attribute bundle has no [contenteditable]
    entry, so [field_match.attributes.get('contenteditable') == 'true'] is
    [False]. *)
Definition _fill_single_field (enable_anti_detection : bool) (field_match : FormField)
    (value : Value) : M W bool :=
  let element_loc := Scanned (element field_match) in
  let field_type := field_type field_match in
  let element_html_type := element_type_html field_match in
  let input_type_attr := Str.lower (ed_type (attributes field_match)) in
  let contenteditable := false in
  catch
    (ready <~ ensure_interactable element_loc ;;
     if negb ready then ret false
     else if bool_decide (field_type ∈ [RESUME_FILE; COVER_LETTER_FILE]) then
       if negb (value_is_str_or_path value) then ret false
       else handle_file_upload field_match (value_str value)
     else if String.eqb element_html_type "input" && String.eqb input_type_attr "checkbox" then
       _fill_checkbox element_loc (value_truthy value)
     else if String.eqb element_html_type "input" && String.eqb input_type_attr "radio" then
       if value_truthy value then _fill_radio_button element_loc else ret true
     else if String.eqb element_html_type "select" then
       _fill_select_dropdown element_loc (value_str value)
     else if is_custom_component (attributes field_match) then
       fill_custom_component element_loc (value_str value)
     else if bool_decide (element_html_type ∈ ["input"; "textarea"]) || contenteditable then
       _fill_standard_text_field enable_anti_detection element_loc (value_str value)
                                 contenteditable
     else ret false)
    (fun _ => ret false).

(** [FillAttemptResult.success]: [True], ["partial"] or [False]. *)
Inductive Success := SuccessTrue | SuccessPartial | SuccessFalse.

(** [FillAttemptResult], without the duration. *)
Record FillAttemptResult := {
  success : Success;
  status_message : string;
  fields_filled_count : nat;
  fields_attempted_count : nat;
  errors : list string;
  skipped_fields : list string;
  step_number : option nat
}.

(** The first loop of [_fill_current_page_fields]: the fields to attempt
    and the entries of [skipped_fields]. *)
Fixpoint fields_to_attempt_fill (form_data_for_current_step : list (FieldType * Value))
    (detected_fields : gmap FieldType FormField)
    : list (FormField * Value) * list string :=
  match form_data_for_current_step with
  | [] => ([], [])
  | (field_type_enum, value_to_fill) :: rest =>
      let '(fields, skipped) := fields_to_attempt_fill rest detected_fields in
      match detected_fields !! field_type_enum with
      | Some detected_form_field => ((detected_form_field, value_to_fill) :: fields, skipped)
      | None =>
          (fields, (FieldTypeEnum.value field_type_enum ++ " (not detected)") :: skipped)
      end
  end.

(** The counters, lists and session set that the second loop updates. *)
Record fill_progress := {
  filled : nat;
  fill_errors : list string;
  fill_skipped : list string;
  filled_fields_session : gset (string * FieldType)
}.

(** The second loop of [_fill_current_page_fields]. *)
Fixpoint fill_fields (enable_anti_detection : bool) (attempted : nat)
    (fields : list (FormField * Value)) (st : fill_progress) : M W fill_progress :=
  match fields with
  | [] => ret st
  | (form_field_obj, value) :: rest =>
      let field_type_str := FieldTypeEnum.value (field_type form_field_obj) in
      ok <~ _fill_single_field enable_anti_detection form_field_obj value ;;
      if ok then
        let st :=
          {| filled := S (filled st);
             fill_errors := fill_errors st;
             fill_skipped := fill_skipped st;
             filled_fields_session :=
               {[ (selector form_field_obj, field_type form_field_obj) ]}
               ∪ filled_fields_session st |} in
        (if enable_anti_detection && (filled st <? attempted)%nat then random_delay
         else ret tt) ;;;
        fill_fields enable_anti_detection attempted rest st
      else
        fill_fields enable_anti_detection attempted rest
          {| filled := filled st;
             fill_errors :=
               (fill_errors st
                ++ [("Failed to fill " ++ field_type_str ++ " ('"
                     ++ selector form_field_obj ++ "')")%string])%list;
             fill_skipped :=
               (fill_skipped st ++ [(field_type_str ++ " (fill error)")%string])%list;
             filled_fields_session := filled_fields_session st |}
  end.

(** [_fill_current_page_fields]: the result and the session set, the
    configuration giving [enable_anti_detection] and the form context
    [current_step]. *)
Definition _fill_current_page_fields (enable_anti_detection : bool) (current_step : nat)
    (session : gset (string * FieldType))
    (form_data_for_current_step : list (FieldType * Value))
    (analysis_result : FormAnalysisResult)
    : M W (FillAttemptResult * gset (string * FieldType)) :=
  if bool_decide (detected_fields analysis_result = ∅) then
    ret ({| success := SuccessFalse;
            status_message := "No fields were detected by analysis on this page/step.";
            fields_filled_count := 0; fields_attempted_count := 0;
            errors := []; skipped_fields := []; step_number := Some current_step |},
         session)
  else
    let '(fields, skipped) :=
      fields_to_attempt_fill form_data_for_current_step (detected_fields analysis_result) in
    let attempted := length fields in
    match fields with
    | [] =>
        ret ({| success := match form_data_for_current_step with
                           | [] => SuccessTrue
                           | _ :: _ => SuccessFalse
                           end;
                status_message :=
                  "No matching fields to fill based on provided data and page detection.";
                fields_filled_count := 0; fields_attempted_count := attempted;
                errors := []; skipped_fields := skipped;
                step_number := Some current_step |},
             session)
    | _ :: _ =>
        st <~ fill_fields enable_anti_detection attempted fields
                {| filled := 0; fill_errors := []; fill_skipped := skipped;
                   filled_fields_session := session |} ;;
        let '(success, status_message) :=
          if (filled st =? attempted)%nat then
            (SuccessTrue,
             "Successfully filled all " ++ pretty (filled st) ++ " attempted fields.")
          else if (0 <? filled st)%nat then
            (SuccessPartial,
             "Partially filled: " ++ pretty (filled st) ++ "/" ++ pretty attempted
             ++ " fields.")
          else
            (SuccessFalse,
             match fill_errors st, fill_skipped st with
             | [], _ :: _ =>
                 "All fields provided in data were skipped (not detected or fill error)."
             | _, _ => "Failed to fill any of the attempted fields."
             end) in
        ret ({| success := success; status_message := status_message;
                fields_filled_count := filled st; fields_attempted_count := attempted;
                errors := fill_errors st; skipped_fields := fill_skipped st;
                step_number := Some current_step |},
             filled_fields_session st)
    end.

End Filler.

(** *** Popups, CAPTCHA and the steps of an application *)

(** What the loop over the steps reads of the analysis of a page: the
    fields and buttons, the errors and the step indicators. *)
Record PageAnalysis := {
  analysis : FormAnalysisResult;
  analysis_errors : list string;
  is_multi_step_form : bool;
  current_step_on_page : Z;
  total_steps_on_page : Z
}.

(** [OverallApplicationResult], without the URL and the time. *)
Record OverallApplicationResult := {
  total_steps_provided_in_data : nat;
  steps_attempted_on_site : nat;
  steps_successfully_filled : nat;
  total_fields_filled_across_steps : nat;
  final_status : string;
  overall_errors : list string;
  step_details : list FillAttemptResult
}.

(** The calls of the loop over the steps that are not modelled further:
    [page.is_closed()], [page.screenshot(path=...)], the stability wait
    with its timeout and window, the analysis of the current page, and
    [str(e)] of an exception. *)
Record Site (W : Type) := {
  is_closed : W -> outcome bool * W;
  screenshot : string -> W -> outcome unit * W;
  wait_for_intelligent_stability : Z -> Z -> W -> outcome bool * W;
  _analyze_page_and_detect_fields : W -> outcome PageAnalysis * W;
  str : exn -> string
}.

Arguments is_closed {W} _ _.
Arguments screenshot {W} _ _ _.
Arguments wait_for_intelligent_stability {W} _ _ _ _.
Arguments _analyze_page_and_detect_fields {W} _ _.
Arguments str {W} _ _.

(** How one pass of the loop over the steps ends: with the next step, with
    [break], or with an exception that leaves the loop; each with the
    results as they are then. *)
Inductive step_end :=
| Next (overall_results : OverallApplicationResult)
| Break (overall_results : OverallApplicationResult)
| Crash (overall_results : OverallApplicationResult) (e : exn).

Definition with_final_status (overall_results : OverallApplicationResult) (status : string)
    : OverallApplicationResult :=
  {| total_steps_provided_in_data := total_steps_provided_in_data overall_results;
     steps_attempted_on_site := steps_attempted_on_site overall_results;
     steps_successfully_filled := steps_successfully_filled overall_results;
     total_fields_filled_across_steps := total_fields_filled_across_steps overall_results;
     final_status := status;
     overall_errors := overall_errors overall_results;
     step_details := step_details overall_results |}.

(** [overall_results.errors.extend(new_errors)] *)
Definition with_more_errors (overall_results : OverallApplicationResult)
    (new_errors : list string) : OverallApplicationResult :=
  {| total_steps_provided_in_data := total_steps_provided_in_data overall_results;
     steps_attempted_on_site := steps_attempted_on_site overall_results;
     steps_successfully_filled := steps_successfully_filled overall_results;
     total_fields_filled_across_steps := total_fields_filled_across_steps overall_results;
     final_status := final_status overall_results;
     overall_errors := (overall_errors overall_results ++ new_errors)%list;
     step_details := step_details overall_results |}.

(** [overall_results.steps_attempted_on_site = i] *)
Definition with_steps_attempted (overall_results : OverallApplicationResult) (i : nat)
    : OverallApplicationResult :=
  {| total_steps_provided_in_data := total_steps_provided_in_data overall_results;
     steps_attempted_on_site := i;
     steps_successfully_filled := steps_successfully_filled overall_results;
     total_fields_filled_across_steps := total_fields_filled_across_steps overall_results;
     final_status := final_status overall_results;
     overall_errors := overall_errors overall_results;
     step_details := step_details overall_results |}.

(** [overall_results.steps_successfully_filled += 1] *)
Definition with_one_more_filled (overall_results : OverallApplicationResult)
    : OverallApplicationResult :=
  {| total_steps_provided_in_data := total_steps_provided_in_data overall_results;
     steps_attempted_on_site := steps_attempted_on_site overall_results;
     steps_successfully_filled := S (steps_successfully_filled overall_results);
     total_fields_filled_across_steps := total_fields_filled_across_steps overall_results;
     final_status := final_status overall_results;
     overall_errors := overall_errors overall_results;
     step_details := step_details overall_results |}.

(** The three statements after [_fill_current_page_fields]: the result is
    appended to the details, its fields are added to the total, and its
    errors are appended under the number of the step. *)
Definition with_step_result (overall_results : OverallApplicationResult) (i : nat)
    (step_fill_result : FillAttemptResult) : OverallApplicationResult :=
  {| total_steps_provided_in_data := total_steps_provided_in_data overall_results;
     steps_attempted_on_site := steps_attempted_on_site overall_results;
     steps_successfully_filled := steps_successfully_filled overall_results;
     total_fields_filled_across_steps :=
       total_fields_filled_across_steps overall_results
       + fields_filled_count step_fill_result;
     final_status := final_status overall_results;
     overall_errors :=
       (overall_errors overall_results
        ++ map (fun e => ("S" ++ pretty i ++ " Fill Err: " ++ e)%string)
               (errors step_fill_result))%list;
     step_details := (step_details overall_results ++ [step_fill_result])%list |}.

(** [OverallApplicationResult(application_url=..., total_steps_provided_in_data=n)]
    with the errors appended before the loop over the steps. *)
Definition results_before_steps (n : nat) (errors_so_far : list string)
    : OverallApplicationResult :=
  {| total_steps_provided_in_data := n;
     steps_attempted_on_site := 0;
     steps_successfully_filled := 0;
     total_fields_filled_across_steps := 0;
     final_status := "initiated";
     overall_errors := errors_so_far;
     step_details := [] |}.

(** [not analysis.detected_fields and not any(btns for btns in
    analysis.action_buttons.values())] *)
Definition no_fields_or_actions (current_page_analysis : PageAnalysis) : bool :=
  bool_decide (detected_fields (analysis current_page_analysis) = ∅)
  && forallb (fun entry : string * list FormField =>
                match entry.2 with [] => true | _ :: _ => false end)
             (map_to_list (action_buttons (analysis current_page_analysis))).

(** [any(action_buttons.get('next', [])) or is_multi_step_form and
    current_step_on_page < total_steps_on_page] *)
Definition site_seems_to_have_next_step (current_page_analysis : PageAnalysis) : bool :=
  match buttons_of (analysis current_page_analysis) "next" with
  | _ :: _ => true
  | [] =>
      is_multi_step_form current_page_analysis
      && (current_step_on_page current_page_analysis
          <? total_steps_on_page current_page_analysis)%Z
  end.

(** [step_fill_result.success is True or step_fill_result.success ==
    "partial" or (step_fill_result.fields_attempted_count == 0 and not
    current_step_data)] *)
Definition step_ok_to_proceed (step_fill_result : FillAttemptResult)
    (current_step_data : list (FieldType * Value)) : bool :=
  match success step_fill_result with
  | SuccessTrue | SuccessPartial => true
  | SuccessFalse =>
      (fields_attempted_count step_fill_result =? 0)%nat
      && match current_step_data with [] => true | _ :: _ => false end
  end.

Definition popup_close_actions : list (string * string) :=
  [ ("button:has-text('Accept all cookies' i)", "Accept All Cookies");
    ("button:has-text('Allow Cookies' i)", "Allow Cookies");
    ("button:has-text('Got it' i)", "Got It (Cookie)");
    ("button:has-text('I accept' i)", "I Accept (Cookie)");
    ("button[id*='cookie'][id*='accept']", "Cookie Accept by ID");
    ("[aria-label*='accept cookie' i]", "Cookie Accept by Aria");
    ("button[aria-label*='close' i]", "Close by Aria");
    ("button[aria-label*='dismiss' i]", "Dismiss by Aria");
    ("button:has-text('×')", "Close with × symbol");
    ("button:has-text('X')", "Close with X char");
    ("button[class*='close' i][class*='button' i]", "Close by Class");
    ("button[id*='close' i]", "Close by ID");
    ("span[aria-label*='close' i]", "Close Span by Aria");
    ("button:has-text('No thanks' i)", "No Thanks (Survey)");
    ("button:has-text('Maybe later' i)", "Maybe Later (Survey)");
    ("button:has-text('Don\'t allow' i)", "Don't Allow (Notification)") ].

Definition max_popups_to_close_in_one_go : nat := 3.

Definition captcha_selectors : list string :=
  [ "iframe[src*='recaptcha']"; "iframe[title*='reCAPTCHA']"; "[class*='g-recaptcha']";
    "iframe[src*='hcaptcha']"; "iframe[title*='hcaptcha']"; "[class*='h-captcha']";
    "iframe[src*='arkoselabs.com']"; "iframe[title*='arkose']"; "[class*='arkose']";
    "div#turnstile-widget"; "iframe[src*='challenges.cloudflare.com']";
    "[data-testid='captcha']"; "[aria-label*='captcha' i]" ].

Section Application.

Context {W : Type} (page : Playwright W) (site : Site W).

(** [for element in elements] inside the [try] of [close_popups_comprehensive]:
    [true] when an element was clicked and the wait after the click
    returned, which is when the two counters are updated. *)
Fixpoint close_among (elements : list Locator) : M W bool :=
  match elements with
  | [] => ret false
  | element :: rest =>
      shown <~ and_then (read (is_visible page element)) (read (is_enabled page element)) ;;
      if shown then
        act (Click element) (click page element) ;;;
        read (wait_for_timeout page) ;;;
        ret true
      else close_among rest
  end.

(** [for selector, description in popup_close_actions], from the given
    values of [popup_closed_this_iteration] and [closed_count] to their
    values when the loop is left.  The wait before the [break] is outside
    the [try]. *)
Fixpoint close_by_selectors (actions : list (string * string))
    (popup_closed_this_iteration : bool) (closed_count : nat) : M W (bool * nat) :=
  match actions with
  | [] => ret (popup_closed_this_iteration, closed_count)
  | (selector, _) :: rest =>
      closed <~ catch (elements <~ locator_all page selector ;; close_among elements)
                      (fun _ => ret false) ;;
      let popup_closed_this_iteration := popup_closed_this_iteration || closed in
      let closed_count := if closed then S closed_count else closed_count in
      if popup_closed_this_iteration
         && (closed_count <? max_popups_to_close_in_one_go)%nat then
        read (wait_for_timeout page) ;;;
        ret (popup_closed_this_iteration, closed_count)
      else close_by_selectors rest popup_closed_this_iteration closed_count
  end.

(** [for _ in range(...)] of [close_popups_comprehensive], over the
    rounds that are left; the result is [closed_count]. *)
Fixpoint close_rounds (rounds closed_count : nat) : M W nat :=
  match rounds with
  | O => ret closed_count
  | S rounds' =>
      round <~ close_by_selectors popup_close_actions false closed_count ;;
      let '(popup_closed_this_iteration, closed_count) := round in
      if negb popup_closed_this_iteration then ret closed_count
      else close_rounds rounds' closed_count
  end.

(** [close_popups_comprehensive] *)
Definition close_popups_comprehensive : M W unit :=
  close_rounds max_popups_to_close_in_one_go 0 ;;; ret tt.

(** [for i in range(elements.count())] of [wait_and_handle_captcha], from
    index [i] on: [true] is [found_captcha]. *)
Fixpoint visible_among (selector : string) (i count : nat) : M W bool :=
  match count with
  | O => ret false
  | S count' =>
      let el := Located selector i in
      visible <~ read (is_visible page el) ;;
      if visible then
        title <~ safe_get_attribute page el "title" "" ;;
        (if Str.truthy title then ret title else safe_get_tag_name page el) ;;;
        ret true
      else visible_among selector (S i) count'
  end.

(** The body of the [try] for one CAPTCHA selector; the count is read for
    the test and again for the range. *)
Definition captcha_found_by (selector : string) : M W bool :=
  count <~ read (locator_count page selector) ;;
  if (0 <? count)%nat then
    count <~ read (locator_count page selector) ;;
    visible_among selector 0 count
  else ret false.

(** [for selector in captcha_selectors]: [None] is [return True] from
    the handler of an exception, [Some found] the end of the loop with
    [found_captcha]. *)
Fixpoint captcha_by_selectors (selectors : list string) : M W (option bool) :=
  match selectors with
  | [] => ret (Some false)
  | selector :: rest =>
      found <~ catch (found <~ captcha_found_by selector ;; ret (Some found))
                     (fun e =>
                        match e with
                        | PlaywrightTimeoutError => ret (Some false)
                        | _ =>
                            closed <~ read (is_closed site) ;;
                            ret (if closed then None else Some false)
                        end) ;;
      match found with
      | None => ret None
      | Some true => ret (Some true)
      | Some false => captcha_by_selectors rest
      end
  end.

(** [wait_and_handle_captcha] *)
Definition wait_and_handle_captcha : M W bool :=
  read (wait_for_timeout page) ;;;
  found <~ captcha_by_selectors captcha_selectors ;;
  match found with
  | None => ret true
  | Some true => read (wait_for_timeout page) ;;; ret false
  | Some false => ret true
  end.

(** A call in the loop over the steps: an exception leaves the loop with
    the results as they are. *)
Definition or_crash {A : Type} (m : M W A) (overall_results : OverallApplicationResult)
    (k : A -> M W step_end) : M W step_end :=
  fun w =>
    match m w with
    | (Ok a, w1, done1) => let '(r, w2, done2) := k a w1 in (r, w2, (done1 ++ done2)%list)
    | (Raise e, w1, done1) => (Ok (Crash overall_results e), w1, done1)
    end.

(** [try: self.page.screenshot(path=...)  except: pass; break]: the
    [break] belongs to the handler, so [true], which is [break], is the
    answer when the screenshot raises. *)
Definition screenshot_or_break (path : string) : M W bool :=
  catch (read (screenshot site path) ;;; ret false) (fun _ => ret true).

(** A failure in the loop over the steps: when [failed], the status and
    the error are recorded and the screenshot is taken; the loop goes on
    with [k] unless the screenshot raised. *)
Definition on_failure (failed : bool) (overall_results : OverallApplicationResult)
    (new_errors : list string) (status path : string)
    (k : OverallApplicationResult -> M W step_end) : M W step_end :=
  if failed then
    let overall_results :=
      with_final_status (with_more_errors overall_results new_errors) status in
    stop <~ screenshot_or_break path ;;
    if stop then ret (Break overall_results) else k overall_results
  else k overall_results.

Context (enable_anti_detection : bool) (navigation_timeout_ms : Z).

(** The body of [for i, current_step_data in enumerate(form_data_steps, 1)]
    of [fill_entire_application], [n] being [len(form_data_steps)].  The
    analysis is an object, so the test [if not current_page_analysis]
    fails. *)
Definition process_step (n i : nat) (current_step_data : list (FieldType * Value))
    (overall_results : OverallApplicationResult) : M W step_end :=
  let step := pretty i in
  let overall_results := with_steps_attempted overall_results i in
  or_crash (read (_analyze_page_and_detect_fields site)) overall_results
    (fun current_page_analysis =>
  let overall_results :=
    with_more_errors overall_results
      (map (fun e => "S" ++ step ++ " Analysis Err: " ++ e)
           (analysis_errors current_page_analysis)) in
  on_failure (no_fields_or_actions current_page_analysis && (i <? n)%nat) overall_results
    ["Step " ++ step
     ++ " (not last): No fields or actions. Possible dead-end or misinterpretation."]
    ("fail_S" ++ step ++ "_no_fields_actions")
    ("debug_S" ++ step ++ "_no_fields_actions.png")
    (fun overall_results =>
  or_crash (_fill_current_page_fields page enable_anti_detection i ∅ current_step_data
              (analysis current_page_analysis)) overall_results
    (fun filled =>
  let step_fill_result := filled.1 in
  let overall_results := with_step_result overall_results i step_fill_result in
  on_failure (negb (step_ok_to_proceed step_fill_result current_step_data)) overall_results
    [] ("fail_S" ++ step ++ "_fill") ("debug_S" ++ step ++ "_fill_fail.png")
    (fun overall_results =>
  let overall_results := with_one_more_filled overall_results in
  let is_last_data_step_provided := (i =? n)%nat in
  let effective_last_step_on_site :=
    is_last_data_step_provided && negb (site_seems_to_have_next_step current_page_analysis) in
  or_crash (_attempt_to_submit_or_navigate page (analysis current_page_analysis)
              effective_last_step_on_site) overall_results
    (fun attempt =>
  let navigation_or_submit_success := attempt.1 in
  on_failure (negb navigation_or_submit_success) overall_results
    ["Failed to "
     ++ (if effective_last_step_on_site then "submit final form"
         else "navigate from step " ++ step)
     ++ "."]
    ("fail_S" ++ step ++ "_" ++ (if effective_last_step_on_site then "submit" else "nav"))
    ("debug_S" ++ step ++ "_nav_submit_fail.png")
    (fun overall_results =>
  if effective_last_step_on_site then
    let overall_results := with_final_status overall_results "submission_attempted" in
    or_crash (read (wait_for_intelligent_stability site 15000 1500)) overall_results
      (fun _ => ret (Break overall_results))
  else
    or_crash (read (wait_for_intelligent_stability site navigation_timeout_ms 1500))
      overall_results (fun _ =>
    or_crash (if enable_anti_detection then random_delay page else ret tt)
      overall_results (fun _ =>
    or_crash wait_and_handle_captcha overall_results (fun no_captcha =>
    let overall_results :=
      if no_captcha then overall_results
      else with_more_errors overall_results ["CAPTCHA on step " ++ pretty (S i)] in
    or_crash close_popups_comprehensive overall_results (fun _ =>
    ret (Next overall_results))))))))))).

(** The loop over the steps from step [i] on: the results when the loop is
    left, with the exception when one left it. *)
Fixpoint process_steps (n i : nat) (form_data_steps : list (list (FieldType * Value)))
    (overall_results : OverallApplicationResult)
    : M W (OverallApplicationResult * option exn) :=
  match form_data_steps with
  | [] => ret (overall_results, None)
  | current_step_data :: rest =>
      ended <~ process_step n i current_step_data overall_results ;;
      match ended with
      | Next overall_results => process_steps n (S i) rest overall_results
      | Break overall_results => ret (overall_results, None)
      | Crash overall_results e => ret (overall_results, Some e)
      end
  end.

(** The status after the loop and the two handlers of
    [fill_entire_application]. *)
Definition settle_status (ended : OverallApplicationResult * option exn)
    : OverallApplicationResult :=
  match ended with
  | (overall_results, None) =>
      if String.eqb (final_status overall_results) "initiated" then
        if (steps_successfully_filled overall_results
            =? total_steps_provided_in_data overall_results)%nat
        then with_final_status overall_results "completed_all_data_steps"
        else with_final_status overall_results
               ("ended_after_S" ++ pretty (steps_attempted_on_site overall_results)
                ++ "_incomplete")
      else overall_results
  | (overall_results, Some e) =>
      if is_PlaywrightError e then
        with_final_status
          (with_more_errors overall_results ["Playwright Critical: " ++ str site e])
          "error_playwright_critical"
      else
        with_final_status
          (with_more_errors overall_results ["General Critical: " ++ str site e])
          "error_general_critical"
  end.

(** [fill_entire_application] from the loop over the steps on:
    [errors_so_far] are the errors that the part before the loop has
    appended.  The name of the last screenshot holds the time, which is
    left out. *)
Definition fill_entire_application_steps
    (form_data_steps : list (list (FieldType * Value))) (errors_so_far : list string)
    : M W OverallApplicationResult :=
  let n := length form_data_steps in
  ended <~ process_steps n 1 form_data_steps (results_before_steps n errors_so_far) ;;
  let overall_results := settle_status ended in
  (if Str.contains "fail" (final_status overall_results)
      || Str.contains "error" (final_status overall_results) then
     closed <~ read (is_closed site) ;;
     if negb closed then
       catch (read (screenshot site "debug_UFF_final_state_.png")) (fun _ => ret tt)
     else ret tt
   else ret tt) ;;;
  ret overall_results.

End Application.

(** *** Predicates of the statements *)

(** The computation does not raise. *)
Definition total {W A : Type} (m : M W A) : Prop :=
  forall w, exists a, (m w).1.1 = Ok a.

(** The computation only does actions of [P], and a returned value of
    [Q] comes with an action. *)
Definition emits {W A : Type} (P : action -> Prop) (Q : A -> Prop) (m : M W A) : Prop :=
  forall w, Forall P (m w).2
            /\ forall a, (m w).1.1 = Ok a -> Q a -> (m w).2 <> [].

(** What the computation returns is in [R]. *)
Definition returns {W A : Type} (R : A -> Prop) (m : M W A) : Prop :=
  forall w a, (m w).1.1 = Ok a -> R a.

(** The computation does one action when it returns a value of [yes] and
    none otherwise. *)
Definition one_shot {W A : Type} (yes : A -> bool) (m : M W A) : Prop :=
  forall w, match (m w).1.1 with
            | Ok a => if yes a then length (m w).2 = 1%nat else (m w).2 = []
            | Raise _ => (m w).2 = []
            end.

(** The result, the final state and the actions of the computation run
    from [w] are in [R]. *)
Definition post {W A : Type} (R : outcome A -> W -> list action -> Prop)
    (m : M W A) (w : W) : Prop :=
  R (m w).1.1 (m w).1.2 (m w).2.

(** A computation that reads only. *)
Definition silent {W A : Type} (m : M W A) : Prop :=
  emits (fun _ => False) (fun _ => False) m.

(** The clicks on the locators of [P]. *)
Definition clicks (P : Locator -> Prop) (a : action) : Prop :=
  exists target, a = Click target /\ P target.

(** The elements of a list of analysed buttons. *)
Definition among (buttons : list FormField) (l : Locator) : Prop :=
  exists ff, In ff buttons /\ l = Scanned (element ff).

(** The targets of [navigate_next]: the analysed buttons it is given or,
    when it is given none, elements of the generic selectors. *)
Definition next_targets (buttons : list FormField) (l : Locator) : Prop :=
  match buttons with
  | [] => exists selector i, In selector generic_next_selectors /\ l = Located selector i
  | _ :: _ => among buttons l
  end.

(** The element an action is done on. *)
Definition action_target (a : action) : Locator :=
  match a with
  | Click target | SetChecked target _ | Check target | SelectValue target _
  | SelectLabel target _ | Fill target _ | TypeText target _ | Press target _
  | DispatchEvent target _ | SetInputFiles target _ | Evaluate target _ _ => target
  end.

(** An action on the element or on the first element within it that a
    selector locates. *)
Definition on_element (element : Locator) (a : action) : Prop :=
  action_target a = element \/ exists selector, action_target a = FirstWithin element selector.

(** What the second loop of [_fill_current_page_fields] keeps: every field ends as filled or as an error,
    an error is also a skipped field, the session set grows by filled fields
    only. *)
Definition fill_fields_keeps (fields : list (FormField * Value)) (st st' : fill_progress)
    : Prop :=
  (filled st' + length (fill_errors st')
   = filled st + length (fill_errors st) + length fields)%nat
  /\ (length (fill_skipped st') + length (fill_errors st)
      = length (fill_skipped st) + length (fill_errors st'))%nat
  /\ (filled st <= filled st')%nat
  /\ filled_fields_session st ⊆ filled_fields_session st'
  /\ (forall x, x ∈ filled_fields_session st' ->
                x ∈ filled_fields_session st
                \/ exists ff v, In (ff, v) fields /\ x = (selector ff, field_type ff))
  /\ (filled st' = filled st -> filled_fields_session st' = filled_fields_session st).

(** The accounts of a [FillAttemptResult] for the given step, form data
    and analysis, [session] and [session'] being the session set before and
    after. *)
Definition fill_accounts (current_step : nat) (session session' : gset (string * FieldType))
    (form_data : list (FieldType * Value)) (analysis_result : FormAnalysisResult)
    (result : FillAttemptResult) : Prop :=
  let filled := fields_filled_count result in
  let attempted := fields_attempted_count result in
  let detected := detected_fields analysis_result in
  step_number result = Some current_step
  /\ (filled <= attempted)%nat /\ (attempted <= length form_data)%nat
  /\ length (errors result) = (attempted - filled)%nat
  /\ (detected <> ∅ -> (filled + length (skipped_fields result))%nat = length form_data)
  /\ (success result = SuccessTrue
      <-> detected <> ∅ /\ filled = attempted /\ (attempted = 0%nat -> form_data = []))
  /\ (success result = SuccessPartial <-> (0 < filled)%nat /\ (filled < attempted)%nat)
  /\ session ⊆ session'
  /\ (forall x, x ∈ session' ->
                x ∈ session
                \/ exists ft ff, detected !! ft = Some ff /\ x = (selector ff, field_type ff))
  /\ (filled = 0%nat -> session' = session).

(** The selections of [_fill_select_dropdown]: the given text as a value
    or as a label, or the text or the value of an option whose text holds
    the given text, whatever the case of the letters. *)
Definition selects (element : Locator) (value_to_select : string) (a : action) : Prop :=
  a = SelectValue element value_to_select
  \/ a = SelectLabel element value_to_select
  \/ (exists opt_text,
        a = SelectLabel element opt_text
        /\ Str.contains (Str.lower value_to_select) (Str.lower opt_text) = true)
  \/ (exists opt_val, a = SelectValue element opt_val /\ opt_val <> "").

(** The targets of [_attempt_to_submit_or_navigate]: on the last step the
    analysed submit buttons (the apply buttons when there is none) and the
    elements of the fallback submit selectors, on another step the analysed
    next buttons and the elements of the generic next selectors. *)
Definition submit_or_navigate_targets (analysis_result : FormAnalysisResult)
    (is_last_data_step : bool) (l : Locator) : Prop :=
  if is_last_data_step then
    among (match buttons_of analysis_result "submit" with
           | [] => buttons_of analysis_result "apply"
           | submit => submit
           end) l
    \/ exists selector i, In selector submit_selectors /\ l = Located selector i
  else
    among (buttons_of analysis_result "next") l
    \/ exists selector i, In selector generic_next_selectors /\ l = Located selector i.

(** The analysis after [_attempt_to_submit_or_navigate]. *)
Definition analysis_after_attempt (analysis_result : FormAnalysisResult)
    (is_last_data_step : bool) : FormAnalysisResult :=
  match is_last_data_step, buttons_of analysis_result "submit" with
  | true, [] => extend_submit_with_apply analysis_result
  | _, _ => analysis_result
  end.

(** A click on an element that a popup selector locates. *)
Definition popup_click (a : action) : Prop :=
  exists selector i, In selector (map fst popup_close_actions) /\ a = Click (Located selector i).

(** [page.wait_for_timeout] returns. *)
Definition waits_return {W : Type} (page : Playwright W) : Prop :=
  forall w, exists w', wait_for_timeout page w = (Ok tt, w').

(** A page on which every selector locates an element, every element is
    visible and enabled and takes a click, and the waits return. *)
Definition full_of_popups {W : Type} (page : Playwright W) : Prop :=
  (forall selector w, exists n w', locator_count page selector w = (Ok (S n), w'))
  /\ (forall l w, exists w', is_visible page l w = (Ok true, w'))
  /\ (forall l w, exists w', is_enabled page l w = (Ok true, w'))
  /\ (forall l w, exists w', click page l w = (Ok tt, w'))
  /\ waits_return page.

(** No element of a CAPTCHA selector is reported visible. *)
Definition no_visible_captcha {W : Type} (page : Playwright W) : Prop :=
  forall selector i w,
    In selector captcha_selectors -> (is_visible page (Located selector i) w).1 <> Ok true.

(** [page.is_closed()] returns. *)
Definition is_closed_returns {W : Type} (site : Site W) : Prop :=
  forall w, exists closed w', is_closed site w = (Ok closed, w').

(** [page.screenshot] returns. *)
Definition screenshots_return {W : Type} (site : Site W) : Prop :=
  forall path w, exists w', screenshot site path w = (Ok tt, w').

(** The outcome of the computation is in [Q], whatever the state. *)
Definition ends {W A : Type} (Q : outcome A -> Prop) (m : M W A) : Prop :=
  forall w, Q (m w).1.1.

(** The statuses that a failure in step [i] of [n] records. *)
Definition step_failure (n i : nat) (status : string) : Prop :=
  (status = "fail_S" ++ pretty i ++ "_no_fields_actions" /\ (i < n)%nat)
  \/ status = "fail_S" ++ pretty i ++ "_fill"
  \/ (status = "fail_S" ++ pretty i ++ "_submit" /\ i = n)
  \/ status = "fail_S" ++ pretty i ++ "_nav".

(** The counters of an [OverallApplicationResult] for [n] data steps: the
    steps counted as filled are among those with details, these among the
    attempted ones, and at most the last attempted step is not counted as
    filled; the total of filled fields is that of the details, and the
    details are those of steps 1, 2, ... in order. *)
Definition step_counts (n : nat) (result : OverallApplicationResult) : Prop :=
  total_steps_provided_in_data result = n
  /\ (steps_successfully_filled result <= length (step_details result))%nat
  /\ (length (step_details result) <= steps_attempted_on_site result)%nat
  /\ (steps_attempted_on_site result <= n)%nat
  /\ (steps_attempted_on_site result <= S (steps_successfully_filled result))%nat
  /\ total_fields_filled_across_steps result
     = sum_list_with fields_filled_count (step_details result)
  /\ (forall j d, step_details result !! j = Some d -> step_number d = Some (S j)).

(** The counters with the final status: all data steps done, submission
    attempted on the last one, a critical error, or the failure of an
    attempted step. *)
Definition application_accounts (n : nat) (result : OverallApplicationResult) : Prop :=
  step_counts n result
  /\ (final_status result = "completed_all_data_steps"
      /\ steps_successfully_filled result = n
      \/ final_status result = "submission_attempted"
         /\ steps_successfully_filled result = n /\ (0 < n)%nat
      \/ final_status result = "error_playwright_critical"
      \/ final_status result = "error_general_critical"
      \/ exists i, (1 <= i <= steps_attempted_on_site result)%nat
                   /\ step_failure n i (final_status result)).

End Flow.

(** ** Sample browsers *)

Module FlowFixtures.
Import Flow.

(** A browser without state in which every element is attached, visible
    and enabled, every selector locates one element, and every call
    returns, except that the waits raise a timeout when [waits] is
    [false]. *)
Definition plain_page (waits : bool) : Playwright unit :=
  {| is_attached := fun _ w => (Ok true, w);
     is_visible := fun _ w => (Ok true, w);
     is_enabled := fun _ w => (Ok true, w);
     is_checked := fun _ w => (Ok false, w);
     get_attribute := fun _ _ w => (Ok None, w);
     text_content := fun _ w => (Ok None, w);
     scroll_into_view_if_needed := fun _ w => (Ok tt, w);
     locator_count := fun _ w => (Ok 1%nat, w);
     option_count := fun _ w => (Ok 0%nat, w);
     wait_for_timeout := fun w =>
       (if waits then Ok tt else Raise PlaywrightTimeoutError, w);
     click := fun _ w => (Ok tt, w);
     set_checked := fun _ _ w => (Ok tt, w);
     check := fun _ w => (Ok tt, w);
     select_option_value := fun _ _ w => (Ok tt, w);
     select_option_label := fun _ _ w => (Ok tt, w);
     fill := fun _ _ w => (Ok tt, w);
     type := fun _ _ w => (Ok tt, w);
     press := fun _ _ w => (Ok tt, w);
     dispatch_event := fun _ _ w => (Ok tt, w);
     tag_name := fun _ w => (Ok "input", w);
     evaluate := fun _ _ _ w => (Ok tt, w);
     set_input_files := fun _ _ w => (Ok tt, w);
     path_exists := fun _ w => (Ok true, w);
     path_is_file := fun _ w => (Ok true, w);
     randint := fun lo _ w => (lo, w) |}.

(** A browser whose state is the state of one checkbox: a click toggles
    it unless [stuck], [set_checked] sets it, [is_checked] reads it. *)
Definition checkbox_page (stuck : bool) : Playwright bool :=
  {| is_attached := fun _ w => (Ok true, w);
     is_visible := fun _ w => (Ok true, w);
     is_enabled := fun _ w => (Ok true, w);
     is_checked := fun _ w => (Ok w, w);
     get_attribute := fun _ _ w => (Ok None, w);
     text_content := fun _ w => (Ok None, w);
     scroll_into_view_if_needed := fun _ w => (Ok tt, w);
     locator_count := fun _ w => (Ok 1%nat, w);
     option_count := fun _ w => (Ok 0%nat, w);
     wait_for_timeout := fun w => (Ok tt, w);
     click := fun _ w => (Ok tt, if stuck then w else negb w);
     set_checked := fun _ checked _ => (Ok tt, checked);
     check := fun _ _ => (Ok tt, true);
     select_option_value := fun _ _ w => (Ok tt, w);
     select_option_label := fun _ _ w => (Ok tt, w);
     fill := fun _ _ w => (Ok tt, w);
     type := fun _ _ w => (Ok tt, w);
     press := fun _ _ w => (Ok tt, w);
     dispatch_event := fun _ _ w => (Ok tt, w);
     tag_name := fun _ w => (Ok "input", w);
     evaluate := fun _ _ _ w => (Ok tt, w);
     set_input_files := fun _ _ w => (Ok tt, w);
     path_exists := fun _ w => (Ok true, w);
     path_is_file := fun _ w => (Ok true, w);
     randint := fun lo _ w => (lo, w) |}.

(** A browser in which an element can be scrolled to and takes events,
    but no click, fill, key or text goes through. *)
Definition frozen_page : Playwright unit :=
  {| is_attached := fun _ w => (Ok true, w);
     is_visible := fun _ w => (Ok true, w);
     is_enabled := fun _ w => (Ok true, w);
     is_checked := fun _ w => (Ok false, w);
     get_attribute := fun _ _ w => (Ok None, w);
     text_content := fun _ w => (Ok None, w);
     scroll_into_view_if_needed := fun _ w => (Ok tt, w);
     locator_count := fun _ w => (Ok 1%nat, w);
     option_count := fun _ w => (Ok 0%nat, w);
     wait_for_timeout := fun w => (Ok tt, w);
     click := fun _ w => (Raise PlaywrightTimeoutError, w);
     set_checked := fun _ _ w => (Raise PlaywrightTimeoutError, w);
     check := fun _ w => (Raise PlaywrightTimeoutError, w);
     select_option_value := fun _ _ w => (Raise PlaywrightTimeoutError, w);
     select_option_label := fun _ _ w => (Raise PlaywrightTimeoutError, w);
     fill := fun _ _ w => (Raise PlaywrightError, w);
     type := fun _ _ w => (Raise PlaywrightError, w);
     press := fun _ _ w => (Raise PlaywrightError, w);
     dispatch_event := fun _ _ w => (Ok tt, w);
     tag_name := fun _ w => (Ok "input", w);
     evaluate := fun _ _ _ w => (Raise PlaywrightError, w);
     set_input_files := fun _ _ w => (Raise PlaywrightError, w);
     path_exists := fun _ w => (Ok true, w);
     path_is_file := fun _ w => (Ok true, w);
     randint := fun lo _ w => (lo, w) |}.

(** A site on which every analysis gives [current_page_analysis], the
    stability waits return and the page is open; the screenshots raise
    unless [shots]. *)
Definition sample_site (current_page_analysis : PageAnalysis) (shots : bool) : Site unit :=
  {| is_closed := fun w => (Ok false, w);
     screenshot := fun _ w => (if shots then Ok tt else Raise PlaywrightError, w);
     wait_for_intelligent_stability := fun _ _ w => (Ok true, w);
     _analyze_page_and_detect_fields := fun w => (Ok current_page_analysis, w);
     str := fun _ => "error" |}.

(** The analysis of a page with one submit button and no field. *)
Definition submit_only_page : PageAnalysis :=
  {| analysis :=
       {| form_purpose := "unknown";
          detected_fields := ∅;
          action_buttons :=
            {[ "submit" := [button_field 0 (Fixtures.button_labelled "Submit") "submit"] ]} |};
     analysis_errors := [];
     is_multi_step_form := false;
     current_step_on_page := 1;
     total_steps_on_page := 1 |}.

(** One data step with an e-mail address. *)
Definition email_step : list (FieldType * Value) :=
  [(EMAIL, {| value_str := "user@example.com"; value_truthy := true;
              value_is_str_or_path := true |})].

(** The descriptor of a scanned button. *)
Definition button_at (position : nat) (label : string) : FormField :=
  button_field position (Fixtures.button_labelled label) "next".

End FlowFixtures.

(** ** Further predicates of the wait loop *)

(** Waiting for the network with a timeout does not take longer than the
    timeout when it succeeds. *)
Definition prompt (page : StabilityWait.Page) : Prop :=
  forall t timeout idle_at,
    StabilityWait.networkidle page t timeout = Some idle_at -> (idle_at <= t + timeout)%Z.

(** * Properties *)

(** ** Button intent *)

Lemma contains_head (c : ascii) (p s : string) :
  Str.contains (String c p) s = true -> In c (list_ascii_of_string s).
Proof.
  induction s as [|b s IH]; simpl.
  - discriminate.
  - intros H. apply orb_true_iff in H as [H|H].
    + destruct (Ascii.eqb_spec c b) as [->|]; [now left | discriminate].
    + right. auto.
Qed.

(** The carve-out of the next family tests for the pattern text itself, so
    a corpus without a backslash never takes it: every next-family label
    that is no apply phrase is classified [next]. *)
Lemma classify_button_next_family (element_data : ElementData) :
  ~ In "\"%char (list_ascii_of_string (button_corpus element_data)) ->
  Str.truthy (Str.strip (button_corpus element_data)) = true ->
  existsb (fun p => re_found false p (button_corpus element_data)) apply_patterns = false ->
  existsb (fun p => re_found false p (button_corpus element_data)) next_patterns = true ->
  _classify_button element_data = Some "next".
Proof.
  intros Hbs Hne Happly Hnext. unfold _classify_button.
  rewrite Hne, Happly, Hnext. simpl negb. cbv iota.
  destruct (Str.contains "\bsave\b" (button_corpus element_data)) eqn:Hsave; [|reflexivity].
  exfalso. apply Hbs. eapply contains_head. exact Hsave.
Qed.

(** C1.  On the label "Save and Continue" the classifier answers [next],
    not [submit]: the label is in the next family, is no apply phrase, holds
    both words, and the carve-out is not taken. *)
Theorem classify_button_save_and_continue :
  let b := Fixtures.button_labelled "Save and Continue" in
  button_corpus b = "save and continue"
  /\ existsb (fun p => re_found false p (button_corpus b)) apply_patterns = false
  /\ existsb (fun p => re_found false p (button_corpus b)) next_patterns = true
  /\ re_found false "\bsave\b" (button_corpus b) = true
  /\ re_found false "\bcontinue\b" (button_corpus b) = true
  /\ _classify_button b = Some "next".
Proof. vm_compute. repeat split. Qed.

Example classify_button_examples :
  _classify_button (Fixtures.button_labelled "Next Step") = Some "next"
  /\ _classify_button (Fixtures.button_labelled "Apply Now") = Some "apply"
  /\ _classify_button (Fixtures.button_labelled "Submit Application") = Some "apply"
  /\ _classify_button (Fixtures.button_labelled "Save") = Some "submit".
Proof. vm_compute. repeat split. Qed.

(** Every pattern of the tables compiles, so no [re.error] is skipped. *)
Example default_patterns_compile :
  forallb (fun '(_, groups) =>
             forallb (fun '(_, regex_list) =>
                        forallb (fun p => bool_decide (is_Some (Re.compile p))) regex_list)
                     groups)
          UniversalFormFiller._get_default_field_patterns
  && forallb (fun '(_, regex_list) =>
                forallb (fun p => bool_decide (is_Some (Re.compile p))) regex_list)
             UniversalFormFiller._get_default_negative_patterns
  && forallb (fun p => bool_decide (is_Some (Re.compile p)))
             (apply_patterns ++ next_patterns ++ submit_patterns)%list
  = true.
Proof. vm_compute. reflexivity. Qed.

Example re_search_examples :
  Re.search true "\(?\d{3}\)?[-.\s]?\d{3}[-.\s]?\d{4}" "(555) 123-4567" = Some true
  /\ Re.search true "userPrincipalName" "userprincipalname" = Some true
  /\ Re.search true "^email$" "emails" = Some false
  /\ Re.search false "\bstep \d+\b" "go to step 12" = Some true
  /\ Re.search false "\bnext\b" "nextstep" = Some false
  /\ Re.search false "(" "x" = None.
Proof. vm_compute. repeat split. Qed.

(** ** Form purpose *)

(** On these sets the classifier reads the set of types only. *)
Lemma detect_form_purpose_login (fields : gmap FieldType FormField) :
  dom fields = {[ EMAIL; PASSWORD ]} -> _detect_form_purpose fields = "login".
Proof. intros H. unfold _detect_form_purpose. rewrite H. vm_compute. reflexivity. Qed.

Lemma detect_form_purpose_one_other (fields : gmap FieldType FormField) :
  dom fields = {[ EMAIL; PASSWORD; FIRST_NAME ]} -> _detect_form_purpose fields = "login".
Proof. intros H. unfold _detect_form_purpose. rewrite H. vm_compute. reflexivity. Qed.

Lemma detect_form_purpose_resume (fields : gmap FieldType FormField) :
  dom fields = {[ EMAIL; PASSWORD; RESUME_FILE ]} ->
  _detect_form_purpose fields = "job_application".
Proof. intros H. unfold _detect_form_purpose. rewrite H. vm_compute. reflexivity. Qed.

Lemma detect_form_purpose_two_others (fields : gmap FieldType FormField) :
  dom fields = {[ EMAIL; PASSWORD; FIRST_NAME; LAST_NAME ]} ->
  _detect_form_purpose fields = "registration".
Proof. intros H. unfold _detect_form_purpose. rewrite H. vm_compute. reflexivity. Qed.

(** The type sets of the sample mappings. *)
Lemma dom_fields_of_2 (a b : FieldType) :
  dom (Fixtures.fields_of [a; b]) = {[ a; b ]}.
Proof.
  unfold Fixtures.fields_of. simpl.
  rewrite !dom_insert_L, dom_empty_L, (right_id_L ∅ (∪)), ?(assoc_L (∪)). reflexivity.
Qed.

Lemma dom_fields_of_3 (a b c : FieldType) :
  dom (Fixtures.fields_of [a; b; c]) = {[ a; b; c ]}.
Proof.
  unfold Fixtures.fields_of. simpl.
  rewrite !dom_insert_L, dom_empty_L, (right_id_L ∅ (∪)), ?(assoc_L (∪)). reflexivity.
Qed.

Lemma dom_fields_of_4 (a b c d : FieldType) :
  dom (Fixtures.fields_of [a; b; c; d]) = {[ a; b; c; d ]}.
Proof.
  unfold Fixtures.fields_of. simpl.
  rewrite !dom_insert_L, dom_empty_L, (right_id_L ∅ (∪)), ?(assoc_L (∪)). reflexivity.
Qed.

(** C2, as the specification states it, fails: the mapping with exactly
    EMAIL, PASSWORD and FIRST_NAME is not classified [registration]. *)
Lemma form_purpose_first_name_not_registration :
  dom (Fixtures.fields_of [EMAIL; PASSWORD; FIRST_NAME]) = {[ EMAIL; PASSWORD; FIRST_NAME ]}
  /\ _detect_form_purpose (Fixtures.fields_of [EMAIL; PASSWORD; FIRST_NAME]) <> "registration".
Proof.
  split; [apply dom_fields_of_3|].
  rewrite (detect_form_purpose_one_other _ (dom_fields_of_3 _ _ _)). discriminate.
Qed.

(** C2, amended.  The purpose depends on the set of resolved types only
    on these sets: EMAIL and PASSWORD alone give [login]; with FIRST_NAME as
    the one other field they still give [login]; with RESUME_FILE they give
    [job_application]; [registration] is reached with two other fields,
    FIRST_NAME and LAST_NAME. *)
Theorem form_purpose_by_type_set (fields : gmap FieldType FormField) :
  (dom fields = {[ EMAIL; PASSWORD ]} -> _detect_form_purpose fields = "login")
  /\ (dom fields = {[ EMAIL; PASSWORD; FIRST_NAME ]} -> _detect_form_purpose fields = "login")
  /\ (dom fields = {[ EMAIL; PASSWORD; RESUME_FILE ]} ->
      _detect_form_purpose fields = "job_application")
  /\ (dom fields = {[ EMAIL; PASSWORD; FIRST_NAME; LAST_NAME ]} ->
      _detect_form_purpose fields = "registration").
Proof.
  repeat split.
  - apply detect_form_purpose_login.
  - apply detect_form_purpose_one_other.
  - apply detect_form_purpose_resume.
  - apply detect_form_purpose_two_others.
Qed.

Lemma form_purpose_by_type_set_witness :
  _detect_form_purpose (Fixtures.fields_of [EMAIL; PASSWORD]) = "login"
  /\ _detect_form_purpose (Fixtures.fields_of [EMAIL; PASSWORD; FIRST_NAME]) = "login"
  /\ _detect_form_purpose (Fixtures.fields_of [EMAIL; PASSWORD; RESUME_FILE]) = "job_application"
  /\ _detect_form_purpose (Fixtures.fields_of [EMAIL; PASSWORD; FIRST_NAME; LAST_NAME])
     = "registration".
Proof.
  split; [|split; [|split]].
  - apply (proj1 (form_purpose_by_type_set _)). apply dom_fields_of_2.
  - apply (proj1 (proj2 (form_purpose_by_type_set _))). apply dom_fields_of_3.
  - apply (proj1 (proj2 (proj2 (form_purpose_by_type_set _)))). apply dom_fields_of_3.
  - apply (proj2 (proj2 (proj2 (form_purpose_by_type_set _)))). apply dom_fields_of_4.
Defined.

(** The login test precedes the registration test: a mapping with EMAIL and
    PASSWORD that is classified [registration] has at least two further
    fields besides the action buttons. *)
Lemma registration_needs_two_others (fields : gmap FieldType FormField) :
  _detect_form_purpose fields = "registration" ->
  (2 <= size (dom fields ∖ ({[ EMAIL; PASSWORD; SUBMIT_BUTTON; NEXT_BUTTON ]} : gset FieldType)))%nat.
Proof.
  unfold _detect_form_purpose.
  set (other := dom fields ∖ _).
  destruct (_ || _ || (2 <=? _)%nat); [discriminate|].
  destruct (_ && _ && (_ || (size other <=? 1)%nat)) eqn:Hlogin; [discriminate|].
  destruct (_ && _ && (_ || _ || _)) eqn:Hreg; cycle 1.
  { repeat match goal with
           | |- context [if ?b then _ else _] => destruct b; try discriminate
           end. }
  intros _.
  apply andb_true_iff in Hreg as [Hreg _]. rewrite Hreg in Hlogin. simpl in Hlogin.
  apply orb_false_iff in Hlogin as [_ E]. apply Nat.leb_gt in E. lia.
Qed.

(** ** Confidence scores *)

Lemma Qlt_bool_iff (x y : Q) : Qlt_bool x y = true <-> (x < y)%Q.
Proof.
  unfold Qlt_bool. rewrite negb_true_iff. split.
  - intros H. apply Qnot_le_lt. intros Hle. apply Qle_bool_iff in Hle. congruence.
  - intros H. destruct (Qle_bool y x) eqn:E; [|reflexivity].
    apply Qle_bool_iff in E. exfalso. apply (Qlt_not_le _ _ H E).
Qed.

Lemma Qround_half_even_bounds (q : Q) (n : Z) :
  (0 <= n)%Z -> (0 <= q)%Q -> (q <= inject_Z n)%Q ->
  (0 <= Qround_half_even q <= n)%Z.
Proof.
  destruct q as [a d]. unfold Qle, Qround_half_even. simpl.
  rewrite !Z.mul_1_r. intros Hn H0 H1.
  pose proof (Z.div_mod a (Zpos d) ltac:(lia)) as Hdm.
  pose proof (Z.mod_pos_bound a (Zpos d) ltac:(lia)) as Hr.
  assert (0 <= a / Zpos d)%Z by (apply Z.div_pos; lia).
  assert (a / Zpos d <= n)%Z.
  { apply Z.div_le_upper_bound; lia. }
  assert (a / Zpos d = n -> a mod Zpos d = 0)%Z by nia.
  destruct (2 * (a mod Zpos d) ?= Zpos d)%Z eqn:E.
  - apply Z.compare_eq_iff in E. destruct (Z.even (a / Zpos d)); lia.
  - lia.
  - apply Z.compare_gt_iff in E. lia.
Qed.

Lemma round3_bounds (x : Q) : (0 <= x)%Q -> (x <= 1)%Q -> (0 <= round3 x)%Q /\ (round3 x <= 1)%Q.
Proof.
  intros H0 H1. unfold round3.
  destruct (Qround_half_even_bounds (x * 1000) 1000) as [Hlo Hhi]; [lia | | |].
  - lra.
  - change (inject_Z 1000) with 1000%Q. lra.
  - unfold Qle. simpl. lia.
Qed.

Lemma fold_Qplus_nonneg (l : list Q) (a : Q) :
  Forall (fun w => (0 <= w)%Q) l -> (a <= fold_left Qplus l a)%Q.
Proof.
  intros H. revert a. induction H as [|w l Hw _ IH]; intros a; simpl.
  - lra.
  - specialize (IH (a + w)%Q). lra.
Qed.

Lemma Qsum_nonneg (l : list Q) : Forall (fun w => (0 <= w)%Q) l -> (0 <= Qsum l)%Q.
Proof. apply fold_Qplus_nonneg. Qed.

Section Scorer.

Variable self : FieldDetector.
Hypothesis weights_nonneg : Forall (fun kw => (0 <= kw.2)%Q) (attribute_weights self).

Lemma max_possible_score_positive (patterns_for_type : list (string * list string)) :
  (0 < max_possible_score self patterns_for_type)%Q.
Proof.
  unfold max_possible_score.
  set (ws := map snd (List.filter _ _)).
  assert (0 <= Qsum ws)%Q as Hs.
  { apply Qsum_nonneg. subst ws. apply Forall_forall. intros w Hw.
    apply list_elem_of_In, in_map_iff in Hw as [kw [<- Hkw]].
    apply filter_In in Hkw as [Hkw _].
    rewrite Forall_forall in weights_nonneg. apply weights_nonneg.
    now apply list_elem_of_In. }
  destruct (Qeq_bool _ _); lra.
Qed.

(** The scorer returns a value of the closed unit interval. *)
Lemma calculate_confidence_bounds (element_data : ElementData)
    (patterns_for_type : list (string * list string)) (ft : FieldType) :
  (0 <= _calculate_confidence self element_data patterns_for_type ft)%Q
  /\ (_calculate_confidence self element_data patterns_for_type ft <= 1)%Q.
Proof.
  unfold _calculate_confidence.
  pose proof (max_possible_score_positive patterns_for_type) as Hmax.
  set (score := raw_score _ _ _ _). set (m := max_possible_score _ _) in *.
  apply round3_bounds.
  - destruct (Qlt_bool 0 score) eqn:Hs; [|lra].
    apply Qlt_bool_iff in Hs.
    assert (0 < score / m)%Q.
    { unfold Qdiv. apply Qmult_lt_0_compat; [exact Hs|]. now apply Qinv_lt_0_compat. }
    destruct (Qlt_bool 1.0 (score / m)); lra.
  - destruct (Qlt_bool 0 score); [|lra].
    destruct (Qlt_bool 1.0 (score / m)) eqn:Hx; [lra|].
    destruct (Qlt_le_dec 1.0 (score / m)) as [Hlt|Hle]; [|lra].
    apply Qlt_bool_iff in Hlt. congruence.
Qed.

End Scorer.

Lemma default_weights_nonneg (threshold : option Q) :
  Forall (fun kw => (0 <= kw.2)%Q) (attribute_weights (new_FieldDetector threshold)).
Proof. simpl. repeat constructor; simpl; lra. Qed.

(** With the tables of the source the denominator is the same for every
    field type: no key of the weights is a key of a pattern set, so only the
    weight of ['type'] is summed. *)
Lemma max_possible_score_default (threshold : option Q) (ft : FieldType) :
  (max_possible_score (new_FieldDetector threshold)
     (patterns_of (new_FieldDetector threshold) ft) == 5)%Q.
Proof. destruct ft; vm_compute; reflexivity. Qed.

(** C5.  For an input named "email" and the EMAIL pattern set, the raw
    score is the weight of the name category, 2.2; the scorer divides it by
    5 (the weight of ['type'] plus the constant) and returns 0.44, whereas the
    sum of the weights of the categories of the pattern set plus the constant
    is 17.8, which would give 0.124. *)
Theorem confidence_of_input_named_email :
  let self := Fixtures.default_detector in
  let e := Fixtures.input_named "email" in
  let patterns := patterns_of self EMAIL in
  (raw_score self e patterns EMAIL == 2.2)%Q
  /\ (max_possible_score self patterns == 5)%Q
  /\ (applicable_weights_sum self patterns + 2.0 == 17.8)%Q
  /\ (_calculate_confidence self e patterns EMAIL == 0.44)%Q
  /\ (confidence_as_specified self e patterns EMAIL == 0.124)%Q.
Proof. vm_compute. repeat split. Qed.

(** ** Sorting and grouping *)

Section Sorting.

Context {A : Type} (key : A -> Q).

Lemma insert_desc_In (x y : A) (l : list A) :
  In y (insert_desc key x l) <-> y = x \/ In y l.
Proof.
  induction l as [|z l IH]; simpl.
  - intuition.
  - destruct (Qle_bool (key z) (key x)); simpl; [intuition|].
    rewrite IH. intuition.
Qed.

Lemma sort_desc_In (y : A) (l : list A) : In y (sort_desc key l) <-> In y l.
Proof.
  unfold sort_desc. induction l as [|x l IH]; simpl; [reflexivity|].
  rewrite insert_desc_In, IH. intuition.
Qed.

Lemma insert_desc_descending (x : A) (l : list A) :
  descending key l -> descending key (insert_desc key x l).
Proof.
  unfold descending. induction 1 as [|z l Hl IH Hz]; simpl.
  - repeat constructor.
  - destruct (Qle_bool (key z) (key x)) eqn:E.
    + apply Qle_bool_iff in E. constructor; [now constructor|].
      constructor; [exact E|].
      rewrite Forall_forall in Hz |- *. intros y Hy.
      apply list_elem_of_In in Hy. specialize (Hz y (proj2 (list_elem_of_In _ _) Hy)).
      lra.
    + assert (key x < key z)%Q as Hlt.
      { apply Qlt_bool_iff. unfold Qlt_bool. now rewrite E. }
      constructor; [exact IH|].
      rewrite Forall_forall in Hz |- *. intros y Hy.
      apply list_elem_of_In, insert_desc_In in Hy as [->|Hy]; [lra|].
      apply Hz. now apply list_elem_of_In.
Qed.

Lemma sort_desc_descending (l : list A) : descending key (sort_desc key l).
Proof.
  unfold sort_desc. induction l as [|x l IH]; simpl.
  - constructor.
  - now apply insert_desc_descending.
Qed.

(** The head of the sorted list is a member with the greatest key. *)
Lemma sort_desc_head (l : list A) (b : A) (r : list A) :
  sort_desc key l = b :: r ->
  In b l /\ forall y, In y l -> (key y <= key b)%Q.
Proof.
  intros E. split.
  - apply sort_desc_In. rewrite E. now left.
  - intros y Hy. apply sort_desc_In in Hy. rewrite E in Hy.
    pose proof (sort_desc_descending l) as Hd. rewrite E in Hd.
    destruct Hy as [->|Hy]; [lra|].
    inversion Hd as [|? ? _ Hall]; subst.
    rewrite Forall_forall in Hall. apply Hall. now apply list_elem_of_In.
Qed.

Lemma sort_desc_nil (l : list A) : sort_desc key l = [] -> l = [].
Proof.
  destruct l as [|x l]; [reflexivity|]. intros E. exfalso.
  assert (In x (sort_desc key (x :: l))) as H by (apply sort_desc_In; now left).
  rewrite E in H. exact H.
Qed.

End Sorting.

Lemma fold_left_invariant {A B : Type} (P : A -> Prop) (f : A -> B -> A) (l : list B) (a : A) :
  P a -> (forall a x, In x l -> P a -> P (f a x)) -> P (fold_left f l a).
Proof.
  revert a. induction l as [|x l IH]; intros a Ha Hstep; simpl; [exact Ha|].
  apply IH.
  - apply Hstep; [now left | exact Ha].
  - intros a' y Hy. apply Hstep. now right.
Qed.

Section Grouping.

Context {K A : Type} `{EqDecision K} (key : A -> K).

Lemma group_append_keys (k : K) (x : A) (g : list (K * list A)) (k' : K) :
  In k' (map fst (group_append k x g)) <-> k' = k \/ In k' (map fst g).
Proof.
  induction g as [|[k0 grp] g IH]; simpl.
  - intuition.
  - destruct (decide (k = k0)) as [->|Hne]; simpl.
    + intuition.
    + rewrite IH. intuition.
Qed.

Lemma group_append_NoDup (k : K) (x : A) (g : list (K * list A)) :
  List.NoDup (map fst g) -> List.NoDup (map fst (group_append k x g)).
Proof.
  induction g as [|[k0 grp] g IH]; simpl; intros H.
  - constructor; [intros [] | constructor].
  - inversion H as [|? ? Hnotin Hnd]; subst.
    destruct (decide (k = k0)) as [->|Hne]; simpl.
    + now constructor.
    + constructor; [|now apply IH].
      rewrite group_append_keys. intros [E|Hin]; [congruence | contradiction].
Qed.

Lemma group_append_inv (k : K) (x : A) (g : list (K * list A)) (k' : K) (grp' : list A) :
  In (k', grp') (group_append k x g) ->
  In (k', grp') g
  \/ (k' = k /\ grp' = [x])
  \/ (k' = k /\ exists grp0, In (k, grp0) g /\ grp' = (grp0 ++ [x])%list).
Proof.
  induction g as [|[k0 grp0] g IH]; simpl.
  - intros [E|[]]. inversion E; subst. right. now left.
  - destruct (decide (k = k0)) as [->|Hne]; simpl.
    + intros [E|Hin].
      * inversion E; subst. right. right. split; [reflexivity|]. exists grp0. split; [now left | reflexivity].
      * left. now right.
    + intros [E|Hin].
      * left. now left.
      * destruct (IH Hin) as [H|[H|[-> [grp1 [H1 H2]]]]].
        -- left. now right.
        -- right. now left.
        -- right. right. split; [reflexivity|]. exists grp1. split; [now right | exact H2].
Qed.

Lemma group_append_keeps (k : K) (x : A) (g : list (K * list A)) (k' : K) (grp0 : list A) :
  In (k', grp0) g ->
  exists grp', In (k', grp') (group_append k x g) /\ forall y, In y grp0 -> In y grp'.
Proof.
  induction g as [|[k0 grp1] g IH]; simpl; [intros []|].
  destruct (decide (k = k0)) as [->|Hne]; simpl.
  - intros [E|Hin].
    + inversion E; subst. exists (grp0 ++ [x])%list. split; [now left|].
      intros y Hy. apply in_app_iff. now left.
    + exists grp0. split; [now right | auto].
  - intros [E|Hin].
    + inversion E; subst. exists grp0. split; [now left | auto].
    + destruct (IH Hin) as [grp' [H1 H2]]. exists grp'. split; [now right | exact H2].
Qed.

Lemma group_append_adds (k : K) (x : A) (g : list (K * list A)) :
  exists grp', In (k, grp') (group_append k x g) /\ In x grp'.
Proof.
  induction g as [|[k0 grp1] g IH]; simpl.
  - exists [x]. split; now left.
  - destruct (decide (k = k0)) as [->|Hne]; simpl.
    + exists (grp1 ++ [x])%list. split; [now left|]. apply in_app_iff. right. now left.
    + destruct IH as [grp' [H1 H2]]. exists grp'. split; [now right | exact H2].
Qed.

Lemma group_append_groups_of (l : list A) (g : list (K * list A)) (x : A) :
  groups_of key l g -> groups_of key (l ++ [x]) (group_append (key x) x g).
Proof.
  intros (Hnd & Hin & Hall). split; [|split].
  - now apply group_append_NoDup.
  - intros k grp H. apply group_append_inv in H as [H|[[-> ->]|[-> [grp0 [H ->]]]]].
    + destruct (Hin _ _ H) as [Hne Hk]. split; [exact Hne|].
      intros y Hy. destruct (Hk y Hy). split; [assumption|]. apply in_app_iff. now left.
    + split; [discriminate|]. intros y [<-|[]]. split; [reflexivity|].
      apply in_app_iff. right. now left.
    + destruct (Hin _ _ H) as [Hne Hk]. split; [now destruct grp0|].
      intros y Hy. apply in_app_iff in Hy as [Hy|[<-|[]]].
      * destruct (Hk y Hy). split; [assumption|]. apply in_app_iff. now left.
      * split; [reflexivity|]. apply in_app_iff. right. now left.
  - intros y Hy. apply in_app_iff in Hy as [Hy|[<-|[]]].
    + destruct (Hall y Hy) as [grp0 [H1 H2]].
      destruct (group_append_keeps (key x) x g _ _ H1) as [grp' [H3 H4]].
      exists grp'. split; [exact H3 | auto].
    + apply group_append_adds.
Qed.

Lemma group_by_groups_of (l : list A) : groups_of key l (group_by key l).
Proof.
  unfold group_by. induction l as [|x l IH] using rev_ind.
  - simpl. split; [constructor|]. split; [intros ? ? [] | intros ? []].
  - rewrite fold_left_app. simpl. now apply group_append_groups_of.
Qed.

(** With distinct keys a key has one group. *)
Lemma groups_of_functional (l : list A) (g : list (K * list A)) (k : K) (g1 g2 : list A) :
  groups_of key l g -> In (k, g1) g -> In (k, g2) g -> g1 = g2.
Proof.
  intros (Hnd & _ & _). induction g as [|[k0 grp] g IH]; simpl; [intros []|].
  inversion Hnd as [|? ? Hnotin Hnd']; subst.
  intros [E1|H1] [E2|H2].
  - congruence.
  - inversion E1; subst. exfalso. apply Hnotin. apply in_map_iff. now exists (k, g2).
  - inversion E2; subst. exfalso. apply Hnotin. apply in_map_iff. now exists (k, g1).
  - now apply IH.
Qed.

End Grouping.

(** ** Conflict resolution *)

Lemma NoDup_map_In_inj {A B : Type} (f : A -> B) (l : list A) (a b : A) :
  List.NoDup (map f l) -> In a l -> In b l -> f a = f b -> a = b.
Proof.
  induction l as [|x l IH]; simpl; [intros _ []|].
  intros H. inversion H as [|? ? Hnotin Hnd]; subst.
  intros [->|Ha] [->|Hb] E.
  - reflexivity.
  - exfalso. apply Hnotin. rewrite E. now apply in_map.
  - exfalso. apply Hnotin. rewrite <- E. now apply in_map.
  - now apply IH.
Qed.

(** The heads of groups with distinct keys have distinct selectors. *)
Lemma heads_selectors_NoDup (g : list (string * list FormField)) :
  List.NoDup (map fst g) ->
  (forall k grp, In (k, grp) g -> forall y, In y grp -> selector y = k) ->
  List.NoDup (map selector
    (flat_map (fun '(element_key, ff_list) =>
                 match sort_desc confidence ff_list with
                 | [] => []
                 | best :: _ => [best]
                 end) g)).
Proof.
  induction g as [|[k grp] g IH]; simpl; intros Hnd Hk; [constructor|].
  inversion Hnd as [|? ? Hnotin Hnd']; subst.
  specialize (IH Hnd' (fun k' grp' Hg => Hk k' grp' (or_intror Hg))).
  destruct (sort_desc confidence grp) as [|best r] eqn:E; simpl; [exact IH|].
  constructor; [|exact IH].
  destruct (sort_desc_head _ _ _ _ E) as [Hin _].
  rewrite (Hk k grp (or_introl eq_refl) best Hin).
  intros H. apply in_map_iff in H as [y [Hy1 Hy2]].
  apply in_flat_map in Hy2 as [[k' grp'] [Hg' Hy2]].
  destruct (sort_desc confidence grp') as [|best' r'] eqn:E'; [destruct Hy2|].
  destruct Hy2 as [<-|[]].
  destruct (sort_desc_head _ _ _ _ E') as [Hin' _].
  rewrite (Hk k' grp' (or_intror Hg') best' Hin') in Hy1. subst k'.
  apply Hnotin. apply in_map_iff. now exists (k, grp').
Qed.

Section Resolver.

Variable self : FieldDetector.
Variable candidates : list FormField.

Let by_element := elements_candidates candidates.
Let winners := best_candidates_per_element candidates.
Let by_type := final_by_type candidates.

Lemma by_element_groups : groups_of selector candidates by_element.
Proof. apply group_by_groups_of. Qed.

Lemma by_type_groups : groups_of field_type winners by_type.
Proof. apply group_by_groups_of. Qed.

(** Phase 1: a winner heads the sorted group of its selector. *)
Lemma winner_inv (b : FormField) :
  In b winners ->
  exists grp r, In (selector b, grp) by_element /\ sort_desc confidence grp = b :: r.
Proof.
  unfold winners, best_candidates_per_element. intros H.
  apply in_flat_map in H as [[k grp] [Hg Hb]].
  destruct (sort_desc confidence grp) as [|best r] eqn:E; [destruct Hb|].
  destruct Hb as [<-|[]].
  destruct (sort_desc_head _ _ _ _ E) as [Hin _].
  destruct by_element_groups as (_ & Hkeys & _).
  destruct (Hkeys _ _ Hg) as [_ Hk]. destruct (Hk _ Hin) as [<- _].
  eauto.
Qed.

Lemma winner_is_candidate (b : FormField) : In b winners -> In b candidates.
Proof.
  intros H. destruct (winner_inv b H) as (grp & r & Hg & E).
  destruct (sort_desc_head _ _ _ _ E) as [Hin _].
  destruct by_element_groups as (_ & Hkeys & _).
  destruct (Hkeys _ _ Hg) as [_ Hk]. now destruct (Hk _ Hin).
Qed.

Lemma winner_is_best_of_element (b c : FormField) :
  In b winners -> In c candidates -> selector c = selector b ->
  (confidence c <= confidence b)%Q.
Proof.
  intros H Hc Hsel. destruct (winner_inv b H) as (grp & r & Hg & E).
  destruct (sort_desc_head _ _ _ _ E) as [_ Hmax]. apply Hmax.
  pose proof by_element_groups as (_ & _ & Hall).
  destruct (Hall c Hc) as [grp' [Hg' Hin']]. rewrite Hsel in Hg'.
  now rewrite (groups_of_functional _ _ _ _ _ _ by_element_groups Hg Hg').
Qed.

(** Phase 1 keeps one winner per selector. *)
Lemma winners_selectors_NoDup : List.NoDup (map selector winners).
Proof.
  destruct by_element_groups as (Hnd & Hkeys & _).
  apply heads_selectors_NoDup; [exact Hnd|].
  intros k grp Hg y Hy. destruct (Hkeys _ _ Hg) as [_ H]. now destruct (H y Hy).
Qed.

(** Phase 2: an entry of the result heads the sorted group of its type and
    meets the threshold. *)
Lemma resolved_inv (ft : FieldType) (ff : FormField) :
  _resolve_field_conflicts self candidates !! ft = Some ff ->
  exists grp r, In (ft, grp) by_type /\ sort_desc confidence grp = ff :: r
                /\ (threshold_of self <= confidence ff)%Q.
Proof.
  unfold _resolve_field_conflicts. fold by_type. revert ft ff.
  apply (fold_left_invariant
           (fun m : gmap FieldType FormField => forall ft ff, m !! ft = Some ff ->
              exists grp r, In (ft, grp) by_type /\ sort_desc confidence grp = ff :: r
                            /\ (threshold_of self <= confidence ff)%Q)).
  - intros ft ff H. rewrite lookup_empty in H. discriminate.
  - intros m [ft0 grp0] Hin IH ft ff. unfold resolve_type.
    destruct (sort_desc confidence grp0) as [|best r] eqn:E; [apply IH|].
    destruct (Qle_bool (threshold_of self) (confidence best)) eqn:Hth; [|apply IH].
    apply Qle_bool_iff in Hth.
    assert (<[ft0 := best]> m !! ft = Some ff ->
            exists grp r, In (ft, grp) by_type /\ sort_desc confidence grp = ff :: r
                          /\ (threshold_of self <= confidence ff)%Q) as Hins.
    { destruct (decide (ft0 = ft)) as [->|Hne].
      - rewrite lookup_insert_eq. intros [= <-]. eauto.
      - rewrite lookup_insert_ne by exact Hne. apply IH. }
    destruct (m !! ft0) as [old|]; [|exact Hins].
    destruct (Qlt_bool (confidence old) (confidence best)); [exact Hins | apply IH].
Qed.

End Resolver.

(** An entry of the result is a per-element winner of its type, and the
    best of them. *)
Lemma resolved_is_winner (self : FieldDetector) (candidates : list FormField)
    (ft : FieldType) (ff : FormField) :
  _resolve_field_conflicts self candidates !! ft = Some ff ->
  field_type ff = ft
  /\ In ff (best_candidates_per_element candidates)
  /\ forall g, In g (best_candidates_per_element candidates) -> field_type g = ft ->
       (confidence g <= confidence ff)%Q.
Proof.
  intros Hf. destruct (resolved_inv _ _ _ _ Hf) as (grp & r & Hg & E & _).
  destruct (sort_desc_head _ _ _ _ E) as [Hin Hmax].
  destruct (by_type_groups candidates) as (_ & Hkeys & Hall).
  destruct (Hkeys _ _ Hg) as [_ Hk]. destruct (Hk _ Hin) as [Hft Hw].
  repeat split; [exact Hft | exact Hw |].
  intros g Hgw Hgt. apply Hmax.
  destruct (Hall g Hgw) as [grp' [Hg' Hin']]. rewrite Hgt in Hg'.
  now rewrite (groups_of_functional _ _ _ _ _ _ (by_type_groups candidates) Hg Hg').
Qed.

Lemma resolved_is_candidate (self : FieldDetector) (candidates : list FormField)
    (ft : FieldType) (ff : FormField) :
  _resolve_field_conflicts self candidates !! ft = Some ff -> In ff candidates.
Proof.
  intros H. apply resolved_is_winner in H as (_ & Hw & _). now apply winner_is_candidate.
Qed.

(** C7, as the specification states it, fails: with the default threshold
    and three candidates, two of them on one element, the descriptor kept
    for EMAIL has confidence 0.5 although the list holds an EMAIL candidate
    of confidence 0.9 (it lost its element to PASSWORD). *)
Lemma resolved_descriptor_not_best_candidate :
  let candidates :=
    [ Fixtures.field EMAIL "#a" 0.9; Fixtures.field PASSWORD "#a" 0.95;
      Fixtures.field EMAIL "#b" 0.5 ] in
  _resolve_field_conflicts Fixtures.default_detector candidates !! EMAIL
    = Some (Fixtures.field EMAIL "#b" 0.5)
  /\ In (Fixtures.field EMAIL "#a" 0.9) candidates
  /\ field_type (Fixtures.field EMAIL "#a" 0.9) = EMAIL
  /\ (threshold_of Fixtures.default_detector <= confidence (Fixtures.field EMAIL "#a" 0.9))%Q
  /\ (confidence (Fixtures.field EMAIL "#b" 0.5) < confidence (Fixtures.field EMAIL "#a" 0.9))%Q.
Proof.
  cbv zeta. split; [vm_compute; reflexivity|].
  split; [now left|]. split; [reflexivity|]. split; vm_compute; [discriminate | reflexivity].
Qed.

(** C7, amended.  An entry of the result for a type is a candidate of that
    type that meets the threshold; it is the best candidate of its element
    (selector) and the best, for its type, among the candidates that are the
    best of their element; a type has one entry and no two types share a
    selector. *)
Theorem resolve_field_conflicts_sound (self : FieldDetector) (candidates : list FormField)
    (ft : FieldType) (ff : FormField) :
  _resolve_field_conflicts self candidates !! ft = Some ff ->
  field_type ff = ft
  /\ In ff candidates
  /\ (threshold_of self <= confidence ff)%Q
  /\ (forall c, In c candidates -> selector c = selector ff ->
        (confidence c <= confidence ff)%Q)
  /\ (forall g, In g (best_candidates_per_element candidates) -> field_type g = ft ->
        (confidence g <= confidence ff)%Q)
  /\ (forall ff', _resolve_field_conflicts self candidates !! ft = Some ff' -> ff' = ff)
  /\ (forall ft' ff', _resolve_field_conflicts self candidates !! ft' = Some ff' ->
        selector ff' = selector ff -> ft' = ft).
Proof.
  intros H. pose proof (resolved_is_winner self candidates) as Hwin.
  destruct (Hwin _ _ H) as (Hft & Hw & Hbest).
  destruct (resolved_inv _ _ _ _ H) as (_ & _ & _ & _ & Hth).
  split; [exact Hft|]. split; [now apply winner_is_candidate|]. split; [exact Hth|].
  split; [intros c Hc Hs; now apply (winner_is_best_of_element candidates ff c)|].
  split; [exact Hbest|]. split; [intros ff' H'; congruence|].
  intros ft' ff' H' Hsel. destruct (Hwin _ _ H') as (Hft' & Hw' & _).
  rewrite <- Hft, <- Hft'. f_equal.
  exact (NoDup_map_In_inj selector _ _ _ (winners_selectors_NoDup candidates) Hw' Hw Hsel).
Qed.

Lemma resolve_field_conflicts_sound_witness :
  let ff := Fixtures.field EMAIL "#b" 0.5 in
  let candidates :=
    [ Fixtures.field EMAIL "#a" 0.9; Fixtures.field PASSWORD "#a" 0.95; ff ] in
  field_type ff = EMAIL
  /\ In ff candidates
  /\ (threshold_of Fixtures.default_detector <= confidence ff)%Q
  /\ (forall c, In c candidates -> selector c = selector ff ->
        (confidence c <= confidence ff)%Q)
  /\ (forall g, In g (best_candidates_per_element candidates) -> field_type g = EMAIL ->
        (confidence g <= confidence ff)%Q)
  /\ (forall ff', _resolve_field_conflicts Fixtures.default_detector candidates !! EMAIL
                  = Some ff' -> ff' = ff)
  /\ (forall ft' ff', _resolve_field_conflicts Fixtures.default_detector candidates !! ft'
                      = Some ff' -> selector ff' = selector ff -> ft' = EMAIL).
Proof.
  cbv zeta. apply (resolve_field_conflicts_sound Fixtures.default_detector).
  vm_compute. reflexivity.
Defined.

(** ** Page analysis *)

Section Scan.

Variable self : FieldDetector.
Hypothesis weights_nonneg : Forall (fun kw => (0 <= kw.2)%Q) (attribute_weights self).

Lemma possible_types_inv (element_data : ElementData) (c : Q) (ft : FieldType) :
  In (c, ft) (possible_types_for_element self element_data) ->
  exists patterns_for_type,
    In (ft, patterns_for_type) (field_patterns self)
    /\ c = _calculate_confidence self element_data patterns_for_type ft
    /\ (0.15 < c)%Q.
Proof.
  unfold possible_types_for_element. intros H.
  apply in_flat_map in H as [[ft' pats] [Hin H]].
  destruct (Qlt_bool 0.15 _) eqn:E; [|destruct H].
  destruct H as [[= <- <-]|[]]. apply Qlt_bool_iff in E. eauto.
Qed.

Lemma field_candidate_bounds (element_loc : nat) (element_data : ElementData) (f : FormField) :
  field_candidate self element_loc element_data = Some f -> in_unit_interval f.
Proof.
  unfold field_candidate.
  destruct (sort_desc fst _) as [|[c ft] r] eqn:E; [discriminate|].
  destruct (Qle_bool _ _); [|discriminate]. intros [= <-]. unfold in_unit_interval. simpl.
  destruct (sort_desc_head _ _ _ _ E) as [Hin _].
  apply possible_types_inv in Hin as (pats & _ & -> & _).
  now apply calculate_confidence_bounds.
Qed.

Lemma scan_element_ok (st : scan_state) (item : nat * ElementData) :
  scan_ok st -> scan_ok (scan_element self st item).
Proof.
  intros [Hc Hb]. destruct item as [element_loc element_data]. unfold scan_element.
  assert (scan_ok match field_candidate self element_loc element_data with
                  | Some field => {| scan_buttons := scan_buttons st;
                                     scan_candidates := (scan_candidates st ++ [field])%list |}
                  | None => st
                  end) as Hfield.
  { destruct (field_candidate _ _ _) as [f|] eqn:E; [|now split].
    split; [|exact Hb]. simpl. apply Forall_app. split; [exact Hc|].
    constructor; [|constructor]. eapply field_candidate_bounds. exact E. }
  destruct (is_button_like element_data); [|exact Hfield].
  destruct (_classify_button element_data) as [cls|]; [|exact Hfield].
  destruct (scan_buttons st !! cls) as [l|] eqn:El; [|exact Hfield].
  split; [exact Hc|]. simpl. intros key l'.
  destruct (decide (cls = key)) as [->|Hne].
  - rewrite lookup_insert_eq. intros [= <-]. apply Forall_app. split; [now apply (Hb key)|].
    constructor; [|constructor]. unfold in_unit_interval, button_field. simpl. lra.
  - rewrite lookup_insert_ne by exact Hne. apply Hb.
Qed.

Lemma scan_ok_fold (items : list (nat * ElementData)) :
  scan_ok (fold_left (scan_element self) items
             {| scan_buttons := initial_action_buttons; scan_candidates := [] |}).
Proof.
  apply fold_left_invariant.
  - split; [constructor|]. simpl. intros key l H.
    unfold initial_action_buttons in H.
    repeat (apply lookup_insert_Some in H as [[_ <-]|[_ H]]; [constructor|]).
    apply lookup_singleton_Some in H as [_ <-]. constructor.
  - intros st item _. apply scan_element_ok.
Qed.

Lemma detect_all_fields_bounds (elements : list ElementData) (ff : FormField) :
  let analysis := detect_all_fields_on_page self elements in
  (exists ft, detected_fields analysis !! ft = Some ff)
  \/ (exists key l, action_buttons analysis !! key = Some l /\ In ff l) ->
  in_unit_interval ff.
Proof.
  unfold detect_all_fields_on_page. simpl.
  destruct (scan_ok_fold (imap (fun i e => (i, e)) elements)) as [Hc Hb].
  intros [[ft H]|(key & l & H & Hin)].
  - apply resolved_is_candidate in H as Hcand.
    rewrite Forall_forall in Hc. apply Hc. now apply list_elem_of_In.
  - specialize (Hb key l H). rewrite Forall_forall in Hb. apply Hb. now apply list_elem_of_In.
Qed.

End Scan.

(** C6.  Whatever the configured threshold and the scanned elements, every
    descriptor of the analysis, in the resolved mapping or in a list of
    action buttons, has a confidence between 0 and 1. *)
Theorem page_analysis_confidence_in_unit_interval (threshold : option Q)
    (elements : list ElementData) (ff : FormField) :
  let analysis := detect_all_fields_on_page (new_FieldDetector threshold) elements in
  (exists ft, detected_fields analysis !! ft = Some ff)
  \/ (exists key l, action_buttons analysis !! key = Some l /\ In ff l) ->
  (0 <= confidence ff)%Q /\ (confidence ff <= 1)%Q.
Proof.
  apply (detect_all_fields_bounds (new_FieldDetector threshold) (default_weights_nonneg threshold)).
Qed.

Lemma page_analysis_confidence_in_unit_interval_witness :
  let elements := [Fixtures.input_autocomplete "email"; Fixtures.button_labelled "Next Step"] in
  let analysis := detect_all_fields_on_page Fixtures.default_detector elements in
  (exists ff, detected_fields analysis !! EMAIL = Some ff
              /\ (0 <= confidence ff)%Q /\ (confidence ff <= 1)%Q)
  /\ (exists ff, action_buttons analysis !! "next" = Some [ff]
                 /\ (0 <= confidence ff)%Q /\ (confidence ff <= 1)%Q).
Proof.
  cbv zeta. split.
  - eexists. split; [vm_compute; reflexivity|].
    apply (page_analysis_confidence_in_unit_interval
             (Some UniversalFormFiller.default_confidence_threshold)
             [Fixtures.input_autocomplete "email"; Fixtures.button_labelled "Next Step"]).
    left. exists EMAIL. vm_compute. reflexivity.
  - eexists. split; [vm_compute; reflexivity|].
    apply (page_analysis_confidence_in_unit_interval
             (Some UniversalFormFiller.default_confidence_threshold)
             [Fixtures.input_autocomplete "email"; Fixtures.button_labelled "Next Step"]).
    right. eexists "next", _. split; [vm_compute; reflexivity | now left].
Defined.

(** ** The admission floor *)

Lemma Qround_half_even_lower (q : Q) (n : Z) :
  (inject_Z n <= q)%Q -> (n <= Qround_half_even q)%Z.
Proof.
  destruct q as [a d]. unfold Qle, Qround_half_even. simpl.
  rewrite Z.mul_1_r. intros H.
  assert (n <= a / Zpos d)%Z by (apply Z.div_le_lower_bound; lia).
  destruct (2 * (a mod Zpos d) ?= Zpos d)%Z; [destruct (Z.even (a / Zpos d))| |]; lia.
Qed.

Lemma round3_lower (x : Q) (n : Z) :
  (inject_Z n / 1000 <= x)%Q -> (inject_Z n / 1000 <= round3 x)%Q.
Proof.
  intros H. unfold round3.
  assert (n <= Qround_half_even (x * 1000))%Z as Hn.
  { apply Qround_half_even_lower. destruct x as [a d].
    unfold Qle, Qdiv, Qmult, Qinv, inject_Z in *. simpl in *. lia. }
  revert Hn. generalize (Qround_half_even (x * 1000)). intros r Hr.
  unfold Qle, Qdiv, Qmult, Qinv, inject_Z. simpl. lia.
Qed.

Lemma score_group_cases (weights : list (string * Q)) (element_data : ElementData)
    (score : Q) (group : string * list string) :
  score_group weights element_data score group = score
  \/ score_group weights element_data score group
     = (score + default 1.0%Q (dict_get weights (weight_key group.1)))%Q.
Proof.
  destruct group as [k pats]. unfold score_group.
  destruct (attr_for_group element_data k); [|now left].
  destruct (negb _); [now left|]. destruct (existsb _ _); [now right | now left].
Qed.

(** A group never lowers the score under the weights of the source. *)
Lemma score_group_default_ge (element_data : ElementData) (score : Q)
    (key : string) (pats : list string) :
  In key ["names"; "labels"; "placeholders"; "types"; "autocompletes"; "data-automation-ids"] ->
  (score <= score_group UniversalFormFiller._get_default_attribute_weights
              element_data score (key, pats))%Q.
Proof.
  intros Hk.
  destruct (score_group_cases UniversalFormFiller._get_default_attribute_weights
              element_data score (key, pats)) as [->| ->]; [lra|].
  simpl in Hk.
  assert (0 <= default 1.0 (dict_get UniversalFormFiller._get_default_attribute_weights
                              (weight_key (key, pats).1)))%Q; [|lra].
  simpl fst.
  destruct Hk as [<-|[<-|[<-|[<-|[<-|[<-|[]]]]]]]; vm_compute; discriminate.
Qed.

Lemma fold_score_group_default_ge (element_data : ElementData)
    (groups : list (string * list string)) (score : Q) :
  Forall (fun g => In g.1 ["names"; "labels"; "placeholders"; "types"; "autocompletes";
                           "data-automation-ids"]) groups ->
  (score <= fold_left (score_group UniversalFormFiller._get_default_attribute_weights
                         element_data) groups score)%Q.
Proof.
  intros H. revert score. induction H as [|[k pats] groups Hk _ IH]; intros score; simpl.
  - lra.
  - eapply Qle_trans; [|apply IH]. now apply score_group_default_ge.
Qed.

Lemma score_group_autocomplete_email (element_data : ElementData) (score : Q) :
  ed_autocomplete element_data = "email" ->
  score_group UniversalFormFiller._get_default_attribute_weights element_data score
    ("autocompletes", ["email"; "username"]) = (score + 3.5)%Q.
Proof.
  intros H. unfold score_group, attr_for_group. simpl. rewrite H. reflexivity.
Qed.

Lemma type_bonus_default_nonneg (element_data : ElementData) (ft : FieldType) :
  (0 <= type_bonus UniversalFormFiller._get_default_attribute_weights element_data ft)%Q.
Proof.
  unfold type_bonus.
  change (default 3.0%Q (dict_get UniversalFormFiller._get_default_attribute_weights "type"))
    with 3.0%Q.
  repeat match goal with |- context [if ?b then _ else _] => destruct b end; lra.
Qed.

(** The raw EMAIL score of an element with [autocomplete="email"] is at
    least the damped weight of the autocomplete category. *)
Lemma raw_score_autocomplete_email (threshold : option Q) (element_data : ElementData) :
  ed_autocomplete element_data = "email" ->
  (1.05 <= raw_score (new_FieldDetector threshold) element_data
             (patterns_of (new_FieldDetector threshold) EMAIL) EMAIL)%Q.
Proof.
  intros H. unfold raw_score.
  change (attribute_weights (new_FieldDetector threshold))
    with UniversalFormFiller._get_default_attribute_weights.
  set (w := UniversalFormFiller._get_default_attribute_weights).
  assert (3.5 <= fold_left (score_group w element_data)
                   (patterns_of (new_FieldDetector threshold) EMAIL) 0)%Q as Hfold.
  { change (patterns_of (new_FieldDetector threshold) EMAIL)
      with [ ("names", ["email"; "e-?mail"; "user-?name"; "login"; "userPrincipalName"]);
             ("labels", ["email\s*address"; "e-?mail"; "your\s*email"; "user\s*name"; "login\s*id"]);
             ("placeholders", ["enter\s*email"; "email"; "@"; "example@company\.com"]);
             ("types", ["^email$"]);
             ("autocompletes", ["email"; "username"]);
             ("data-automation-ids", ["email"; "username"; "userid"]) ].
    change (fold_left ?f (?a :: ?b :: ?c :: ?d :: ?e :: ?r) ?z)
      with (fold_left f r (f (fold_left f [a; b; c; d] z) e)).
    rewrite (score_group_autocomplete_email element_data _ H).
    set (groups := [_; _; _; _]).
    assert (0 <= fold_left (score_group w element_data) groups 0)%Q as Hpre.
    { apply fold_score_group_default_ge. subst groups. repeat constructor; simpl; tauto. }
    eapply Qle_trans; [|apply fold_score_group_default_ge; repeat constructor; simpl; tauto].
    lra. }
  pose proof (type_bonus_default_nonneg element_data EMAIL) as Hb. fold w in Hb.
  destruct (negative_match _ _); lra.
Qed.

(** C8.  An element whose [autocomplete] is "email" gets an EMAIL
    confidence above the admission floor 0.15, and the pair of that
    confidence and EMAIL is among the possible types of the element.  This
    holds whatever the other attributes are (they can only add to the
    score, and a negative pattern damps it to no less than 1.05 of 5), so in
    particular when [autocomplete] is the only attribute that carries a
    signal. *)
Theorem autocomplete_email_is_admitted (threshold : option Q) (element_data : ElementData) :
  ed_autocomplete element_data = "email" ->
  let self := new_FieldDetector threshold in
  let c := _calculate_confidence self element_data (patterns_of self EMAIL) EMAIL in
  (0.15 < c)%Q /\ In (c, EMAIL) (possible_types_for_element self element_data).
Proof.
  intros H self c.
  assert (0.15 < c)%Q as Hc.
  { subst c. unfold _calculate_confidence.
    pose proof (raw_score_autocomplete_email threshold element_data H) as Hraw.
    pose proof (max_possible_score_default threshold EMAIL) as Hm.
    fold self in Hraw, Hm.
    set (score := raw_score self element_data (patterns_of self EMAIL) EMAIL) in *.
    set (m := max_possible_score self (patterns_of self EMAIL)) in *.
    assert (Qlt_bool 0 score = true) as -> by (apply Qlt_bool_iff; lra).
    assert (score / m == score / 5)%Q as Hx by (now rewrite Hm).
    apply Qlt_le_trans with (y := (inject_Z 210 / 1000)%Q); [reflexivity|].
    apply round3_lower.
    change (inject_Z 210 / 1000)%Q with (210 / 1000)%Q.
    destruct (Qlt_bool 1.0 (score / m)); [vm_compute; discriminate|].
    rewrite Hx. clear Hx Hm. apply Qle_shift_div_l; [reflexivity|].
    apply Qle_trans with (y := 1.05%Q); [vm_compute; discriminate | exact Hraw]. }
  split; [exact Hc|].
  unfold possible_types_for_element. apply in_flat_map.
  exists (EMAIL, patterns_of self EMAIL). split; [now left|].
  fold c. apply Qlt_bool_iff in Hc. rewrite Hc. now left.
Qed.

Lemma autocomplete_email_is_admitted_witness :
  let e := Fixtures.input_autocomplete "email" in
  let self := Fixtures.default_detector in
  let c := _calculate_confidence self e (patterns_of self EMAIL) EMAIL in
  (0.15 < c)%Q /\ In (c, EMAIL) (possible_types_for_element self e).
Proof.
  apply (autocomplete_email_is_admitted
           (Some UniversalFormFiller.default_confidence_threshold)
           (Fixtures.input_autocomplete "email")).
  reflexivity.
Defined.

(** With [autocomplete="email"] as the only attribute of a text input the
    confidence is 3.5 of 5. *)
Example only_autocomplete_email_confidence :
  let self := Fixtures.default_detector in
  (_calculate_confidence self (Fixtures.input_autocomplete "email") (patterns_of self EMAIL) EMAIL
   == 0.7)%Q
  /\ field_type <$> field_candidate self 0 (Fixtures.input_autocomplete "email") = Some EMAIL.
Proof. vm_compute. split; reflexivity. Qed.

(** ** DOM stability *)

Module StabilityFacts.
Import StabilityDetector.

(** A batch with a critical record resets the time of the last critical
    mutation to the time of its callback. *)
Lemma processMutations_critical (now : Z) (batch : list MutationRecord) (d : t) :
  existsb isCriticalMutation batch = true ->
  lastCriticalMutation (processMutations now batch d) = now.
Proof. intros H. unfold processMutations. now rewrite H. Qed.

Lemma processMutations_quiet (now : Z) (batch : list MutationRecord) (d : t) :
  existsb isCriticalMutation batch = false ->
  lastCriticalMutation (processMutations now batch d) = lastCriticalMutation d.
Proof. intros H. unfold processMutations. now rewrite H. Qed.

Lemma processMutations_parts (now : Z) (batch : list MutationRecord) (d : t) :
  observing (processMutations now batch d) = observing d
  /\ stabilityWindowMs (processMutations now batch d) = stabilityWindowMs d
  /\ lastCriticalMutation (processMutations now batch d)
     = if existsb isCriticalMutation batch then now else lastCriticalMutation d.
Proof. unfold processMutations. now destruct (existsb _ _). Qed.

Lemma processMutations_settings (now : Z) (batch : list MutationRecord) (d : t) :
  stabilityWindowMs (processMutations now batch d) = stabilityWindowMs d
  /\ observing (processMutations now batch d) = observing d.
Proof. unfold processMutations. now destruct (existsb _ _). Qed.

(** [isStable] holds exactly when a full window has passed since the last
    critical mutation. *)
Lemma isStable_iff (now : Z) (d : t) :
  isStable now d = true <-> (stabilityWindowMs d <= now - lastCriticalMutation d)%Z.
Proof. unfold isStable. apply Z.leb_le. Qed.

Lemma spaced_last_time (w prev : Z) (s : script) :
  spaced w prev s -> (prev <= last_time prev s)%Z.
Proof.
  revert prev. induction s as [|[at_ batch] s IH]; intros prev; simpl; [lia|].
  intros (H1 & _ & _ & H2). specialize (IH _ H2). lia.
Qed.

(** Batches that are all due after [upto] leave the detector as it is. *)
Lemma deliver_later (w prev since upto : Z) (s : script) (d : t) :
  spaced w prev s -> (upto < prev)%Z -> deliver since upto s d = d.
Proof.
  revert prev d. induction s as [|[at_ batch] s IH]; intros prev d; simpl; [reflexivity|].
  intros (H1 & _ & _ & H2) Hlt.
  replace (at_ <=? upto)%Z with false by (symmetry; apply Z.leb_gt; lia).
  rewrite !andb_false_r. apply (IH at_); [exact H2 | lia].
Qed.

(** Delivering a spaced script to an observing detector whose last
    critical mutation was at [prev]: at any time from [prev] on, it is
    stable exactly from a full window after the last batch. *)
Lemma deliver_spaced (w since now : Z) (s : script) :
  forall (prev : Z) (d : t),
    observing d = true -> stabilityWindowMs d = w -> lastCriticalMutation d = prev ->
    (since < prev)%Z -> (prev <= now)%Z -> spaced w prev s ->
    (isStable now (deliver since now s d) = true <-> (last_time prev s + w <= now)%Z).
Proof.
  induction s as [|[at_ batch] s IH]; intros prev d Hobs Hw Hlast Hsince Hnow Hsp.
  - simpl. rewrite isStable_iff, Hw, Hlast. lia.
  - destruct Hsp as (H1 & H2 & Hcrit & Hsp).
    destruct (Z_le_gt_dec at_ now) as [Hle|Hgt].
    + change (deliver since now ((at_, batch) :: s) d)
        with (deliver since now s
                (if observing d && (since <? at_)%Z && (at_ <=? now)%Z
                 then processMutations at_ batch d else d)).
      rewrite Hobs.
      replace (since <? at_)%Z with true by (symmetry; apply Z.ltb_lt; lia).
      replace (at_ <=? now)%Z with true by (symmetry; apply Z.leb_le; lia).
      simpl andb. cbv iota.
      destruct (processMutations_settings at_ batch d) as [Hw' Hobs'].
      apply (IH at_).
      * now rewrite Hobs'.
      * now rewrite Hw'.
      * now apply processMutations_critical.
      * lia.
      * exact Hle.
      * exact Hsp.
    + change (deliver since now ((at_, batch) :: s) d)
        with (deliver since now s
                (if observing d && (since <? at_)%Z && (at_ <=? now)%Z
                 then processMutations at_ batch d else d)).
      replace (at_ <=? now)%Z with false by (symmetry; apply Z.leb_gt; lia).
      rewrite andb_false_r.
      rewrite (deliver_later w at_ since now s d Hsp) by lia.
      rewrite isStable_iff, Hw, Hlast.
      pose proof (spaced_last_time w at_ s Hsp). simpl last_time. lia.
Qed.

Lemma state_at_first (t0 w at_ now : Z) (batch : list MutationRecord) (s : script) :
  (t0 < at_)%Z -> (at_ <= now)%Z ->
  state_at t0 w ((at_, batch) :: s) now
  = deliver t0 now s (processMutations at_ batch (startObserving t0 w (create t0))).
Proof.
  intros H1 H2. unfold state_at.
  change (deliver t0 now ((at_, batch) :: s) ?d)
    with (deliver t0 now s
            (if observing d && (t0 <? at_)%Z && (at_ <=? now)%Z
             then processMutations at_ batch d else d)).
  replace (t0 <? at_)%Z with true by (symmetry; apply Z.ltb_lt; lia).
  replace (at_ <=? now)%Z with true by (symmetry; apply Z.leb_le; lia).
  reflexivity.
Qed.

(** From the first batch on, the observer of a spaced script reports stable
    exactly from a full window after the last batch. *)
Lemma reports_stable_from_first (t0 w first now : Z) (batch : list MutationRecord)
    (rest : script) :
  (t0 < first)%Z -> existsb isCriticalMutation batch = true -> spaced w first rest ->
  (first <= now)%Z ->
  (reports_stable t0 w ((first, batch) :: rest) now = true
   <-> (last_time first rest + w <= now)%Z).
Proof.
  intros Ht0 Hcrit Hsp Hnow. unfold reports_stable.
  rewrite state_at_first by lia.
  apply (deliver_spaced w t0 now rest first).
  - unfold processMutations. now rewrite Hcrit.
  - unfold processMutations. now rewrite Hcrit.
  - now apply processMutations_critical.
  - exact Ht0.
  - exact Hnow.
  - exact Hsp.
Qed.

(** Before the first batch, which comes less than a window after the start,
    the observer does not report stable either. *)
Lemma reports_stable_before_first (t0 w first now : Z) (batch : list MutationRecord)
    (rest : script) :
  (first - t0 < w)%Z -> spaced w first rest -> (now < first)%Z ->
  reports_stable t0 w ((first, batch) :: rest) now = false.
Proof.
  intros Hgap Hsp Hnow. unfold reports_stable, state_at.
  change (deliver t0 now ((first, batch) :: rest) ?d)
    with (deliver t0 now rest
            (if observing d && (t0 <? first)%Z && (first <=? now)%Z
             then processMutations first batch d else d)).
  replace (first <=? now)%Z with false by (symmetry; apply Z.leb_gt; lia).
  rewrite andb_false_r, (deliver_later w first t0 now rest _ Hsp) by lia.
  unfold isStable. simpl. apply Z.leb_gt. lia.
Qed.

End StabilityFacts.

(** C9.  In the observer: a batch with a critical mutation resets the time
    of the last critical mutation to the time of its callback; [isStable]
    answers true exactly when a full window has passed since that time; and
    in a run observed from [t0] with window [w], for a script of critical
    batches whose consecutive gaps are all shorter than [w], from the first
    batch on the observer reports stable exactly from a full window after the
    last batch: never while the mutations go on, nor before a whole window
    has passed since they ceased. *)
Theorem stability_needs_a_quiet_window (t0 w first : Z)
    (batch : list StabilityDetector.MutationRecord) (rest : StabilityDetector.script) :
  (t0 < first)%Z ->
  existsb StabilityDetector.isCriticalMutation batch = true ->
  StabilityDetector.spaced w first rest ->
  (forall now b d,
      existsb StabilityDetector.isCriticalMutation b = true ->
      StabilityDetector.lastCriticalMutation (StabilityDetector.processMutations now b d) = now)
  /\ (forall now d,
        StabilityDetector.isStable now d = true
        <-> (StabilityDetector.stabilityWindowMs d
             <= now - StabilityDetector.lastCriticalMutation d)%Z)
  /\ (forall now, (first <= now)%Z ->
        (StabilityDetector.reports_stable t0 w ((first, batch) :: rest) now = true
         <-> (StabilityDetector.last_time first rest + w <= now)%Z)).
Proof.
  intros Ht0 Hcrit Hsp. split; [|split].
  - intros now b d. apply StabilityFacts.processMutations_critical.
  - apply StabilityFacts.isStable_iff.
  - intros now Hnow. now apply StabilityFacts.reports_stable_from_first.
Qed.

Lemma stability_needs_a_quiet_window_witness :
  (StabilityDetector.reports_stable 0 1000
     [(300, Fixtures.node_added); (900, Fixtures.node_added); (1500, Fixtures.node_added)]%Z
     2499 = true
   <-> (2500 <= 2499)%Z)
  /\ (StabilityDetector.reports_stable 0 1000
        [(300, Fixtures.node_added); (900, Fixtures.node_added); (1500, Fixtures.node_added)]%Z
        2500 = true
      <-> (2500 <= 2500)%Z).
Proof.
  pose proof (proj2 (proj2 (stability_needs_a_quiet_window 0 1000 300 Fixtures.node_added
                              [(900, Fixtures.node_added); (1500, Fixtures.node_added)]%Z
                              ltac:(lia) ltac:(reflexivity)
                              ltac:(simpl; repeat split; lia)))) as H.
  split; apply H; lia.
Defined.

Example stability_reports :
  StabilityDetector.reports_stable 0 1000
    [(300, Fixtures.node_added); (900, Fixtures.node_added); (1500, Fixtures.node_added)]%Z
    2499 = false
  /\ StabilityDetector.reports_stable 0 1000
       [(300, Fixtures.node_added); (900, Fixtures.node_added); (1500, Fixtures.node_added)]%Z
       2500 = true.
Proof. vm_compute. split; reflexivity. Qed.

(** ** The wait loop *)

Module StabilityWaitFacts.
Import StabilityDetector StabilityWait StabilityFacts.

(** The time of the last critical mutation after a delivery, as a fold over
    the script. *)
Lemma deliver_observing (since upto : Z) (s : script) (d : t) :
  observing d = true ->
  observing (deliver since upto s d) = true
  /\ stabilityWindowMs (deliver since upto s d) = stabilityWindowMs d
  /\ lastCriticalMutation (deliver since upto s d)
     = last_critical since upto s (lastCriticalMutation d).
Proof.
  unfold last_critical. revert d. induction s as [|[at_ batch] s IH]; intros d Hobs; [now simpl|].
  change (deliver since upto ((at_, batch) :: s) d)
    with (deliver since upto s
            (if observing d && (since <? at_)%Z && (at_ <=? upto)%Z
             then processMutations at_ batch d else d)).
  rewrite Hobs. simpl andb. simpl fold_left.
  destruct ((since <? at_)%Z && (at_ <=? upto)%Z) eqn:E; simpl andb; cbv iota.
  - destruct (processMutations_parts at_ batch d) as (Ho & Hw & Hl).
    destruct (IH (processMutations at_ batch d)) as (H1 & H2 & H3); [now rewrite Ho|].
    rewrite H1, H2, H3, Hw, Hl. auto.
  - destruct (IH d Hobs) as (H1 & H2 & H3). auto.
Qed.

Lemma last_critical_cons (since upto at_ : Z) (batch : list MutationRecord) (s : script)
    (init : Z) :
  last_critical since upto ((at_, batch) :: s) init
  = last_critical since upto s
      (if (since <? at_)%Z && (at_ <=? upto)%Z && existsb isCriticalMutation batch
       then at_ else init).
Proof. reflexivity. Qed.

(** The last critical time is the initial value or a time of the
    interval. *)
Lemma last_critical_cases (since upto : Z) (s : script) (init : Z) :
  last_critical since upto s init = init
  \/ (since < last_critical since upto s init <= upto)%Z.
Proof.
  revert init. induction s as [|[at_ batch] s IH]; intros init.
  - now left.
  - rewrite last_critical_cons.
    destruct ((since <? at_)%Z && (at_ <=? upto)%Z && existsb isCriticalMutation batch) eqn:E.
    + apply andb_true_iff in E as [E _]. apply andb_true_iff in E as [E1 E2].
      apply Z.ltb_lt in E1. apply Z.leb_le in E2.
      destruct (IH at_) as [->|H]; right; lia.
    + apply IH.
Qed.

(** Splitting the interval at [now]: what the whole interval gives is no
    later than what its second part gives from an initial value that covers
    the first part. *)
Lemma last_critical_split (t0 now upto : Z) (s : script) :
  forall a c b init : Z,
    (t0 <= now)%Z -> (now <= upto)%Z ->
    (init <= now)%Z -> (init <= b)%Z -> (c <= b \/ c = a)%Z ->
    (last_critical t0 now s a <= init)%Z ->
    (last_critical t0 upto s c <= last_critical now upto s b)%Z.
Proof.
  induction s as [|[at_ batch] s IH]; intros a c b init H0 H1 Hi Hb Hc Ha.
  - unfold last_critical in *. simpl in *. lia.
  - rewrite !last_critical_cons in *.
    destruct (existsb isCriticalMutation batch); rewrite ?andb_false_r, ?andb_true_r in *;
      [|now apply (IH a c b init)].
    destruct (Z.ltb_spec t0 at_), (Z.leb_spec at_ now), (Z.ltb_spec now at_),
      (Z.leb_spec at_ upto); simpl andb in *; cbv iota in *; try lia;
      try (apply (IH a c b init); auto; lia);
      try (apply (IH at_ at_ b init); auto; lia);
      try (apply (IH a at_ at_ init); auto; lia).
Qed.

Lemma state_at_last (t0 w now : Z) (s : script) :
  observing (state_at t0 w s now) = true
  /\ stabilityWindowMs (state_at t0 w s now) = w
  /\ lastCriticalMutation (state_at t0 w s now) = last_critical t0 now s t0.
Proof.
  unfold state_at.
  destruct (deliver_observing t0 now s (startObserving t0 w (create t0)) eq_refl)
    as (H1 & H2 & H3).
  auto.
Qed.

Section Loop.

Variable page : Page.
Variables t0 timeout w : Z.
Hypothesis window_nonneg : (0 <= w)%Z.
Hypothesis page_causal : causal page.

(** The invariant of the loop: the detector observes with window [w], its
    last critical time is not in the future and not before the one of the
    observer run on the page's script alone. *)
Let inv (st : loop_state) : Prop :=
  observing (detector st) = true
  /\ stabilityWindowMs (detector st) = w
  /\ (t0 <= now st)%Z
  /\ (lastCriticalMutation (detector st) <= now st)%Z
  /\ (lastCriticalMutation (state_at t0 w (mutations page) (now st))
      <= lastCriticalMutation (detector st))%Z.

Lemma inv_advance (st : loop_state) (upto : Z) :
  inv st -> (now st <= upto)%Z -> inv (advance page upto st).
Proof.
  intros (Ho & Hw & Ht & Hl & Hs) Hle. unfold inv, advance. simpl.
  destruct (deliver_observing (now st) upto (mutations page) (detector st) Ho)
    as (H1 & H2 & H3).
  destruct (state_at_last t0 w upto (mutations page)) as (_ & _ & H4).
  destruct (state_at_last t0 w (now st) (mutations page)) as (_ & _ & H5).
  rewrite H1, H2, H3, H4. rewrite H5 in Hs.
  split; [reflexivity|]. split; [exact Hw|]. split; [lia|]. split.
  - destruct (last_critical_cases (now st) upto (mutations page)
                (lastCriticalMutation (detector st))) as [->|H]; lia.
  - apply (last_critical_split t0 (now st) upto (mutations page) t0 t0
             (lastCriticalMutation (detector st)) (lastCriticalMutation (detector st)));
      auto; lia.
Qed.

Lemma inv_touch (st : loop_state) :
  inv st ->
  inv {| now := now st; loop_count := loop_count st;
         detector := touch (now st) (detector st) |}.
Proof.
  intros (Ho & Hw & Ht & Hl & Hs). unfold inv. simpl.
  split; [exact Ho|]. split; [exact Hw|]. split; [exact Ht|]. split; [lia|].
  destruct (state_at_last t0 w (now st) (mutations page)) as (_ & _ & ->).
  destruct (last_critical_cases t0 (now st) (mutations page) t0) as [->|H]; lia.
Qed.

Lemma inv_stable (st : loop_state) :
  inv st -> isStable (now st) (detector st) = true ->
  reports_stable t0 w (mutations page) (now st) = true.
Proof.
  intros (Ho & Hw & Ht & Hl & Hs) H. unfold reports_stable.
  apply isStable_iff in H. apply isStable_iff.
  destruct (state_at_last t0 w (now st) (mutations page)) as (_ & -> & _). lia.
Qed.

(** A round answers [True] only at a poll at which the observer, run on the
    script alone, reports stable; otherwise it keeps the invariant and moves
    the clock by 250 ms at least. *)
Lemma round_sound (idle : bool) (st : loop_state) :
  inv st ->
  match round page timeout w t0 idle st with
  | inl (true, at_) =>
      exists poll, (t0 <= poll <= at_)%Z
                   /\ reports_stable t0 w (mutations page) poll = true
  | inl (false, _) => True
  | inr st' => inv st' /\ (now st + 250 <= now st')%Z
  end.
Proof.
  intros Hinv. unfold round.
  destruct (negb (now st - t0 <? timeout)%Z); [exact I|].
  destruct (is_closed page (now st)); [exact I|].
  pose proof Hinv as (Ho & Hw & Ht & Hl & Hs). cbv zeta. simpl now. simpl detector.
  simpl loop_count.
  destruct (isStable (now st) (detector st)) eqn:Hst.
  - pose proof (inv_stable st Hinv Hst) as Hrep.
    destruct (idle || (3 <? S (loop_count st))%nat).
    + destruct (networkidle page (now st) w) as [idle_at|] eqn:Hnet.
      * exists (now st). split; [|exact Hrep].
        pose proof (page_causal _ _ _ Hnet). lia.
      * split; [|simpl; lia]. apply inv_advance; [|simpl; lia].
        apply (inv_touch (advance page (now st + w)
                            {| now := now st; loop_count := S (loop_count st);
                               detector := detector st |})).
        apply inv_advance; [exact Hinv | simpl; lia].
    + exists (now st). split; [lia | exact Hrep].
  - split; [|simpl; lia]. apply inv_advance; [exact Hinv | simpl; lia].
Qed.

Lemma stability_loop_sound (idle : bool) (fuel : nat) :
  forall (st : loop_state) (at_ : Z),
    inv st ->
    stability_loop fuel page timeout w t0 idle st = Some (true, at_) ->
    exists poll, (t0 <= poll <= at_)%Z
                 /\ reports_stable t0 w (mutations page) poll = true.
Proof.
  induction fuel as [|fuel IH]; intros st at_ Hinv; simpl; [discriminate|].
  pose proof (round_sound idle st Hinv) as Hr.
  destruct (round page timeout w t0 idle st) as [[[|] r]|st'].
  - intros [= <-]. exact Hr.
  - discriminate.
  - apply IH. apply Hr.
Qed.

(** The loop ends: a round that does not return moves the clock by 250 ms
    at least, and the clock is tested against the timeout. *)
Lemma stability_loop_total (idle : bool) (fuel : nat) :
  forall st : loop_state,
    inv st ->
    (timeout - (now st - t0) <= 250 * Z.of_nat fuel)%Z ->
    exists r, stability_loop (S fuel) page timeout w t0 idle st = Some r.
Proof.
  induction fuel as [|fuel IH]; intros st Hinv Hfuel.
  - simpl. unfold round.
    replace (now st - t0 <? timeout)%Z with false by (symmetry; apply Z.ltb_ge; lia).
    simpl. eauto.
  - change (stability_loop (S (S fuel)) page timeout w t0 idle st)
      with (match round page timeout w t0 idle st with
            | inl result => Some result
            | inr st' => stability_loop (S fuel) page timeout w t0 idle st'
            end).
    pose proof (round_sound idle st Hinv) as Hr.
    destruct (round page timeout w t0 idle st) as [r|st']; [eauto|].
    destruct Hr as [Hinv' Hclock]. apply IH; [exact Hinv' | lia].
Qed.

End Loop.

(** On an open page whose network waits are causal, the wait returns, and
    a [True] comes from a poll, no later than the return, at which a full
    window had passed since the last critical mutation of the page. *)
Lemma wait_for_intelligent_stability_sound (page : Page) (t0 timeout w : Z) :
  (0 <= w)%Z -> (0 <= timeout)%Z -> causal page ->
  (exists r, wait_for_intelligent_stability page t0 timeout w = Some r)
  /\ forall at_,
       wait_for_intelligent_stability page t0 timeout w = Some (true, at_) ->
       exists poll, (t0 <= poll <= at_)%Z
                    /\ reports_stable t0 w (mutations page) poll = true.
Proof.
  intros Hw Ht Hc. unfold wait_for_intelligent_stability.
  destruct (is_closed page t0); [split; [eauto | discriminate]|].
  set (d0 := startObserving t0 w (create t0)).
  assert (exists idle t1,
            (match networkidle page t0 (timeout / 3) with
             | Some idle_at => (true, idle_at)
             | None => (false, (t0 + timeout / 3)%Z)
             end) = (idle, t1) /\ (t0 <= t1)%Z) as (idle & t1 & -> & Ht1).
  { destruct (networkidle page t0 (timeout / 3)) as [idle_at|] eqn:E.
    - exists true, idle_at. split; [reflexivity|]. exact (Hc _ _ _ E).
    - exists false, (t0 + timeout / 3)%Z. split; [reflexivity|].
      pose proof (Z.div_pos timeout 3 Ht ltac:(lia)). lia. }
  assert (observing d0 = true
          /\ stabilityWindowMs d0 = w
          /\ (t0 <= t0)%Z
          /\ (lastCriticalMutation d0 <= t0)%Z
          /\ (lastCriticalMutation (state_at t0 w (mutations page) t0)
              <= lastCriticalMutation d0)%Z) as Hinv0.
  { unfold d0. simpl. split; [reflexivity|]. split; [reflexivity|].
    split; [lia|]. split; [lia|].
    destruct (state_at_last t0 w t0 (mutations page)) as (_ & _ & ->).
    destruct (last_critical_cases t0 t0 (mutations page) t0) as [->|H]; lia. }
  pose proof (inv_advance page t0 w {| now := t0; loop_count := 0; detector := d0 |} t1
                Hinv0 Ht1) as Hinv1.
  split.
  - apply stability_loop_total; [exact Hw | exact Hc | exact Hinv1 |]. simpl.
    rewrite Z2Nat.id by (pose proof (Z.div_pos timeout 250 Ht ltac:(lia)); lia).
    pose proof (Z.mul_succ_div_gt timeout 250 ltac:(lia)). lia.
  - intros at_. apply stability_loop_sound; [exact Hw | exact Hc | exact Hinv1].
Qed.

(** The wait on a page whose mutations are a spaced script that starts
    less than a window after the wait: a [True] is returned no earlier than a
    full window after the last batch. *)
Lemma wait_for_intelligent_stability_spaced (page : Page) (t0 timeout w first at_ : Z)
    (batch : list MutationRecord) (rest : script) :
  (0 <= timeout)%Z -> causal page ->
  mutations page = (first, batch) :: rest ->
  (t0 < first)%Z -> (first - t0 < w)%Z ->
  existsb isCriticalMutation batch = true -> spaced w first rest ->
  wait_for_intelligent_stability page t0 timeout w = Some (true, at_) ->
  (last_time first rest + w <= at_)%Z.
Proof.
  intros Ht Hc Hm Hfirst Hgap Hcrit Hsp Hwait.
  destruct (wait_for_intelligent_stability_sound page t0 timeout w ltac:(lia) Ht Hc)
    as [_ Hsound].
  destruct (Hsound at_ Hwait) as (poll & Hpoll & Hrep). rewrite Hm in Hrep.
  destruct (Z_lt_le_dec poll first) as [Hlt|Hle].
  - rewrite (reports_stable_before_first t0 w first poll batch rest Hgap Hsp Hlt) in Hrep.
    discriminate.
  - apply (reports_stable_from_first t0 w first poll batch rest Hfirst Hcrit Hsp Hle) in Hrep.
    lia.
Qed.

End StabilityWaitFacts.

(** A wait on a page with three node insertions, 600 ms apart, whose
    network is idle at once: polls every 250 ms, [True] at 2500 ms, which
    is the last insertion (1500 ms) plus the window (1000 ms). *)
Example wait_for_intelligent_stability_run :
  StabilityWait.wait_for_intelligent_stability
    {| StabilityWait.mutations :=
         [(300, Fixtures.node_added); (900, Fixtures.node_added); (1500, Fixtures.node_added)]%Z;
       StabilityWait.networkidle := fun t _ => Some t;
       StabilityWait.is_closed := fun _ => false |}
    0 10000 1000
  = Some (true, 2500%Z).
Proof. vm_compute. reflexivity. Qed.

(** ** Decision points *)

Module DecisionFacts.
Import Decision.

Lemma detect_decision_point_inv (self : DecisionHandler) (page : Page) (dp : DecisionPoint) :
  detect_decision_point self page = Some dp ->
  exists u, url page = Some u
            /\ In dp (decision_points self)
            /\ point_detected page (Str.lower u) dp = true.
Proof.
  unfold detect_decision_point. destruct (url page) as [u|]; [|discriminate].
  intros H. apply find_some in H as [Hin Hdet]. eauto.
Qed.

(** The first decision point that passes the test is reported. *)
Lemma detect_decision_point_complete (self : DecisionHandler) (page : Page)
    (u : string) (dp : DecisionPoint) :
  url page = Some u -> In dp (decision_points self) ->
  point_detected page (Str.lower u) dp = true ->
  exists dp', detect_decision_point self page = Some dp'.
Proof.
  intros Hu Hin Hdet. unfold detect_decision_point. rewrite Hu.
  destruct (List.find _ _) as [dp'|] eqn:E; [eauto|].
  exfalso. pose proof (find_none _ _ E dp Hin) as Hn. simpl in Hn. congruence.
Qed.

Lemma buttons_criterion_met_iff (page : Page) (criteria : Criteria) :
  buttons_criterion_met page criteria = true
  <-> button_options_texts criteria = []
      \/ (Nat.max 1 (length (button_options_texts criteria) / 2)
          <= actual_buttons_found_count page criteria)%nat.
Proof.
  unfold buttons_criterion_met, required_buttons, actual_buttons_found_count.
  destruct (button_options_texts criteria) as [|b l] eqn:E.
  - split; [now left | reflexivity].
  - rewrite Nat.leb_le. split; [now right|]. intros [H|H]; [discriminate | exact H].
Qed.

End DecisionFacts.

(** C3, as the specification states it, fails: on a Workday URL with one
    of the three expected button texts on the page, the method selection
    point is reported, although half of three rounded up is two. *)
Lemma decision_point_detected_with_one_button_of_three :
  let page := Fixtures.workday_page false ["Apply Manually"] [] false in
  let self := Decision.new_DecisionHandler None in
  (fun dp => (Decision.name dp,
              length (Decision.button_options_texts (Decision.detection_criteria dp)),
              Decision.actual_buttons_found_count page (Decision.detection_criteria dp),
              Decision.half_rounded_up (Decision.detection_criteria dp)))
    <$> Decision.detect_decision_point self page
  = Some ("workday_application_method_selection", 3, 1, 2)%nat.
Proof. vm_compute. reflexivity. Qed.

(** C3, amended.  A decision point is reported only when it is one of the
    handler's points, a URL pattern occurs in the lower-cased URL or a text
    indicator is found, and either the point lists no expected button text
    or the number of listed texts found on the page is at least half their
    number rounded down, and at least one; for a point that lists three, one
    text on the page is enough. *)
Theorem detect_decision_point_criterion (self : Decision.DecisionHandler)
    (page : Decision.Page) (dp : Decision.DecisionPoint) :
  Decision.detect_decision_point self page = Some dp ->
  let criteria := Decision.detection_criteria dp in
  In dp (Decision.decision_points self)
  /\ (exists u, Decision.url page = Some u
                /\ (Decision.url_match (Str.lower u) criteria = true
                    \/ Decision.text_match page criteria = true))
  /\ (Decision.button_options_texts criteria = []
      \/ (Nat.max 1 (length (Decision.button_options_texts criteria) / 2)
          <= Decision.actual_buttons_found_count page criteria)%nat)
  /\ (length (Decision.button_options_texts criteria) = 3%nat ->
      (1 <= Decision.actual_buttons_found_count page criteria)%nat).
Proof.
  intros H criteria.
  apply DecisionFacts.detect_decision_point_inv in H as (u & Hu & Hin & Hdet).
  unfold Decision.point_detected in Hdet. fold criteria in Hdet.
  apply andb_true_iff in Hdet as [Hstrong Hbuttons].
  apply orb_true_iff in Hstrong.
  apply DecisionFacts.buttons_criterion_met_iff in Hbuttons.
  split; [exact Hin|]. split; [eauto|]. split; [exact Hbuttons|].
  intros Hlen. destruct Hbuttons as [E|Hle].
  - rewrite E in Hlen. discriminate.
  - rewrite Hlen in Hle. exact Hle.
Qed.

Lemma detect_decision_point_criterion_witness :
  let page := Fixtures.workday_page false ["Apply Manually"] [] false in
  let self := Decision.new_DecisionHandler None in
  exists dp,
    Decision.name dp = "workday_application_method_selection"
    /\ In dp (Decision.decision_points self)
    /\ (exists u, Decision.url page = Some u
                  /\ (Decision.url_match (Str.lower u) (Decision.detection_criteria dp) = true
                      \/ Decision.text_match page (Decision.detection_criteria dp) = true))
    /\ (Decision.button_options_texts (Decision.detection_criteria dp) = []
        \/ (Nat.max 1 (length (Decision.button_options_texts (Decision.detection_criteria dp)) / 2)
            <= Decision.actual_buttons_found_count page (Decision.detection_criteria dp))%nat)
    /\ (length (Decision.button_options_texts (Decision.detection_criteria dp)) = 3%nat ->
        (1 <= Decision.actual_buttons_found_count page (Decision.detection_criteria dp))%nat).
Proof.
  cbv zeta.
  exists (nth 0 Decision._initialize_decision_points
            {| Decision.name := ""; Decision.description := "";
               Decision.detection_criteria :=
                 {| Decision.url_patterns := []; Decision.text_indicators := [];
                    Decision.button_options_texts := [] |};
               Decision.options := [] |}).
  split; [reflexivity|].
  apply (detect_decision_point_criterion (Decision.new_DecisionHandler None)
           (Fixtures.workday_page false ["Apply Manually"] [] false)).
  vm_compute. reflexivity.
Defined.

Module ResolutionFacts.
Import Decision.

(** Without a clickable element the loop over a selector clicks nothing. *)
Lemma try_elements_none (page : Page) (selector : string) (after_click : Session -> Session)
    (elements : list Element) (index : nat) (s : Session) :
  (forall element, In element elements -> clickable element = false) ->
  exists a, try_elements page selector after_click elements index s = (a, s) /\ a <> Returned.
Proof.
  revert index. induction elements as [|e elements IH]; intros index H; simpl.
  - exists Exhausted. split; [reflexivity | discriminate].
  - pose proof (H e (or_introl eq_refl)) as He. unfold clickable in He.
    specialize (IH (S index) (fun e' He' => H e' (or_intror He'))).
    destruct (is_visible e) as [[|]|]; [| exact IH | exists Raised; split; [reflexivity | discriminate]].
    destruct (is_enabled e) as [[|]|]; [| exact IH | exists Raised; split; [reflexivity | discriminate]].
    rewrite He. exists Raised. split; [reflexivity | discriminate].
Qed.

Lemma try_selectors_none (page : Page) (after_click : Session -> Session)
    (sels : list string) (s : Session) :
  (forall selector elements element,
      In selector sels -> locator_all page selector = Some elements ->
      In element elements -> clickable element = false) ->
  try_selectors page after_click sels s = (false, s).
Proof.
  induction sels as [|sel sels IH]; intros H; simpl; [reflexivity|].
  specialize (IH (fun sel' els e Hs => H sel' els e (or_intror Hs))).
  destruct (locator_all page sel) as [els|] eqn:E; [|exact IH].
  destruct (try_elements_none page sel after_click els 0 s
              (fun e He => H sel els e (or_introl eq_refl) E He)) as (a & -> & Ha).
  destruct a; [contradiction | exact IH | exact IH].
Qed.

(** Storing the same decision twice is storing it once. *)
Lemma store_decision_twice (page : Page) (self : DecisionHandler) (n o : string) :
  store_decision page (store_decision page self n o) n o = store_decision page self n o.
Proof.
  unfold store_decision, _save_preferences.
  destruct (file_writable page); simpl; rewrite insert_insert_eq; reflexivity.
Qed.

Section Progress.

Variable page : Page.
Variables n o : string.
Variable sels : list string.
Variable s0 : Session.

Let after_click (s : Session) : Session :=
  {| handler := store_decision page (handler s) n o; clicked := clicked s |}.

Let progress := Decision.progress page n o sels s0.

Lemma progress_click (s : Session) (sel : string) (index : nat) :
  In sel sels -> progress s ->
  progress (after_click {| handler := handler s;
                           clicked := (clicked s ++ [(sel, index)])%list |}).
Proof.
  intros Hsel [->|(new & Hne & Hc & Hall & Hh)]; right.
  - exists [(sel, index)]. split; [discriminate|]. split; [reflexivity|].
    split; [repeat constructor; exact Hsel | reflexivity].
  - exists (new ++ [(sel, index)])%list. split; [now destruct new|].
    split; [simpl; rewrite Hc; now rewrite app_assoc|].
    split; [apply Forall_app; split; [exact Hall | repeat constructor; exact Hsel]|].
    simpl. rewrite Hh. apply store_decision_twice.
Qed.

Lemma progress_length (s : Session) :
  progress s -> (length (clicked s0) <= length (clicked s))%nat.
Proof.
  intros [->|(new & _ & Hc & _)]; [lia|]. rewrite Hc, length_app. lia.
Qed.

Lemma try_elements_progress (sel : string) (elements : list Element) (index : nat)
    (s : Session) :
  In sel sels -> progress s ->
  progress (try_elements page sel after_click elements index s).2
  /\ ((try_elements page sel after_click elements index s).1 = Returned ->
      (try_elements page sel after_click elements index s).2 <> s0).
Proof.
  intros Hsel. revert index s.
  induction elements as [|e elements IH]; intros index s Hs; simpl.
  - split; [exact Hs | discriminate].
  - destruct (is_visible e) as [[|]|]; [| now apply IH | split; [exact Hs | discriminate]].
    destruct (is_enabled e) as [[|]|]; [| now apply IH | split; [exact Hs | discriminate]].
    destruct (click e); [|split; [exact Hs | discriminate]].
    pose proof (progress_click s sel index Hsel Hs) as Hp.
    assert (after_click {| handler := handler s;
                           clicked := (clicked s ++ [(sel, index)])%list |} <> s0) as Hne.
    { intros E. apply (f_equal (fun x => length (clicked x))) in E. simpl in E.
      rewrite length_app in E. simpl in E.
      pose proof (progress_length s Hs). lia. }
    destruct (wait_for_timeout page); simpl; split; auto; discriminate.
Qed.

Lemma try_selectors_progress (candidates : list string) (s : Session) :
  (forall sel, In sel candidates -> In sel sels) -> progress s ->
  progress (try_selectors page after_click candidates s).2
  /\ ((try_selectors page after_click candidates s).1 = true ->
      (try_selectors page after_click candidates s).2 <> s0).
Proof.
  revert s. induction candidates as [|sel candidates IH]; intros s Hsub Hs; simpl.
  - split; [exact Hs | discriminate].
  - assert (forall sel', In sel' candidates -> In sel' sels) as Hsub'
      by (intros sel' H'; apply Hsub; now right).
    destruct (locator_all page sel) as [els|]; [|now apply IH].
    destruct (try_elements_progress sel els 0 s (Hsub sel (or_introl eq_refl)) Hs)
      as [Hp Hret].
    destruct (try_elements page sel after_click els 0 s) as [[| |] s'] eqn:E;
      simpl in *; [split; auto | now apply IH | now apply IH].
Qed.

End Progress.

(** A stored choice that names an option is the option selected, whatever
    the options' [preferred] flags and whatever [auto_select]. *)
Lemma select_option_stored (self : DecisionHandler) (dp : DecisionPoint)
    (auto_select : bool) (choice : string) (option_def : OptionDef) :
  get_stored_decision self (name dp) = Some choice ->
  choice <> "" ->
  In option_def (options dp) -> opt_name option_def = choice ->
  exists selected,
    select_option self dp auto_select = Some selected
    /\ opt_name selected = choice /\ In selected (options dp)
    /\ select_option self dp auto_select = stored_option self dp.
Proof.
  intros Hs Hne Hin Hname. unfold select_option, stored_option. rewrite Hs.
  assert (Str.truthy choice = true) as -> by (destruct choice; [contradiction | reflexivity]).
  destruct (List.find _ (options dp)) as [sel|] eqn:E.
  - apply find_some in E as [Hsel Heq]. apply String.eqb_eq in Heq. eauto.
  - exfalso. pose proof (find_none _ _ E option_def Hin) as Hn. simpl in Hn.
    rewrite Hname, String.eqb_refl in Hn. discriminate.
Qed.

End ResolutionFacts.



(** Once a click went through and the choice was stored, a failing wait
    sends the loop on to the remaining candidates: the call below returns
    [False] with the preference written. *)
Example stored_then_failed :
  let page :=
    {| Decision.url := Some "https://acme.wd3.myworkdayjobs.com/job/1";
       Decision.text_locator_count := fun _ => Some 0%nat;
       Decision.content := None;
       Decision.button_locator_count := fun _ => Some 1%nat;
       Decision.locator_all := fun sel =>
         Some (if String.eqb sel "a[data-automation-id='autofillWithResume']"
               then [Fixtures.ready_element] else []);
       Decision.wait_for_timeout := false;
       Decision.file_writable := true |} in
  let s := Fixtures.session_of None in
  let r := Decision.handle_decision_point page
             (nth 0 Decision._initialize_decision_points
                {| Decision.name := ""; Decision.description := "";
                   Decision.detection_criteria :=
                     {| Decision.url_patterns := []; Decision.text_indicators := [];
                        Decision.button_options_texts := [] |};
                   Decision.options := [] |}) true s in
  r.1 = false
  /\ Decision.clicked r.2 = [("a[data-automation-id='autofillWithResume']", 0%nat)]
  /\ Decision.get_stored_decision (Decision.handler r.2) "workday_application_method_selection"
     = Some "autofill_resume_workday".
Proof. vm_compute. repeat split. Qed.

(** C4.  The preferences file stores "apply_manually_workday" for the
    method selection point, and the page shows the point with both options
    clickable.  [detect_decision_point] reports the point and
    [handle_decision_point] clicks the stored option; but
    [check_and_handle_decision_points] answers [True] after clicking the
    autofill option, which is the default preferred one: the specific handler
    that it runs first never reads the preferences. *)
Theorem check_and_handle_ignores_stored_preference :
  let page := Fixtures.workday_page true
                ["Autofill with Resume"; "Apply Manually"; "Use My Last Application"]
                ["a[data-automation-id='autofillWithResume']";
                 "a[data-automation-id='applyManually']"] true in
  let s := Fixtures.session_of
             (Some (Fixtures.stored_preference "workday_application_method_selection"
                      "apply_manually_workday")) in
  let detected := Decision.detect_decision_point (Decision.handler s) page in
  Decision.name <$> detected = Some "workday_application_method_selection"
  /\ (detected ≫= fun dp => Decision.opt_name <$> Decision.stored_option (Decision.handler s) dp)
     = Some "apply_manually_workday"
  /\ (detected ≫= fun dp => Decision.opt_name <$> Decision.default_option dp)
     = Some "autofill_resume_workday"
  /\ ((fun dp => let r := Decision.handle_decision_point page dp true s in
                 (r.1, Decision.clicked r.2)) <$> detected)
     = Some (true, [("a[data-automation-id='applyManually']", 0%nat)])
  /\ (let r := Decision.check_and_handle_decision_points page s in
      (r.1, Decision.clicked r.2))
     = (true, [("a[data-automation-id='autofillWithResume']", 0%nat)]).
Proof. vm_compute. repeat split. Qed.

(** Inside [handle_decision_point] the stored choice does win: when it
    names an option, that option is selected and the default is not
    consulted. *)
Example stored_choice_selected :
  let h := Decision.new_DecisionHandler
             (Some (Fixtures.stored_preference "workday_application_method_selection"
                      "use_last_application_workday")) in
  (fun dp => Decision.opt_name <$> Decision.select_option h dp true)
    <$> List.head (Decision.decision_points h)
  = Some (Some "use_last_application_workday").
Proof. vm_compute. reflexivity. Qed.

(** * Further properties *)

(** ** The preference store *)


(** ** Clicks of the selector loops *)

Module ClickFacts.
Import Decision.

Section Loops.

Variable page : Page.
Variable after_click : Session -> Session.
Hypothesis after_click_clicked : forall s, clicked (after_click s) = clicked s.

(** What a loop did to the clicks of a session: it appended clicks on
    elements located by the given selectors. *)
Let appended (sels : list string) (s s' : Session) (new : list (string * nat)) : Prop :=
  clicked s' = (clicked s ++ new)%list /\ Forall (fun c => In c.1 sels) new.

Lemma try_elements_clicks (sels : list string) (sel : string) (elements : list Element)
    (index : nat) (s : Session) :
  In sel sels ->
  exists new,
    appended sels s (try_elements page sel after_click elements index s).2 new
    /\ ((try_elements page sel after_click elements index s).1 = Returned -> new <> [])
    /\ (new = [] -> (try_elements page sel after_click elements index s).2 = s).
Proof.
  intros Hsel. revert index.
  induction elements as [|e elements IH]; intros index; simpl.
  - exists []. unfold appended. rewrite app_nil_r. repeat split; auto; discriminate.
  - assert (exists new : list (string * nat),
              appended sels s s new /\ (Raised = Returned -> new <> [])
              /\ (new = [] -> s = s)) as Hraised.
    { exists []. unfold appended. rewrite app_nil_r. repeat split; auto; discriminate. }
    destruct (is_visible e) as [[|]|]; [| apply IH | exact Hraised].
    destruct (is_enabled e) as [[|]|]; [| apply IH | exact Hraised].
    destruct (click e); [|exact Hraised].
    exists [(sel, index)].
    assert (appended sels s
              (after_click {| handler := handler s;
                              clicked := (clicked s ++ [(sel, index)])%list |})
              [(sel, index)]) as Happ.
    { unfold appended. rewrite after_click_clicked. simpl. split; [reflexivity|].
      repeat constructor. exact Hsel. }
    destruct (wait_for_timeout page); simpl; repeat split; try apply Happ; discriminate.
Qed.

Lemma try_selectors_clicks (sels candidates : list string) (s : Session) :
  (forall sel, In sel candidates -> In sel sels) ->
  exists new,
    appended sels s (try_selectors page after_click candidates s).2 new
    /\ ((try_selectors page after_click candidates s).1 = true -> new <> [])
    /\ (new = [] -> (try_selectors page after_click candidates s).2 = s).
Proof.
  revert s. induction candidates as [|sel candidates IH]; intros s Hsub; simpl.
  - exists []. unfold appended. rewrite app_nil_r. repeat split; auto; discriminate.
  - assert (forall sel', In sel' candidates -> In sel' sels) as Hsub'
      by (intros sel' H'; apply Hsub; now right).
    destruct (locator_all page sel) as [els|]; [|now apply IH].
    destruct (try_elements_clicks sels sel els 0 s (Hsub sel (or_introl eq_refl)))
      as (new1 & [Hc1 Hall1] & Hret1 & Hnil1).
    destruct (try_elements page sel after_click els 0 s) as [a s1] eqn:E. simpl in *.
    destruct a; simpl.
    + exists new1. unfold appended. auto.
    + destruct (IH s1 Hsub') as (new2 & [Hc2 Hall2] & Hret2 & Hnil2).
      exists (new1 ++ new2)%list. unfold appended. rewrite Hc2, Hc1, app_assoc.
      split; [split; [reflexivity | now apply Forall_app]|].
      split.
      * intros Ht E'. apply app_eq_nil in E' as [-> ->]. now apply Hret2.
      * intros E'. apply app_eq_nil in E' as [-> ->]. rewrite Hnil2, Hnil1; auto.
    + destruct (IH s1 Hsub') as (new2 & [Hc2 Hall2] & Hret2 & Hnil2).
      exists (new1 ++ new2)%list. unfold appended. rewrite Hc2, Hc1, app_assoc.
      split; [split; [reflexivity | now apply Forall_app]|].
      split.
      * intros Ht E'. apply app_eq_nil in E' as [-> ->]. now apply Hret2.
      * intros E'. apply app_eq_nil in E' as [-> ->]. rewrite Hnil2, Hnil1; auto.
Qed.

End Loops.

(** A loop whose clicks are followed by nothing keeps the handler. *)
Lemma try_selectors_keeps_handler (page : Page) (candidates : list string) (s : Session) :
  handler (try_selectors page (fun s => s) candidates s).2 = handler s.
Proof.
  revert s. induction candidates as [|sel candidates IH]; intros s; simpl; [reflexivity|].
  destruct (locator_all page sel) as [els|]; [|apply IH].
  assert (forall index s0,
            handler (try_elements page sel (fun s => s) els index s0).2 = handler s0) as Hel.
  { induction els as [|e els IHe]; intros index s0; simpl; [reflexivity|].
    destruct (is_visible e) as [[|]|]; [| apply IHe | reflexivity].
    destruct (is_enabled e) as [[|]|]; [| apply IHe | reflexivity].
    destruct (click e); [|reflexivity].
    destruct (wait_for_timeout page); reflexivity. }
  specialize (Hel 0%nat s).
  destruct (try_elements page sel (fun s => s) els 0 s) as [[| |] s1]; simpl in *;
    [exact Hel | rewrite IH; exact Hel | rewrite IH; exact Hel].
Qed.

(** After a store of [o] for [n], whatever else was stored since, a loop of
    stores of [o] for [n] leaves [o] stored for [n]. *)
Lemma try_selectors_stores (page : Page) (n o : string) (candidates : list string)
    (s : Session) :
  get_stored_decision (handler s) n = Some o ->
  get_stored_decision
    (handler (try_selectors page
                (fun x => {| handler := store_decision page (handler x) n o;
                             clicked := clicked x |}) candidates s).2) n = Some o.
Proof.
  set (after := fun x => {| handler := store_decision page (handler x) n o;
                            clicked := clicked x |}).
  assert (forall x, get_stored_decision (store_decision page x n o) n = Some o) as Hstore.
  { intros x. unfold store_decision, _save_preferences, get_stored_decision.
    destruct (file_writable page); simpl; apply lookup_insert_eq. }
  revert s. induction candidates as [|sel candidates IH]; intros s Hs; simpl; [exact Hs|].
  destruct (locator_all page sel) as [els|]; [|now apply IH].
  assert (forall index s0,
            get_stored_decision (handler s0) n = Some o ->
            get_stored_decision (handler (try_elements page sel after els index s0).2) n
            = Some o) as Hel.
  { induction els as [|e els IHe]; intros index s0 H0; simpl; [exact H0|].
    destruct (is_visible e) as [[|]|]; [| now apply IHe | exact H0].
    destruct (is_enabled e) as [[|]|]; [| now apply IHe | exact H0].
    destruct (click e); [|exact H0].
    destruct (wait_for_timeout page); simpl; apply Hstore. }
  specialize (Hel 0%nat s Hs).
  destruct (try_elements page sel after els 0 s) as [[| |] s1]; simpl in *;
    [exact Hel | now apply IH | now apply IH].
Qed.

End ClickFacts.

(** X2.  When the store holds a non-empty choice for the point and the
    choice names one of its options, [handle_decision_point] works on the
    first option of that name, whatever the [preferred] flags and
    [auto_select]: every click it makes is on an element located by one of
    that option's selectors, a [True] result comes with such a click, and
    the choice is still the stored one afterwards. *)
Theorem stored_choice_decides_the_clicks (page : Decision.Page) (dp : Decision.DecisionPoint)
    (auto_select : bool) (s : Decision.Session) (choice : string) :
  Decision.get_stored_decision (Decision.handler s) (Decision.name dp) = Some choice ->
  choice <> "" ->
  (exists o, In o (Decision.options dp) /\ Decision.opt_name o = choice) ->
  exists option_def new,
    List.find (fun o => String.eqb (Decision.opt_name o) choice) (Decision.options dp)
      = Some option_def
    /\ Decision.clicked (Decision.handle_decision_point page dp auto_select s).2
       = (Decision.clicked s ++ new)%list
    /\ Forall (fun c => In c.1 (Decision.selectors option_def)) new
    /\ ((Decision.handle_decision_point page dp auto_select s).1 = true -> new <> [])
    /\ Decision.get_stored_decision
         (Decision.handler (Decision.handle_decision_point page dp auto_select s).2)
         (Decision.name dp) = Some choice.
Proof.
  intros Hs Hne (o & Hin & Hname).
  destruct (ResolutionFacts.select_option_stored (Decision.handler s) dp auto_select choice o
              Hs Hne Hin Hname) as (opt & Hsel & Hopt & _ & Hstored).
  unfold Decision.handle_decision_point. rewrite Hsel.
  assert (List.find (fun o => String.eqb (Decision.opt_name o) choice) (Decision.options dp)
          = Some opt) as Hfind.
  { rewrite Hsel in Hstored. unfold Decision.stored_option in Hstored.
    rewrite Hs in Hstored. destruct choice; [contradiction|]. simpl in Hstored. congruence. }
  destruct (ClickFacts.try_selectors_clicks page
              (fun x => {| Decision.handler :=
                             Decision.store_decision page (Decision.handler x)
                               (Decision.name dp) (Decision.opt_name opt);
                           Decision.clicked := Decision.clicked x |})
              (fun _ => eq_refl) (Decision.selectors opt) (Decision.selectors opt) s
              (fun _ H => H)) as (new & [Hc Hall] & Hret & _).
  exists opt, new. split; [exact Hfind|]. split; [exact Hc|]. split; [exact Hall|].
  split; [exact Hret|].
  rewrite Hopt. apply ClickFacts.try_selectors_stores. exact Hs.
Qed.

Lemma stored_choice_decides_the_clicks_witness :
  let page := Fixtures.workday_page true
                ["Autofill with Resume"; "Apply Manually"; "Use My Last Application"]
                ["a[data-automation-id='autofillWithResume']";
                 "a[data-automation-id='applyManually']"] true in
  let s := Fixtures.session_of
             (Some (Fixtures.stored_preference "workday_application_method_selection"
                      "apply_manually_workday")) in
  let dp := nth 0 Decision._initialize_decision_points
              {| Decision.name := ""; Decision.description := "";
                 Decision.detection_criteria :=
                   {| Decision.url_patterns := []; Decision.text_indicators := [];
                      Decision.button_options_texts := [] |};
                 Decision.options := [] |} in
  exists option_def new,
    List.find (fun o => String.eqb (Decision.opt_name o) "apply_manually_workday")
      (Decision.options dp) = Some option_def
    /\ Decision.clicked (Decision.handle_decision_point page dp false s).2
       = (Decision.clicked s ++ new)%list
    /\ Forall (fun c => In c.1 (Decision.selectors option_def)) new
    /\ ((Decision.handle_decision_point page dp false s).1 = true -> new <> [])
    /\ Decision.get_stored_decision
         (Decision.handler (Decision.handle_decision_point page dp false s).2)
         (Decision.name dp) = Some "apply_manually_workday".
Proof.
  cbv zeta.
  apply (stored_choice_decides_the_clicks _ _ false _ "apply_manually_workday").
  - vm_compute. reflexivity.
  - discriminate.
  - eexists. split; [right; left; reflexivity | reflexivity].
Defined.

(** X3.  [handle_application_method_selection] never touches the handler,
    so it neither reads nor writes a preference; the clicks it makes are on
    elements located by its own autofill selectors, a [True] result comes
    with such a click, and a run without a click leaves the session as it
    was. *)
Theorem application_method_selection_keeps_handler (page : Decision.Page)
    (s : Decision.Session) :
  let result := Decision.handle_application_method_selection page s in
  Decision.handler result.2 = Decision.handler s
  /\ exists new,
       Decision.clicked result.2 = (Decision.clicked s ++ new)%list
       /\ Forall (fun c => In c.1 Decision.autofill_option_selectors) new
       /\ (result.1 = true -> new <> [])
       /\ (new = [] -> result.2 = s).
Proof.
  unfold Decision.handle_application_method_selection.
  destruct (negb _).
  - simpl. split; [reflexivity|]. exists []. rewrite app_nil_r.
    repeat split; auto; discriminate.
  - split; [apply ClickFacts.try_selectors_keeps_handler|].
    destruct (ClickFacts.try_selectors_clicks page (fun s => s) (fun _ => eq_refl)
                Decision.autofill_option_selectors Decision.autofill_option_selectors s
                (fun _ H => H)) as (new & [Hc Hall] & Hret & Hnil).
    exists new. auto.
Qed.

Lemma method_selection_clicks (page : Decision.Page)
    (s : Decision.Session) :
  exists new,
    Decision.clicked (Decision.handle_application_method_selection page s).2
    = (Decision.clicked s ++ new)%list
    /\ ((Decision.handle_application_method_selection page s).1 = true -> new <> [])
    /\ (new = [] -> (Decision.handle_application_method_selection page s).2 = s).
Proof.
  unfold Decision.handle_application_method_selection.
  destruct (negb _).
  - simpl. exists []. rewrite app_nil_r. repeat split; auto; discriminate.
  - destruct (ClickFacts.try_selectors_clicks page (fun s => s) (fun _ => eq_refl)
                Decision.autofill_option_selectors Decision.autofill_option_selectors s
                (fun _ H => H)) as (new & [Hc Hall] & Hret & Hnil).
    exists new. auto.
Qed.

Lemma handle_decision_point_clicks (page : Decision.Page) (dp : Decision.DecisionPoint)
    (auto_select : bool) (s : Decision.Session) :
  exists new,
    Decision.clicked (Decision.handle_decision_point page dp auto_select s).2
    = (Decision.clicked s ++ new)%list
    /\ ((Decision.handle_decision_point page dp auto_select s).1 = true -> new <> [])
    /\ (new = [] -> (Decision.handle_decision_point page dp auto_select s).2 = s).
Proof.
  unfold Decision.handle_decision_point.
  destruct (Decision.select_option _ _ _) as [opt|].
  - destruct (ClickFacts.try_selectors_clicks page
                (fun x => {| Decision.handler :=
                               Decision.store_decision page (Decision.handler x)
                                 (Decision.name dp) (Decision.opt_name opt);
                             Decision.clicked := Decision.clicked x |})
                (fun _ => eq_refl) (Decision.selectors opt) (Decision.selectors opt) s
                (fun _ H => H)) as (new & [Hc _] & Hret & Hnil).
    exists new. auto.
  - exists []. simpl. rewrite app_nil_r. repeat split; auto; discriminate.
Qed.

(** X4.  [check_and_handle_decision_points] only ever appends clicks; it
    returns [True] only after a click, and a run in which no click went
    through returns [False] with the handler and its preferences exactly as
    they were. *)
Theorem check_and_handle_true_only_after_click (page : Decision.Page)
    (s : Decision.Session) :
  let result := Decision.check_and_handle_decision_points page s in
  exists new,
    Decision.clicked result.2 = (Decision.clicked s ++ new)%list
    /\ (result.1 = true -> new <> [])
    /\ (new = [] -> result = (false, s)).
Proof.
  cbv zeta. unfold Decision.check_and_handle_decision_points.
  destruct (method_selection_clicks page s)
    as (new1 & Hc1 & Hret1 & Hnil1).
  destruct (Decision.handle_application_method_selection page s) as [b1 s1] eqn:E1.
  simpl in *. destruct b1.
  - exists new1. split; [exact Hc1|]. split; [auto|].
    intros ->. exfalso. now apply Hret1.
  - destruct (Decision.detect_decision_point (Decision.handler s1) page) as [dp|].
    + destruct (handle_decision_point_clicks page dp true s1) as (new2 & Hc2 & Hret2 & Hnil2).
      destruct (Decision.handle_decision_point page dp true s1) as [b2 s2] eqn:E2.
      simpl in *. exists (new1 ++ new2)%list. rewrite Hc2, Hc1, app_assoc.
      split; [reflexivity|]. split.
      * intros Ht E'. apply app_eq_nil in E' as [_ ->]. now apply Hret2.
      * intros E'. apply app_eq_nil in E' as [-> ->].
        rewrite Hnil2, Hnil1 by reflexivity.
        destruct b2; [exfalso; now apply Hret2 | reflexivity].
    + exists new1. simpl. split; [exact Hc1|]. split; [discriminate|].
      intros ->. now rewrite Hnil1.
Qed.

(** ** Detection order and the points of a handler *)

Lemma find_first_match {A : Type} (f : A -> bool) (l : list A) (x : A) :
  List.find f l = Some x
  <-> exists before after,
        l = (before ++ x :: after)%list /\ f x = true
        /\ Forall (fun y => f y = false) before.
Proof.
  split.
  - induction l as [|y l IH]; simpl; [discriminate|].
    destruct (f y) eqn:Hy.
    + intros [= ->]. exists [], l. repeat split; auto.
    + intros H. destruct (IH H) as (before & after & -> & Hx & Hall).
      exists (y :: before), after. repeat split; auto.
  - intros (before & after & -> & Hx & Hall).
    induction Hall as [|y before Hy Hall IH]; simpl.
    + now rewrite Hx.
    + now rewrite Hy.
Qed.

Lemma find_no_match {A : Type} (f : A -> bool) (l : list A) :
  List.find f l = None <-> Forall (fun y => f y = false) l.
Proof.
  induction l as [|y l IH]; simpl.
  - split; auto.
  - destruct (f y) eqn:Hy.
    + split; [discriminate|]. intros H. inversion H; congruence.
    + rewrite IH. split; [now constructor | intros H; now inversion H].
Qed.

(** X5.  [detect_decision_point] reports the first point, in the order of
    [decision_points], that passes the test on the lower-cased URL: a point
    is reported exactly when it passes and every point before it fails, and
    nothing is reported exactly when reading the URL raises or every point
    fails. *)
Theorem detect_decision_point_first_match (self : Decision.DecisionHandler)
    (page : Decision.Page) :
  (forall dp,
      Decision.detect_decision_point self page = Some dp
      <-> exists u before after,
            Decision.url page = Some u
            /\ Decision.decision_points self = (before ++ dp :: after)%list
            /\ Decision.point_detected page (Str.lower u) dp = true
            /\ Forall (fun p => Decision.point_detected page (Str.lower u) p = false) before)
  /\ (Decision.detect_decision_point self page = None
      <-> Decision.url page = None
          \/ exists u,
               Decision.url page = Some u
               /\ Forall (fun p => Decision.point_detected page (Str.lower u) p = false)
                         (Decision.decision_points self)).
Proof.
  unfold Decision.detect_decision_point. split.
  - intros dp. destruct (Decision.url page) as [u|].
    + rewrite find_first_match. split.
      * intros (before & after & H). exists u, before, after. now split.
      * intros (u' & before & after & [= <-] & H). now exists before, after.
    + split; [discriminate|]. intros (u & _ & _ & H & _). discriminate.
  - destruct (Decision.url page) as [u|].
    + rewrite find_no_match. split.
      * intros H. right. now exists u.
      * intros [H | (u' & [= <-] & H)]; [discriminate | exact H].
    + split; auto.
Qed.

Lemma custom_points_fold (custom_definitions : list Decision.DecisionPoint) :
  forall points,
    NoDup (map Decision.name points) ->
    let initialized_points :=
      fold_left (fun points custom_def =>
                   if bool_decide (Decision.name custom_def ∈ map Decision.name points)
                   then points else (points ++ [custom_def])%list)
                custom_definitions points in
    exists added,
      initialized_points = (points ++ added)%list
      /\ NoDup (map Decision.name initialized_points)
      /\ (forall c, In c added -> In c custom_definitions)
      /\ (forall d, In d custom_definitions ->
                    In (Decision.name d) (map Decision.name initialized_points)).
Proof.
  induction custom_definitions as [|d ds IH]; intros points Hnd; cbv zeta; simpl.
  - exists []. rewrite app_nil_r. repeat split; auto; intros ? [].
  - destruct (bool_decide (Decision.name d ∈ map Decision.name points)) eqn:Hd.
    + apply bool_decide_eq_true in Hd.
      destruct (IH points Hnd) as (added & Heq & Hnd' & Hsub & Hnames).
      exists added. split; [exact Heq|]. split; [exact Hnd'|].
      split; [intros c Hc; right; now apply Hsub|].
      intros d' [<- | Hd']; [|now apply Hnames].
      rewrite Heq, map_app. apply in_or_app. left. now apply list_elem_of_In.
    + apply bool_decide_eq_false in Hd.
      assert (NoDup (map Decision.name (points ++ [d])%list)) as Hnd1.
      { rewrite map_app. simpl. apply NoDup_app. split; [exact Hnd|].
        split; [|apply NoDup_singleton].
        intros x Hx Hx'. apply list_elem_of_singleton in Hx'. subst x. now apply Hd. }
      destruct (IH (points ++ [d])%list Hnd1) as (added & Heq & Hnd' & Hsub & Hnames).
      exists (d :: added). split; [now rewrite Heq, <- app_assoc|].
      split; [exact Hnd'|].
      split.
      * intros c [<- | Hc]; [now left | right; now apply Hsub].
      * intros d' [<- | Hd']; [|now apply Hnames].
        rewrite Heq, !map_app. apply in_or_app. left. apply in_or_app. right. now left.
Qed.

Lemma initial_point_names_NoDup :
  NoDup (map Decision.name Decision._initialize_decision_points).
Proof.
  simpl. apply NoDup_cons. split.
  - intros H. apply list_elem_of_singleton in H. discriminate.
  - apply NoDup_singleton.
Qed.

(** X6.  A new handler holds the built-in decision points first, in their
    order, followed by custom definitions taken from the loaded preferences;
    no two of its points share a name, and every stored custom definition
    has a point of its name in the handler (its own, an earlier definition's
    or a built-in one). *)
Theorem new_handler_decision_points (file : option Decision.Preferences) :
  let self := Decision.new_DecisionHandler file in
  exists customs,
    Decision.decision_points self = (Decision._initialize_decision_points ++ customs)%list
    /\ NoDup (map Decision.name (Decision.decision_points self))
    /\ (forall c, In c customs ->
                  In c (Decision.custom_decision_definitions (Decision.preferences self)))
    /\ (forall d, In d (Decision.custom_decision_definitions (Decision.preferences self)) ->
                  In (Decision.name d) (map Decision.name (Decision.decision_points self))).
Proof.
  cbv zeta. unfold Decision.new_DecisionHandler. simpl.
  apply (custom_points_fold _ _ initial_point_names_NoDup).
Qed.

(** ** Custom decision points *)

Lemma find_app_or {A : Type} (f : A -> bool) (l1 l2 : list A) :
  List.find f (l1 ++ l2)%list
  = match List.find f l1 with Some x => Some x | None => List.find f l2 end.
Proof.
  induction l1 as [|x l1 IH]; simpl; [reflexivity|]. now destruct (f x).
Qed.

Lemma existsb_find {A : Type} (f : A -> bool) (l : list A) :
  existsb f l = match List.find f l with Some _ => true | None => false end.
Proof.
  induction l as [|x l IH]; simpl; [reflexivity|]. now destruct (f x).
Qed.

Lemma find_name_absent (n : string) (l : list Decision.DecisionPoint) :
  ~ In n (map Decision.name l) ->
  List.find (fun dp => String.eqb (Decision.name dp) n) l = None.
Proof.
  intros H. apply find_no_match. apply List.Forall_forall. intros d Hd.
  apply String.eqb_neq. intros E. apply H. rewrite <- E. now apply in_map.
Qed.

(** X7.  [add_custom_decision_point] leaves the stored decisions alone and
    keeps every stored definition of another name; afterwards the stored
    definitions hold exactly one of the given name, the new one, at the end.
    In the running handler a point that already has the name stays as it is
    (the new definition is not taken over), otherwise the new point is
    appended.  Once the file is written, a handler created from it holds the
    new definition under the name, unless a built-in point has that name:
    then the built-in one is still used. *)
Theorem add_custom_decision_point_effect (page : Decision.Page)
    (self : Decision.DecisionHandler) (name description : string)
    (detection_criteria : Decision.Criteria) (options : list Decision.OptionDef) :
  let new_decision :=
    {| Decision.name := name; Decision.description := description;
       Decision.detection_criteria := detection_criteria;
       Decision.options := options |} in
  let updated :=
    add_custom_decision_point page self name description detection_criteria options in
  let stored_definitions h := Decision.custom_decision_definitions (Decision.preferences h) in
  Decision.decisions (Decision.preferences updated)
    = Decision.decisions (Decision.preferences self)
  /\ (exists others,
        stored_definitions updated = (others ++ [new_decision])%list
        /\ Forall (fun d => Decision.name d <> name) others
        /\ forall d, Decision.name d <> name ->
                     (In d others <-> In d (stored_definitions self)))
  /\ point_named updated name
     = match point_named self name with
       | Some existing => Some existing
       | None => Some new_decision
       end
  /\ (Decision.file_writable page = true ->
      point_named (Decision.new_DecisionHandler (Decision.preferences_file updated)) name
      = match List.find (fun dp => String.eqb (Decision.name dp) name)
                        Decision._initialize_decision_points with
        | Some built_in => Some built_in
        | None => Some new_decision
        end).
Proof.
  cbv zeta.
  set (new_decision := {| Decision.name := name; Decision.description := description;
                          Decision.detection_criteria := detection_criteria;
                          Decision.options := options |}).
  set (others := List.filter (fun d => negb (String.eqb (Decision.name d) name))
                   (Decision.custom_decision_definitions (Decision.preferences self))).
  assert (Forall (fun d => Decision.name d <> name) others) as Hothers.
  { apply List.Forall_forall. intros d Hd. apply filter_In in Hd as [_ Hd].
    apply negb_true_iff in Hd. now apply String.eqb_neq. }
  split; [|split; [|split]].
  - unfold add_custom_decision_point, Decision._save_preferences.
    destruct (Decision.file_writable page); reflexivity.
  - exists others. split; [|split; [exact Hothers|]].
    + unfold add_custom_decision_point, Decision._save_preferences.
      destruct (Decision.file_writable page); reflexivity.
    + intros d Hd. unfold others. rewrite filter_In. split; [tauto|].
      intros H. split; [exact H|]. apply negb_true_iff. now apply String.eqb_neq.
  - unfold point_named, add_custom_decision_point, Decision._save_preferences.
    assert (Decision.decision_points
              (if Decision.file_writable page
               then _ else _) = _) as -> by (destruct (Decision.file_writable page); reflexivity).
    simpl. rewrite existsb_find.
    destruct (List.find _ (Decision.decision_points self)) as [existing|] eqn:E; simpl.
    + exact E.
    + rewrite find_app_or, E. simpl. now rewrite String.eqb_refl.
  - intros Hw. unfold point_named, add_custom_decision_point, Decision._save_preferences.
    rewrite Hw. unfold Decision.new_DecisionHandler.
    pose proof initial_point_names_NoDup as Hnd.
    remember Decision._initialize_decision_points as built_ins eqn:Hbuilt.
    clear Hbuilt. simpl.
    fold new_decision. fold others.
    rewrite fold_left_app.
    destruct (custom_points_fold others _ Hnd) as (added & Heq & _ & Hsub & _).
    cbv zeta in Heq. rewrite Heq. clear Heq. simpl fold_left.
    assert (~ In name (map Decision.name added)) as Hadded.
    { intros H. apply in_map_iff in H as (d & Hd & Hin).
      apply Hsub in Hin. rewrite List.Forall_forall in Hothers. now apply (Hothers d). }
    destruct (List.find _ built_ins) as [built_in|] eqn:E.
    + assert (name ∈ map Decision.name (built_ins ++ added)%list) as Hin.
      { apply list_elem_of_In. rewrite map_app. apply in_or_app. left.
        apply find_some in E as [Hin E]. apply String.eqb_eq in E. rewrite <- E.
        now apply in_map. }
      change (Decision.name new_decision) with name.
      rewrite (bool_decide_eq_true_2 _ Hin), find_app_or, E. reflexivity.
    + assert (~ name ∈ map Decision.name (built_ins ++ added)%list) as Hin.
      { intros H. apply list_elem_of_In in H. rewrite map_app in H.
        apply in_app_or in H as [H | H]; [|now apply Hadded].
        apply in_map_iff in H as (d & Hd & Hin).
        apply (find_none _ _ E) in Hin. apply String.eqb_neq in Hin. now apply Hin. }
      change (Decision.name new_decision) with name.
      rewrite (bool_decide_eq_false_2 _ Hin), !find_app_or, E.
      rewrite (find_name_absent _ _ Hadded). simpl. now rewrite String.eqb_refl.
Qed.

(** ** Return times of the stability wait *)

Module StabilityWaitBounds.
Import StabilityDetector StabilityWait.

Section Bounds.

Variable page : Page.
Variables t0 timeout w : Z.
Hypothesis window_nonneg : (0 <= w)%Z.
Hypothesis page_causal : causal page.
Hypothesis page_prompt : prompt page.

(** The clock of the loop stays within the timeout plus one round. *)
Let within (at_ : Z) : Prop := (t0 <= at_ < t0 + timeout + w + 250)%Z.

(** A [False] is given at the timeout or on a closed page. *)
Let gave_up (at_ : Z) : Prop := (t0 + timeout <= at_)%Z \/ is_closed page at_ = true.

Lemma round_bounds (idle : bool) (st : loop_state) :
  within (now st) ->
  match round page timeout w t0 idle st with
  | inl (b, at_) => within at_ /\ (b = false -> gave_up at_)
  | inr st' => within (now st')
  end.
Proof.
  unfold within, gave_up, round. intros Hnow.
  destruct (Z.ltb_spec (now st - t0) timeout) as [Hlt|Hge]; simpl negb; cbv iota;
    [|split; [exact Hnow | intros _; left; lia]].
  destruct (is_closed page (now st)) eqn:Hclosed; [split; [exact Hnow | now right]|].
  cbv zeta. simpl now. simpl detector. simpl loop_count.
  destruct (isStable (now st) (detector st)); [|simpl; lia].
  destruct (idle || (3 <? S (loop_count st))%nat); [|split; [exact Hnow | discriminate]].
  destruct (networkidle page (now st) w) as [idle_at|] eqn:Hnet.
  - pose proof (page_causal _ _ _ Hnet). pose proof (page_prompt _ _ _ Hnet).
    split; [lia | discriminate].
  - simpl. lia.
Qed.

Lemma stability_loop_bounds (idle : bool) (fuel : nat) :
  forall (st : loop_state) (b : bool) (at_ : Z),
    within (now st) ->
    stability_loop fuel page timeout w t0 idle st = Some (b, at_) ->
    within at_ /\ (b = false -> gave_up at_).
Proof.
  induction fuel as [|fuel IH]; intros st b at_ Hnow; simpl; [discriminate|].
  pose proof (round_bounds idle st Hnow) as Hr.
  destruct (round page timeout w t0 idle st) as [[b' at_']|st'].
  - intros [= <- <-]. exact Hr.
  - apply IH. exact Hr.
Qed.

End Bounds.

End StabilityWaitBounds.





(** ** What the scan lists *)

Lemma fold_left_history {A B : Type} (P : list B -> A -> Prop) (f : A -> B -> A)
    (l : list B) (a : A) :
  P [] a -> (forall done a x, P done a -> P (done ++ [x])%list (f a x)) ->
  P l (fold_left f l a).
Proof.
  intros Ha Hstep.
  assert (forall rest done a, P done a -> P (done ++ rest)%list (fold_left f rest a)) as H.
  { induction rest as [|x rest IH]; intros done a' Hd; simpl.
    - now rewrite app_nil_r.
    - replace (done ++ x :: rest)%list with ((done ++ [x]) ++ rest)%list
        by now rewrite <- app_assoc.
      apply IH. now apply Hstep. }
  apply (H l [] a Ha).
Qed.

(** The classifier answers with one of the three keys of [action_buttons]. *)
Lemma classify_button_keys (element_data : ElementData) (key : string) :
  _classify_button element_data = Some key -> In key ["submit"; "next"; "apply"].
Proof.
  unfold _classify_button.
  repeat match goal with
         | |- context [if ?b then _ else _] => destruct b
         end; intros [= <-]; simpl; auto.
Qed.

Section ScanLists.

Variable self : FieldDetector.

(** An element that the scan sends to the scorer. *)
Let scored (element_data : ElementData) : Prop :=
  is_button_like element_data = false \/ _classify_button element_data = None.

(** The state of the scan after the items [done]. *)
Let lists (done : list (nat * ElementData)) (st : scan_state) : Prop :=
  (forall key, is_Some (scan_buttons st !! key) <-> In key ["submit"; "next"; "apply"])
  /\ (forall key l ff,
        scan_buttons st !! key = Some l ->
        (In ff l <-> exists i e, In (i, e) done /\ is_button_like e = true
                                 /\ _classify_button e = Some key
                                 /\ ff = button_field i e key))
  /\ (forall ff,
        In ff (scan_candidates st)
        <-> exists i e, In (i, e) done /\ scored e /\ field_candidate self i e = Some ff).

Lemma lists_initial :
  lists [] {| scan_buttons := initial_action_buttons; scan_candidates := [] |}.
Proof.
  split; [|split]; simpl.
  - intros key. unfold initial_action_buttons. split.
    + intros [l H].
      repeat (apply lookup_insert_Some in H as [[<- _]|[_ H]]; [simpl; auto|]).
      apply lookup_singleton_Some in H as [<- _]. simpl. auto.
    + intros [<-|[<-|[<-|[]]]]; vm_compute; eauto.
  - intros key l ff H. unfold initial_action_buttons in H.
    assert (l = []) as ->.
    { repeat (apply lookup_insert_Some in H as [[_ <-]|[_ H]]; [reflexivity|]).
      now apply lookup_singleton_Some in H as [_ <-]. }
    split; [intros [] | intros (i & e & [] & _)].
  - intros ff. split; [intros [] | intros (i & e & [] & _)].
Qed.

Lemma lists_as_field (done : list (nat * ElementData)) (st : scan_state)
    (element_loc : nat) (element_data : ElementData) :
  lists done st -> scored element_data ->
  lists (done ++ [(element_loc, element_data)])%list
    match field_candidate self element_loc element_data with
    | Some field => {| scan_buttons := scan_buttons st;
                       scan_candidates := (scan_candidates st ++ [field])%list |}
    | None => st
    end.
Proof.
  intros (Hkeys & Hbuttons & Hcands) Hscored.
  assert (forall key l ff,
            scan_buttons st !! key = Some l ->
            (In ff l <-> exists i e, In (i, e) (done ++ [(element_loc, element_data)])%list
                                     /\ is_button_like e = true
                                     /\ _classify_button e = Some key
                                     /\ ff = button_field i e key)) as Hbuttons'.
  { intros key l ff Hl. rewrite (Hbuttons key l ff Hl). split.
    - intros (i & e & Hin & H). exists i, e. split; [apply in_or_app; now left | exact H].
    - intros (i & e & Hin & Hb & Hc & Hf). apply in_app_or in Hin as [Hin|[[= <- <-]|[]]].
      + now exists i, e.
      + destruct Hscored; congruence. }
  destruct (field_candidate self element_loc element_data) as [field|] eqn:E.
  - split; [exact Hkeys|]. split; [exact Hbuttons'|]. simpl. intros ff.
    rewrite in_app_iff, Hcands. split.
    + intros [(i & e & Hin & H)|[<-|[]]].
      * exists i, e. split; [apply in_or_app; now left | exact H].
      * exists element_loc, element_data. split; [apply in_or_app; right; now left|]. auto.
    + intros (i & e & Hin & Hs & Hf). apply in_app_or in Hin as [Hin|[[= <- <-]|[]]].
      * left. now exists i, e.
      * right. left. congruence.
  - split; [exact Hkeys|]. split; [exact Hbuttons'|]. intros ff. rewrite Hcands. split.
    + intros (i & e & Hin & H). exists i, e. split; [apply in_or_app; now left | exact H].
    + intros (i & e & Hin & Hs & Hf). apply in_app_or in Hin as [Hin|[[= <- <-]|[]]].
      * now exists i, e.
      * congruence.
Qed.

Lemma lists_step (done : list (nat * ElementData)) (st : scan_state)
    (item : nat * ElementData) :
  lists done st -> lists (done ++ [item])%list (scan_element self st item).
Proof.
  intros Hl. destruct item as [element_loc element_data]. unfold scan_element.
  destruct (is_button_like element_data) eqn:Hlike;
    [|apply lists_as_field; [exact Hl | now left]].
  destruct (_classify_button element_data) as [cls|] eqn:Hcls;
    [|apply lists_as_field; [exact Hl | now right]].
  pose proof Hl as (Hkeys & Hbuttons & Hcands).
  destruct (scan_buttons st !! cls) as [l|] eqn:El.
  - split; [|split]; cbn [scan_buttons scan_candidates].
    + intros key. rewrite <- (Hkeys key). destruct (decide (cls = key)) as [<-|Hne].
      * rewrite lookup_insert_eq, El. split; eauto.
      * now rewrite lookup_insert_ne.
    + intros key l' ff. destruct (decide (cls = key)) as [<-|Hne].
      * rewrite lookup_insert_eq. intros [= <-]. rewrite in_app_iff, (Hbuttons cls l ff El).
        split.
        -- intros [(i & e & Hin & H)|[<-|[]]].
           ++ exists i, e. split; [apply in_or_app; now left | exact H].
           ++ exists element_loc, element_data.
              split; [apply in_or_app; right; now left | auto].
        -- intros (i & e & Hin & Hb & Hc & Hf).
           apply in_app_or in Hin as [Hin|[[= <- <-]|[]]].
           ++ left. now exists i, e.
           ++ right. left. now symmetry.
      * rewrite lookup_insert_ne by exact Hne. intros Hl'. rewrite (Hbuttons key l' ff Hl').
        split.
        -- intros (i & e & Hin & H). exists i, e. split; [apply in_or_app; now left | exact H].
        -- intros (i & e & Hin & Hb & Hc & Hf).
           apply in_app_or in Hin as [Hin|[[= <- <-]|[]]]; [now exists i, e | congruence].
    + intros ff. rewrite Hcands. split.
      * intros (i & e & Hin & H). exists i, e. split; [apply in_or_app; now left | exact H].
      * intros (i & e & Hin & [Hs|Hs] & Hf);
          (apply in_app_or in Hin as [Hin|[[= <- <-]|[]]]; [|congruence]).
        -- exists i, e. split; [exact Hin|]. split; [now left | exact Hf].
        -- exists i, e. split; [exact Hin|]. split; [now right | exact Hf].
  - exfalso. apply classify_button_keys in Hcls. apply Hkeys in Hcls as [l Hl']. congruence.
Qed.

Lemma lists_fold (items : list (nat * ElementData)) :
  lists items (fold_left (scan_element self) items
                 {| scan_buttons := initial_action_buttons; scan_candidates := [] |}).
Proof.
  apply (fold_left_history lists); [exact lists_initial|].
  intros done st item. apply lists_step.
Qed.

Lemma scan_lists (elements : list ElementData) :
  let analysis := detect_all_fields_on_page self elements in
  (forall key, is_Some (action_buttons analysis !! key) <-> In key ["submit"; "next"; "apply"])
  /\ (forall key l ff,
        action_buttons analysis !! key = Some l ->
        (In ff l <-> exists i e, elements !! i = Some e /\ is_button_like e = true
                                 /\ _classify_button e = Some key
                                 /\ ff = button_field i e key))
  /\ (forall ft ff,
        detected_fields analysis !! ft = Some ff ->
        field_type ff = ft
        /\ exists i e, elements !! i = Some e
                       /\ (is_button_like e = false \/ _classify_button e = None)
                       /\ field_candidate self i e = Some ff).
Proof.
  cbv zeta. unfold detect_all_fields_on_page. simpl.
  assert (forall i e, In (i, e) (imap (fun i e => (i, e)) elements) <-> elements !! i = Some e)
    as Himap.
  { intros i e. rewrite <- list_elem_of_In, elem_of_lookup_imap. split.
    - intros (i' & e' & [= -> ->] & H). exact H.
    - intros H. now exists i, e. }
  destruct (lists_fold (imap (fun i e => (i, e)) elements)) as (Hkeys & Hbuttons & Hcands).
  split; [exact Hkeys|]. split.
  - intros key l ff Hl. rewrite (Hbuttons key l ff Hl). split.
    + intros (i & e & Hin & H). exists i, e. now rewrite <- Himap.
    + intros (i & e & Hin & H). exists i, e. now rewrite Himap.
  - intros ft ff H. split; [now apply resolved_is_winner in H|].
    apply resolved_is_candidate in H. apply Hcands in H as (i & e & Hin & H).
    exists i, e. now rewrite <- Himap.
Qed.

End ScanLists.

Lemma field_candidate_inv (self : FieldDetector) (element_loc : nat)
    (element_data : ElementData) (ff : FormField) :
  field_candidate self element_loc element_data = Some ff ->
  element ff = element_loc
  /\ attributes ff = element_data
  /\ selector ff = ed_selector element_data
  /\ (threshold_of self <= confidence ff)%Q
  /\ (0.15 < confidence ff)%Q
  /\ (exists patterns_for_type,
        In (field_type ff, patterns_for_type) (field_patterns self)
        /\ confidence ff
           = _calculate_confidence self element_data patterns_for_type (field_type ff))
  /\ (forall c ft, In (c, ft) (possible_types_for_element self element_data) ->
                   (c <= confidence ff)%Q).
Proof.
  unfold field_candidate.
  destruct (sort_desc fst _) as [|[c ft] r] eqn:E; [discriminate|].
  destruct (Qle_bool _ _) eqn:Hth; [|discriminate]. intros [= <-]. simpl.
  destruct (sort_desc_head _ _ _ _ E) as [Hin Hmax].
  apply Qle_bool_iff in Hth.
  destruct (possible_types_inv self element_data c ft Hin) as (pats & Hp & Hc & Hfloor).
  repeat split; auto.
  - now exists pats.
  - intros c' ft' H'. apply (Hmax (c', ft') H').
Qed.

(** X10.  In a page analysis, [action_buttons] keeps exactly its three keys;
    a descriptor listed under a key belongs to a scanned button-like element
    that the classifier gave that key, with confidence 0.85; and every
    scanned button-like element with a classification is listed under it and
    is never the element of a detected data field. *)
Theorem page_analysis_buttons_are_not_fields (self : FieldDetector)
    (elements : list ElementData) :
  let analysis := detect_all_fields_on_page self elements in
  (forall key, is_Some (action_buttons analysis !! key) <-> In key ["submit"; "next"; "apply"])
  /\ (forall key l ff,
        action_buttons analysis !! key = Some l -> In ff l ->
        elements !! element ff = Some (attributes ff)
        /\ is_button_like (attributes ff) = true
        /\ _classify_button (attributes ff) = Some key
        /\ confidence ff = 0.85%Q)
  /\ (forall i e key,
        elements !! i = Some e -> is_button_like e = true ->
        _classify_button e = Some key ->
        (exists l, action_buttons analysis !! key = Some l /\ In (button_field i e key) l)
        /\ forall ft ff, detected_fields analysis !! ft = Some ff -> element ff <> i).
Proof.
  cbv zeta. destruct (scan_lists self elements) as (Hkeys & Hbuttons & Hfields).
  split; [exact Hkeys|]. split.
  - intros key l ff Hl Hin. apply (Hbuttons key l ff Hl) in Hin as (i & e & He & Hb & Hc & ->).
    simpl. auto.
  - intros i e key He Hb Hc. split.
    + destruct (proj2 (Hkeys key) (classify_button_keys e key Hc)) as [l Hl].
      exists l. split; [exact Hl|]. apply (Hbuttons key l _ Hl). now exists i, e.
    + intros ft ff Hff Hi. destruct (Hfields ft ff Hff) as (_ & i' & e' & He' & Hs & Hcand).
      apply field_candidate_inv in Hcand as (Hel & _). subst i'. rewrite Hi in He'.
      assert (e' = e) as -> by congruence.
      destruct Hs; congruence.
Qed.

(** X11.  A detected data field of a page analysis has the type of its key,
    a type that has a pattern table; it belongs to a scanned element that was
    not listed as an action button, carries that element's selector, and its
    confidence is the score of the element for that type, above the admission
    floor 0.15, at least the configured threshold, and no less than the score
    of the element for any other type. *)
Theorem page_analysis_detected_field (self : FieldDetector) (elements : list ElementData)
    (ft : FieldType) (ff : FormField) :
  detected_fields (detect_all_fields_on_page self elements) !! ft = Some ff ->
  field_type ff = ft
  /\ elements !! element ff = Some (attributes ff)
  /\ (is_button_like (attributes ff) = false \/ _classify_button (attributes ff) = None)
  /\ selector ff = ed_selector (attributes ff)
  /\ (0.15 < confidence ff)%Q
  /\ (threshold_of self <= confidence ff)%Q
  /\ (exists patterns_for_type,
        In (ft, patterns_for_type) (field_patterns self)
        /\ confidence ff = _calculate_confidence self (attributes ff) patterns_for_type ft)
  /\ (forall other patterns_for_type,
        In (other, patterns_for_type) (field_patterns self) ->
        (_calculate_confidence self (attributes ff) patterns_for_type other
         <= confidence ff)%Q).
Proof.
  intros H. destruct (scan_lists self elements) as (_ & _ & Hfields).
  destruct (Hfields ft ff H) as (Hft & i & e & He & Hs & Hcand).
  destruct (field_candidate_inv self i e ff Hcand)
    as (Hel & Hattr & Hsel & Hth & Hfloor & (pats & Hp & Hc) & Hmax).
  rewrite Hel, Hattr. rewrite Hft in Hp, Hc.
  split; [exact Hft|]. split; [exact He|]. split; [exact Hs|]. split; [exact Hsel|].
  split; [exact Hfloor|]. split; [exact Hth|]. split; [now exists pats|].
  intros other pats' Hin.
  destruct (Qlt_bool 0.15 (_calculate_confidence self e pats' other)) eqn:E.
  - apply (Hmax _ other). unfold possible_types_for_element.
    apply in_flat_map. exists (other, pats'). split; [exact Hin|]. rewrite E. now left.
  - apply Qlt_le_weak. eapply Qle_lt_trans; [|exact Hfloor].
    apply Qnot_lt_le. intros Hlt. apply Qlt_bool_iff in Hlt. congruence.
Qed.

Lemma page_analysis_detected_field_witness :
  let elements := [Fixtures.button_labelled "Next Step"; Fixtures.input_autocomplete "email"] in
  let self := Fixtures.default_detector in
  exists ff,
    detected_fields (detect_all_fields_on_page self elements) !! EMAIL = Some ff
    /\ field_type ff = EMAIL
    /\ elements !! element ff = Some (attributes ff)
    /\ (is_button_like (attributes ff) = false \/ _classify_button (attributes ff) = None)
    /\ selector ff = ed_selector (attributes ff)
    /\ (0.15 < confidence ff)%Q
    /\ (threshold_of self <= confidence ff)%Q
    /\ (exists patterns_for_type,
          In (EMAIL, patterns_for_type) (field_patterns self)
          /\ confidence ff
             = _calculate_confidence self (attributes ff) patterns_for_type EMAIL)
    /\ (forall other patterns_for_type,
          In (other, patterns_for_type) (field_patterns self) ->
          (_calculate_confidence self (attributes ff) patterns_for_type other
           <= confidence ff)%Q).
Proof.
  cbv zeta. eexists. split; [vm_compute; reflexivity|].
  apply (page_analysis_detected_field Fixtures.default_detector
           [Fixtures.button_labelled "Next Step"; Fixtures.input_autocomplete "email"]).
  vm_compute. reflexivity.
Defined.

(** ** What a form purpose tells *)

Lemma present_is_Some (fields : gmap FieldType FormField) (ft : FieldType) :
  bool_decide (ft ∈ dom fields) = true <-> is_Some (fields !! ft).
Proof. rewrite bool_decide_eq_true. apply elem_of_dom. Qed.

(** The verdicts of [_detect_form_purpose], case by case. *)
Lemma form_purpose_cases (fields : gmap FieldType FormField) :
  let purpose := _detect_form_purpose fields in
  let present ft := is_Some (fields !! ft) in
  let others : gset FieldType :=
    dom fields ∖ {[ EMAIL; PASSWORD; SUBMIT_BUTTON; NEXT_BUTTON ]} in
  In purpose ["job_application"; "login"; "registration"; "contact"; "general_form"]
  /\ (purpose = "job_application"
      <-> present RESUME_FILE \/ (present JOB_TITLE /\ present COMPANY)
          \/ (2 <= size (dom fields ∩ job_app_keywords))%nat)
  /\ (purpose = "login" ->
      present EMAIL /\ present PASSWORD /\ (size others <= 1)%nat)
  /\ (purpose = "registration" ->
      present EMAIL /\ present PASSWORD /\ (2 <= size others)%nat
      /\ (present FIRST_NAME \/ present CONFIRM_PASSWORD \/ present FULL_NAME))
  /\ (purpose = "contact" ->
      present EMAIL /\ ~ present PASSWORD
      /\ (present FULL_NAME \/ (present FIRST_NAME /\ present LAST_NAME))
      /\ (present TEXTAREA \/ present TEXT_INPUT)).
Proof.
  cbv zeta. unfold _detect_form_purpose.
  set (others := dom fields ∖ _).
  destruct (bool_decide (RESUME_FILE ∈ dom fields)) eqn:Hresume.
  { simpl. split; [auto|]. split; [|repeat split; discriminate].
    split; [|reflexivity]. intros _. left. now apply present_is_Some. }
  destruct (bool_decide (JOB_TITLE ∈ dom fields) && bool_decide (COMPANY ∈ dom fields))
    eqn:Hjob.
  { simpl. split; [auto|]. split; [|repeat split; discriminate].
    split; [|reflexivity]. intros _. right. left.
    apply andb_true_iff in Hjob as [H1 H2]. split; now apply present_is_Some. }
  destruct (2 <=? size (dom fields ∩ job_app_keywords))%nat eqn:Hkw.
  { simpl. split; [auto|]. split; [|repeat split; discriminate].
    split; [|reflexivity]. intros _. right. right. now apply Nat.leb_le. }
  simpl orb. cbv iota.
  assert (~ (is_Some (fields !! RESUME_FILE)
             \/ is_Some (fields !! JOB_TITLE) /\ is_Some (fields !! COMPANY)
             \/ (2 <= size (dom fields ∩ job_app_keywords))%nat)) as Hnojob.
  { intros [H|[[H1 H2]|H]].
    - apply present_is_Some in H. congruence.
    - apply present_is_Some in H1, H2. rewrite H1, H2 in Hjob. discriminate.
    - apply Nat.leb_le in H. congruence. }
  destruct (bool_decide (EMAIL ∈ dom fields)) eqn:Hemail; cycle 1.
  { simpl. split; [auto 10|]. split; [split; [discriminate | tauto]|].
    repeat split; discriminate. }
  destruct (bool_decide (PASSWORD ∈ dom fields)) eqn:Hpassword.
  - simpl andb.
    destruct (bool_decide (others = ∅) || (size others <=? 1)%nat) eqn:Hlogin.
    + split; [simpl; auto|]. split; [split; [discriminate | tauto]|].
      split; [|split; discriminate]. intros _.
      split; [now apply present_is_Some|]. split; [now apply present_is_Some|].
      apply orb_true_iff in Hlogin as [H|H].
      * apply bool_decide_eq_true in H. rewrite H, size_empty. lia.
      * now apply Nat.leb_le.
    + apply orb_false_iff in Hlogin as [_ Hsize]. apply Nat.leb_gt in Hsize.
      destruct (bool_decide (FIRST_NAME ∈ dom fields) || bool_decide (CONFIRM_PASSWORD ∈ dom fields)
                || bool_decide (FULL_NAME ∈ dom fields)) eqn:Hreg.
      * split; [simpl; auto|]. split; [split; [discriminate | tauto]|].
        split; [discriminate|]. split; [|discriminate]. intros _.
        split; [now apply present_is_Some|]. split; [now apply present_is_Some|].
        split; [lia|].
        apply orb_true_iff in Hreg as [Hreg|Hreg];
          [apply orb_true_iff in Hreg as [Hreg|Hreg]|]; apply present_is_Some in Hreg; auto.
      * apply orb_false_iff in Hreg as [Hreg Hfull]. apply orb_false_iff in Hreg as [Hfirst _].
        rewrite Hfull, Hfirst. simpl.
        split; [auto 10|]. split; [split; [discriminate | tauto]|].
        repeat split; discriminate.
  - simpl andb. cbv iota.
    assert (~ is_Some (fields !! PASSWORD)) as Hnopw.
    { intros H. apply present_is_Some in H. congruence. }
    destruct ((bool_decide (FULL_NAME ∈ dom fields)
               || bool_decide (FIRST_NAME ∈ dom fields) && bool_decide (LAST_NAME ∈ dom fields))
              && (bool_decide (TEXTAREA ∈ dom fields) || bool_decide (TEXT_INPUT ∈ dom fields)))
      eqn:Hcontact; cycle 1.
    { split; [simpl; auto 10|]. split; [split; [discriminate | tauto]|].
      repeat split; discriminate. }
    apply andb_true_iff in Hcontact as [Hname Htext].
    assert (is_Some (fields !! EMAIL) /\ ~ is_Some (fields !! PASSWORD)
            /\ (is_Some (fields !! FULL_NAME)
                \/ is_Some (fields !! FIRST_NAME) /\ is_Some (fields !! LAST_NAME))
            /\ (is_Some (fields !! TEXTAREA) \/ is_Some (fields !! TEXT_INPUT))) as Hfacts.
    { split; [now apply present_is_Some|]. split; [exact Hnopw|]. split.
      - apply orb_true_iff in Hname as [H|H]; [left; now apply present_is_Some|].
        apply andb_true_iff in H as [H1 H2]. right. split; now apply present_is_Some.
      - apply orb_true_iff in Htext as [H|H]; [left | right]; now apply present_is_Some. }
    repeat match goal with
           | |- context [if ?b then _ else _] => destruct b
           end;
      (split; [simpl; auto 10|]); (split; [split; [discriminate | tauto]|]);
      (split; [discriminate|]); (split; [discriminate|]);
      first [discriminate | intros _; exact Hfacts].
Qed.

(** X12.  [_detect_form_purpose] answers with one of five purposes.  It
    answers [job_application] exactly when a resume field, or a job title
    with a company, or two of the job-application types are present; [login]
    and [registration] only with email and password present and, for
    [registration], at least two further data fields; [contact] only with
    an email and without a password. *)
Theorem form_purpose_verdicts (fields : gmap FieldType FormField) :
  let purpose := _detect_form_purpose fields in
  let present ft := is_Some (fields !! ft) in
  let others : gset FieldType :=
    dom fields ∖ {[ EMAIL; PASSWORD; SUBMIT_BUTTON; NEXT_BUTTON ]} in
  In purpose ["job_application"; "login"; "registration"; "contact"; "general_form"]
  /\ (purpose = "job_application"
      <-> present RESUME_FILE \/ (present JOB_TITLE /\ present COMPANY)
          \/ (2 <= size (dom fields ∩ job_app_keywords))%nat)
  /\ (purpose = "login" ->
      present EMAIL /\ present PASSWORD /\ (size others <= 1)%nat)
  /\ (purpose = "registration" ->
      present EMAIL /\ present PASSWORD /\ (2 <= size others)%nat
      /\ (present FIRST_NAME \/ present CONFIRM_PASSWORD \/ present FULL_NAME))
  /\ (purpose = "contact" ->
      present EMAIL /\ ~ present PASSWORD
      /\ (present FULL_NAME \/ (present FIRST_NAME /\ present LAST_NAME))
      /\ (present TEXTAREA \/ present TEXT_INPUT)).
Proof. exact (form_purpose_cases fields). Qed.

Lemma detected_types_patterned (self : FieldDetector) (elements : list ElementData)
    (ft : FieldType) :
  is_Some (detected_fields (detect_all_fields_on_page self elements) !! ft) ->
  In ft (map fst (field_patterns self)).
Proof.
  intros [ff H]. destruct (scan_lists self elements) as (_ & _ & Hfields).
  destruct (Hfields ft ff H) as (Hft & i & e & _ & _ & Hcand).
  destruct (field_candidate_inv self i e ff Hcand) as (_ & _ & _ & _ & _ & (pats & Hp & _) & _).
  rewrite Hft in Hp. apply in_map_iff. now exists (ft, pats).
Qed.

(** X13.  With the default pattern tables a page analysis detects only the
    thirteen types that have a table.  Hence its purpose is
    [job_application] exactly when a resume field, or a job title with a
    company, is detected; [registration] only with a first name detected;
    and [contact] only with first name, last name and a text area
    detected. *)
Theorem default_analysis_purpose (threshold : option Q) (elements : list ElementData) :
  let analysis := detect_all_fields_on_page (new_FieldDetector threshold) elements in
  let detected ft := is_Some (detected_fields analysis !! ft) in
  (forall ft, detected ft ->
     In ft [EMAIL; PASSWORD; FIRST_NAME; LAST_NAME; PHONE; COMPANY; JOB_TITLE; RESUME_FILE;
            ADDRESS_LINE1; CITY; STATE; ZIP_CODE; TEXTAREA])
  /\ (form_purpose analysis = "job_application"
      <-> detected RESUME_FILE \/ (detected JOB_TITLE /\ detected COMPANY))
  /\ (form_purpose analysis = "registration" ->
      detected EMAIL /\ detected PASSWORD /\ detected FIRST_NAME)
  /\ (form_purpose analysis = "contact" ->
      detected EMAIL /\ detected FIRST_NAME /\ detected LAST_NAME /\ detected TEXTAREA
      /\ ~ detected PASSWORD).
Proof.
  cbv zeta.
  set (analysis := detect_all_fields_on_page (new_FieldDetector threshold) elements).
  assert (forall ft, is_Some (detected_fields analysis !! ft) ->
            In ft [EMAIL; PASSWORD; FIRST_NAME; LAST_NAME; PHONE; COMPANY; JOB_TITLE;
                   RESUME_FILE; ADDRESS_LINE1; CITY; STATE; ZIP_CODE; TEXTAREA]) as Htypes.
  { intros ft H. exact (detected_types_patterned (new_FieldDetector threshold) elements ft H). }
  assert (forall ft,
            ~ In ft [EMAIL; PASSWORD; FIRST_NAME; LAST_NAME; PHONE; COMPANY; JOB_TITLE;
                     RESUME_FILE; ADDRESS_LINE1; CITY; STATE; ZIP_CODE; TEXTAREA] ->
            ~ is_Some (detected_fields analysis !! ft)) as Hnot
    by (intros ft Hn H; apply Hn, Htypes, H).
  assert (~ is_Some (detected_fields analysis !! CONFIRM_PASSWORD)) as Hconfirm
    by (apply Hnot; simpl; intuition discriminate).
  assert (~ is_Some (detected_fields analysis !! FULL_NAME)) as Hfull
    by (apply Hnot; simpl; intuition discriminate).
  assert (~ is_Some (detected_fields analysis !! TEXT_INPUT)) as Htext
    by (apply Hnot; simpl; intuition discriminate).
  change (form_purpose analysis) with (_detect_form_purpose (detected_fields analysis)).
  destruct (form_purpose_cases (detected_fields analysis))
    as (_ & Hjob & _ & Hreg & Hcontact).
  split; [exact Htypes|]. split; [|split].
  - rewrite Hjob. split; [|tauto].
    intros [H|[H|H]]; [now left | now right |].
    destruct (decide (is_Some (detected_fields analysis !! RESUME_FILE))) as [|Hr];
      [now left|].
    destruct (decide (is_Some (detected_fields analysis !! JOB_TITLE))) as [Hj|Hj];
      [destruct (decide (is_Some (detected_fields analysis !! COMPANY))) as [Hc|Hc];
       [right; now split|]|]; exfalso.
    + assert (dom (detected_fields analysis) ∩ job_app_keywords ⊆ {[ JOB_TITLE ]}) as Hsub.
      { intros x Hx. apply elem_of_intersection in Hx as [Hd Hk].
        apply elem_of_dom in Hd. pose proof (Htypes x Hd) as Hp.
        apply elem_of_singleton.
        simpl in Hp. destruct Hp as [<-|[<-|[<-|[<-|[<-|[<-|[<-|[<-|[<-|[<-|[<-|[<-|[<-|[]]]]]]]]]]]]]];
          try reflexivity; try contradiction;
          exfalso; revert Hk; vm_compute; intros Hk; inversion Hk. }
      apply subseteq_size in Hsub. rewrite size_singleton in Hsub. lia.
    + assert (dom (detected_fields analysis) ∩ job_app_keywords ⊆ {[ COMPANY ]}) as Hsub.
      { intros x Hx. apply elem_of_intersection in Hx as [Hd Hk].
        apply elem_of_dom in Hd. pose proof (Htypes x Hd) as Hp.
        apply elem_of_singleton.
        simpl in Hp. destruct Hp as [<-|[<-|[<-|[<-|[<-|[<-|[<-|[<-|[<-|[<-|[<-|[<-|[<-|[]]]]]]]]]]]]]];
          try reflexivity; try contradiction;
          exfalso; revert Hk; vm_compute; intros Hk; inversion Hk. }
      apply subseteq_size in Hsub. rewrite size_singleton in Hsub. lia.
  - intros H. destruct (Hreg H) as (He & Hp & _ & [Hf|[Hf|Hf]]); [auto | contradiction..].
  - intros H. destruct (Hcontact H) as (He & Hp & [Hf|[Hf Hl]] & [Ht|Ht]);
      try contradiction. auto.
Qed.

(** ** Completeness of the conflict resolution *)

Lemma resolve_type_other (threshold : Q) (resolved : gmap FieldType FormField)
    (entry : FieldType * list FormField) (ft : FieldType) :
  ft <> entry.1 -> resolve_type threshold resolved entry !! ft = resolved !! ft.
Proof.
  destruct entry as [ft0 grp]. simpl. intros Hne. unfold resolve_type.
  destruct (sort_desc confidence grp) as [|best r]; [reflexivity|].
  destruct (Qle_bool threshold (confidence best)); [|reflexivity].
  destruct (resolved !! ft0) as [old|].
  - destruct (Qlt_bool (confidence old) (confidence best)); [|reflexivity].
    now apply lookup_insert_ne.
  - now apply lookup_insert_ne.
Qed.

Lemma resolve_fold_other (threshold : Q) (g : list (FieldType * list FormField)) :
  forall (resolved : gmap FieldType FormField) (ft : FieldType),
    ~ In ft (map fst g) ->
    fold_left (resolve_type threshold) g resolved !! ft = resolved !! ft.
Proof.
  induction g as [|entry g IH]; intros resolved ft Hn; simpl; [reflexivity|].
  rewrite IH by (intros H; apply Hn; now right).
  apply resolve_type_other. intros ->. apply Hn. now left.
Qed.

(** With distinct keys and none of them resolved yet, the head of a sorted
    group that meets the threshold is the entry of its key. *)
Lemma resolve_fold_complete (threshold : Q) (g : list (FieldType * list FormField)) :
  forall (resolved : gmap FieldType FormField) (ft : FieldType) (grp : list FormField)
         (best : FormField) (r : list FormField),
    List.NoDup (map fst g) ->
    (forall k, In k (map fst g) -> resolved !! k = None) ->
    In (ft, grp) g ->
    sort_desc confidence grp = best :: r ->
    (threshold <= confidence best)%Q ->
    fold_left (resolve_type threshold) g resolved !! ft = Some best.
Proof.
  induction g as [|[ft0 grp0] g IH]; intros resolved ft grp best r Hnd Hnone Hin E Hth;
    [destruct Hin|].
  inversion Hnd as [|? ? Hnotin Hnd']; subst.
  change (fold_left (resolve_type threshold) ((ft0, grp0) :: g) resolved)
    with (fold_left (resolve_type threshold) g (resolve_type threshold resolved (ft0, grp0))).
  destruct Hin as [[= -> ->]|Hin].
  - rewrite resolve_fold_other by exact Hnotin.
    unfold resolve_type. rewrite E.
    apply Qle_bool_iff in Hth. rewrite Hth.
    rewrite (Hnone ft (or_introl eq_refl)). apply lookup_insert_eq.
  - apply (IH _ ft grp best r Hnd'); auto.
    intros k Hk. rewrite resolve_type_other.
    + apply Hnone. now right.
    + simpl. intros ->. now apply Hnotin.
Qed.

(** X14.  Conflict resolution gives a type an entry exactly when some
    candidate of that type is the best of its element and meets the
    threshold; the entry then scores no less than any such candidate. *)
Theorem resolve_field_conflicts_complete (self : FieldDetector)
    (candidates : list FormField) (ft : FieldType) :
  (is_Some (_resolve_field_conflicts self candidates !! ft)
   <-> exists g, In g (best_candidates_per_element candidates)
                 /\ field_type g = ft
                 /\ (threshold_of self <= confidence g)%Q)
  /\ (forall g, In g (best_candidates_per_element candidates) ->
                field_type g = ft -> (threshold_of self <= confidence g)%Q ->
                exists ff, _resolve_field_conflicts self candidates !! ft = Some ff
                           /\ (confidence g <= confidence ff)%Q).
Proof.
  assert (forall g, In g (best_candidates_per_element candidates) ->
                    field_type g = ft -> (threshold_of self <= confidence g)%Q ->
                    exists ff, _resolve_field_conflicts self candidates !! ft = Some ff
                               /\ (confidence g <= confidence ff)%Q) as Hcomplete.
  { intros g Hg Hft Hth.
    destruct (by_type_groups candidates) as (Hnd & Hkeys & Hall).
    destruct (Hall g Hg) as (grp & Hgrp & Hin). rewrite Hft in Hgrp.
    destruct (sort_desc confidence grp) as [|best r] eqn:E.
    { apply sort_desc_nil in E. subst grp. destruct Hin. }
    destruct (sort_desc_head _ _ _ _ E) as [_ Hmax].
    pose proof (Hmax g Hin) as Hle.
    exists best. split; [|exact Hle].
    unfold _resolve_field_conflicts.
    apply (resolve_fold_complete _ _ ∅ ft grp best r Hnd);
      [intros k _; apply lookup_empty | exact Hgrp | exact E |].
    now apply Qle_trans with (confidence g). }
  split; [|exact Hcomplete]. split.
  - intros [ff H]. exists ff.
    destruct (resolved_is_winner self candidates ft ff H) as (Hft & Hw & _).
    destruct (resolved_inv self candidates ft ff H) as (_ & _ & _ & _ & Hth). auto.
  - intros (g & Hg & Hft & Hth). destruct (Hcomplete g Hg Hft Hth) as (ff & H & _). eauto.
Qed.

(** ** Custom components *)

Lemma lower_char_not_upper (c : ascii) : Str.is_upper (Str.lower_char c) = false.
Proof. destruct c as [[] [] [] [] [] [] [] []]; reflexivity. Qed.

(** A text in lower case holds no text that starts with a capital. *)
Lemma contains_capital_in_lower (c : ascii) (p s : string) :
  Str.is_upper c = true -> Str.contains (String c p) (Str.lower s) = false.
Proof.
  intros Hc. induction s as [|a s IH]; simpl; [reflexivity|].
  rewrite IH, orb_false_r.
  destruct (Ascii.eqb_spec c (Str.lower_char a)) as [E|]; [|reflexivity].
  rewrite E, lower_char_not_upper in Hc. discriminate.
Qed.

(** X15.  [is_custom_component] holds exactly for an element that is not
    a native control and has one of the six widget roles, or whose class,
    in lower case, contains one of the first eight indicators: the ninth,
    [MuiInputBase], is compared with the lower-cased class and never
    matches. *)
Theorem is_custom_component_iff (element_data : ElementData) :
  is_custom_component element_data = true
  <-> (~ In (ed_tag element_data) ["input"; "select"; "textarea"; "button"]
       /\ In (ed_role element_data)
             ["combobox"; "listbox"; "textbox"; "searchbox"; "slider"; "datepicker"])
      \/ exists indicator,
           In indicator ["select2"; "chosen"; "multiselect"; "datepicker"; "calendar";
                         "typeahead"; "autocomplete"; "react-select"]
           /\ Str.contains indicator (Str.lower (ed_class element_data)) = true.
Proof.
  unfold is_custom_component.
  assert (existsb (fun indicator => Str.contains indicator (Str.lower (ed_class element_data)))
            custom_indicators = true
          <-> exists indicator,
                In indicator ["select2"; "chosen"; "multiselect"; "datepicker"; "calendar";
                              "typeahead"; "autocomplete"; "react-select"]
                /\ Str.contains indicator (Str.lower (ed_class element_data)) = true) as Hclass.
  { rewrite existsb_exists. split.
    - intros (indicator & Hin & Hc). exists indicator. split; [|exact Hc].
      unfold custom_indicators in Hin. simpl in Hin.
      destruct Hin as [<-|[<-|[<-|[<-|[<-|[<-|[<-|[<-|[<-|[]]]]]]]]]]; simpl; auto 10.
      rewrite contains_capital_in_lower in Hc by reflexivity. discriminate.
    - intros (indicator & Hin & Hc). exists indicator. split; [|exact Hc].
      unfold custom_indicators. simpl in *. intuition. }
  destruct (bool_decide (ed_tag element_data ∈ _)) eqn:Htag; simpl negb; simpl andb.
  - apply bool_decide_eq_true in Htag. apply list_elem_of_In in Htag.
    rewrite Hclass. split; [now right|]. intros [[Hn _]|H]; [contradiction | exact H].
  - apply bool_decide_eq_false in Htag. rewrite list_elem_of_In in Htag.
    destruct (bool_decide (ed_role element_data ∈ _)) eqn:Hrole.
    + apply bool_decide_eq_true in Hrole. apply list_elem_of_In in Hrole.
      split; [|reflexivity]. intros _. left. now split.
    + apply bool_decide_eq_false in Hrole. rewrite list_elem_of_In in Hrole.
      rewrite Hclass. split; [now right|]. intros [[_ Hr]|H]; [contradiction | exact H].
Qed.

(** ** Actions of the page-driving functions *)

Module FlowFacts.
Import Flow.

Section Logic.

Context {W : Type}.

Lemma total_ret {A : Type} (a : A) : total (ret a : M W A).
Proof. intros w. now exists a. Qed.

Lemma total_bind {A B : Type} (m : M W A) (k : A -> M W B) :
  total m -> (forall a, total (k a)) -> total (bind m k).
Proof.
  intros Hm Hk w. unfold bind. destruct (Hm w) as [a Ha].
  destruct (m w) as [[r w1] d1]. simpl in Ha. subst r.
  destruct (Hk a w1) as [b Hb]. destruct (k a w1) as [[r w2] d2]. now exists b.
Qed.

Lemma total_catch {A : Type} (m : M W A) (handler : exn -> M W A) :
  (forall e, total (handler e)) -> total (catch m handler).
Proof.
  intros Hh w. unfold catch. destruct (m w) as [[[a|e] w1] d1]; [now exists a|].
  destruct (Hh e w1) as [b Hb]. destruct (handler e w1) as [[r w2] d2]. now exists b.
Qed.

Lemma emits_ret {A : Type} (P : action -> Prop) (Q : A -> Prop) (a : A) :
  ~ Q a -> emits P Q (ret a : M W A).
Proof.
  intros Hn w. split; [constructor|]. simpl. intros a' [= <-] Hq. contradiction.
Qed.

Lemma emits_raise {A : Type} (P : action -> Prop) (Q : A -> Prop) (e : exn) :
  emits P Q (raise e : M W A).
Proof. intros w. split; [constructor|]. simpl. discriminate. Qed.

Lemma emits_read {A : Type} (P : action -> Prop) (op : W -> outcome A * W) :
  emits P (fun _ => False) (read op).
Proof.
  intros w. unfold read. destruct (op w) as [r w']. split; [constructor|]. intros a _ [].
Qed.

Lemma emits_act (P : action -> Prop) (Q : unit -> Prop) (a : action)
    (op : W -> outcome unit * W) :
  P a -> emits P Q (act a op).
Proof.
  intros Hp w. unfold act. destruct (op w) as [[u|e] w']; simpl.
  - split; [now repeat constructor | discriminate].
  - split; [constructor | discriminate].
Qed.

Lemma emits_weaken {A : Type} (P P' : action -> Prop) (Q Q' : A -> Prop) (m : M W A) :
  emits P Q m -> (forall a, P a -> P' a) -> (forall a, Q' a -> Q a) -> emits P' Q' m.
Proof.
  intros Hm Hp Hq w. destruct (Hm w) as [Hall Hne]. split.
  - exact (Forall_impl _ _ _ Hall Hp).
  - intros a Ha Hq'. apply (Hne a Ha). now apply Hq.
Qed.

(** The action is in what follows. *)
Lemma emits_bind {A B : Type} (P : action -> Prop) (QA : A -> Prop) (QB : B -> Prop)
    (m : M W A) (k : A -> M W B) :
  emits P QA m -> (forall a, emits P QB (k a)) -> emits P QB (bind m k).
Proof.
  intros Hm Hk w. unfold bind. destruct (Hm w) as [Hall _].
  destruct (m w) as [[[a|e] w1] d1]; simpl in *.
  - destruct (Hk a w1) as [Hall2 Hne]. destruct (k a w1) as [[r w2] d2]. simpl in *.
    split; [now apply Forall_app|].
    intros b Hb Hq E. apply app_eq_nil in E as [_ E]. now apply (Hne b Hb Hq).
  - split; [exact Hall | discriminate].
Qed.

(** The action is in what comes first. *)
Lemma emits_bind_after {A B : Type} (P : action -> Prop) (QB : B -> Prop)
    (m : M W A) (k : A -> M W B) :
  emits P (fun _ => True) m -> (forall a, emits P (fun _ => False) (k a)) ->
  emits P QB (bind m k).
Proof.
  intros Hm Hk w. unfold bind. destruct (Hm w) as [Hall Hne1].
  destruct (m w) as [[[a|e] w1] d1]; simpl in *.
  - destruct (Hk a w1) as [Hall2 _]. destruct (k a w1) as [[r w2] d2]. simpl in *.
    split; [now apply Forall_app|].
    intros b Hb Hq E. apply app_eq_nil in E as [E _]. now apply (Hne1 a eq_refl I).
  - split; [exact Hall | discriminate].
Qed.

Lemma emits_catch {A : Type} (P : action -> Prop) (Q : A -> Prop) (m : M W A)
    (handler : exn -> M W A) :
  emits P Q m -> (forall e, emits P Q (handler e)) -> emits P Q (catch m handler).
Proof.
  intros Hm Hh w. unfold catch. destruct (Hm w) as [Hall Hne].
  destruct (m w) as [[[a|e] w1] d1]; simpl in *; [split; [exact Hall | exact Hne]|].
  destruct (Hh e w1) as [Hall2 Hne2]. destruct (handler e w1) as [[r w2] d2]. simpl in *.
  split; [now apply Forall_app|].
  intros b Hb Hq E. apply app_eq_nil in E as [_ E]. now apply (Hne2 b Hb Hq).
Qed.

End Logic.

Section Filler.

Context {W : Type} (page : Playwright W).

Lemma silent_emits {A : Type} (P : action -> Prop) (m : M W A) :
  silent m -> emits P (fun _ => False) m.
Proof. intros H. apply (emits_weaken _ _ _ _ _ H); [intros a [] | auto]. Qed.

Lemma silent_read {A : Type} (op : W -> outcome A * W) : silent (read op).
Proof. apply emits_read. Qed.

Lemma silent_ret {A : Type} (a : A) : silent (ret a : M W A).
Proof. apply emits_ret. auto. Qed.

Lemma silent_bind {A B : Type} (m : M W A) (k : A -> M W B) :
  silent m -> (forall a, silent (k a)) -> silent (bind m k).
Proof. intros Hm Hk. now apply (emits_bind _ (fun _ => False)). Qed.

Lemma silent_catch {A : Type} (m : M W A) (handler : exn -> M W A) :
  silent m -> (forall e, silent (handler e)) -> silent (catch m handler).
Proof. apply emits_catch. Qed.

Lemma silent_and_then (a b : M W bool) : silent a -> silent b -> silent (and_then a b).
Proof.
  intros Ha Hb. apply silent_bind; [exact Ha|]. intros [|]; [exact Hb | apply silent_ret].
Qed.

Lemma is_element_interactable_silent (element : Locator) :
  silent (_is_element_interactable page element).
Proof.
  apply silent_catch; [|intros e; apply silent_ret].
  apply silent_bind; [apply silent_read|]. intros attached.
  destruct (negb attached); [apply silent_ret|].
  apply silent_and_then; apply silent_read.
Qed.

Lemma is_element_interactable_total (element : Locator) :
  total (_is_element_interactable page element).
Proof. apply total_catch. intros e. apply total_ret. Qed.

Lemma safe_get_text_content_silent (element : Locator) (default : string) :
  silent (safe_get_text_content page element default).
Proof.
  apply silent_catch; [|intros e; apply silent_ret].
  apply silent_bind; [apply silent_read|]. intros [|]; [|apply silent_ret].
  apply silent_bind; [apply silent_read|]. intros text. apply silent_ret.
Qed.

Lemma locator_all_silent (selector : string) : silent (locator_all page selector).
Proof.
  apply silent_bind; [apply silent_read|]. intros n. apply silent_ret.
Qed.

Lemma locator_all_inv (selector : string) (w w' : W) (elements : list Locator)
    (done : list action) :
  locator_all page selector w = (Ok elements, w', done) ->
  forall l, In l elements -> exists i, l = Located selector i.
Proof.
  unfold locator_all, bind, read, ret.
  destruct (locator_count page selector w) as [[n|e] w1]; [|discriminate].
  intros [= <- _ _] l Hl. apply in_map_iff in Hl as (i & <- & _). now exists i.
Qed.

Lemma click_next_button_emits (P : Locator -> Prop) (button : Locator) :
  P button -> emits (clicks P) (fun b => b = true) (click_next_button page button).
Proof.
  intros Hp. unfold click_next_button.
  apply (emits_bind _ (fun _ => False));
    [apply silent_emits, silent_and_then; apply silent_read|].
  intros [|]; [|apply emits_ret; discriminate].
  apply (emits_bind _ (fun _ => False)); [apply silent_emits, silent_read|]. intros _.
  apply emits_bind_after.
  - apply emits_act. now exists button.
  - intros _. apply (emits_bind _ (fun _ => False)); [apply silent_emits, silent_read|].
    intros _. apply emits_ret. auto.
Qed.

Lemma next_among_emits (P : Locator -> Prop) (elements : list Locator) :
  (forall l, In l elements -> P l) ->
  emits (clicks P) (fun b => b = true) (next_among page elements).
Proof.
  induction elements as [|button rest IH]; intros Hp; simpl.
  - apply emits_ret. discriminate.
  - assert (emits (clicks P) (fun b => b = true) (click_next_button page button)) as Hb
      by (apply click_next_button_emits, Hp; now left).
    intros w. unfold bind. destruct (Hb w) as [Hall Hne].
    destruct (click_next_button page button w) as [[[[|]|e] w1] d1]; simpl in *.
    + rewrite app_nil_r. split; [exact Hall|]. intros a _ _. now apply (Hne true).
    + destruct (IH (fun l Hl => Hp l (or_intror Hl)) w1) as [Hall2 Hne2].
      destruct (next_among page rest w1) as [[r w2] d2]. simpl in *.
      split; [now apply Forall_app|].
      intros a Ha Hq E. apply app_eq_nil in E as [_ E]. now apply (Hne2 a Ha Hq).
    + split; [exact Hall | discriminate].
Qed.

(** One round of a loop that returns [True] at the first success. *)
Lemma emits_first_success (P : action -> Prop) (m rest : M W bool) :
  emits P (fun b => b = true) m -> emits P (fun b => b = true) rest ->
  emits P (fun b => b = true) (bind m (fun done => if done then ret true else rest)).
Proof.
  intros Hm Hrest w. unfold bind. destruct (Hm w) as [Hall Hne].
  destruct (m w) as [[[[|]|e] w1] d1]; simpl in *.
  - rewrite app_nil_r. split; [exact Hall|]. intros a _ _. now apply (Hne true).
  - destruct (Hrest w1) as [Hall2 Hne2]. destruct (rest w1) as [[r w2] d2]. simpl in *.
    split; [now apply Forall_app|].
    intros a Ha Hq E. apply app_eq_nil in E as [_ E]. now apply (Hne2 a Ha Hq).
  - split; [exact Hall | discriminate].
Qed.

Lemma total_first_success (m rest : M W bool) :
  total m -> total rest -> total (bind m (fun done => if done then ret true else rest)).
Proof.
  intros Hm Hrest. apply total_bind; [exact Hm|]. intros [|]; [apply total_ret | exact Hrest].
Qed.

(** What follows [page.locator(selector).all()] works on elements of that
    selector. *)
Lemma emits_on_located (P : action -> Prop) (Q : bool -> Prop) (selector : string)
    (k : list Locator -> M W bool) :
  (forall elements,
      (forall l, In l elements -> exists i, l = Located selector i) ->
      emits P Q (k elements)) ->
  emits P Q (bind (locator_all page selector) k).
Proof.
  intros Hk w. unfold bind.
  pose proof (locator_all_inv selector w) as Hinv.
  destruct (locator_all_silent selector w) as [Hall _].
  destruct (locator_all page selector w) as [[[elements|e] w1] d1]; simpl in *.
  - destruct (Hk elements (Hinv w1 elements d1 eq_refl) w1) as [Hall2 Hne].
    destruct (k elements w1) as [[r w2] d2]. simpl in *.
    split.
    + apply Forall_app. split; [|exact Hall2].
      eapply Forall_impl; [exact Hall | intros a []].
    + intros b Hb Hq E. apply app_eq_nil in E as [_ E]. now apply (Hne b Hb Hq).
  - split; [|discriminate]. eapply Forall_impl; [exact Hall | intros a []].
Qed.

Lemma next_by_selectors_emits (selectors : list string) :
  emits (clicks (fun l => exists selector i, In selector selectors /\ l = Located selector i))
        (fun b => b = true) (next_by_selectors page selectors).
Proof.
  induction selectors as [|selector rest IH]; simpl.
  - apply emits_ret. discriminate.
  - apply emits_first_success.
    + apply emits_catch; [|intros e; apply emits_ret; discriminate].
      apply emits_on_located. intros elements Hel. apply next_among_emits.
      intros l Hl. destruct (Hel l Hl) as [i ->]. exists selector, i. split; [now left | reflexivity].
    + eapply emits_weaken; [exact IH | | auto].
      intros a (target & -> & selector' & i & Hin & ->).
      exists (Located selector' i). split; [reflexivity|]. exists selector', i.
      split; [now right | reflexivity].
Qed.

Lemma next_by_selectors_total (selectors : list string) :
  total (next_by_selectors page selectors).
Proof.
  induction selectors as [|selector rest IH]; simpl; [apply total_ret|].
  apply total_first_success; [|exact IH]. apply total_catch. intros e. apply total_ret.
Qed.

Lemma among_cons (ff : FormField) (buttons : list FormField) (a : action) :
  clicks (among buttons) a -> clicks (among (ff :: buttons)) a.
Proof.
  intros (target & -> & ff' & Hin & ->). exists (Scanned (element ff')).
  split; [reflexivity|]. exists ff'. split; [now right | reflexivity].
Qed.

Lemma next_among_analysed_emits (buttons : list FormField) :
  emits (clicks (among buttons)) (fun b => b = true) (next_among_analysed page buttons).
Proof.
  induction buttons as [|ff rest IH]; simpl.
  - apply emits_ret. discriminate.
  - apply emits_first_success.
    + apply emits_catch; [|intros e; apply emits_ret; discriminate].
      apply click_next_button_emits. exists ff. split; [now left | reflexivity].
    + eapply emits_weaken; [exact IH | apply among_cons | auto].
Qed.

Lemma next_among_analysed_total (buttons : list FormField) :
  total (next_among_analysed page buttons).
Proof.
  induction buttons as [|ff rest IH]; simpl; [apply total_ret|].
  apply total_first_success; [|exact IH]. apply total_catch. intros e. apply total_ret.
Qed.

Lemma navigate_next_emits (buttons : list FormField) :
  emits (clicks (next_targets buttons)) (fun b => b = true) (navigate_next page buttons).
Proof.
  destruct buttons as [|ff rest].
  - apply next_by_selectors_emits.
  - apply (next_among_analysed_emits (ff :: rest)).
Qed.

Lemma navigate_next_total (buttons : list FormField) : total (navigate_next page buttons).
Proof.
  destruct buttons as [|ff rest];
    [apply next_by_selectors_total | apply (next_among_analysed_total (ff :: rest))].
Qed.

Lemma submit_among_emits (P : Locator -> Prop) (elements : list Locator) :
  (forall l, In l elements -> P l) ->
  emits (clicks P) (fun b => b = true) (submit_among page elements).
Proof.
  induction elements as [|button rest IH]; intros Hp; simpl.
  - apply emits_ret. discriminate.
  - apply (emits_bind _ (fun _ => False));
      [apply silent_emits, is_element_interactable_silent|].
    intros [|]; [|apply IH; intros l Hl; apply Hp; now right].
    apply (emits_bind _ (fun _ => False));
      [apply silent_emits, safe_get_text_content_silent|]. intros _.
    apply (emits_bind _ (fun _ => False)); [apply silent_emits, silent_read|]. intros _.
    apply emits_bind_after.
    + apply emits_act. exists button. split; [reflexivity|]. apply Hp. now left.
    + intros _. apply emits_ret. auto.
Qed.

Lemma submit_by_selectors_emits (selectors : list string) :
  emits (clicks (fun l => exists selector i, In selector selectors /\ l = Located selector i))
        (fun b => b = true) (submit_by_selectors page selectors).
Proof.
  induction selectors as [|selector rest IH]; simpl.
  - apply emits_ret. discriminate.
  - apply emits_first_success.
    + apply emits_catch; [|intros e; apply emits_ret; discriminate].
      apply emits_on_located. intros elements Hel. apply submit_among_emits.
      intros l Hl. destruct (Hel l Hl) as [i ->]. exists selector, i. split; [now left | reflexivity].
    + eapply emits_weaken; [exact IH | | auto].
      intros a (target & -> & selector' & i & Hin & ->).
      exists (Located selector' i). split; [reflexivity|]. exists selector', i.
      split; [now right | reflexivity].
Qed.

Lemma submit_by_selectors_total (selectors : list string) :
  total (submit_by_selectors page selectors).
Proof.
  induction selectors as [|selector rest IH]; simpl; [apply total_ret|].
  apply total_first_success; [|exact IH]. apply total_catch. intros e. apply total_ret.
Qed.

Lemma click_analysed_emits (buttons : list FormField) :
  emits (clicks (among buttons)) (fun b => b = true) (click_analysed page buttons).
Proof.
  induction buttons as [|ff rest IH]; simpl.
  - apply emits_ret. discriminate.
  - apply emits_first_success.
    + apply emits_catch; [|intros e; apply emits_ret; discriminate].
      apply (emits_bind _ (fun _ => False));
        [apply silent_emits, is_element_interactable_silent|].
      intros [|]; [|apply emits_ret; discriminate].
      apply (emits_bind _ (fun _ => False)); [apply silent_emits, silent_read|]. intros _.
      apply emits_bind_after.
      * apply emits_act. exists (Scanned (element ff)). split; [reflexivity|].
        exists ff. split; [now left | reflexivity].
      * intros _. apply emits_ret. auto.
    + eapply emits_weaken; [exact IH | apply among_cons | auto].
Qed.

Lemma click_analysed_total (buttons : list FormField) : total (click_analysed page buttons).
Proof.
  induction buttons as [|ff rest IH]; simpl; [apply total_ret|].
  apply total_first_success; [|exact IH]. apply total_catch. intros e. apply total_ret.
Qed.

Lemma returns_ret {A : Type} (R : A -> Prop) (a : A) : R a -> returns R (ret a : M W A).
Proof. intros Hr w a' [= <-]. exact Hr. Qed.

Lemma returns_bind {A B : Type} (R : B -> Prop) (m : M W A) (k : A -> M W B) :
  (forall a, returns R (k a)) -> returns R (bind m k).
Proof.
  intros Hk w b. unfold bind. destruct (m w) as [[[a|e] w1] d1]; [|discriminate].
  specialize (Hk a w1 b). destruct (k a w1) as [[r w2] d2]. exact Hk.
Qed.

(** The action is in what comes first when its result is in [QA], and in
    what follows otherwise. *)
Lemma emits_bind_cases {A B : Type} (P : action -> Prop) (QA : A -> Prop) (QB : B -> Prop)
    (m : M W A) (k : A -> M W B) :
  (forall a, QA a \/ ~ QA a) ->
  emits P QA m ->
  (forall a, QA a -> emits P (fun _ => False) (k a)) ->
  (forall a, ~ QA a -> emits P QB (k a)) ->
  emits P QB (bind m k).
Proof.
  intros Hdec Hm Hyes Hno w. unfold bind. destruct (Hm w) as [Hall Hne].
  destruct (m w) as [[[a|e] w1] d1]; simpl in *; [|split; [exact Hall | discriminate]].
  destruct (Hdec a) as [Hq|Hq].
  - destruct (Hyes a Hq w1) as [Hall2 _]. destruct (k a w1) as [[r w2] d2]. simpl in *.
    split; [now apply Forall_app|].
    intros b _ _ E. apply app_eq_nil in E as [E _]. now apply (Hne a eq_refl Hq).
  - destruct (Hno a Hq w1) as [Hall2 Hne2]. destruct (k a w1) as [[r w2] d2]. simpl in *.
    split; [now apply Forall_app|].
    intros b Hb Hqb E. apply app_eq_nil in E as [_ E]. now apply (Hne2 b Hb Hqb).
Qed.

Lemma bool_true_dec (b : bool) : b = true \/ b <> true.
Proof. destruct b; [now left | now right]. Qed.

Lemma attempt_to_submit_or_navigate_emits (analysis_result : FormAnalysisResult)
    (is_last_data_step : bool) :
  emits (clicks (submit_or_navigate_targets analysis_result is_last_data_step))
        (fun r => r.1 = true)
        (_attempt_to_submit_or_navigate page analysis_result is_last_data_step).
Proof.
  unfold _attempt_to_submit_or_navigate.
  set (targets := submit_or_navigate_targets analysis_result is_last_data_step).
  apply (emits_bind_cases _ (fun b => b = true)); [apply bool_true_dec | | |].
  - eapply emits_weaken; [apply click_analysed_emits | | auto].
    intros a (target & -> & Ht). exists target. split; [reflexivity|].
    unfold targets, submit_or_navigate_targets. destruct is_last_data_step; simpl in *.
    + left. destruct (buttons_of analysis_result "submit"); [rewrite app_nil_l in Ht|]; exact Ht.
    + left. exact Ht.
  - intros b ->. apply emits_ret. auto.
  - intros [|] Hb; [contradiction|]. destruct is_last_data_step; simpl negb; cbv iota.
    + apply (emits_bind_cases _ (fun b => b = true)); [apply bool_true_dec | | |].
      * eapply emits_weaken; [apply submit_by_selectors_emits | | auto].
        intros a (target & -> & Ht). exists target. split; [reflexivity|]. now right.
      * intros b ->. apply emits_ret. auto.
      * intros [|] Hb'; [contradiction|]. apply emits_ret. simpl. discriminate.
    + simpl andb. cbv iota.
      apply (emits_bind_cases _ (fun b => b = true)); [apply bool_true_dec | | |].
      * eapply emits_weaken; [apply navigate_next_emits | | auto].
        intros a (target & -> & Ht). exists target. split; [reflexivity|].
        unfold targets, submit_or_navigate_targets.
        destruct (buttons_of analysis_result "next") as [|ff rest] eqn:E; simpl in Ht.
        -- now right.
        -- left. exact Ht.
      * intros b ->. apply emits_ret. auto.
      * intros [|] Hb'; [contradiction|].
        apply (emits_bind_cases _ (fun b => b = true)); [apply bool_true_dec | | |].
        -- eapply emits_weaken; [apply (navigate_next_emits []) | | auto].
           intros a (target & -> & Ht). exists target. split; [reflexivity|]. now right.
        -- intros b ->. apply emits_ret. auto.
        -- intros [|] Hb''; [contradiction|]. apply emits_ret. simpl. discriminate.
Qed.

Lemma attempt_to_submit_or_navigate_total (analysis_result : FormAnalysisResult)
    (is_last_data_step : bool) :
  total (_attempt_to_submit_or_navigate page analysis_result is_last_data_step).
Proof.
  unfold _attempt_to_submit_or_navigate.
  apply total_bind; [apply click_analysed_total|].
  intros [|]; [apply total_ret|].
  destruct (negb is_last_data_step).
  - apply total_bind; [apply navigate_next_total|]. intros [|]; [apply total_ret|].
    apply total_bind; [apply navigate_next_total | intros b; apply total_ret].
  - apply total_bind; [apply submit_by_selectors_total | intros b; apply total_ret].
Qed.

Lemma attempt_to_submit_or_navigate_returns (analysis_result : FormAnalysisResult)
    (is_last_data_step : bool) :
  returns (fun r => r.2 = analysis_after_attempt analysis_result is_last_data_step)
          (_attempt_to_submit_or_navigate page analysis_result is_last_data_step).
Proof.
  unfold _attempt_to_submit_or_navigate.
  assert ((if is_last_data_step && String.eqb (if is_last_data_step then "submit" else "next")
                                              "submit"
              && match buttons_of analysis_result (if is_last_data_step then "submit" else "next")
                 with [] => true | _ :: _ => false end
           then extend_submit_with_apply analysis_result else analysis_result)
          = analysis_after_attempt analysis_result is_last_data_step) as ->.
  { unfold analysis_after_attempt. destruct is_last_data_step; [|reflexivity].
    simpl. now destruct (buttons_of analysis_result "submit"). }
  apply returns_bind. intros [|]; [now apply returns_ret|].
  destruct (negb is_last_data_step).
  - apply returns_bind. intros [|]; [now apply returns_ret|].
    apply returns_bind. intros b. now apply returns_ret.
  - apply returns_bind. intros b. now apply returns_ret.
Qed.

Lemma silent_nil {A : Type} (m : M W A) (w : W) : silent m -> (m w).2 = [].
Proof.
  intros H. destruct (H w) as [Hall _]. destruct (m w).2 as [|a d]; [reflexivity|].
  now inversion Hall.
Qed.

Lemma one_shot_ret {A : Type} (yes : A -> bool) (a : A) :
  yes a = false -> one_shot yes (ret a : M W A).
Proof. intros H w. simpl. now rewrite H. Qed.

Lemma one_shot_bind_silent {A B : Type} (yes : B -> bool) (m : M W A) (k : A -> M W B) :
  silent m -> (forall a, one_shot yes (k a)) -> one_shot yes (bind m k).
Proof.
  intros Hm Hk w. unfold bind. pose proof (silent_nil m w Hm) as Hd.
  destruct (m w) as [[[a|e] w1] d1]; simpl in *; subst d1; [|reflexivity].
  specialize (Hk a w1). destruct (k a w1) as [[r w2] d2]. exact Hk.
Qed.

Lemma one_shot_click (target : Locator) :
  one_shot (fun b : bool => b)
           (bind (act (Click target) (click page target)) (fun _ => ret true)).
Proof.
  intros w. unfold bind, act, ret. destruct (click page target w) as [[u|e] w1]; reflexivity.
Qed.

Lemma one_shot_catch {A : Type} (yes : A -> bool) (m : M W A) (a : A) :
  yes a = false -> one_shot yes m -> one_shot yes (catch m (fun _ => ret a)).
Proof.
  intros Ha Hm w. unfold catch, ret. specialize (Hm w).
  destruct (m w) as [[[b|e] w1] d1]; simpl in *; [exact Hm|]. subst d1. now rewrite Ha.
Qed.

(** A success is passed on at once, a failure leaves the shot to what
    follows. *)
Lemma one_shot_cases {A B : Type} (yesA : A -> bool) (yesB : B -> bool)
    (m : M W A) (k : A -> M W B) :
  one_shot yesA m ->
  (forall a, yesA a = true -> exists b, k a = ret b /\ yesB b = true) ->
  (forall a, yesA a = false -> one_shot yesB (k a)) ->
  one_shot yesB (bind m k).
Proof.
  intros Hm Hyes Hno w. unfold bind. specialize (Hm w).
  destruct (m w) as [[[a|e] w1] d1]; simpl in *; [|exact Hm].
  destruct (yesA a) eqn:Ha.
  - destruct (Hyes a Ha) as (b & -> & Hb). simpl. now rewrite Hb, app_nil_r.
  - subst d1. specialize (Hno a Ha w1). destruct (k a w1) as [[r w2] d2]. exact Hno.
Qed.

Lemma one_shot_first_success (m rest : M W bool) :
  one_shot (fun b => b) m -> one_shot (fun b => b) rest ->
  one_shot (fun b => b) (bind m (fun done => if done then ret true else rest)).
Proof.
  intros Hm Hrest. apply (one_shot_cases (fun b => b)); [exact Hm | |].
  - intros a ->. now exists true.
  - intros a ->. exact Hrest.
Qed.

Lemma click_analysed_one_shot (buttons : list FormField) :
  one_shot (fun b => b) (click_analysed page buttons).
Proof.
  induction buttons as [|ff rest IH]; simpl; [now apply one_shot_ret|].
  apply one_shot_first_success; [|exact IH]. apply one_shot_catch; [reflexivity|].
  apply one_shot_bind_silent; [apply is_element_interactable_silent|].
  intros [|]; [|now apply one_shot_ret].
  apply one_shot_bind_silent; [apply silent_read|]. intros _. apply one_shot_click.
Qed.

Lemma submit_among_one_shot (elements : list Locator) :
  one_shot (fun b => b) (submit_among page elements).
Proof.
  induction elements as [|button rest IH]; simpl; [now apply one_shot_ret|].
  apply one_shot_bind_silent; [apply is_element_interactable_silent|].
  intros [|]; [|exact IH].
  apply one_shot_bind_silent; [apply safe_get_text_content_silent|]. intros _.
  apply one_shot_bind_silent; [apply silent_read|]. intros _. apply one_shot_click.
Qed.

Lemma submit_by_selectors_one_shot (selectors : list string) :
  one_shot (fun b => b) (submit_by_selectors page selectors).
Proof.
  induction selectors as [|selector rest IH]; simpl; [now apply one_shot_ret|].
  apply one_shot_first_success; [|exact IH]. apply one_shot_catch; [reflexivity|].
  apply one_shot_bind_silent; [apply locator_all_silent|]. intros elements.
  apply submit_among_one_shot.
Qed.

(** On the last step the whole attempt is one shot. *)
Lemma attempt_to_submit_one_shot (analysis_result : FormAnalysisResult) :
  one_shot (fun r : bool * FormAnalysisResult => r.1)
           (_attempt_to_submit_or_navigate page analysis_result true).
Proof.
  unfold _attempt_to_submit_or_navigate.
  apply (one_shot_cases (fun b => b)); [apply click_analysed_one_shot | |].
  - intros a ->. eexists. split; reflexivity.
  - intros a ->. simpl negb. cbv iota.
    apply (one_shot_cases (fun b => b)); [apply submit_by_selectors_one_shot | |].
    + intros a ->. eexists. split; reflexivity.
    + intros a ->. now apply one_shot_ret.
Qed.

Section BrokenWait.

(** Every wait raises. *)
Hypothesis waits_raise : forall w, exists e w', wait_for_timeout page w = (Raise e, w').

Lemma click_next_button_broken_wait (button : Locator) :
  returns (fun b => b = false) (click_next_button page button).
Proof.
  intros w b. unfold click_next_button, bind at 1.
  destruct (and_then _ _ w) as [[[[|]|e] w1] d1]; simpl; [| now intros [= <-] | discriminate].
  unfold bind at 1, read.
  destruct (scroll_into_view_if_needed page button w1) as [[u|e] w2]; simpl; [|discriminate].
  unfold bind at 1, act.
  destruct (click page button w2) as [[u'|e] w3]; simpl; [|discriminate].
  unfold bind, random_delay, read.
  destruct (waits_raise w3) as (e & w4 & ->). simpl. discriminate.
Qed.

Lemma returns_false_first_success (m rest : M W bool) :
  returns (fun b => b = false) m -> returns (fun b => b = false) rest ->
  returns (fun b => b = false) (bind m (fun done => if done then ret true else rest)).
Proof.
  intros Hm Hrest w b. unfold bind. specialize (Hm w).
  destruct (m w) as [[[a|e] w1] d1]; simpl in *; [|discriminate].
  rewrite (Hm a eq_refl). specialize (Hrest w1 b).
  destruct (rest w1) as [[r w2] d2]. exact Hrest.
Qed.

Lemma returns_false_catch (m : M W bool) :
  returns (fun b => b = false) m ->
  returns (fun b => b = false) (catch m (fun _ => ret false)).
Proof.
  intros Hm w b. unfold catch. specialize (Hm w b).
  destruct (m w) as [[[a|e] w1] d1]; simpl in *; [exact Hm | now intros [= <-]].
Qed.

Lemma next_among_broken_wait (elements : list Locator) :
  returns (fun b => b = false) (next_among page elements).
Proof.
  induction elements as [|button rest IH]; simpl; [now apply returns_ret|].
  apply returns_false_first_success; [apply click_next_button_broken_wait | exact IH].
Qed.

Lemma next_by_selectors_broken_wait (selectors : list string) :
  returns (fun b => b = false) (next_by_selectors page selectors).
Proof.
  induction selectors as [|selector rest IH]; simpl; [now apply returns_ret|].
  apply returns_false_first_success; [|exact IH]. apply returns_false_catch.
  apply returns_bind. intros elements. apply next_among_broken_wait.
Qed.

Lemma next_among_analysed_broken_wait (buttons : list FormField) :
  returns (fun b => b = false) (next_among_analysed page buttons).
Proof.
  induction buttons as [|ff rest IH]; simpl; [now apply returns_ret|].
  apply returns_false_first_success; [|exact IH].
  apply returns_false_catch, click_next_button_broken_wait.
Qed.

Lemma navigate_next_broken_wait (buttons : list FormField) :
  returns (fun b => b = false) (navigate_next page buttons).
Proof.
  unfold navigate_next. destruct buttons as [|ff rest].
  - apply next_by_selectors_broken_wait.
  - apply next_among_analysed_broken_wait.
Qed.

End BrokenWait.

Lemma safe_get_attribute_silent (element : Locator) (attribute default : string) :
  silent (safe_get_attribute page element attribute default).
Proof.
  apply silent_catch; [|intros e; apply silent_ret].
  apply silent_bind; [apply silent_read|]. intros [|]; [|apply silent_ret].
  apply silent_bind; [apply silent_read|]. intros value. apply silent_ret.
Qed.

Lemma safe_get_attribute_total (element : Locator) (attribute default : string) :
  total (safe_get_attribute page element attribute default).
Proof. apply total_catch. intros e. apply total_ret. Qed.

Lemma safe_get_text_content_total (element : Locator) (default : string) :
  total (safe_get_text_content page element default).
Proof. apply total_catch. intros e. apply total_ret. Qed.

Lemma safe_get_tag_name_silent (element : Locator) : silent (safe_get_tag_name page element).
Proof.
  apply silent_catch; [|intros e; apply silent_ret].
  apply silent_bind; [apply silent_read|]. intros [|]; [apply silent_read | apply silent_ret].
Qed.

Lemma selector_by_attribute_silent (element : Locator) (tag : string) (attrs : list string) :
  silent (selector_by_attribute page element tag attrs).
Proof.
  induction attrs as [|attr rest IH]; simpl; [apply silent_ret|].
  apply silent_bind; [apply safe_get_attribute_silent|]. intros val.
  destruct (usable_value val); [apply silent_ret | exact IH].
Qed.

Lemma generate_robust_selector_silent (element : Locator) (tag_hint : option string) :
  silent (generate_robust_selector page element tag_hint).
Proof.
  apply silent_catch; [|intros e; apply silent_ret].
  apply silent_bind; [apply silent_read|]. intros attached.
  destruct (negb attached); [apply silent_ret|].
  apply silent_bind.
  { destruct tag_hint as [hint|]; [destruct (Str.truthy hint); [apply silent_ret|]|];
      apply safe_get_tag_name_silent. }
  intros tag. apply silent_bind; [apply selector_by_attribute_silent|].
  intros [selector|]; [apply silent_ret|].
  apply silent_bind; [apply safe_get_attribute_silent|]. intros placeholder.
  destruct (_ && _).
  - apply silent_bind; [apply safe_get_attribute_silent|]. intros input_type. apply silent_ret.
  - apply silent_bind; [apply safe_get_attribute_silent|]. intros class_name.
    destruct (selector_classes class_name); apply silent_ret.
Qed.

Lemma generate_robust_selector_total (element : Locator) (tag_hint : option string) :
  total (generate_robust_selector page element tag_hint).
Proof. apply total_catch. intros e. apply total_ret. Qed.

Lemma log_selector_silent (element : Locator) : silent (log_selector page element).
Proof.
  apply silent_bind; [apply generate_robust_selector_silent|]. intros _. apply silent_ret.
Qed.

Lemma log_selector_total (element : Locator) : total (log_selector page element).
Proof.
  apply total_bind; [apply generate_robust_selector_total|]. intros _. apply total_ret.
Qed.

(** A computation that ends with the log of a selector and [False]. *)
Lemma log_false_total (element : Locator) :
  total (bind (log_selector page element) (fun _ => ret false)).
Proof. apply total_bind; [apply log_selector_total | intros _; apply total_ret]. Qed.

Lemma fill_checkbox_total (element : Locator) (should_be_checked : bool) :
  total (_fill_checkbox page element should_be_checked).
Proof. apply total_catch. intros e. apply log_false_total. Qed.

Lemma fill_radio_button_total (element : Locator) : total (_fill_radio_button page element).
Proof. apply total_catch. intros e. apply log_false_total. Qed.

Lemma fill_select_dropdown_total (element : Locator) (value_to_select : string) :
  total (_fill_select_dropdown page element value_to_select).
Proof. apply total_catch. intros e. apply log_false_total. Qed.

Lemma log_selector_run (element : Locator) (w : W) :
  exists w', log_selector page element w = (Ok tt, w', []).
Proof.
  destruct (log_selector_total element w) as [[] Hr].
  pose proof (silent_nil _ w (log_selector_silent element)) as Hd.
  destruct (log_selector page element w) as [[r w'] d]. simpl in *. subst. now exists w'.
Qed.

(** *** Postconditions, call by call *)

Lemma post_ret {A : Type} (R : outcome A -> W -> list action -> Prop) (a : A) (w : W) :
  R (Ok a) w [] -> post R (ret a) w.
Proof. intros H. exact H. Qed.

Lemma post_raise {A : Type} (R : outcome A -> W -> list action -> Prop) (e : exn) (w : W) :
  R (Raise e) w [] -> post R (raise e) w.
Proof. intros H. exact H. Qed.

Lemma post_bind {A B : Type} (R : outcome B -> W -> list action -> Prop)
    (m : M W A) (k : A -> M W B) (w : W) :
  post (fun r w1 done1 =>
          match r with
          | Ok a => post (fun r2 w2 done2 => R r2 w2 (done1 ++ done2)%list) (k a) w1
          | Raise e => R (Raise e) w1 done1
          end) m w ->
  post R (bind m k) w.
Proof.
  unfold post, bind. destruct (m w) as [[[a|e] w1] d1]; simpl; [|auto].
  destruct (k a w1) as [[r w2] d2]. auto.
Qed.

Lemma post_catch {A : Type} (R : outcome A -> W -> list action -> Prop)
    (m : M W A) (handler : exn -> M W A) (w : W) :
  post (fun r w1 done1 =>
          match r with
          | Ok a => R (Ok a) w1 done1
          | Raise e => post (fun r2 w2 done2 => R r2 w2 (done1 ++ done2)%list) (handler e) w1
          end) m w ->
  post R (catch m handler) w.
Proof.
  unfold post, catch. destruct (m w) as [[[a|e] w1] d1]; simpl; [auto|].
  destruct (handler e w1) as [[r w2] d2]. auto.
Qed.

Lemma post_read {A : Type} (R : outcome A -> W -> list action -> Prop)
    (op : W -> outcome A * W) (w : W) :
  (forall r w', op w = (r, w') -> R r w' []) -> post R (read op) w.
Proof. unfold post, read. intros H. destruct (op w) as [r w'] eqn:E. now apply H. Qed.

Lemma post_act (R : outcome unit -> W -> list action -> Prop) (a : action)
    (op : W -> outcome unit * W) (w : W) :
  (forall w', R (Ok tt) w' [a]) -> (forall e w', R (Raise e) w' []) ->
  post R (act a op) w.
Proof.
  unfold post, act. intros Hok Hraise. destruct (op w) as [[u|e] w']; simpl; auto.
Qed.

(** A computation that reads only and does not raise. *)
Lemma post_quiet {A : Type} (R : outcome A -> W -> list action -> Prop)
    (m : M W A) (w : W) :
  total m -> silent m -> (forall a w', R (Ok a) w' []) -> post R m w.
Proof.
  intros Ht Hs H. unfold post. destruct (Ht w) as [a Ha].
  rewrite (silent_nil m w Hs), Ha. apply H.
Qed.

Lemma post_log_selector (R : outcome unit -> W -> list action -> Prop)
    (element : Locator) (w : W) :
  (forall w', R (Ok tt) w' []) -> post R (log_selector page element) w.
Proof.
  intros H. apply post_quiet; [apply log_selector_total | apply log_selector_silent|].
  intros [] w'. apply H.
Qed.

Lemma post_weaken {A : Type} (R R' : outcome A -> W -> list action -> Prop)
    (m : M W A) (w : W) :
  post R m w -> (forall r w' done, R r w' done -> R' r w' done) -> post R' m w.
Proof. unfold post. auto. Qed.

(** [_fill_checkbox]: a [True] is returned right after a read of the
    desired state, and the actions are a click, then perhaps
    [set_checked]. *)
Lemma fill_checkbox_post (element : Locator) (should_be_checked : bool) (w : W)
    (checked : W -> bool) :
  (forall w b w', is_checked page element w = (Ok b, w') -> checked w' = b) ->
  post (fun r w' done =>
          (exists b, r = Ok b /\ (b = true -> checked w' = should_be_checked))
          /\ (done = [] \/ done = [Click element]
              \/ done = [Click element; SetChecked element should_be_checked]))
       (_fill_checkbox page element should_be_checked) w.
Proof.
  intros Htruth. unfold _fill_checkbox.
  assert (forall (done : list action) w,
            done = [] \/ done = [Click element]
            \/ done = [Click element; SetChecked element should_be_checked] ->
            post (fun r2 w2 done2 =>
                    (exists b, r2 = Ok b /\ (b = true -> checked w2 = should_be_checked))
                    /\ ((done ++ done2)%list = [] \/ (done ++ done2)%list = [Click element]
                        \/ (done ++ done2)%list
                           = [Click element; SetChecked element should_be_checked]))
                 (bind (log_selector page element) (fun _ => ret false)) w) as Hfail.
  { intros done w0 Hdone. apply post_bind, post_log_selector. intros w'.
    apply post_ret. rewrite !app_nil_r. split; [|exact Hdone].
    exists false. split; [reflexivity | discriminate]. }
  apply post_catch, post_bind, post_read. intros [[]|e] w1 _; [|apply Hfail; auto].
  apply post_bind, post_read. intros [current|e] w2 Hread1; [|apply Hfail; auto].
  destruct (Bool.eqb current should_be_checked) eqn:Hcur; simpl negb; cbv iota.
  { apply post_ret. simpl. split; [|auto]. exists true. split; [reflexivity|]. intros _.
    apply Bool.eqb_prop in Hcur. rewrite (Htruth _ _ _ Hread1). exact Hcur. }
  apply post_bind, post_act; [|intros e w3; apply Hfail; auto]. intros w3.
  apply post_bind, post_read. intros [[]|e] w4 _; [|apply Hfail; auto].
  apply post_bind, post_read. intros [after_click|e] w5 Hread2; [|apply Hfail; auto].
  destruct (Bool.eqb after_click should_be_checked) eqn:Hafter; simpl negb; cbv iota.
  { apply post_ret. simpl. split; [|auto]. exists true. split; [reflexivity|]. intros _.
    apply Bool.eqb_prop in Hafter. rewrite (Htruth _ _ _ Hread2). exact Hafter. }
  apply post_bind, post_log_selector. intros w6.
  apply post_bind, post_act; [|intros e w7; apply Hfail; auto]. intros w7.
  apply post_bind, post_read. intros [after_set|e] w8 Hread3; [|apply Hfail; auto].
  destruct (Bool.eqb after_set should_be_checked) eqn:Hset; simpl negb; cbv iota.
  { apply post_ret. simpl. split; [|auto]. exists true. split; [reflexivity|]. intros _.
    apply Bool.eqb_prop in Hset. rewrite (Htruth _ _ _ Hread3). exact Hset. }
  apply post_bind, post_log_selector. intros w9. apply post_ret. simpl.
  split; [|auto]. exists false. split; [reflexivity | discriminate].
Qed.

Lemma one_shot_catch_with {A : Type} (yes : A -> bool) (m : M W A)
    (handler : exn -> M W A) :
  one_shot yes m -> (forall e, one_shot yes (handler e)) -> one_shot yes (catch m handler).
Proof.
  intros Hm Hh w. unfold catch. specialize (Hm w).
  destruct (m w) as [[[b|e] w1] d1]; simpl in *; [exact Hm|]. subst d1.
  specialize (Hh e w1). destruct (handler e w1) as [[r w2] d2]. exact Hh.
Qed.

Lemma one_shot_raise {A : Type} (yes : A -> bool) (e : exn) :
  one_shot yes (raise e : M W A).
Proof. intros w. reflexivity. Qed.

Lemma one_shot_act_true (a : action) (op : W -> outcome unit * W) :
  one_shot (fun b : bool => b) (bind (act a op) (fun _ => ret true)).
Proof. intros w. unfold bind, act, ret. destruct (op w) as [[u|e] w1]; reflexivity. Qed.

Lemma log_false_one_shot (element : Locator) :
  one_shot (fun b : bool => b) (bind (log_selector page element) (fun _ => ret false)).
Proof.
  apply one_shot_bind_silent; [apply log_selector_silent|]. intros _. now apply one_shot_ret.
Qed.

Lemma unless_playwright_error_one_shot (a : action) (op : W -> outcome unit * W) :
  one_shot (fun b : bool => b) (unless_playwright_error (act a op)).
Proof.
  apply one_shot_catch_with; [apply one_shot_act_true|].
  intros e. destruct (is_PlaywrightError e); [now apply one_shot_ret | apply one_shot_raise].
Qed.

Lemma select_by_partial_label_one_shot (element : Locator) (value_to_select : string)
    (options : list Locator) :
  one_shot (fun b : bool => b) (select_by_partial_label page element value_to_select options).
Proof.
  induction options as [|opt_loc rest IH]; simpl; [now apply one_shot_ret|].
  apply one_shot_bind_silent; [apply safe_get_text_content_silent|]. intros text.
  apply one_shot_bind_silent; [apply safe_get_attribute_silent|]. intros opt_val.
  destruct (Str.contains _ _); [|exact IH].
  destruct (negb (Str.truthy opt_val)); apply one_shot_act_true.
Qed.

Lemma fill_select_dropdown_one_shot (element : Locator) (value_to_select : string) :
  one_shot (fun b : bool => b) (_fill_select_dropdown page element value_to_select).
Proof.
  apply one_shot_catch_with; [|intros e; apply log_false_one_shot].
  apply one_shot_bind_silent; [apply silent_read|]. intros _.
  apply one_shot_first_success; [apply unless_playwright_error_one_shot|].
  apply one_shot_first_success; [apply unless_playwright_error_one_shot|].
  apply one_shot_catch; [reflexivity|].
  apply one_shot_bind_silent; [apply silent_read|]. intros n.
  apply select_by_partial_label_one_shot.
Qed.

Lemma emits_act_true (P : action -> Prop) (a : action) (op : W -> outcome unit * W) :
  P a -> emits P (fun b : bool => b = true) (bind (act a op) (fun _ => ret true)).
Proof.
  intros Hp. apply emits_bind_after; [now apply emits_act|].
  intros _. apply emits_ret. auto.
Qed.

Lemma select_by_partial_label_emits (element : Locator) (value_to_select : string)
    (options : list Locator) :
  emits (selects element value_to_select) (fun b => b = true)
        (select_by_partial_label page element value_to_select options).
Proof.
  induction options as [|opt_loc rest IH]; simpl; [apply emits_ret; discriminate|].
  apply (emits_bind _ (fun _ => False));
    [apply silent_emits, safe_get_text_content_silent|]. intros text.
  apply (emits_bind _ (fun _ => False));
    [apply silent_emits, safe_get_attribute_silent|]. intros opt_val.
  destruct (Str.contains _ _) eqn:Hc; [|exact IH].
  destruct opt_val as [|c opt_val]; simpl negb; cbv iota; apply emits_act_true.
  - right. right. left. now exists (Str.strip text).
  - right. right. right. eexists. split; [reflexivity | discriminate].
Qed.

Lemma fill_select_dropdown_emits (element : Locator) (value_to_select : string) :
  emits (selects element value_to_select) (fun b => b = true)
        (_fill_select_dropdown page element value_to_select).
Proof.
  assert (forall a, selects element value_to_select a ->
            emits (selects element value_to_select) (fun b => b = true)
                  (unless_playwright_error
                     (act a (match a with
                             | SelectLabel _ _ =>
                                 select_option_label page element value_to_select
                             | _ => select_option_value page element value_to_select
                             end)))) as Htier.
  { intros a Ha. apply emits_catch; [now apply emits_act_true|].
    intros e. destruct (is_PlaywrightError e); [apply emits_ret; discriminate|].
    apply emits_raise. }
  apply emits_catch.
  - apply (emits_bind _ (fun _ => False)); [apply silent_emits, silent_read|]. intros _.
    apply emits_first_success; [apply (Htier (SelectValue element value_to_select)); now left|].
    apply emits_first_success;
      [apply (Htier (SelectLabel element value_to_select)); right; now left|].
    apply emits_catch; [|intros e; apply emits_ret; discriminate].
    apply (emits_bind _ (fun _ => False)); [apply silent_emits, silent_read|]. intros n.
    apply select_by_partial_label_emits.
  - intros e. apply (emits_bind _ (fun _ => False));
      [apply silent_emits, log_selector_silent|].
    intros _. apply emits_ret. discriminate.
Qed.

Lemma human_type_total (element : Locator) (text : string) :
  total (human_type page element text).
Proof.
  apply total_catch. intros e. destruct (is_PlaywrightError e); [|apply total_ret].
  apply total_catch. intros e'. apply total_ret.
Qed.

Lemma fill_standard_text_field_total (anti : bool) (element : Locator) (value : string)
    (is_content_editable : bool) :
  total (_fill_standard_text_field page anti element value is_content_editable).
Proof.
  apply total_catch. intros e. destruct (is_PlaywrightError e); [|apply total_ret].
  destruct (negb is_content_editable); [|apply total_ret].
  apply total_catch. intros e'. apply total_ret.
Qed.

Lemma total_catch_left {A : Type} (m : M W A) (handler : exn -> M W A) :
  total m -> total (catch m handler).
Proof.
  intros Hm w. unfold catch. destruct (Hm w) as [a Ha].
  destruct (m w) as [[r w1] d1]. simpl in Ha. subst r. now exists a.
Qed.

Lemma returns_catch {A : Type} (R : A -> Prop) (m : M W A) (handler : exn -> M W A) :
  returns R m -> (forall e, returns R (handler e)) -> returns R (catch m handler).
Proof.
  intros Hm Hh w a. unfold catch. specialize (Hm w a).
  destruct (m w) as [[[b|e] w1] d1]; simpl in *; [exact Hm|].
  specialize (Hh e w1 a). destruct (handler e w1) as [[r w2] d2]. exact Hh.
Qed.

(** When the body of a [try] does not raise, the handler does not count. *)
Lemma catch_of_total {A : Type} (m : M W A) (handler : exn -> M W A) (w : W) :
  total m -> catch m handler w = m w.
Proof.
  intros Hm. unfold catch. destruct (Hm w) as [a Ha].
  destruct (m w) as [[r w1] d1]. simpl in Ha. now subst r.
Qed.

Section EventsGoThrough.

Variable element : Locator.

(** Dispatching an event on the element raises Playwright errors only. *)
Hypothesis events_playwright :
  forall event_name w e w',
    dispatch_event page element event_name w = (Raise e, w') -> is_PlaywrightError e = true.

Lemma dispatch_events_of_total (event_names : list string) :
  total (dispatch_events_of page element event_names).
Proof.
  induction event_names as [|event_name rest IH]; simpl; [apply total_ret|].
  apply total_bind; [|intros _; exact IH].
  intros w. unfold catch, act.
  destruct (dispatch_event page element event_name w) as [[u|e] w'] eqn:E; simpl.
  - now exists tt.
  - rewrite (events_playwright _ _ _ _ E). now exists tt.
Qed.

(** The element can always be scrolled to. *)
Hypothesis scroll_returns :
  forall w, exists w', scroll_into_view_if_needed page element w = (Ok tt, w').

Lemma fill_standard_text_field_anti_detection (value : string) (is_content_editable : bool)
    (w : W) :
  (_fill_standard_text_field page true element value is_content_editable w).1.1 = Ok true.
Proof.
  unfold _fill_standard_text_field.
  set (body := bind (read (scroll_into_view_if_needed page element)) _).
  assert (total body) as Ht.
  { apply total_bind.
    - intros w0. unfold read. destruct (scroll_returns w0) as [w' ->]. now exists tt.
    - intros _. apply total_bind; [apply human_type_total|]. intros _.
      apply total_bind; [apply dispatch_events_of_total|]. intros _. apply total_ret. }
  assert (returns (fun b => b = true) body) as Hr.
  { apply returns_bind. intros _. apply returns_bind. intros _. apply returns_bind.
    intros _. now apply returns_ret. }
  rewrite (catch_of_total body _ w Ht). destruct (Ht w) as [b Hb]. rewrite Hb.
  f_equal. exact (Hr w b Hb).
Qed.

End EventsGoThrough.

Lemma post_dispatch_events_of (R : outcome unit -> W -> list action -> Prop)
    (element : Locator) (event_names : list string) (w : W) :
  (forall r w' done,
      Forall (fun a => exists event_name, a = DispatchEvent element event_name) done ->
      R r w' done) ->
  post R (dispatch_events_of page element event_names) w.
Proof.
  revert R w. induction event_names as [|event_name rest IH]; intros R w H; simpl.
  - apply post_ret. apply H. constructor.
  - apply post_bind, post_catch, post_act.
    + intros w1. apply IH. intros r w2 done Hd. apply H. constructor; [eauto | exact Hd].
    + intros e w1. destruct (is_PlaywrightError e).
      * apply post_ret. simpl. apply IH. intros r w2 done Hd. apply H. exact Hd.
      * apply post_raise. apply H. constructor.
Qed.

(** Without anti-detection a [True] comes after the value was filled in,
    or typed by the fallback. *)
Lemma fill_standard_text_field_plain (element : Locator) (value : string)
    (is_content_editable : bool) (w : W) :
  post (fun r _ done =>
          r = Ok true -> In (Fill element value) done \/ In (TypeText element value) done)
       (_fill_standard_text_field page false element value is_content_editable) w.
Proof.
  unfold _fill_standard_text_field.
  assert (forall (done1 : list action) (e : exn) (w : W),
            post (fun r2 _ done2 =>
                    r2 = Ok true ->
                    In (Fill element value) (done1 ++ done2)
                    \/ In (TypeText element value) (done1 ++ done2))
                 (if is_PlaywrightError e then
                    if negb is_content_editable then
                      catch
                        (act (Press element "Control+A") (press page element "Control+A") ;;;
                         act (Press element "Delete") (press page element "Delete") ;;;
                         act (TypeText element value) (type page element value) ;;;
                         dispatch_events page element ;;;
                         ret true)
                        (fun _ => ret false)
                    else ret false
                  else ret false) w) as Hfallback.
  { intros done1 e w0. destruct (is_PlaywrightError e); [|apply post_ret; discriminate].
    destruct (negb is_content_editable); [|apply post_ret; discriminate].
    apply post_catch, post_bind, post_act; [|intros e' w1; apply post_ret; discriminate].
    intros w1. apply post_bind, post_act; [|intros e' w2; apply post_ret; discriminate].
    intros w2. apply post_bind, post_act; [|intros e' w3; apply post_ret; discriminate].
    intros w3. apply post_bind, post_dispatch_events_of. intros [[]|e'] w4 done Hd.
    - apply post_ret. intros _. right. rewrite !in_app_iff. simpl. tauto.
    - apply post_ret. discriminate. }
  apply post_catch, post_bind, post_read. intros [[]|e] w1 _; [|apply Hfallback].
  apply post_bind, post_act; [|intros e w2; apply Hfallback]. intros w2.
  apply post_bind, post_dispatch_events_of. intros [[]|e] w3 done Hd.
  - apply post_ret. intros _. left. rewrite !in_app_iff. simpl. tauto.
  - apply (post_weaken _ _ _ _ (Hfallback ([] ++ [Fill element value] ++ done)%list e w3)).
    intros r w' done' H Hr. destruct (H Hr) as [H'|H']; [left | right];
      rewrite ?in_app_iff in *; simpl in *; tauto.
Qed.

(** *** One field *)

Lemma emits_seq {A : Type} (P : action -> Prop) (a : action) (op : W -> outcome unit * W)
    (k : M W A) :
  P a -> emits P (fun _ => False) k ->
  emits P (fun _ => False) (bind (act a op) (fun _ => k)).
Proof.
  intros Hp Hk. apply (emits_bind _ (fun _ => False)); [now apply emits_act|].
  intros _. exact Hk.
Qed.

Lemma emits_quiet_seq {A B : Type} (P : action -> Prop) (m : M W A) (k : A -> M W B) :
  silent m -> (forall a, emits P (fun _ => False) (k a)) ->
  emits P (fun _ => False) (bind m k).
Proof.
  intros Hm Hk. apply (emits_bind _ (fun _ => False)); [now apply silent_emits | exact Hk].
Qed.

Lemma emits_done {A : Type} (P : action -> Prop) (a : A) :
  emits P (fun _ => False) (ret a : M W A).
Proof. apply emits_ret. auto. Qed.

Lemma on_element_self (element : Locator) (a : action) :
  action_target a = element -> on_element element a.
Proof. intros H. now left. Qed.

Lemma dispatch_events_of_on_element (element : Locator) (event_names : list string) :
  emits (on_element element) (fun _ => False) (dispatch_events_of page element event_names).
Proof.
  induction event_names as [|event_name rest IH]; simpl; [apply emits_done|].
  apply (emits_bind _ (fun _ => False)); [|intros _; exact IH].
  apply emits_catch; [apply emits_act; now left|].
  intros e. destruct (is_PlaywrightError e); [apply emits_done | apply emits_raise].
Qed.

Lemma type_chars_on_element (element : Locator) (chars : list ascii) (idx : nat) :
  emits (on_element element) (fun _ => False) (type_chars page element chars idx).
Proof.
  revert idx. induction chars as [|char rest IH]; intros idx; simpl; [apply emits_done|].
  apply emits_seq; [now left|].
  apply emits_quiet_seq; [|intros _; apply IH].
  destruct (0 <? idx)%nat; [|apply silent_ret].
  apply silent_bind.
  - intros w. unfold random_int. destruct (randint page 8 15 w) as [z w'].
    split; [constructor | intros a _ []].
  - intros pause_every. destruct (_ =? _)%Z; [apply silent_read | apply silent_ret].
Qed.

Lemma human_type_on_element (element : Locator) (text : string) :
  emits (on_element element) (fun _ => False) (human_type page element text).
Proof.
  apply emits_catch.
  - apply emits_quiet_seq; [apply silent_read|]. intros _.
    apply emits_seq; [now left|].
    apply emits_quiet_seq; [apply silent_read|]. intros _.
    apply emits_seq; [now left|].
    apply (emits_bind _ (fun _ => False)); [apply type_chars_on_element|]. intros _.
    apply dispatch_events_of_on_element.
  - intros e. destruct (is_PlaywrightError e); [|apply emits_done].
    apply emits_catch; [|intros e'; apply emits_done].
    apply emits_quiet_seq; [apply silent_and_then; apply silent_read|].
    intros [|]; [apply emits_act; now left | apply emits_done].
Qed.

Lemma fill_standard_text_field_on_element (anti : bool) (element : Locator) (value : string)
    (is_content_editable : bool) :
  emits (on_element element) (fun _ => False)
        (_fill_standard_text_field page anti element value is_content_editable).
Proof.
  apply emits_catch.
  - apply emits_quiet_seq; [apply silent_read|]. intros _.
    apply (emits_bind _ (fun _ => False)).
    { destruct anti; [apply human_type_on_element | apply emits_act; now left]. }
    intros _. apply (emits_bind _ (fun _ => False)); [apply dispatch_events_of_on_element|].
    intros _. apply emits_done.
  - intros e. destruct (is_PlaywrightError e); [|apply emits_done].
    destruct (negb is_content_editable); [|apply emits_done].
    apply emits_catch; [|intros e'; apply emits_done].
    apply emits_seq; [now left|]. apply emits_seq; [now left|]. apply emits_seq; [now left|].
    apply (emits_bind _ (fun _ => False)); [apply dispatch_events_of_on_element|].
    intros _. apply emits_done.
Qed.

Lemma log_false_on_element (element : Locator) :
  emits (on_element element) (fun _ => False)
        (bind (log_selector page element) (fun _ => ret false)).
Proof.
  apply emits_quiet_seq; [apply log_selector_silent | intros _; apply emits_done].
Qed.

Lemma fill_checkbox_on_element (element : Locator) (should_be_checked : bool) :
  emits (on_element element) (fun _ => False)
        (_fill_checkbox page element should_be_checked).
Proof.
  apply emits_catch; [|intros e; apply log_false_on_element].
  apply emits_quiet_seq; [apply silent_read|]. intros _.
  apply emits_quiet_seq; [apply silent_read|]. intros current.
  destruct (negb _); [|apply emits_done].
  apply emits_seq; [now left|].
  apply emits_quiet_seq; [apply silent_read|]. intros _.
  apply emits_quiet_seq; [apply silent_read|]. intros after_click.
  destruct (negb _); [|apply emits_done].
  apply emits_quiet_seq; [apply log_selector_silent|]. intros _.
  apply emits_seq; [now left|].
  apply emits_quiet_seq; [apply silent_read|]. intros after_set.
  destruct (negb _); [apply log_false_on_element | apply emits_done].
Qed.

Lemma fill_radio_button_on_element (element : Locator) :
  emits (on_element element) (fun _ => False) (_fill_radio_button page element).
Proof.
  apply emits_catch; [|intros e; apply log_false_on_element].
  apply emits_quiet_seq; [apply silent_read|]. intros _.
  apply emits_quiet_seq; [apply silent_read|]. intros checked.
  apply (emits_bind _ (fun _ => False)); [|intros _; apply emits_done].
  destruct (negb checked); [apply emits_act; now left | apply emits_done].
Qed.

Lemma fill_select_dropdown_on_element (element : Locator) (value_to_select : string) :
  emits (on_element element) (fun _ => False)
        (_fill_select_dropdown page element value_to_select).
Proof.
  eapply emits_weaken; [apply fill_select_dropdown_emits | | intros a []].
  intros a [->|[->|[(t & -> & _)|(v & -> & _)]]]; now left.
Qed.

Lemma handle_file_upload_on_element (field_match : FormField) (file_path_str : string) :
  emits (on_element (Scanned (element field_match))) (fun _ => False)
        (handle_file_upload page field_match file_path_str).
Proof.
  apply emits_catch; [|intros e; apply emits_done].
  apply emits_quiet_seq; [apply silent_and_then; apply silent_read|]. intros is_file.
  destruct (negb is_file); [apply emits_done|].
  apply emits_quiet_seq; [apply silent_and_then; apply silent_read|]. intros shown.
  apply (emits_bind _ (fun _ => False)).
  { destruct (negb shown); [|apply emits_done].
    apply emits_catch; [|intros e; apply emits_done].
    apply emits_seq; [now left|]. apply silent_emits, silent_read. }
  intros _. apply emits_seq; [now left|].
  apply emits_quiet_seq; [apply silent_read|]. intros _. apply emits_done.
Qed.

Lemma fill_custom_component_on_element (element : Locator) (value : string) :
  emits (on_element element) (fun _ => False) (fill_custom_component page element value).
Proof.
  apply emits_catch.
  - apply emits_quiet_seq; [apply silent_read|]. intros _.
    apply emits_seq; [now left|].
    apply emits_quiet_seq; [apply silent_read|]. intros _.
    apply emits_quiet_seq; [apply silent_read|]. intros input_shown.
    assert (forall a, action_target a = (if input_shown
                                         then FirstWithin element
                                                "input[type='text'], input[type='search'], [role='searchbox'], [role='textbox']"
                                         else element) -> on_element element a) as Htarget.
    { intros a Ha. destruct input_shown; [right; eauto | now left]. }
    apply emits_seq; [now apply Htarget|]. apply emits_seq; [now apply Htarget|].
    apply emits_quiet_seq; [apply silent_read|]. intros _.
    apply emits_seq; [now apply Htarget|].
    apply emits_quiet_seq; [apply silent_read|]. intros _. apply emits_done.
  - intros e. apply emits_catch; [|intros e'; apply emits_done].
    apply emits_seq; [now left|]. apply emits_seq; [now left|]. apply emits_done.
Qed.

Lemma ensure_interactable_silent (element_loc : Locator) :
  silent (ensure_interactable page element_loc).
Proof.
  apply silent_bind; [apply is_element_interactable_silent|]. intros interactable.
  destruct (negb interactable); [|apply silent_ret].
  apply silent_bind; [|intros _; apply is_element_interactable_silent].
  apply silent_catch; [apply silent_read | intros e; apply silent_ret].
Qed.

Lemma fill_single_field_total (anti : bool) (field_match : FormField) (value : Value) :
  total (_fill_single_field page anti field_match value).
Proof. apply total_catch. intros e. apply total_ret. Qed.

Lemma fill_single_field_on_element (anti : bool) (field_match : FormField) (value : Value) :
  emits (on_element (Scanned (element field_match))) (fun _ => False)
        (_fill_single_field page anti field_match value).
Proof.
  apply emits_catch; [|intros e; apply emits_done].
  apply emits_quiet_seq; [apply ensure_interactable_silent|]. intros ready.
  destruct (negb ready); [apply emits_done|].
  destruct (bool_decide _).
  { destruct (negb _); [apply emits_done | apply handle_file_upload_on_element]. }
  destruct (_ && _); [apply fill_checkbox_on_element|].
  destruct (_ && _).
  { destruct (value_truthy value); [apply fill_radio_button_on_element | apply emits_done]. }
  destruct (String.eqb _ "select"); [apply fill_select_dropdown_on_element|].
  destruct (is_custom_component _); [apply fill_custom_component_on_element|].
  destruct (_ || _); [apply fill_standard_text_field_on_element | apply emits_done].
Qed.

Lemma ensure_interactable_total (element_loc : Locator) :
  total (ensure_interactable page element_loc).
Proof.
  apply total_bind; [apply is_element_interactable_total|]. intros interactable.
  destruct (negb interactable); [|apply total_ret].
  apply total_bind; [|intros _; apply is_element_interactable_total].
  apply total_catch. intros e. apply total_ret.
Qed.

(** When what follows the interactability test is an immediate return,
    [_fill_single_field] leaves the element alone. *)
Lemma fill_single_field_untouched (anti : bool) (field_match : FormField) (value : Value)
    (answer : bool -> bool) (w : W) :
  (forall ready,
      (if negb ready then ret false
       else if bool_decide (field_type field_match ∈ [RESUME_FILE; COVER_LETTER_FILE]) then
         if negb (value_is_str_or_path value) then ret false
         else handle_file_upload page field_match (value_str value)
       else if String.eqb (element_type_html field_match) "input"
               && String.eqb (Str.lower (ed_type (attributes field_match))) "checkbox" then
         _fill_checkbox page (Scanned (element field_match)) (value_truthy value)
       else if String.eqb (element_type_html field_match) "input"
               && String.eqb (Str.lower (ed_type (attributes field_match))) "radio" then
         if value_truthy value then _fill_radio_button page (Scanned (element field_match))
         else ret true
       else if String.eqb (element_type_html field_match) "select" then
         _fill_select_dropdown page (Scanned (element field_match)) (value_str value)
       else if is_custom_component (attributes field_match) then
         fill_custom_component page (Scanned (element field_match)) (value_str value)
       else if bool_decide (element_type_html field_match ∈ ["input"; "textarea"]) || false then
         _fill_standard_text_field page anti (Scanned (element field_match))
                                   (value_str value) false
       else ret false) = (ret (answer ready) : M W bool)) ->
  (_fill_single_field page anti field_match value w).2 = []
  /\ exists ready, (_fill_single_field page anti field_match value w).1.1 = Ok (answer ready).
Proof.
  intros Hbranch. unfold _fill_single_field, catch, bind.
  pose proof (silent_nil _ w (ensure_interactable_silent (Scanned (element field_match))))
    as Hd.
  destruct (ensure_interactable_total (Scanned (element field_match)) w) as [ready Hr].
  destruct (ensure_interactable page (Scanned (element field_match)) w) as [[r w1] d1].
  simpl in Hd, Hr. subst d1 r. rewrite (Hbranch ready). simpl.
  split; [reflexivity | now exists ready].
Qed.

(** *** The fields of a page *)

Lemma post_total_emits {A : Type} (P : action -> Prop) (Q : A -> Prop)
    (R : outcome A -> W -> list action -> Prop) (m : M W A) (w : W) :
  total m -> emits P Q m ->
  (forall a w' done, Forall P done -> R (Ok a) w' done) ->
  post R m w.
Proof.
  intros Ht He H. unfold post. destruct (Ht w) as [a Ha]. destruct (He w) as [Hall _].
  rewrite Ha. now apply H.
Qed.

Lemma fields_to_attempt_fill_counts (form_data : list (FieldType * Value))
    (detected : gmap FieldType FormField) :
  (length (fields_to_attempt_fill form_data detected).1
   + length (fields_to_attempt_fill form_data detected).2 = length form_data)%nat
  /\ forall ff v, In (ff, v) (fields_to_attempt_fill form_data detected).1 ->
                  exists ft, detected !! ft = Some ff /\ In (ft, v) form_data.
Proof.
  induction form_data as [|[ft value] rest [IHn IHin]]; simpl; [split; [reflexivity | intros ? ? []]|].
  destruct (fields_to_attempt_fill rest detected) as [fields skipped]. simpl in *.
  destruct (detected !! ft) as [ff|] eqn:E; simpl.
  - split; [lia|]. intros ff' v [[= <- <-]|H].
    + exists ft. split; [exact E | now left].
    + destruct (IHin ff' v H) as (ft' & H1 & H2). exists ft'. split; [exact H1 | now right].
  - split; [lia|]. intros ff' v H.
    destruct (IHin ff' v H) as (ft' & H1 & H2). exists ft'. split; [exact H1 | now right].
Qed.

Lemma fill_fields_post (anti : bool) (attempted : nat) (fields : list (FormField * Value)) :
  forall (st : fill_progress) (w : W),
    post (fun r _ done =>
            (anti = false -> exists st', r = Ok st')
            /\ (forall st', r = Ok st' -> fill_fields_keeps fields st st')
            /\ Forall (fun a => exists ff v, In (ff, v) fields
                                             /\ on_element (Scanned (element ff)) a) done)
         (fill_fields page anti attempted fields st) w.
Proof.
  induction fields as [|[ff value] rest IH]; intros st w; simpl.
  - apply post_ret. split; [eauto|]. split; [|constructor].
    intros st' [= <-]. unfold fill_fields_keeps. simpl.
    repeat split; try lia; [set_solver | auto].
  - apply post_bind.
    eapply post_total_emits;
      [apply fill_single_field_total | apply fill_single_field_on_element|].
    intros ok w1 done1 Hdone1.
    assert (Forall (fun a => exists ff' v, In (ff', v) ((ff, value) :: rest)
                                           /\ on_element (Scanned (element ff')) a) done1)
      as Hdone1'.
    { eapply Forall_impl; [exact Hdone1|]. intros a Ha. exists ff, value.
      split; [now left | exact Ha]. }
    assert (forall st1 w1,
              fill_fields_keeps [(ff, value)] st st1 ->
              post (fun r2 _ done2 =>
                      (anti = false -> exists st', r2 = Ok st')
                      /\ (forall st', r2 = Ok st' ->
                            fill_fields_keeps ((ff, value) :: rest) st st')
                      /\ Forall (fun a => exists ff' v, In (ff', v) ((ff, value) :: rest)
                                          /\ on_element (Scanned (element ff')) a)
                                (done1 ++ done2))
                   (fill_fields page anti attempted rest st1) w1) as Hrest.
    { intros st1 w2 (K1 & K2 & K3 & K4 & K5 & K6).
      apply (post_weaken _ _ _ _ (IH st1 w2)). intros r w' done2 (Htot & Hkeep & Hdone2).
      split; [exact Htot|]. split.
      - intros st' Hr. destruct (Hkeep st' Hr) as (L1 & L2 & L3 & L4 & L5 & L6).
        unfold fill_fields_keeps. simpl in *. repeat split; try lia.
        + transitivity (filled_fields_session st1); assumption.
        + intros x Hx. destruct (L5 x Hx) as [H|(ff' & v & Hin & ->)].
          * destruct (K5 x H) as [H'|(ff' & v & [[= <- <-]|[]] & ->)]; [now left|].
            right. exists ff, value. split; [now left | reflexivity].
          * right. exists ff', v. split; [now right | reflexivity].
        + intros E. transitivity (filled_fields_session st1); [apply L6 | apply K6]; lia.
      - apply Forall_app. split; [exact Hdone1'|].
        eapply Forall_impl; [exact Hdone2|]. intros a (ff' & v & Hin & Ha).
        exists ff', v. split; [now right | exact Ha]. }
    destruct ok.
    + set (st1 := {| filled := S (filled st); fill_errors := fill_errors st;
                     fill_skipped := fill_skipped st;
                     filled_fields_session :=
                       {[ (selector ff, field_type ff) ]} ∪ filled_fields_session st |}).
      assert (fill_fields_keeps [(ff, value)] st st1) as Hk.
      { unfold fill_fields_keeps, st1. simpl. repeat split; try lia; [set_solver|].
        intros x Hx. apply elem_of_union in Hx as [Hx|Hx]; [|now left].
        apply elem_of_singleton in Hx. right. exists ff, value. split; [now left | exact Hx]. }
      destruct (anti && (S (filled st) <? attempted)%nat) eqn:Hdelay; apply post_bind.
      * unfold random_delay. apply post_read. intros [[]|e] w2 _.
        -- apply (post_weaken _ _ _ _ (Hrest st1 w2 Hk)).
           intros r w' done2 H. now rewrite app_nil_l.
        -- split; [|split; [discriminate | now rewrite app_nil_r]].
           intros Ha. rewrite Ha in Hdelay. discriminate.
      * apply post_ret. apply (post_weaken _ _ _ _ (Hrest st1 w1 Hk)).
        intros r w' done2 H. now rewrite app_nil_l.
    + apply Hrest. unfold fill_fields_keeps. simpl. rewrite !length_app. simpl.
      repeat split; try lia; [set_solver | auto].
Qed.

Lemma fill_current_page_fields_post (anti : bool) (current_step : nat)
    (session : gset (string * FieldType)) (form_data : list (FieldType * Value))
    (analysis_result : FormAnalysisResult) (w : W) :
  post (fun r _ done =>
          (anti = false -> exists res, r = Ok res)
          /\ (forall result session',
                r = Ok (result, session') ->
                fill_accounts current_step session session' form_data analysis_result result)
          /\ (detected_fields analysis_result = ∅ -> done = [])
          /\ Forall (fun a => exists ft ff,
                                detected_fields analysis_result !! ft = Some ff
                                /\ on_element (Scanned (element ff)) a) done)
       (_fill_current_page_fields page anti current_step session form_data analysis_result) w.
Proof.
  unfold _fill_current_page_fields.
  destruct (bool_decide (detected_fields analysis_result = ∅)) eqn:Hempty.
  { apply bool_decide_eq_true in Hempty. apply post_ret.
    split; [eauto|]. split; [|split; [auto | constructor]].
    intros result session' [= <- <-]. unfold fill_accounts. simpl.
    split; [reflexivity|]. split; [lia|]. split; [lia|]. split; [reflexivity|].
    split; [contradiction|]. split; [split; [discriminate | intros [H _]; contradiction]|].
    split; [split; [discriminate | lia]|]. split; [reflexivity|]. split; [auto | reflexivity]. }
  apply bool_decide_eq_false in Hempty.
  destruct (fields_to_attempt_fill_counts form_data (detected_fields analysis_result))
    as [Hcount Hfields].
  destruct (fields_to_attempt_fill form_data (detected_fields analysis_result))
    as [fields skipped]. simpl in Hcount, Hfields.
  destruct fields as [|field fields].
  { apply post_ret. split; [eauto|]. split; [|split; [contradiction | constructor]].
    intros result session' [= <- <-]. unfold fill_accounts. simpl in *.
    split; [reflexivity|]. split; [lia|]. split; [lia|]. split; [reflexivity|].
    split; [intros _; exact Hcount|].
    split.
    { destruct form_data; [|split; [discriminate | intros (_ & _ & H); now specialize (H eq_refl)]].
      split; auto. }
    split; [split; [destruct form_data; discriminate | lia]|].
    split; [reflexivity|]. split; [auto | reflexivity]. }
  apply post_bind.
  apply (post_weaken _ _ _ _
           (fill_fields_post anti (length (field :: fields)) (field :: fields)
              {| filled := 0; fill_errors := []; fill_skipped := skipped;
                 filled_fields_session := session |} w)).
  intros r w1 done1 (Htot & Hkeep & Hdone).
  assert (Forall (fun a => exists ft ff,
                    detected_fields analysis_result !! ft = Some ff
                    /\ on_element (Scanned (element ff)) a) done1) as Hdone'.
  { eapply Forall_impl; [exact Hdone|]. intros a (ff & v & Hin & Ha).
    destruct (Hfields ff v Hin) as (ft & Hft & _). now exists ft, ff. }
  destruct r as [st|e].
  2:{ split; [intros Ha; destruct (Htot Ha) as [st' H]; discriminate|].
      split; [discriminate|]. split; [contradiction | exact Hdone']. }
  destruct (Hkeep st eq_refl) as (K1 & K2 & K3 & K4 & K5 & K6). simpl in *.
  assert (forall x, x ∈ filled_fields_session st ->
            x ∈ session
            \/ exists ft ff, detected_fields analysis_result !! ft = Some ff
                             /\ x = (selector ff, field_type ff)) as Hsession.
  { intros x Hx. destruct (K5 x Hx) as [H|(ff & v & Hin & ->)]; [now left|].
    right. destruct (Hfields ff v Hin) as (ft & Hft & _). now exists ft, ff. }
  assert (forall success message,
            (success = SuccessTrue <-> filled st = S (length fields)) ->
            (success = SuccessPartial
             <-> (0 < filled st)%nat /\ (filled st < S (length fields))%nat) ->
            post (fun r2 _ done2 =>
                    (anti = false -> exists res, r2 = Ok res)
                    /\ (forall result session',
                          r2 = Ok (result, session') ->
                          fill_accounts current_step session session' form_data
                                        analysis_result result)
                    /\ (detected_fields analysis_result = ∅ -> (done1 ++ done2)%list = [])
                    /\ Forall (fun a => exists ft ff,
                                 detected_fields analysis_result !! ft = Some ff
                                 /\ on_element (Scanned (element ff)) a) (done1 ++ done2))
                 (ret ({| success := success; status_message := message;
                          fields_filled_count := filled st;
                          fields_attempted_count := S (length fields);
                          errors := fill_errors st; skipped_fields := fill_skipped st;
                          step_number := Some current_step |},
                       filled_fields_session st)) w1) as Hend.
  { intros success message Htrue Hpartial. apply post_ret.
    split; [eauto|]. split; [|split; [contradiction | now rewrite app_nil_r]].
    intros result session' [= <- <-]. unfold fill_accounts. simpl.
    split; [reflexivity|]. split; [lia|]. split; [lia|]. split; [lia|].
    split; [intros _; lia|].
    split; [rewrite Htrue; split; [intros H; repeat split; [exact Hempty | exact H | lia]
                                  | intros (_ & H & _); exact H]|].
    split; [exact Hpartial|]. split; [exact K4|]. split; [exact Hsession|].
    intros E. apply K6. lia. }
  destruct (filled st =? S (length fields))%nat eqn:Hall.
  - apply Nat.eqb_eq in Hall. apply Hend; [tauto|].
    split; [discriminate | lia].
  - apply Nat.eqb_neq in Hall. destruct (0 <? filled st)%nat eqn:Hsome.
    + apply Nat.ltb_lt in Hsome. apply Hend; [split; [discriminate | contradiction]|].
      split; [lia | reflexivity].
    + apply Nat.ltb_ge in Hsome. apply Hend; [split; [discriminate | contradiction]|].
      split; [discriminate | lia].
Qed.

End Filler.

End FlowFacts.

(** X16.  [_attempt_to_submit_or_navigate] never raises, and it returns
    [True] only after a click went through.  On the last step every click
    is on an analysed submit button (on an analysed apply button when
    there is no submit button) or on an element of a fallback submit
    selector; on another step every click is on an analysed next button or
    on an element of a generic next selector.  The analysis is left as it
    was, except that on the last step an empty submit list has received the
    apply buttons. *)
Theorem attempt_to_submit_or_navigate_clicks {W : Type} (page : Flow.Playwright W)
    (analysis_result : FormAnalysisResult) (is_last_data_step : bool) (w : W) :
  let run := Flow._attempt_to_submit_or_navigate page analysis_result is_last_data_step w in
  (exists action_taken,
      run.1.1 = Flow.Ok (action_taken,
                         Flow.analysis_after_attempt analysis_result is_last_data_step)
      /\ (action_taken = true -> run.2 <> []))
  /\ Forall (Flow.clicks (Flow.submit_or_navigate_targets analysis_result is_last_data_step))
            run.2.
Proof.
  cbv zeta.
  destruct (FlowFacts.attempt_to_submit_or_navigate_total page analysis_result
              is_last_data_step w) as [[action_taken after] Hr].
  pose proof (FlowFacts.attempt_to_submit_or_navigate_returns page analysis_result
                is_last_data_step w _ Hr) as Hafter.
  destruct (FlowFacts.attempt_to_submit_or_navigate_emits page analysis_result
              is_last_data_step w) as [Hall Hne].
  simpl in Hafter. subst after. split; [|exact Hall].
  exists action_taken. split; [exact Hr|]. intros Ht. now apply (Hne _ Hr).
Qed.

(** X17.  On the last step [_attempt_to_submit_or_navigate] makes at most
    one click: it returns [True] exactly when one click went through and
    [False] exactly when none did. *)
Theorem attempt_to_submit_is_one_click {W : Type} (page : Flow.Playwright W)
    (analysis_result : FormAnalysisResult) (w : W) :
  let run := Flow._attempt_to_submit_or_navigate page analysis_result true w in
  exists action_taken after,
    run.1.1 = Flow.Ok (action_taken, after)
    /\ (action_taken = true <-> exists target, run.2 = [Flow.Click target])
    /\ (action_taken = false <-> run.2 = []).
Proof.
  cbv zeta.
  destruct (FlowFacts.attempt_to_submit_or_navigate_total page analysis_result true w)
    as [[action_taken after] Hr].
  pose proof (FlowFacts.attempt_to_submit_one_shot page analysis_result w) as Hshot.
  destruct (FlowFacts.attempt_to_submit_or_navigate_emits page analysis_result true w)
    as [Hall _].
  rewrite Hr in Hshot. simpl in Hshot.
  exists action_taken, after. split; [exact Hr|].
  destruct action_taken.
  - destruct (Flow._attempt_to_submit_or_navigate page analysis_result true w).2
      as [|a [|a' d]] eqn:E; try discriminate.
    inversion Hall as [|? ? (target & -> & _) _]; subst.
    split; split; try discriminate; eauto.
  - rewrite Hshot. split; split; auto; try discriminate. intros [target H]. discriminate.
Qed.

(** X18.  [navigate_next] counts a click only when the delay after it
    returns: in a browser whose waits raise it never raises itself and
    answers [False], whichever buttons it clicked on the way. *)
Theorem navigate_next_needs_the_delay {W : Type} (page : Flow.Playwright W)
    (action_buttons_analysis : list FormField) (w : W) :
  (forall w, exists e w', Flow.wait_for_timeout page w = (Flow.Raise e, w')) ->
  (Flow.navigate_next page action_buttons_analysis w).1.1 = Flow.Ok false.
Proof.
  intros Hwaits.
  destruct (FlowFacts.navigate_next_total page action_buttons_analysis w) as [b Hb].
  rewrite Hb. f_equal.
  exact (FlowFacts.navigate_next_broken_wait page Hwaits action_buttons_analysis w b Hb).
Qed.

Lemma navigate_next_needs_the_delay_witness :
  let buttons := [FlowFixtures.button_at 0 "Next"; FlowFixtures.button_at 1 "Continue"] in
  Flow.navigate_next (FlowFixtures.plain_page false) buttons tt
  = (Flow.Ok false, tt, [Flow.Click (Flow.Scanned 0); Flow.Click (Flow.Scanned 1)])
  /\ (Flow.navigate_next (FlowFixtures.plain_page false) buttons tt).1.1 = Flow.Ok false.
Proof.
  cbv zeta. split; [reflexivity|].
  apply (navigate_next_needs_the_delay (FlowFixtures.plain_page false)).
  intros w. now exists Flow.PlaywrightTimeoutError, w.
Defined.

(** ** Selectors *)

Lemma css_escape_round_trip (val : string) :
  Text.css_unescape (Text.css_escape val) = val.
Proof.
  induction val as [|c val IH]; simpl; [reflexivity|].
  destruct (Text.is_css_special c) eqn:Hc; simpl.
  - now rewrite IH.
  - destruct (Ascii.eqb_spec c "\") as [->|_]; [discriminate|]. now rewrite IH.
Qed.

Lemma string_app_inv_head (p a b : string) : (p ++ a = p ++ b)%string -> a = b.
Proof. induction p as [|c p IH]; simpl; [auto|]. intros [= H]. auto. Qed.

Lemma string_length_app (a b : string) :
  String.length (a ++ b) = (String.length a + String.length b)%nat.
Proof. induction a as [|c a IH]; simpl; [reflexivity|]. now rewrite IH. Qed.

Lemma string_app_inv_tail (a b t : string) : (a ++ t = b ++ t)%string -> a = b.
Proof.
  revert b. induction a as [|c a IH]; intros [|c' b] H; simpl in *.
  - reflexivity.
  - apply (f_equal String.length) in H. rewrite ?string_length_app in H. simpl in H.
    rewrite ?string_length_app in H. lia.
  - apply (f_equal String.length) in H. rewrite ?string_length_app in H. simpl in H.
    rewrite ?string_length_app in H. lia.
  - injection H as -> H. f_equal. now apply IH.
Qed.

(** X19.  The escaping of [generate_robust_selector] can be undone, so
    the selector built from a tag, an attribute and a value determines the
    value: elements of one tag share an attribute selector only when the
    values of the attribute coincide.  The function itself never raises and
    does nothing to the page. *)
Theorem generate_robust_selector_identifies :
  (forall val, Text.css_unescape (Text.css_escape val) = val)
  /\ (forall tag_name attr val1 val2,
        Flow.attribute_selector tag_name attr val1 = Flow.attribute_selector tag_name attr val2 ->
        val1 = val2)
  /\ (forall (W : Type) (page : Flow.Playwright W) element tag_hint,
        Flow.total (Flow.generate_robust_selector page element tag_hint)
        /\ Flow.silent (Flow.generate_robust_selector page element tag_hint)).
Proof.
  split; [exact css_escape_round_trip|]. split.
  - unfold Flow.attribute_selector. intros tag attr val1 val2 H.
    do 4 apply string_app_inv_head in H. apply string_app_inv_tail in H.
    rewrite <- (css_escape_round_trip val1), <- (css_escape_round_trip val2). now f_equal.
  - intros W page element tag_hint. split.
    + apply FlowFacts.generate_robust_selector_total.
    + apply FlowFacts.generate_robust_selector_silent.
Qed.

(** ** Filling controls *)

(** X20.  [_fill_checkbox] never raises; what it does to the page is
    nothing, one click, or one click followed by one [set_checked] of the
    desired state; and when [is_checked] tells the state it leaves, a
    [True] result means that the box is left in the desired state. *)
Theorem fill_checkbox_leaves_desired_state {W : Type} (page : Flow.Playwright W)
    (element : Flow.Locator) (should_be_checked : bool) (w : W) (checked : W -> bool) :
  (forall w b w', Flow.is_checked page element w = (Flow.Ok b, w') -> checked w' = b) ->
  let run := Flow._fill_checkbox page element should_be_checked w in
  (exists filled, run.1.1 = Flow.Ok filled
                  /\ (filled = true -> checked run.1.2 = should_be_checked))
  /\ (run.2 = [] \/ run.2 = [Flow.Click element]
      \/ run.2 = [Flow.Click element; Flow.SetChecked element should_be_checked]).
Proof.
  intros Htruth. exact (FlowFacts.fill_checkbox_post page element should_be_checked w checked Htruth).
Qed.

Lemma fill_checkbox_leaves_desired_state_witness :
  let run := Flow._fill_checkbox (FlowFixtures.checkbox_page false) (Flow.Scanned 0) true false in
  run = (Flow.Ok true, true, [Flow.Click (Flow.Scanned 0)])
  /\ (exists filled, run.1.1 = Flow.Ok filled /\ (filled = true -> run.1.2 = true))
  /\ (run.2 = [] \/ run.2 = [Flow.Click (Flow.Scanned 0)]
      \/ run.2 = [Flow.Click (Flow.Scanned 0); Flow.SetChecked (Flow.Scanned 0) true]).
Proof.
  cbv zeta. split; [reflexivity|].
  apply (fill_checkbox_leaves_desired_state (FlowFixtures.checkbox_page false)
           (Flow.Scanned 0) true false (fun w => w)).
  intros w b w' [= <- <-]. reflexivity.
Defined.


(** X22.  With anti-detection, [_fill_standard_text_field] answers [True]
    as soon as the element can be scrolled to and dispatching events raises
    nothing but Playwright errors: [human_type] swallows every failure, so
    the answer does not tell whether any text was entered. *)
Theorem text_field_anti_detection_always_true {W : Type} (page : Flow.Playwright W)
    (element : Flow.Locator) (value : string) (is_content_editable : bool) (w : W) :
  (forall w, exists w', Flow.scroll_into_view_if_needed page element w = (Flow.Ok tt, w')) ->
  (forall event_name w e w',
      Flow.dispatch_event page element event_name w = (Flow.Raise e, w') ->
      Flow.is_PlaywrightError e = true) ->
  (Flow._fill_standard_text_field page true element value is_content_editable w).1.1
  = Flow.Ok true.
Proof.
  intros Hscroll Hevents.
  exact (FlowFacts.fill_standard_text_field_anti_detection page element Hevents Hscroll
           value is_content_editable w).
Qed.

Lemma text_field_anti_detection_always_true_witness :
  let element := Flow.Scanned 0 in
  Flow._fill_standard_text_field FlowFixtures.frozen_page true element "Ada" false tt
  = (Flow.Ok true, tt,
     [Flow.DispatchEvent element "input"; Flow.DispatchEvent element "change";
      Flow.DispatchEvent element "blur"])
  /\ (Flow._fill_standard_text_field FlowFixtures.frozen_page true element "Ada" false tt).1.1
     = Flow.Ok true.
Proof.
  cbv zeta. split; [reflexivity|].
  apply (text_field_anti_detection_always_true FlowFixtures.frozen_page).
  - intros w. now exists w.
  - intros event_name w e w' H. discriminate.
Defined.

(** X23.  Without anti-detection, [_fill_standard_text_field] never raises
    and answers [True] only after the value was filled in, or typed by the
    fallback. *)
Theorem text_field_plain_true_means_entered {W : Type} (page : Flow.Playwright W)
    (element : Flow.Locator) (value : string) (is_content_editable : bool) (w : W) :
  let run := Flow._fill_standard_text_field page false element value is_content_editable w in
  (exists filled, run.1.1 = Flow.Ok filled)
  /\ (run.1.1 = Flow.Ok true ->
      In (Flow.Fill element value) run.2 \/ In (Flow.TypeText element value) run.2).
Proof.
  cbv zeta. split.
  - apply FlowFacts.fill_standard_text_field_total.
  - exact (FlowFacts.fill_standard_text_field_plain page element value is_content_editable w).
Qed.

(** X24.  [_fill_single_field] never raises, and every action it does is
    on the element of the field or on the first input within it.  It does
    nothing to the element, and answers [False], when a file field is given
    a value that is neither a string nor a path and when the element is
    neither an input, a text area or a select nor a custom component (an
    editable [div], for one: the attribute bundle never holds
    [contenteditable]); it does nothing either for a radio button with a
    false value. *)
Theorem fill_single_field_frame {W : Type} (page : Flow.Playwright W)
    (enable_anti_detection : bool) (field_match : FormField) (value : Flow.Value) (w : W) :
  let run := Flow._fill_single_field page enable_anti_detection field_match value w in
  let is_file := bool_decide (field_type field_match ∈ [RESUME_FILE; COVER_LETTER_FILE]) in
  let tag := element_type_html field_match in
  (exists filled, run.1.1 = Flow.Ok filled)
  /\ Forall (Flow.on_element (Flow.Scanned (element field_match))) run.2
  /\ (is_file = true -> Flow.value_is_str_or_path value = false ->
      run.1.1 = Flow.Ok false /\ run.2 = [])
  /\ (is_file = false -> ~ In tag ["input"; "textarea"; "select"] ->
      is_custom_component (attributes field_match) = false ->
      run.1.1 = Flow.Ok false /\ run.2 = [])
  /\ (is_file = false -> tag = "input" ->
      Str.lower (ed_type (attributes field_match)) = "radio" ->
      Flow.value_truthy value = false ->
      run.2 = []).
Proof.
  cbv zeta. split; [apply FlowFacts.fill_single_field_total|].
  split; [apply FlowFacts.fill_single_field_on_element|].
  split; [|split].
  - intros Hfile Hvalue.
    destruct (FlowFacts.fill_single_field_untouched page enable_anti_detection field_match
                value (fun _ => false) w) as [Hd [ready Hr]]; [|now split].
    intros ready. rewrite Hfile, Hvalue. now destruct ready.
  - intros Hfile Htag Hcustom.
    destruct (FlowFacts.fill_single_field_untouched page enable_anti_detection field_match
                value (fun _ => false) w) as [Hd [ready Hr]]; [|now split].
    intros ready. rewrite Hfile, Hcustom.
    assert (String.eqb (element_type_html field_match) "input" = false) as ->.
    { apply String.eqb_neq. intros E. apply Htag. rewrite E. now left. }
    assert (String.eqb (element_type_html field_match) "select" = false) as ->.
    { apply String.eqb_neq. intros E. apply Htag. rewrite E. right. right. now left. }
    assert (bool_decide (element_type_html field_match ∈ ["input"; "textarea"]) = false) as ->.
    { apply bool_decide_eq_false. intros E. apply Htag. apply list_elem_of_In in E.
      destruct E as [<-|[<-|[]]]; simpl; auto. }
    now destruct ready.
  - intros Hfile Htag Hradio Hvalue.
    destruct (FlowFacts.fill_single_field_untouched page enable_anti_detection field_match
                value (fun ready => ready) w) as [Hd _]; [|exact Hd].
    intros ready. rewrite Hfile, Htag, Hradio, Hvalue. now destruct ready.
Qed.

(** X25.  [_fill_current_page_fields] keeps its accounts: no more fields
    filled than attempted, no more attempted than given; one error for each
    attempted field not filled; on a page with detected fields every given
    field is either filled or listed as skipped; [success] is [True] exactly
    when fields were detected, every attempted field was filled and, if none
    was attempted, none was given, and ["partial"] exactly when some but not
    all attempted fields were filled; the session set only grows, by
    detected fields, and not at all when nothing was filled.  Every action
    is on the element of a detected field, nothing is done when no field was
    detected, and without anti-detection the function does not raise. *)
Theorem fill_current_page_fields_accounts {W : Type} (page : Flow.Playwright W)
    (enable_anti_detection : bool) (current_step : nat)
    (session : gset (string * FieldType)) (form_data : list (FieldType * Flow.Value))
    (analysis_result : FormAnalysisResult) (w : W) :
  let run := Flow._fill_current_page_fields page enable_anti_detection current_step session
               form_data analysis_result w in
  (enable_anti_detection = false -> exists res, run.1.1 = Flow.Ok res)
  /\ (forall result session',
        run.1.1 = Flow.Ok (result, session') ->
        Flow.fill_accounts current_step session session' form_data analysis_result result)
  /\ (detected_fields analysis_result = ∅ -> run.2 = [])
  /\ Forall (fun a => exists ft ff,
                        detected_fields analysis_result !! ft = Some ff
                        /\ Flow.on_element (Flow.Scanned (element ff)) a) run.2.
Proof.
  exact (FlowFacts.fill_current_page_fields_post page enable_anti_detection current_step
           session form_data analysis_result w).
Qed.

(** ** Popups, CAPTCHA and the steps of an application *)

Module ApplicationFacts.
Import Flow.
Import FlowFacts.

Section Popups.

Context {W : Type} (page : Playwright W).

Lemma post_silent {A : Type} (R : outcome A -> W -> list action -> Prop)
    (m : M W A) (w : W) :
  silent m -> (forall r w', R r w' []) -> post R m w.
Proof. intros Hs H. unfold post. rewrite (silent_nil m w Hs). apply H. Qed.

Let click_among (elements : list Locator) (a : action) : Prop :=
  exists t, In t elements /\ a = Click t.

Lemma close_among_post (elements : list Locator) (w : W) :
  post (fun r _ done =>
          Forall (click_among elements) done /\ (length done <= 1)%nat
          /\ match r with
             | Ok true => length done = 1%nat
             | Ok false => done = []
             | Raise _ => waits_return page -> done = []
             end)
       (close_among page elements) w.
Proof.
  revert w. induction elements as [|element rest IH]; intros w; simpl.
  - apply post_ret. repeat split; [constructor | simpl; lia].
  - apply post_bind. apply post_silent; [apply silent_and_then; apply silent_read|].
    intros [[|]|e] w1.
    + apply post_bind. apply post_act.
      * intros w2. apply post_bind. apply post_read. intros [[]|e] w3 Hop.
        -- apply post_ret. simpl. repeat split; [|simpl; lia].
           constructor; [|constructor]. exists element. split; [now left | reflexivity].
        -- simpl. repeat split; [|simpl; lia|].
           ++ constructor; [|constructor]. exists element. split; [now left | reflexivity].
           ++ intros Hw. destruct (Hw w2) as [w' Hw']. congruence.
      * intros e w2. simpl. repeat split; [constructor | simpl; lia].
    + eapply post_weaken; [apply IH|]. simpl. intros r w' done (Hall & Hlen & Hr).
      repeat split; [|exact Hlen | exact Hr].
      eapply Forall_impl; [exact Hall|]. intros a (t & Ht & ->). exists t. split; [now right | reflexivity].
    + simpl. repeat split; [constructor | simpl; lia].
Qed.

(** One selector of the loop: at most one click, on an element of the
    selector; the click is counted unless a wait raised. *)
Lemma close_selector_post (selector : string) (w : W) :
  post (fun r _ done =>
          Forall (fun a => exists i, a = Click (Located selector i)) done
          /\ (length done <= 1)%nat
          /\ match r with
             | Ok true => length done = 1%nat
             | Ok false => waits_return page -> done = []
             | Raise _ => False
             end)
       (catch (elements <~ locator_all page selector ;; close_among page elements)
              (fun _ => ret false)) w.
Proof.
  apply post_catch. apply post_bind. unfold post at 1.
  pose proof (silent_nil _ w (locator_all_silent page selector)) as Hnil.
  destruct (locator_all page selector w) as [[[elements|e] w1] d1] eqn:Hall; simpl in *; subst d1.
  - eapply post_weaken; [apply close_among_post|]. simpl.
    intros r w' done (Hcl & Hlen & Hr).
    assert (Forall (fun a => exists i, a = Click (Located selector i)) done) as Hloc.
    { eapply Forall_impl; [exact Hcl|]. intros a (t & Ht & ->).
      destruct (locator_all_inv page selector w w1 elements [] Hall t Ht) as [i ->]. now exists i. }
    destruct r as [[|]|e].
    + repeat split; assumption.
    + subst done. repeat split; [constructor | simpl; lia].
    + apply post_ret. rewrite app_nil_r. repeat split; assumption.
  - apply post_ret. simpl. repeat split; [constructor | simpl; lia].
Qed.

Lemma close_by_selectors_post (actions : list (string * string)) (popup_closed : bool)
    (closed_count : nat) (w : W) :
  (popup_closed = true -> (max_popups_to_close_in_one_go <= closed_count)%nat) ->
  post (fun r _ done =>
          Forall (fun a => exists selector i,
                             In selector (map fst actions) /\ a = Click (Located selector i)) done
          /\ (length done <= length actions)%nat
          /\ (waits_return page ->
              match r with
              | Ok (popup_closed', closed_count') =>
                  closed_count' = (closed_count + length done)%nat
                  /\ ((closed_count + 1 < max_popups_to_close_in_one_go)%nat ->
                      (length done <= 1)%nat)
                  /\ (popup_closed' = false -> popup_closed = false /\ done = [])
              | Raise _ => False
              end))
       (close_by_selectors page actions popup_closed closed_count) w.
Proof.
  revert popup_closed closed_count w.
  induction actions as [|[selector description] rest IH]; intros pc cc w Hpc; simpl.
  - apply post_ret. split; [constructor|]. split; [simpl; lia|]. intros _. simpl.
    split; [lia|]. split; [lia|]. intros ->. now split.
  - apply post_bind. eapply post_weaken; [apply close_selector_post|]. simpl.
    intros [closed|e] w1 d1 (Hloc & Hlen & Hr); [|contradiction].
    assert (Forall (fun a => exists selector0 i,
                      (selector = selector0 \/ In selector0 (map fst rest))
                      /\ a = Click (Located selector0 i)) d1) as Hloc1.
    { eapply Forall_impl; [exact Hloc|]. intros a [i ->]. exists selector, i. split; [now left | reflexivity]. }
    destruct ((pc || closed)
              && ((if closed then S cc else cc) <? max_popups_to_close_in_one_go)%nat) eqn:Hexit.
    + apply post_bind. apply post_read. intros [[]|e] w2 Hop.
      * apply post_ret. rewrite !app_nil_r. split; [exact Hloc1|]. split; [lia|].
        intros Hw. apply andb_true_iff in Hexit as [Hor Hlt]. apply Nat.ltb_lt in Hlt.
        destruct closed.
        -- rewrite Hr. split; [lia|]. split; [lia|]. rewrite orb_true_r. discriminate.
        -- rewrite orb_false_r in Hor. specialize (Hpc Hor). lia.
      * rewrite app_nil_r. split; [exact Hloc1|]. split; [lia|].
        intros Hw. destruct (Hw w1) as [w' Hw']. congruence.
    + eapply post_weaken; [apply IH|].
      * intros Hor. apply andb_false_iff in Hexit as [Hexit|Hexit]; [congruence|].
        apply Nat.ltb_ge in Hexit. destruct closed; [|exact Hexit].
        unfold max_popups_to_close_in_one_go in *. lia.
      * simpl. intros r w2 d2 (Hloc2 & Hlen2 & Hr2). rewrite length_app.
        split; [|split].
        -- apply Forall_app. split; [exact Hloc1|].
           eapply Forall_impl; [exact Hloc2|]. intros a (s & i & Hs & ->).
           exists s, i. split; [now right | reflexivity].
        -- lia.
        -- intros Hw. specialize (Hr2 Hw). destruct r as [[pc' cc']|e]; [|exact Hr2].
           destruct Hr2 as (Hcc & Hone & Hfalse).
           destruct closed.
           ++ rewrite Hr in *. apply andb_false_iff in Hexit as [Hexit|Hexit];
                [rewrite orb_true_r in Hexit; discriminate|].
              apply Nat.ltb_ge in Hexit. split; [lia|]. split.
              ** unfold max_popups_to_close_in_one_go in *. lia.
              ** intros Hpc'. destruct (Hfalse Hpc') as [Hor _].
                 rewrite orb_true_r in Hor. discriminate.
           ++ rewrite (Hr Hw) in *. simpl in *. rewrite orb_false_r in Hfalse.
              split; [lia|]. split; [|exact Hfalse].
              intros Hlt. apply Hone. lia.
Qed.


Lemma close_rounds_post (rounds closed_count : nat) (w : W) :
  post (fun r _ done =>
          Forall popup_click done
          /\ (length done <= rounds * length popup_close_actions)%nat
          /\ (waits_return page ->
              match r with
              | Ok closed_count' =>
                  closed_count' = (closed_count + length done)%nat
                  /\ ((closed_count + rounds <= max_popups_to_close_in_one_go)%nat ->
                      (closed_count + length done <= 2 + length popup_close_actions)%nat)
              | Raise _ => False
              end))
       (close_rounds page rounds closed_count) w.
Proof.
  revert closed_count w. induction rounds as [|rounds IH]; intros cc w; cbn [close_rounds].
  - apply post_ret. split; [constructor|]. split; [simpl; lia|]. intros _. simpl.
    unfold max_popups_to_close_in_one_go. split; lia.
  - apply post_bind. eapply post_weaken; [apply close_by_selectors_post; discriminate|].
    cbv beta. intros [[pc1 cc1]|e] w1 d1 (Hloc1 & Hlen1 & Hr1).
    + destruct pc1; simpl negb; cbv iota.
      * eapply post_weaken; [apply IH|]. cbv beta.
        intros r w2 d2 (Hloc2 & Hlen2 & Hr2). rewrite length_app.
        split; [apply Forall_app; split; assumption|]. split; [lia|].
        intros Hw. specialize (Hr1 Hw). specialize (Hr2 Hw).
        destruct Hr1 as (-> & Hone & _). destruct r as [cc2|e]; [|exact Hr2].
        destruct Hr2 as (-> & Hbound). split; [lia|].
        unfold max_popups_to_close_in_one_go in *. intros Hcc.
        destruct (decide (cc + 1 < 3)%nat) as [Hlt|Hge].
        -- specialize (Hone Hlt). lia.
        -- assert (rounds = 0%nat) as -> by lia. simpl in Hlen2. lia.
      * apply post_ret. rewrite app_nil_r. split; [exact Hloc1|]. split; [lia|].
        intros Hw. specialize (Hr1 Hw). destruct Hr1 as (-> & _ & Hfalse).
        destruct (Hfalse eq_refl) as [_ ->]. simpl. split; [lia|].
        unfold max_popups_to_close_in_one_go. lia.
    + split; [exact Hloc1|]. split; [lia|]. exact Hr1.
Qed.

Section Full.

Hypothesis full : full_of_popups page.

Lemma close_selector_full (selector : string) (w : W) :
  post (fun r _ done => r = Ok true /\ length done = 1%nat)
       (catch (elements <~ locator_all page selector ;; close_among page elements)
              (fun _ => ret false)) w.
Proof.
  destruct full as (Hcount & Hvis & Hen & Hclick & Hwait).
  unfold post, locator_all, catch, bind, read, ret.
  destruct (Hcount selector w) as (n & w1 & ->). simpl.
  unfold and_then, bind, read, act, ret.
  destruct (Hvis (Located selector 0) w1) as [w2 ->].
  destruct (Hen (Located selector 0) w2) as [w3 ->].
  destruct (Hclick (Located selector 0) w3) as [w4 ->].
  destruct (Hwait w4) as [w5 ->]. simpl. now split.
Qed.

Lemma close_by_selectors_full_late (actions : list (string * string)) (popup_closed : bool)
    (closed_count : nat) (w : W) :
  (2 <= closed_count)%nat ->
  post (fun r _ done =>
          r = Ok (popup_closed || match actions with [] => false | _ :: _ => true end,
                  (closed_count + length actions)%nat)
          /\ length done = length actions)
       (close_by_selectors page actions popup_closed closed_count) w.
Proof.
  revert popup_closed closed_count w.
  induction actions as [|[selector description] rest IH]; intros pc cc w Hcc;
    cbn [close_by_selectors].
  - apply post_ret. split; [|reflexivity]. now rewrite orb_false_r, Nat.add_0_r.
  - apply post_bind. eapply post_weaken; [apply close_selector_full|]. cbv beta.
    intros r w1 d1 [-> Hd1]. rewrite !orb_true_r.
    replace (S cc <? max_popups_to_close_in_one_go)%nat with false
      by (symmetry; apply Nat.ltb_ge; unfold max_popups_to_close_in_one_go; lia).
    cbn [andb]. cbv iota.
    eapply post_weaken; [apply (IH true (S cc)); lia|]. cbv beta.
    intros r w2 d2 [-> Hd2]. rewrite length_app. split; [|simpl; lia].
    cbn [orb length]. now rewrite Nat.add_succ_r.
Qed.

Lemma close_by_selectors_full_early (action : string * string)
    (actions : list (string * string)) (popup_closed : bool) (closed_count : nat) (w : W) :
  (closed_count + 1 < max_popups_to_close_in_one_go)%nat ->
  post (fun r _ done => r = Ok (true, S closed_count) /\ length done = 1%nat)
       (close_by_selectors page (action :: actions) popup_closed closed_count) w.
Proof.
  intros Hcc. destruct action as [selector description]. cbn [close_by_selectors].
  apply post_bind. eapply post_weaken; [apply close_selector_full|]. cbv beta.
  intros r w1 d1 [-> Hd1]. rewrite !orb_true_r.
  replace (S closed_count <? max_popups_to_close_in_one_go)%nat with true
    by (symmetry; apply Nat.ltb_lt; lia).
  cbn [andb]. cbv iota.
  apply post_bind. apply post_read. intros r w2 Hop.
  destruct full as (_ & _ & _ & _ & Hwait). destruct (Hwait w1) as [w' Hw'].
  rewrite Hw' in Hop. injection Hop as <- <-.
  apply post_ret. rewrite !app_nil_r. now split.
Qed.

Lemma close_popups_full (w : W) :
  post (fun r _ done => r = Ok tt /\ length done = (2 + length popup_close_actions)%nat)
       (close_popups_comprehensive page) w.
Proof.
  unfold close_popups_comprehensive, max_popups_to_close_in_one_go.
  apply post_bind. cbn [close_rounds]. unfold popup_close_actions at 1.
  apply post_bind. eapply post_weaken;
    [apply close_by_selectors_full_early; unfold max_popups_to_close_in_one_go; lia|].
  cbv beta. intros r w1 d1 [-> Hd1]. cbn [negb]. cbv iota.
  unfold popup_close_actions at 1.
  apply post_bind. eapply post_weaken;
    [apply close_by_selectors_full_early; unfold max_popups_to_close_in_one_go; lia|].
  cbv beta. intros r w2 d2 [-> Hd2]. cbn [negb]. cbv iota.
  apply post_bind. eapply post_weaken; [apply close_by_selectors_full_late; lia|].
  cbv beta. intros r w3 d3 [-> Hd3]. cbn [orb negb]. cbv iota.
  apply post_ret. apply post_ret. rewrite !app_nil_r, !length_app. split; [reflexivity|].
  unfold popup_close_actions in *. cbn [length] in *. lia.
Qed.

End Full.

End Popups.
Section Captcha.

Context {W : Type} (page : Playwright W) (site : Site W).

Lemma visible_among_silent (selector : string) (i count : nat) :
  silent (visible_among page selector i count).
Proof.
  revert i. induction count as [|count IH]; intros i; simpl; [apply silent_ret|].
  apply silent_bind; [apply silent_read|]. intros [|]; [|apply IH].
  apply silent_bind; [apply safe_get_attribute_silent|]. intros title.
  apply silent_bind; [|intros _; apply silent_ret].
  destruct (Str.truthy title); [apply silent_ret | apply safe_get_tag_name_silent].
Qed.

Lemma captcha_by_selectors_silent (selectors : list string) :
  silent (captcha_by_selectors page site selectors).
Proof.
  induction selectors as [|selector rest IH]; simpl; [apply silent_ret|].
  apply silent_bind.
  - apply silent_catch.
    + apply silent_bind; [|intros found; apply silent_ret].
      apply silent_bind; [apply silent_read|]. intros count.
      destruct (0 <? count)%nat; [|apply silent_ret].
      apply silent_bind; [apply silent_read|]. intros count'. apply visible_among_silent.
    + intros [| |]; try apply silent_ret;
        (apply silent_bind; [apply silent_read | intros closed; apply silent_ret]).
  - intros [[|]|]; [apply silent_ret | apply IH | apply silent_ret].
Qed.

Lemma wait_and_handle_captcha_silent : silent (wait_and_handle_captcha page site).
Proof.
  apply silent_bind; [apply silent_read|]. intros _.
  apply silent_bind; [apply captcha_by_selectors_silent|].
  intros [[|]|]; [| apply silent_ret | apply silent_ret].
  apply silent_bind; [apply silent_read|]. intros _. apply silent_ret.
Qed.

Lemma visible_among_unseen (selector : string) (i count : nat) (w : W) :
  (forall i w, (is_visible page (Located selector i) w).1 <> Ok true) ->
  post (fun r _ _ => r <> Ok true) (visible_among page selector i count) w.
Proof.
  intros Hno. revert i w. induction count as [|count IH]; intros i w; simpl.
  - apply post_ret. discriminate.
  - apply post_bind. apply post_read. intros [[|]|e] w' Hop.
    + exfalso. apply (Hno i w). now rewrite Hop.
    + eapply post_weaken; [apply IH|]. auto.
    + discriminate.
Qed.

Lemma captcha_by_selectors_unseen (selectors : list string) (w : W) :
  (forall selector i w, In selector selectors ->
                        (is_visible page (Located selector i) w).1 <> Ok true) ->
  post (fun r _ _ => r <> Ok (Some true)) (captcha_by_selectors page site selectors) w.
Proof.
  revert w. induction selectors as [|selector rest IH]; intros w Hno; simpl.
  - apply post_ret. discriminate.
  - apply post_bind.
    apply (post_weaken (fun r _ _ => r <> Ok (Some true))).
    + apply post_catch. apply post_bind. unfold captcha_found_by.
      apply post_bind. apply post_read. intros [count|e] w1 _.
      * destruct (0 <? count)%nat.
        -- apply post_bind. apply post_read. intros [count'|e] w2 _.
           ++ eapply post_weaken;
                [apply visible_among_unseen; intros i' w'; apply Hno; now left|].
              cbv beta. intros [[|]|e] w3 d3 H; [contradiction| |].
              ** apply post_ret. discriminate.
              ** destruct e; try (apply post_ret; discriminate);
                   (apply post_bind; apply post_read; intros [[|]|e'] w4 _;
                    [apply post_ret; discriminate | apply post_ret; discriminate | discriminate]).
           ++ destruct e; try (apply post_ret; discriminate);
                (apply post_bind; apply post_read; intros [[|]|e'] w4 _;
                 [apply post_ret; discriminate | apply post_ret; discriminate | discriminate]).
        -- apply post_ret. apply post_ret. discriminate.
      * destruct e; try (apply post_ret; discriminate);
          (apply post_bind; apply post_read; intros [[|]|e'] w4 _;
           [apply post_ret; discriminate | apply post_ret; discriminate | discriminate]).
    + cbv beta. intros [[[|]|]|e] w1 d1 H; [contradiction| | |discriminate].
      * eapply post_weaken; [apply IH; intros s i' w' Hs; apply Hno; now right|]. auto.
      * apply post_ret. discriminate.
Qed.

Lemma wait_and_handle_captcha_unseen (w : W) :
  no_visible_captcha page ->
  post (fun r _ _ => r <> Ok false) (wait_and_handle_captcha page site) w.
Proof.
  intros Hno. unfold wait_and_handle_captcha.
  apply post_bind. apply post_read. intros [[]|e] w1 _; [|discriminate].
  apply post_bind. eapply post_weaken; [apply captcha_by_selectors_unseen; exact Hno|].
  cbv beta. intros [[[|]|]|e] w2 d2 H; [contradiction | | | discriminate];
    apply post_ret; discriminate.
Qed.

Lemma wait_and_handle_captcha_total :
  waits_return page -> is_closed_returns site -> total (wait_and_handle_captcha page site).
Proof.
  intros Hwait Hclosed.
  assert (total (read (wait_for_timeout page))) as Hw.
  { intros w. unfold read. destruct (Hwait w) as [w' ->]. now exists tt. }
  assert (forall selectors, total (captcha_by_selectors page site selectors)) as Hsel.
  { induction selectors as [|selector rest IH]; simpl; [apply total_ret|].
    apply total_bind.
    - apply total_catch. intros [| |]; try apply total_ret;
        (apply total_bind; [|intros closed; apply total_ret]);
        intros w; unfold read; destruct (Hclosed w) as (closed & w' & ->); now exists closed.
    - intros [[|]|]; [apply total_ret | apply IH | apply total_ret]. }
  apply total_bind; [exact Hw|]. intros _.
  apply total_bind; [apply Hsel|].
  intros [[|]|]; [| apply total_ret | apply total_ret].
  apply total_bind; [exact Hw|]. intros _. apply total_ret.
Qed.

End Captcha.

Section Steps.

Context {W : Type} (page : Playwright W) (site : Site W).
Context (enable_anti_detection : bool) (navigation_timeout_ms : Z).

Lemma ends_ret {A : Type} (Q : outcome A -> Prop) (a : A) :
  Q (Ok a) -> ends Q (ret a : M W A).
Proof. intros H w. exact H. Qed.

Lemma ends_bind {A B : Type} (Q : outcome B -> Prop) (m : M W A) (k : A -> M W B) :
  ends (fun r => match r with
                 | Ok a => ends Q (k a)
                 | Raise e => Q (Raise e)
                 end) m ->
  ends Q (bind m k).
Proof.
  intros H w. specialize (H w). unfold bind.
  destruct (m w) as [[[a|e] w1] d1]; simpl in *; [|exact H].
  specialize (H w1). destruct (k a w1) as [[r w2] d2]. exact H.
Qed.

Lemma ends_weaken {A : Type} (Q Q' : outcome A -> Prop) (m : M W A) :
  ends Q m -> (forall r, Q r -> Q' r) -> ends Q' m.
Proof. intros H HQ w. apply HQ, H. Qed.

Lemma ends_any {A : Type} (Q : outcome A -> Prop) (m : M W A) :
  (forall r, Q r) -> ends Q m.
Proof. intros H w. apply H. Qed.

Lemma ends_read {A : Type} (Q : outcome A -> Prop) (op : W -> outcome A * W) :
  (forall w r w', op w = (r, w') -> Q r) -> ends Q (read op).
Proof. intros H w. unfold read. destruct (op w) as [r w'] eqn:E. simpl. eauto. Qed.

Lemma ends_total {A : Type} (Q : outcome A -> Prop) (m : M W A) :
  total m -> (forall a, Q (Ok a)) -> ends Q m.
Proof. intros Ht H w. destruct (Ht w) as [a ->]. apply H. Qed.

Lemma ends_or_crash {A : Type} (Q : outcome step_end -> Prop) (m : M W A)
    (overall_results : OverallApplicationResult) (k : A -> M W step_end) :
  ends (fun r => match r with
                 | Ok a => ends Q (k a)
                 | Raise e => Q (Ok (Crash overall_results e))
                 end) m ->
  ends Q (or_crash m overall_results k).
Proof.
  intros H w. specialize (H w). unfold or_crash.
  destruct (m w) as [[[a|e] w1] d1]; simpl in *; [|exact H].
  specialize (H w1). destruct (k a w1) as [[r w2] d2]. exact H.
Qed.

Lemma ends_or_crash_any {A : Type} (Q : outcome step_end -> Prop) (m : M W A)
    (overall_results : OverallApplicationResult) (k : A -> M W step_end) :
  (forall e, Q (Ok (Crash overall_results e))) -> (forall a, ends Q (k a)) ->
  ends Q (or_crash m overall_results k).
Proof.
  intros Hc Hk. apply ends_or_crash. intros w. destruct (m w).1.1; [apply Hk | apply Hc].
Qed.

Lemma screenshot_may_break (path : string) :
  ends (fun r => match r with
                 | Ok true => True
                 | Ok false => True
                 | Raise _ => False
                 end)
       (screenshot_or_break site path).
Proof.
  apply ends_total; [|intros [|]; exact I].
  apply total_catch. intros e. apply total_ret.
Qed.

Lemma screenshot_never_breaks (shots : screenshots_return site) (path : string) :
  ends (fun r => match r with
                 | Ok true => False
                 | Ok false => True
                 | Raise _ => False
                 end)
       (screenshot_or_break site path).
Proof.
  intros w. unfold screenshot_or_break, catch, bind, read, ret.
  destruct (shots path w) as [w' ->]. exact I.
Qed.

Section Loop.

Variables (n : nat) (may_break : Prop).

Hypothesis screenshot_breaks :
  forall path,
    ends (fun r => match r with
                   | Ok true => may_break
                   | Ok false => True
                   | Raise _ => False
                   end)
         (screenshot_or_break site path).

Lemma ends_on_failure (Q : outcome step_end -> Prop) (P : OverallApplicationResult -> Prop)
    (failed : bool) (overall_results : OverallApplicationResult) (new_errors : list string)
    (status path : string) (k : OverallApplicationResult -> M W step_end) :
  let recorded := with_final_status (with_more_errors overall_results new_errors) status in
  (forall overall_results', P overall_results' -> ends Q (k overall_results')) ->
  (failed = false -> P overall_results) ->
  (failed = true -> P recorded /\ (may_break -> Q (Ok (Break recorded)))) ->
  ends Q (on_failure site failed overall_results new_errors status path k).
Proof.
  intros recorded Hk Hno Hyes. unfold on_failure. destruct failed.
  - destruct (Hyes eq_refl) as [HP HQ]. apply ends_bind.
    eapply ends_weaken; [apply screenshot_breaks|]. cbv beta.
    intros [[|]|e] H; [|apply Hk; exact HP | contradiction].
    apply ends_ret. apply HQ. exact H.
  - apply Hk, Hno. reflexivity.
Qed.

Let at_step (i d s : nat) (o : OverallApplicationResult) : Prop :=
  total_steps_provided_in_data o = n
  /\ steps_attempted_on_site o = i
  /\ length (step_details o) = d
  /\ steps_successfully_filled o = s
  /\ total_fields_filled_across_steps o = sum_list_with fields_filled_count (step_details o)
  /\ (forall j r, step_details o !! j = Some r -> step_number r = Some (S j)).

Let status_ok (k : nat) (status : string) : Prop :=
  status = "initiated" \/ exists i, (1 <= i <= k)%nat /\ step_failure n i status.

Let step_post (i : nat) (r : outcome step_end) : Prop :=
  match r with
  | Ok (Next o) => at_step i i i o /\ status_ok i (final_status o)
  | Ok (Break o) =>
      (exists d s, at_step i d s o /\ (s <= d <= i)%nat /\ (i <= S s)%nat
                   /\ may_break /\ step_failure n i (final_status o))
      \/ (at_step i i i o /\ final_status o = "submission_attempted" /\ i = n)
  | Ok (Crash o _) => exists d s, at_step i d s o /\ (s <= d <= i)%nat /\ (i <= S s)%nat
  | Raise _ => False
  end.

Lemma fill_current_page_fields_step (i : nat) (data : list (FieldType * Value))
    (a : FormAnalysisResult) :
  ends (fun r => match r with
                 | Ok filled => step_number filled.1 = Some i
                 | Raise _ => True
                 end)
       (_fill_current_page_fields page enable_anti_detection i ∅ data a).
Proof.
  intros w.
  pose proof (fill_current_page_fields_post page enable_anti_detection i ∅ data a w) as H.
  unfold post in H. destruct H as (_ & H & _).
  destruct (_fill_current_page_fields page enable_anti_detection i ∅ data a w).1.1
    as [[result session']|e]; [|exact I].
  exact (proj1 (H result session' eq_refl)).
Qed.

Lemma process_step_ends (i : nat) (data : list (FieldType * Value))
    (o : OverallApplicationResult) :
  (1 <= i <= n)%nat -> at_step (i - 1) (i - 1) (i - 1) o -> status_ok (i - 1) (final_status o) ->
  ends (step_post i)
       (process_step page site enable_anti_detection navigation_timeout_ms n i data o).
Proof.
  intros Hi Hat Hst. unfold process_step.
  assert (forall s, status_ok (i - 1) s -> status_ok i s) as Hmono.
  { intros s [H|(j & Hj & H)]; [now left | right; exists j; split; [lia | exact H]]. }
  assert (forall d s o', at_step i d s o' -> (s <= d <= i)%nat -> (i <= S s)%nat ->
                         forall e, step_post i (Ok (Crash o' e))) as Hcrash.
  { intros d s o' H Hd Hs e. exists d, s. auto. }
  apply ends_or_crash_any.
  { apply (Hcrash (i - 1)%nat (i - 1)%nat); [|lia|lia].
    unfold at_step in *. cbn. intuition. }
  intros a.
  apply (ends_on_failure _ (fun o' => at_step i (i - 1) (i - 1) o'
                                      /\ status_ok i (final_status o'))).
  2: { intros _. split; [unfold at_step in *; cbn; intuition | apply Hmono, Hst]. }
  2: { intros Hfailed. apply andb_true_iff in Hfailed as [_ Hlt]. apply Nat.ltb_lt in Hlt.
       assert (step_failure n i ("fail_S" ++ pretty i ++ "_no_fields_actions")) as Hf
         by (left; split; [reflexivity | exact Hlt]).
       split; [split|].
       - unfold at_step in *. cbn. intuition.
       - right. exists i. split; [lia | exact Hf].
       - intros Hb. left. exists (i - 1)%nat, (i - 1)%nat.
         split; [unfold at_step in *; cbn; intuition|]. split; [lia|]. split; [lia|].
         split; [exact Hb | exact Hf]. }
  intros o1 [Hat1 Hst1].
  apply ends_or_crash.
  eapply ends_weaken; [apply fill_current_page_fields_step|]. cbv beta.
  intros [filled|e] Hnum; [|apply (Hcrash (i - 1)%nat (i - 1)%nat); [exact Hat1 | lia | lia]].
  assert (at_step i i (i - 1) (with_step_result o1 i filled.1)) as Hat2.
  { unfold at_step in *. cbn. destruct Hat1 as (Ht & Ha & Hd & Hs & Hsum & Hnums).
    split; [exact Ht|]. split; [exact Ha|]. split; [rewrite length_app; simpl; lia|].
    split; [exact Hs|]. split.
    - rewrite sum_list_with_app. simpl. lia.
    - intros j r Hj. apply lookup_app_Some in Hj as [Hj|[Hlen Hj]]; [now apply Hnums|].
      apply list_lookup_singleton_Some in Hj as [Hj <-]. rewrite Hnum. f_equal. lia. }
  apply (ends_on_failure _ (fun o' => at_step i i (i - 1) o' /\ status_ok i (final_status o'))).
  2: { intros _. split; [exact Hat2 | exact Hst1]. }
  2: { intros _.
       assert (step_failure n i ("fail_S" ++ pretty i ++ "_fill")) as Hf by (right; now left).
       split; [split|].
       - unfold at_step in *. cbn in *. intuition.
       - right. exists i. split; [lia | exact Hf].
       - intros Hb. left. exists i, (i - 1)%nat.
         split; [unfold at_step in *; cbn in *; intuition|]. split; [lia|]. split; [lia|].
         split; [exact Hb | exact Hf]. }
  intros o3 [Hat3 Hst3].
  assert (at_step i i i (with_one_more_filled o3)) as Hat4.
  { unfold at_step in *. cbn. destruct Hat3 as (Ht & Ha & Hd & Hs & Hsum & Hnums).
    repeat (split; [first [assumption | lia]|]). exact Hnums. }
  apply ends_or_crash_any; [apply (Hcrash i i); [exact Hat4 | lia | lia]|].
  intros attempt.
  set (effective_last := (i =? n)%nat && negb (site_seems_to_have_next_step a)).
  apply (ends_on_failure _ (fun o' => at_step i i i o' /\ status_ok i (final_status o'))).
  2: { intros _. split; [exact Hat4 | exact Hst3]. }
  2: { intros _.
       assert (step_failure n i
                 ("fail_S" ++ pretty i ++ "_" ++ (if effective_last then "submit" else "nav")))
         as Hf.
       { destruct effective_last eqn:Hlast.
         - right. right. left. split; [reflexivity|].
           apply andb_true_iff in Hlast as [Hlast _]. now apply Nat.eqb_eq in Hlast.
         - right. right. right. reflexivity. }
       split; [split|].
       - unfold at_step in *. cbn in *. intuition.
       - right. exists i. split; [lia | exact Hf].
       - intros Hb. left. exists i, i.
         split; [unfold at_step in *; cbn in *; intuition|]. split; [lia|]. split; [lia|].
         split; [exact Hb | exact Hf]. }
  intros o5 [Hat5 Hst5].
  destruct effective_last eqn:Hlast.
  - assert (at_step i i i (with_final_status o5 "submission_attempted")) as Hat6
      by (unfold at_step in *; cbn in *; intuition).
    apply ends_or_crash_any; [apply (Hcrash i i); [exact Hat6 | lia | lia]|].
    intros _. apply ends_ret. right. split; [exact Hat6|]. split; [reflexivity|].
    apply andb_true_iff in Hlast as [Hlast _]. now apply Nat.eqb_eq in Hlast.
  - apply ends_or_crash_any; [apply (Hcrash i i); [exact Hat5 | lia | lia]|]. intros _.
    apply ends_or_crash_any; [apply (Hcrash i i); [exact Hat5 | lia | lia]|]. intros _.
    apply ends_or_crash_any; [apply (Hcrash i i); [exact Hat5 | lia | lia]|]. intros no_captcha.
    assert (at_step i i i (if no_captcha then o5
                           else with_more_errors o5 ["CAPTCHA on step " ++ pretty (S i)])
            /\ status_ok i (final_status
                              (if no_captcha then o5
                               else with_more_errors o5 ["CAPTCHA on step " ++ pretty (S i)])))
      as [Hat6 Hst6].
    { destruct no_captcha; [now split|]. split; [|exact Hst5].
      unfold at_step in *. cbn in *. intuition. }
    apply ends_or_crash_any; [apply (Hcrash i i); [exact Hat6 | lia | lia]|]. intros _.
    apply ends_ret. split; [exact Hat6 | exact Hst6].
Qed.

Let loop_post (r : outcome (OverallApplicationResult * option exn)) : Prop :=
  match r with
  | Ok (o, None) =>
      (at_step n n n o /\ status_ok n (final_status o))
      \/ exists i, (1 <= i <= n)%nat /\ step_post i (Ok (Break o))
  | Ok (o, Some e) => exists i, (1 <= i <= n)%nat /\ step_post i (Ok (Crash o e))
  | Raise _ => False
  end.

Lemma process_steps_ends (form_data_steps : list (list (FieldType * Value))) (i : nat)
    (o : OverallApplicationResult) :
  (i + length form_data_steps = S n)%nat -> (1 <= i)%nat ->
  at_step (i - 1) (i - 1) (i - 1) o -> status_ok (i - 1) (final_status o) ->
  ends loop_post
       (process_steps page site enable_anti_detection navigation_timeout_ms n i
          form_data_steps o).
Proof.
  revert i o. induction form_data_steps as [|data rest IH]; intros i o Hlen Hi Hat Hst;
    cbn [process_steps].
  - apply ends_ret. left. simpl in Hlen. replace n with (i - 1)%nat by lia. now split.
  - simpl in Hlen. apply ends_bind.
    eapply ends_weaken; [apply (process_step_ends i data o); [lia | exact Hat | exact Hst]|].
    cbv beta. intros [[o'|o'|o' e]|e] H; [| | |contradiction].
    + destruct H as [Hat' Hst']. apply IH; [lia | lia | |];
        replace (S i - 1)%nat with i by lia; assumption.
    + apply ends_ret. right. exists i. split; [lia | exact H].
    + apply ends_ret. exists i. split; [lia | exact H].
Qed.

Lemma step_failure_not_initiated (i : nat) (status : string) :
  step_failure n i status -> String.eqb status "initiated" = false.
Proof. intros [[-> _]|[-> |[[-> _]| ->]]]; reflexivity. Qed.

Lemma at_step_counts (i d s : nat) (o : OverallApplicationResult) :
  at_step i d s o -> (s <= d <= i)%nat -> (i <= S s)%nat -> (i <= n)%nat -> step_counts n o.
Proof.
  intros (Ht & Ha & Hd & Hs & Hsum & Hnums) Hsd His Hin. unfold step_counts.
  rewrite Ht, Ha, Hd, Hs. repeat (split; [first [reflexivity | lia | assumption]|]). exact Hnums.
Qed.

(** The screenshot of the [finally] clause. *)
Lemma final_screenshot_ends (status : string) :
  ends (fun r => match r with
                 | Ok _ => True
                 | Raise _ => ~ is_closed_returns site
                 end)
       (if Str.contains "fail" status || Str.contains "error" status then
          closed <~ read (is_closed site) ;;
          if negb closed then
            catch (read (screenshot site "debug_UFF_final_state_.png")) (fun _ => ret tt)
          else ret tt
        else ret tt : M W unit).
Proof.
  destruct (_ || _); [|apply ends_ret; exact I].
  apply ends_bind. apply ends_read. intros w [closed|e] w' Hop.
  - destruct (negb closed); [|apply ends_ret; exact I].
    apply ends_total; [|auto]. apply total_catch. intros e. apply total_ret.
  - intros Hret. destruct (Hret w) as (closed & w1 & Hw). congruence.
Qed.

Lemma fill_entire_application_steps_ends
    (form_data_steps : list (list (FieldType * Value))) (errors_so_far : list string) :
  n = length form_data_steps ->
  ends (fun r => match r with
                 | Ok result =>
                     application_accounts n result
                     /\ (final_status result <> "error_playwright_critical" ->
                         final_status result <> "error_general_critical" ->
                         may_break
                         \/ steps_successfully_filled result = n
                            /\ steps_attempted_on_site result = n
                            /\ length (step_details result) = n)
                 | Raise _ => ~ is_closed_returns site
                 end)
       (fill_entire_application_steps page site enable_anti_detection navigation_timeout_ms
          form_data_steps errors_so_far).
Proof.
  intros Hn. unfold fill_entire_application_steps. rewrite <- Hn.
  apply ends_bind.
  eapply ends_weaken;
    [apply (process_steps_ends form_data_steps 1 (results_before_steps n errors_so_far))|].
  - lia.
  - lia.
  - unfold at_step. cbn. repeat (split; [reflexivity|]). intros j r Hj. discriminate.
  - left. reflexivity.
  - cbv beta. intros [[o [e| ] ]|e] Hloop; [| |contradiction].
    + (* an exception left the loop *)
      destruct Hloop as (i & Hi & d & s & Hat & Hsd & His).
      apply ends_bind. eapply ends_weaken; [apply final_screenshot_ends|]. cbv beta.
      intros [u|e'] H; [|exact H]. apply ends_ret.
      assert (forall o', total_steps_provided_in_data o' = total_steps_provided_in_data o ->
                steps_attempted_on_site o' = steps_attempted_on_site o ->
                steps_successfully_filled o' = steps_successfully_filled o ->
                total_fields_filled_across_steps o' = total_fields_filled_across_steps o ->
                step_details o' = step_details o ->
                step_counts n o') as Hsame.
      { intros o' H1 H2 H3 H4 H5.
        pose proof (at_step_counts i d s o Hat Hsd His (proj2 Hi)) as Hc.
        unfold step_counts in *. rewrite H1, H2, H3, H4, H5. exact Hc. }
      unfold settle_status. destruct (is_PlaywrightError e).
      * split; [split; [now apply Hsame|]|].
        -- right. right. left. reflexivity.
        -- cbn. intros Hne. now contradiction Hne.
      * split; [split; [now apply Hsame|]|].
        -- right. right. right. left. reflexivity.
        -- cbn. intros _ Hne. now contradiction Hne.
    + apply ends_bind. eapply ends_weaken; [apply final_screenshot_ends|]. cbv beta.
      intros [u|e'] H; [|exact H]. apply ends_ret. clear H u.
      unfold settle_status.
      destruct Hloop as [[Hat Hst]|(i & Hi & [(d & s & Hat & Hsd & His & Hb & Hf)
                                              |(Hat & Hstatus & Hin)])].
      * pose proof (at_step_counts n n n o Hat ltac:(lia) ltac:(lia) ltac:(lia)) as Hc.
        destruct Hat as (Ht & Ha & Hd & Hs & Hsum & Hnums).
        destruct Hst as [Hinit|(j & Hj & Hf)].
        -- rewrite Hinit. cbn [String.eqb Ascii.eqb Bool.eqb]. rewrite Hs, Ht, Nat.eqb_refl.
           split; [split|].
           ++ unfold step_counts in *. cbn. exact Hc.
           ++ left. cbn. split; [reflexivity | exact Hs].
           ++ intros _ _. right. cbn. now rewrite Hs, Ha, Hd.
        -- rewrite (step_failure_not_initiated j _ Hf).
           split; [split; [exact Hc|]|].
           ++ right. right. right. right. exists j. split; [lia | exact Hf].
           ++ intros _ _. right. now rewrite Hs, Ha, Hd.
      * rewrite (step_failure_not_initiated i _ Hf).
        split; [split; [exact (at_step_counts i d s o Hat Hsd His (proj2 Hi))|]|].
        -- right. right. right. right. exists i. destruct Hat as (_ & -> & _).
           split; [lia | exact Hf].
        -- intros _ _. left. exact Hb.
      * rewrite Hstatus. cbn [String.eqb Ascii.eqb Bool.eqb].
        split; [split; [exact (at_step_counts i i i o Hat ltac:(lia) ltac:(lia) (proj2 Hi))|]|].
        -- right. left. destruct Hat as (_ & _ & _ & -> & _).
           split; [exact Hstatus|]. split; [exact Hin | lia].
        -- intros _ _. right. destruct Hat as (_ & -> & -> & -> & _). now rewrite Hin.
Qed.

End Loop.

End Steps.

End ApplicationFacts.

(** X26.  [close_popups_comprehensive] only clicks, and only elements that
    one of its popup selectors locates; in a round it clicks at most one
    element for each selector, so at most 48 in all.  When the waits
    return it returns, and the clicks are at most 18: one in each of the
    first two rounds, and up to one for each selector in the third. *)
Theorem close_popups_clicks {W : Type} (page : Flow.Playwright W) (w : W) :
  let run := Flow.close_popups_comprehensive page w in
  Forall Flow.popup_click run.2
  /\ (length run.2 <= 48)%nat
  /\ (Flow.waits_return page -> run.1.1 = Flow.Ok tt /\ (length run.2 <= 18)%nat).
Proof.
  pose proof (ApplicationFacts.close_rounds_post page
                Flow.max_popups_to_close_in_one_go 0 w) as H.
  unfold Flow.post in H. destruct H as (Hall & Hlen & Hret).
  cbv zeta. unfold Flow.close_popups_comprehensive, Flow.bind.
  destruct (Flow.close_rounds page Flow.max_popups_to_close_in_one_go 0 w)
    as [[[closed_count|e] w1] done] eqn:Hrun; simpl in *.
  - rewrite app_nil_r. split; [exact Hall|]. split; [exact Hlen|].
    intros Hw. split; [reflexivity|]. destruct (Hret Hw) as [_ Hbound].
    apply Hbound. reflexivity.
  - split; [exact Hall|]. split; [exact Hlen|]. intros Hw. destruct (Hret Hw).
Qed.

(** X27.  The limit of three popups is not kept: on a page where every
    selector locates a visible, enabled element that takes a click, and
    the waits return, [close_popups_comprehensive] makes 18 clicks, since
    the third round goes through all sixteen selectors. *)
Theorem close_popups_exceeds_limit {W : Type} (page : Flow.Playwright W)
    (full : Flow.full_of_popups page) (w : W) :
  let run := Flow.close_popups_comprehensive page w in
  run.1.1 = Flow.Ok tt
  /\ length run.2 = 18%nat
  /\ (Flow.max_popups_to_close_in_one_go < length run.2)%nat.
Proof.
  pose proof (ApplicationFacts.close_popups_full page full w) as [Hr Hlen].
  cbv zeta. rewrite Hr, Hlen. split; [reflexivity|]. split; [reflexivity|].
  unfold Flow.max_popups_to_close_in_one_go. simpl. lia.
Qed.

Lemma close_popups_exceeds_limit_witness :
  Flow.full_of_popups (FlowFixtures.plain_page true)
  /\ length (Flow.close_popups_comprehensive (FlowFixtures.plain_page true) tt).2 = 18%nat.
Proof.
  assert (Flow.full_of_popups (FlowFixtures.plain_page true)) as full.
  { split; [intros selector w; now exists 0%nat, w|].
    split; [intros l w; now exists w|]. split; [intros l w; now exists w|].
    split; [intros l w; now exists w|]. intros w. now exists w. }
  split; [exact full|].
  exact (proj1 (proj2 (close_popups_exceeds_limit (FlowFixtures.plain_page true) full tt))).
Defined.

(** X28.  [wait_and_handle_captcha] does nothing to the page.  It does not
    answer [False] when no element of a CAPTCHA selector is reported
    visible, and it returns when the waits and [page.is_closed()]
    return. *)
Theorem wait_and_handle_captcha_only_looks {W : Type} (page : Flow.Playwright W)
    (site : Flow.Site W) (w : W) :
  let run := Flow.wait_and_handle_captcha page site w in
  run.2 = []
  /\ (Flow.no_visible_captcha page -> run.1.1 <> Flow.Ok false)
  /\ (Flow.waits_return page -> Flow.is_closed_returns site ->
      exists no_captcha, run.1.1 = Flow.Ok no_captcha).
Proof.
  cbv zeta. split; [|split].
  - apply FlowFacts.silent_nil, ApplicationFacts.wait_and_handle_captcha_silent.
  - intros Hno. exact (ApplicationFacts.wait_and_handle_captcha_unseen page site w Hno).
  - intros Hwait Hclosed.
    exact (ApplicationFacts.wait_and_handle_captcha_total page site Hwait Hclosed w).
Qed.

(** X29.  The loop over the data steps of [fill_entire_application] and
    the status that follows it keep the accounts of the result: the steps
    counted as filled are among the steps with details, these among the
    attempted steps, which are at most the data steps, and at most one
    attempted step is not counted as filled; the total of filled fields is
    the sum over the details, which are those of steps 1, 2, ... in order.
    The final status is [completed_all_data_steps] or
    [submission_attempted], both with every data step counted as filled,
    or one of the two critical errors, or the failure status of an
    attempted step; it is never [initiated], and never
    [ended_after_S..._incomplete].  The function returns when
    [page.is_closed()] does. *)
Theorem application_steps_accounts {W : Type} (page : Flow.Playwright W)
    (site : Flow.Site W) (enable_anti_detection : bool) (navigation_timeout_ms : Z)
    (form_data_steps : list (list (FieldType * Flow.Value))) (errors_so_far : list string)
    (w : W) :
  let run := Flow.fill_entire_application_steps page site enable_anti_detection
               navigation_timeout_ms form_data_steps errors_so_far w in
  (forall result,
     run.1.1 = Flow.Ok result ->
     Flow.application_accounts (length form_data_steps) result
     /\ Flow.final_status result <> "initiated"
     /\ forall k : nat, Flow.final_status result <> "ended_after_S" ++ pretty k ++ "_incomplete")
  /\ (Flow.is_closed_returns site -> exists result, run.1.1 = Flow.Ok result).
Proof.
  pose proof (ApplicationFacts.fill_entire_application_steps_ends page site
                enable_anti_detection navigation_timeout_ms (length form_data_steps) True
                (ApplicationFacts.screenshot_may_break site)
                form_data_steps errors_so_far eq_refl w) as H.
  cbv zeta.
  destruct (Flow.fill_entire_application_steps page site enable_anti_detection
              navigation_timeout_ms form_data_steps errors_so_far w).1.1 as [result|e].
  - split; [|intros _; now exists result].
    intros result' [= <-]. destruct H as [Hacc _]. split; [exact Hacc|].
    destruct Hacc as [_ [[Hs _]|[[Hs _]|[Hs|[Hs|(i & _ & Hf)]]]]].
    + rewrite Hs. split; [discriminate | intros k; discriminate].
    + rewrite Hs. split; [discriminate | intros k; discriminate].
    + rewrite Hs. split; [discriminate | intros k; discriminate].
    + rewrite Hs. split; [discriminate | intros k; discriminate].
    + destruct Hf as [[Hs _]|[Hs|[[Hs _]|Hs]]]; rewrite Hs;
        (split; [discriminate | intros k; discriminate]).
  - split; [intros result [=]|]. intros Hclosed. contradiction.
Qed.

(** X30.  Whether a failed step stops [fill_entire_application] depends on
    the debug screenshot: the [break] belongs to the handler of the
    screenshot.  When the screenshots return, no failure stops the loop,
    and unless a critical error ends the run every data step is attempted
    and counted as successfully filled, whatever the fills and the
    navigation gave. *)
Theorem failed_steps_count_as_filled {W : Type} (page : Flow.Playwright W)
    (site : Flow.Site W) (shots : Flow.screenshots_return site)
    (enable_anti_detection : bool) (navigation_timeout_ms : Z)
    (form_data_steps : list (list (FieldType * Flow.Value))) (errors_so_far : list string)
    (w : W) :
  let run := Flow.fill_entire_application_steps page site enable_anti_detection
               navigation_timeout_ms form_data_steps errors_so_far w in
  forall result,
    run.1.1 = Flow.Ok result ->
    Flow.final_status result <> "error_playwright_critical" ->
    Flow.final_status result <> "error_general_critical" ->
    Flow.steps_successfully_filled result = length form_data_steps
    /\ Flow.steps_attempted_on_site result = length form_data_steps
    /\ length (Flow.step_details result) = length form_data_steps.
Proof.
  pose proof (ApplicationFacts.fill_entire_application_steps_ends page site
                enable_anti_detection navigation_timeout_ms (length form_data_steps) False
                (ApplicationFacts.screenshot_never_breaks site shots)
                form_data_steps errors_so_far eq_refl w) as H.
  cbv zeta. intros result Hrun Hne1 Hne2. rewrite Hrun in H.
  destruct H as [_ H]. destruct (H Hne1 Hne2) as [[]|H']. exact H'.
Qed.

Lemma failed_steps_count_as_filled_witness :
  let site := FlowFixtures.sample_site FlowFixtures.submit_only_page true in
  let run := Flow.fill_entire_application_steps FlowFixtures.frozen_page site false 30000
               [FlowFixtures.email_step] [] tt in
  Flow.screenshots_return site
  /\ exists result,
       run.1.1 = Flow.Ok result
       /\ Flow.final_status result = "submission_attempted"
       /\ map Flow.success (Flow.step_details result) = [Flow.SuccessFalse]
       /\ In "Failed to submit final form." (Flow.overall_errors result)
       /\ Flow.steps_successfully_filled result = 1%nat.
Proof.
  cbv zeta.
  assert (Flow.screenshots_return
            (FlowFixtures.sample_site FlowFixtures.submit_only_page true)) as shots
    by (intros path w; now exists w).
  split; [exact shots|].
  eexists. split; [vm_compute; reflexivity|].
  split; [reflexivity|]. split; [reflexivity|]. split; [now left|].
  refine (proj1 (failed_steps_count_as_filled FlowFixtures.frozen_page _ shots false 30000
                   [FlowFixtures.email_step] [] tt _ _ _ _)).
  - vm_compute. reflexivity.
  - discriminate.
  - discriminate.
Defined.
